(* ===== verification/_CoqProject ===== *)
-Q . S2P
Prelude.v
Timespec.v
Text.v
Queue.v
PQueue.v
Message.v
Memory.v
Request.v
Connection.v
Poll.v
Ccmd.v
Timeout.v
Invariant.v
Storage.v
Forward.v
Node.v
Execute.v
Events.v
Worker.v
Options.v
Distrib.v
Compute.v
Client.v
Pacing.v
Affinity.v
Address.v
Startup.v
Print.v
CommandLine.v
Process.v
Wiring.v
Proxy.v
