(* ===== verification/Prelude.v ===== *)
(** * DistWalk: a verification development

    DistWalk measures distributed systems: a client (dw_client) sends messages
    that are small programs, lists of commands, and the nodes (dw_node) that
    receive them execute the commands: compute for a while, store or load data,
    forward the rest of the program to one or more further nodes and wait for
    their replies, reply. This development models the node, the libraries it
    shares with the client, the client's program, sessions and pace, the
    distributions they draw from, the start-up of a node and the proxy that
    delays connections, and proves what makes them correct, or exhibits where
    they are not. All sources are in src/src.

    ** 1. The parts and how they interact

    A process is a set of worker threads. A worker of connections owns a poll
    object (Poll) and a timer with a queue of timeouts (Timeout, over PQueue and
    Timespec); it reads bytes into the receive buffers of its connections
    (Connection), takes the complete messages out of them (Message), allocates a
    request for each (Request) and executes its commands (Node). A forward opens
    or finds a connection to the next hop and writes the rest of the message
    into its send buffer (Forward); STORE and LOAD commands go through a pipe to
    a worker of storage (Storage), which acknowledges them through another; a
    reply to a forward comes back as a message whose first command is EOM. The
    events that drive all this are dispatched by the loop of the worker (Events,
    Worker). Before that, main() turns the options of the node into devices,
    listening sockets with entries in the table of connections, and cores for
    its threads (Startup, Affinity, Address), and opens the devices and the pipes
    between the workers, each of which then fills its poll object (Wiring). In the
    mode AM_PARENT one worker accepts for all and hands the connections over in
    turn ([Events.assign_conn]). The client reads the text of its options
    (CommandLine) and turns those that describe the program (Options) into a
    chain of commands (Ccmd, over Queue) whose sizes and times are distributions
    (Distrib), writes that chain into each message it sends, at the times its
    rate asks for (Pacing), and in each session matches the replies with the
    packets (Client). Execute puts the two ends together: what the node does
    with a message is what the client's chain says.

    ** 2. Files

    - Prelude: this file; outcomes of calls, C integers, arrays and byte blocks.
    - Timespec: timespec.h. Queue: queue.h, queue.c, queueing_common.h.
      PQueue: priority_queue.h, priority_queue.c.
    - Message: message.h, message.c; the wire format byte by byte.
    - Memory: the heap of the buffers; no source of its own.
    - Request: request.h, request.c. Connection: connection.h, connection.c.
    - Poll: dw_poll.h, dw_poll.c. Ccmd: ccmd.h, ccmd.c.
    - Timeout, Storage, Forward, Node, Events, Worker: dw_node.c, in the order
      of the file: insert_timeout to remove_timeout; safe_write, safe_read,
      store, load, storage_worker; single_start_forward, start_forward,
      find_forward_reply_id; reply, process_single_message, process_messages,
      obtain_messages, handle_forward_reply; establish_conn, handle_timeout,
      exec_request; conn_worker.
    - Execute: no source of its own; the meaning of a list of commands, that
      process_single_message and reply implement it, and the composition of
      ccmd_dump with obtain_messages.
    - Options, Client, Pacing: dw_client.c; argp_client_parse_opt; idx,
      process_reply, thread_sender (a packet), thread_receiver (a session);
      thread_sender (its loop and the wait between packets), --rate, --period.
    - CommandLine: dw_client.c; the text and the settings of
      argp_client_parse_opt, the end of the options, script_parse.
    - Compute: dw_node.c; compute_for, its calibration and the file of it.
    - Print: pd_str of distrib.c, ccmd_log of ccmd.c.
    - Process: dw_client.c (try_connect, the formats of the results, main), and
      of main() in dw_node.c the TLS context, the signals and the threads.
    - Distrib: distrib.h, distrib.c. Text: the string functions of the C library
      used by it and the following.
    - Startup, Affinity, Address: dw_node.c (argp_node_parse_opt,
      init_listen_sock, main), thread_affinity.c, address_utils.c.
    - Wiring: dw_node.c (main from the opening of the devices on, the set-up and
      the loop of storage_worker, the set-up of conn_worker).
    - Proxy: dw_proxy.c.
    - Invariant: what every operation on the shared tables keeps.

    The definitions keep the names of the functions; a part of a function that
    is a definition of its own (a loop, a branch) says so in its comment.

    ** 3. How the C code is modelled

    - A call is a function into [outcome]: [Ret] of its result and of the state
      it leaves, or [Stop] with a reason: undefined behaviour, a failed check()
      (the process exits), a failed assert() (it aborts; the Makefile does not
      define NDEBUG), or [OutOfFuel].
    - Integers are [Z], reduced where the type of the C expression reduces
      ([u8], [u16], [u32], [u64], [s32]); signed overflow is [Stop UB] ([int_],
      [long_]). Byte layouts are those of x86-64.
    - Pointers into the tables [reqs] and [conns] and into the node arrays of the
      queues are indices, NULL is [None]; pointers into the buffers are a block
      and an offset ([Memory.ptr]), with the buffers shared through one heap, so
      that a request that points into the buffer of its connection sees it
      compacted. Within a function that walks one message, positions are
      offsets in its block.
    - What the outside world answers (system calls, OpenSSL, the storage
      workers' reads) is an argument: a value per call, a list for a loop that
      calls repeatedly, or, for the functions of a worker, the oracle
      [Forward.kernel], a function of the number of the turn for each call. No
      theorem assumes anything about these answers but what it states. What
      leaves the process is a list of calls ([Forward.effects], [Storage.io]).
    - Uninitialised memory is an argument (the arrays of the queues), or [None]
      (a text that was never written).
    - A double is a binary64 number of the Standard Library's SpecFloat, with
      its rounding; log and exp are parameters, %lf of scanf too ([Pd.Scan]),
      and %g of printf is defined ([Print.g]). Where a sample becomes an unsigned
      integer a negative one wraps, as x86-64 compilers convert it, although C
      leaves it undefined ([Ccmd.to_uint]): the default offset -1 of STORE and
      LOAD relies on it.
    - Threads that share state are interleaved only where a theorem is about
      that: in Proxy, as a step relation ([Proxy.step]), and in Process.

    ** 4. What is proved

    - Worker: from the set-up on, in every reachable state, ids designate at most
      one live request, every connection handed over to another worker is an
      entry of the table, and every event delivered decodes to a valid tag and,
      for connections, to an entry of the table. The proof is a post-condition
      [ensures] per operation, kept in the hint database [wf] and composed by
      the tactic [ens] (Invariant for the tables, Worker for the node).
    - Node, Forward: a forward that waits for n replies refines the set of the
      targets that answered; the message for the next hop is the branch of the
      program; the lookup of an endpoint gives its index on any contents.
    - Execute: a message is executed as the list of its commands says, each once
      and in order, and left where that list says; a chain dumped by the client
      and received by the node is carried out and answered with the sampled size
      under the id of the message. Both are proved from the lemmas of the
      components, those of the client for the first half and those of the
      connection, the request and the message for the second.
    - Events, Node: two ways a peer stops the whole node (a reply that cannot be
      sent, a reply that comes late).
    - Storage, Timeout: every LOAD, and every STORE that waits for the sync, is
      acknowledged exactly once, at once or at the next tick; what store writes; the queue of timeouts and the timer stay in step.
    - Message: the bounded walks terminate, stay in the message and compute
      functions of the list of visible commands ([Message.tokens]) on any bytes,
      and these follow the grammar of contexts; copying a branch; round trips.
    - Connection, Request: framing does not depend on how the stream was cut;
      compaction keeps every other request; sending and resuming; the lists of
      requests stay linked; allocation.
    - Poll, Ccmd, PQueue, Queue, Timespec: the back ends agree on the interests
      and deliver every ready descriptor, under epoll every event, once; a chain
      of commands without PSKIP reads back from the message it was written to; the heap refines a map from handles to
      keys; the ring refines a list; times are normalised.
    - CommandLine, Options: a command line without branches, from its text,
      keeps its settings and builds a program of the grammar the walks of
      Message follow, with every forward closed and its acknowledgments within
      its targets; the command lines that crash; what a script is read as.
    - Client: the replies of a receive are counted once each, and when the
      session ends.
    - Distrib: drawing from a sequence ends and gives its terms; from a file it
      ends exactly if some sample is within the bounds; a number
      drawn respects the bounds; what the parser accepts is safe to draw from, or
      (none, and a gamma whose shape is no integer) refused; the syntax of
      the manual is refused. Pacing: the pace does not drift.
    - Startup, Affinity, Address: every worker listens where its accept mode
      says and each socket has its entry; the devices are those the options
      describe; threads get the cores round robin; lists of cores and targets
      read back from their spellings.
    - Compute: a COMPUTE command ends with the work asked for; the calibration
      keeps the least time of a round; when the node crashes after it.
    - Print: which specifications fit into the array they are printed to, and one
      that does not; a chain is printed in order. Process: the CSV file of the
      results reads back, and two threads may print its header twice; the TLS
      calls are those for the files given; the buffers and threads of a process.
    - Wiring: every pair of workers has two pipes of its own, every worker waits
      for exactly its descriptors and starts in a state where what is proved in
      Worker holds; the end of main() closes each file and pipe once.
    - Proxy: a direction is relayed unchanged; connections own their descriptors
      until one was closed by both of its threads, and a run where a second
      connection loses its descriptors.

    Where the code does not do what it means to, a theorem states what it does
    (for instance [Connection.prepare_send_overwrites], [Queue.queue_tail_pop],
    [Proxy.flow_descriptors]).

    ** 5. Bounds and fuel

    Every command takes at least 4 bytes, so the walks over a message take at
    most as many steps as it has bytes ([Message.walk_fuel], proved enough by
    the refinement theorems); a loop that looks at a command before it checks
    that it lies within the message gets one step more
    ([Message.to_reply_none], [Forward.find_forward_past]). The lists of requests and tables have at most
    MAX_REQS and MAX_CONNS entries; the loops of the heap of the priority queue
    run on its size; the normalisation of times on the value of its counter.
    obtain_messages and process_messages call each other: their fuel counts
    calls and messages taken, and theorems about them quantify over it. A loop
    over the answers of system calls ends with the list of the answers. The fuel
    of pd_sample counts tries: [Distrib.sequence_terminates] and
    [Distrib.file_sample_terminates] say how many are enough, and when none are.
    A loop that watches a clock takes its readings from a list, and
    [Compute.compute_for_ends] says which reading ends it. The search of %g for an
    exponent takes as many steps as the bits of the number ([Print.exp10_ok]).
    The search for a core takes at most twice the number of cores; the loop over
    the devices takes a step per option; a turn of the loops over the text of
    --store-data and --load-data leaves less of the text
    ([CommandLine.data_fuel]), one over the tokens of a script takes a token.
    [CommandLine.expand_scripts] is bounded by the depth of scripts that name
    scripts: one that names itself runs out of any, and the code of its stack.

    ** 6. Not modelled

    The DPDK_ENABLED branches and dw_dpdk.c, which only call that library; the
    debugging output (dw_log, msg_log, and cmd_log except for its exits), the
    configuration that the client prints when it starts, the help texts and the
    names of the threads; freeing memory at the end of a process, except where an
    order is proved. A COMPUTE command is recorded with the time asked for where
    messages are executed (Node), and what compute_for does with that time is a
    component of its own (Compute). Workers are modelled one at a time: another
    thread that changes the shared tables in the middle of a call is not (what
    the accepting worker adds to the epoll instance of another is among the
    answers of epoll, [Worker.epoll_answers]; the threads of the client share the
    header of the output file, [Process.csv_step]); the sender and the receiver of
    a session of the client are separate definitions, not interleaved, and each
    sender draws from distributions of its own where the code shares them. *)

From stdpp Require Export base tactics option list list_numbers numbers gmap.
From Stdlib Require Export ZArith Lia.

Local Open Scope Z_scope.

(** ** 1. Outcomes: what a call of a C function can do *)

(** Why an execution does not return: undefined behaviour of C (an access
    outside an object, a null dereference, a division by zero), a failed
    [check()]/[sys_check()] of dw_debug.h (the process exits), a failed
    [assert()] (the process aborts), or the recursion bound of the model. *)
Inductive stop := UB | CheckFailed | AssertFailed | OutOfFuel.

#[export] Instance stop_eq_dec : EqDecision stop.
Proof. solve_decision. Defined.

Inductive outcome (A : Type) : Type :=
  | Ret (a : A)
  | Stop (s : stop).
Arguments Ret {A} a.
Arguments Stop {A} s.

#[export] Instance outcome_eq_dec {A} `{EqDecision A} : EqDecision (outcome A).
Proof. solve_decision. Defined.

#[export] Instance outcome_ret : MRet outcome := fun A a => Ret a.
#[export] Instance outcome_bind : MBind outcome := fun A B f o =>
  match o with Ret a => f a | Stop s => Stop s end.
#[export] Instance outcome_fmap : FMap outcome := fun A B f o =>
  match o with Ret a => Ret (f a) | Stop s => Stop s end.

(** [check(cond)] of dw_debug.h and [assert(cond)] of the C library. *)
Definition check (b : bool) : outcome unit := if b then Ret tt else Stop CheckFailed.
Definition assert_ (b : bool) : outcome unit := if b then Ret tt else Stop AssertFailed.

(** A null pointer is dereferenced: undefined behaviour. *)
Definition deref {A} (p : option A) : outcome A :=
  match p with Some a => Ret a | None => Stop UB end.

(** [returns o P]: the call returns, and what it returns satisfies [P]. *)
Definition returns {A} (o : outcome A) (P : A → Prop) : Prop :=
  match o with Ret a => P a | Stop _ => False end.

(** [ensures o P]: if the call returns, what it returns satisfies [P]. *)
Definition ensures {A} (o : outcome A) (P : A → Prop) : Prop :=
  match o with Ret a => P a | Stop _ => True end.

Section Outcome.
Context {A B : Type}.
Implicit Types (o : outcome A) (P : A → Prop).

Lemma returns_inv o P : returns o P ↔ ∃ a, o = Ret a ∧ P a.
Proof. destruct o; simpl; naive_solver. Qed.

Lemma returns_bind o (f : A → outcome B) (Q : B → Prop) :
  returns o (fun a => returns (f a) Q) → returns (o ≫= f) Q.
Proof. by destruct o. Qed.

Lemma returns_mono o P P' : returns o P → (∀ a, P a → P' a) → returns o P'.
Proof. destruct o; simpl; auto. Qed.

Lemma returns_ensures o P : returns o P → ensures o P.
Proof. by destruct o. Qed.

Lemma ensures_bind o (f : A → outcome B) (Q : B → Prop) :
  ensures o (fun a => ensures (f a) Q) → ensures (o ≫= f) Q.
Proof. by destruct o. Qed.

Lemma ensures_mono o P P' : ensures o P → (∀ a, P a → P' a) → ensures o P'.
Proof. destruct o; simpl; auto. Qed.

Lemma ensures_any o P : (∀ a, P a) → ensures o P.
Proof. destruct o; simpl; auto. Qed.

Lemma ensures_inv o P a : ensures o P → o = Ret a → P a.
Proof. by intros H ->. Qed.

Lemma bind_Ret_inv o (f : A → outcome B) b :
  o ≫= f = Ret b → ∃ a, o = Ret a ∧ f a = Ret b.
Proof. destruct o; simpl; naive_solver. Qed.
End Outcome.

(** One step of a monadic computation in the goal or in a hypothesis. *)
Ltac inv_ret :=
  repeat match goal with
  | H : _ ≫= _ = Ret _ |- _ =>
      let a := fresh "a" in let E := fresh "E" in
      apply bind_Ret_inv in H as (a & E & H)
  | H : Ret _ = Ret _ |- _ => injection H as H; subst
  | H : Stop _ = Ret _ |- _ => discriminate H
  | H : Ret _ = Stop _ |- _ => discriminate H
  | H : mret _ = Ret _ |- _ => injection H as H; subst
  end.

(** One step of a proof of [ensures]: a call whose post-condition is in the
    database [wf] gives it, of another call nothing is known but that it
    returned. *)
Create HintDb wf.
(** conjunctions, but for the bounds of a range *)
Ltac split_hyps := repeat match goal with
  | H : ?A ∧ _ |- _ => lazymatch A with (_ ≤ _)%Z => fail | _ => destruct H end
  end.
Ltac ens_step :=
  lazymatch goal with
  | |- ensures (Ret _) _ => cbn [ensures fst snd]
  | |- ensures (Stop _) _ => exact I
  | |- ensures (mret _) _ => cbn [mret outcome_ret ensures fst snd]
  | |- ensures (_ ≫= _) _ => apply ensures_bind
  | |- ensures (let _ := _ in _) _ => cbv zeta
  | |- ensures (match ?x with _ => _ end) _ =>
      tryif is_var x then destruct x; cbn [fst snd] in *
      else (let E := fresh "E" in destruct x eqn:E; cbn [fst snd] in *)
  | |- ensures _ _ =>
      first [ eapply ensures_mono; [solve [eauto 12 with wf nocore]|]; cbn beta; intros ? ?; split_hyps
            | apply ensures_any; intros ? ]
  end.
#[export] Hint Extern 2 (_ ≠ _) => lia : wf.
Ltac ens := intros; repeat ens_step; eauto 12 with wf nocore.

(** [lia] with the Euclidean equations of the divisions in sight. *)
Ltac dlia := Z.to_euclidean_division_equations; lia.

(** Reduce the binds of the monad and nothing else. *)
Ltac obind := cbn [mbind outcome_bind mret outcome_ret deref].

(** ** 2. Machine integers *)

Definition u8 (z : Z) : Z := z mod 2 ^ 8.
Definition u16 (z : Z) : Z := z mod 2 ^ 16.
Definition u32 (z : Z) : Z := z mod 2 ^ 32.
Definition u64 (z : Z) : Z := z mod 2 ^ 64.
(** conversion to [int] (gcc: reduction modulo 2^32) *)
Definition s32 (z : Z) : Z := (z + 2 ^ 31) mod 2 ^ 32 - 2 ^ 31.

(** the values of an [int] and of a [long] *)
Definition is_int (z : Z) : Prop := - 2 ^ 31 ≤ z < 2 ^ 31.
Definition is_long (z : Z) : Prop := - 2 ^ 63 ≤ z < 2 ^ 63.

(** Signed arithmetic is undefined when the result does not fit. *)
Definition int_ (z : Z) : outcome Z :=
  if (- 2 ^ 31 <=? z) && (z <? 2 ^ 31) then Ret z else Stop UB.
Definition long_ (z : Z) : outcome Z :=
  if (- 2 ^ 63 <=? z) && (z <? 2 ^ 63) then Ret z else Stop UB.

(** [a % b] and [a / b] on ints: C truncates towards zero; b = 0 is undefined. *)
Definition rem_ (a b : Z) : outcome Z :=
  if b =? 0 then Stop UB else Ret (Z.rem a b).

Lemma rem_pos a b : 0 ≤ a → 0 < b → rem_ a b = Ret (a mod b).
Proof.
  intros. unfold rem_. rewrite (proj2 (Z.eqb_neq b 0)) by lia.
  by rewrite Z.rem_mod_nonneg by lia.
Qed.

Lemma int_ok z : is_int z → int_ z = Ret z.
Proof. unfold is_int, int_. intros H. by rewrite (proj2 (Z.leb_le _ _)), (proj2 (Z.ltb_lt _ _)) by lia. Qed.

Lemma long_ok z : is_long z → long_ z = Ret z.
Proof. unfold is_long, long_. intros H. by rewrite (proj2 (Z.leb_le _ _)), (proj2 (Z.ltb_lt _ _)) by lia. Qed.

Lemma int_inv z r : int_ z = Ret r → r = z ∧ is_int z.
Proof. unfold int_, is_int. destruct (_ && _) eqn:E; [|done]. intros [= <-]. lia. Qed.

Lemma long_inv z r : long_ z = Ret r → r = z ∧ is_long z.
Proof. unfold long_, is_long. destruct (_ && _) eqn:E; [|done]. intros [= <-]. lia. Qed.

Lemma u32_small z : 0 ≤ z < 2 ^ 32 → u32 z = z.
Proof. intros. by apply Z.mod_small. Qed.
Lemma u64_small z : 0 ≤ z < 2 ^ 64 → u64 z = z.
Proof. intros. by apply Z.mod_small. Qed.
Lemma u32_range z : 0 ≤ u32 z < 2 ^ 32.
Proof. by apply Z.mod_pos_bound. Qed.
Lemma s32_small z : is_int z → s32 z = z.
Proof. unfold is_int, s32. intros. rewrite Z.mod_small; lia. Qed.

(** ** 3. C arrays as lists: an index outside the array is undefined *)

Definition arr_get {A} (l : list A) (i : Z) : outcome A :=
  if decide (0 ≤ i) then deref (l !! Z.to_nat i) else Stop UB.
Definition arr_set {A} (l : list A) (i : Z) (x : A) : outcome (list A) :=
  if decide (0 ≤ i < Z.of_nat (length l)) then Ret (<[Z.to_nat i := x]> l) else Stop UB.

Section Arrays.
Context {A : Type}.
Implicit Types (l : list A) (x : A) (i j : Z).

Lemma arr_get_Some l i x : 0 ≤ i → l !! Z.to_nat i = Some x → arr_get l i = Ret x.
Proof. intros ? E. unfold arr_get. rewrite decide_True by done. by rewrite E. Qed.

Lemma arr_get_inv l i x : arr_get l i = Ret x → 0 ≤ i ∧ l !! Z.to_nat i = Some x.
Proof.
  unfold arr_get. case_decide; [|done].
  destruct (l !! Z.to_nat i); simpl; naive_solver.
Qed.

Lemma arr_get_lt l i : 0 ≤ i < Z.of_nat (length l) → ∃ x, arr_get l i = Ret x.
Proof.
  intros ?. destruct (lookup_lt_is_Some_2 l (Z.to_nat i)) as [x Hx]; [lia|].
  exists x. apply arr_get_Some; [lia|done].
Qed.

Lemma arr_get_range l i x : arr_get l i = Ret x → 0 ≤ i < Z.of_nat (length l).
Proof. intros [? E%lookup_lt_Some]%arr_get_inv. lia. Qed.

Lemma arr_set_ok l i x : 0 ≤ i < Z.of_nat (length l) →
  arr_set l i x = Ret (<[Z.to_nat i := x]> l).
Proof. intros. unfold arr_set. by rewrite decide_True. Qed.

Lemma arr_get_total `{!Inhabited A} l i : 0 ≤ i < Z.of_nat (length l) →
  arr_get l i = Ret (l !!! Z.to_nat i).
Proof.
  intros H. destruct (arr_get_lt l i H) as [x E]. rewrite E.
  apply arr_get_inv in E as [_ E]. by rewrite (list_lookup_total_correct _ _ _ E).
Qed.

Lemma lookup_total_insert_Z `{!Inhabited A} l i j x :
  0 ≤ i < Z.of_nat (length l) → 0 ≤ j →
  <[Z.to_nat i := x]> l !!! Z.to_nat j = if decide (i = j) then x else l !!! Z.to_nat j.
Proof.
  intros Hi Hj. case_decide as E.
  - subst j. apply list_lookup_total_insert_eq. lia.
  - apply list_lookup_total_insert_ne. lia.
Qed.

Lemma arr_set_inv l i x l' : arr_set l i x = Ret l' →
  0 ≤ i < Z.of_nat (length l) ∧ l' = <[Z.to_nat i := x]> l.
Proof. unfold arr_set. case_decide; naive_solver. Qed.

Lemma arr_get_insert l i j x : 0 ≤ i < Z.of_nat (length l) → 0 ≤ j →
  arr_get (<[Z.to_nat i := x]> l) j = if decide (i = j) then Ret x else arr_get l j.
Proof.
  intros Hi Hj. case_decide as E.
  - subst j. apply arr_get_Some; [lia|]. rewrite list_lookup_insert_eq; [done|lia].
  - unfold arr_get. rewrite !decide_True by done.
    rewrite list_lookup_insert_ne by lia. done.
Qed.
End Arrays.

(** the same for an index that is a natural number, and where it falls *)
Lemma arr_set_nat {A} (l : list A) (i : nat) (x : A) : (i < length l)%nat →
  arr_set l (Z.of_nat i) x = Ret (<[i := x]> l).
Proof. intros Hi. rewrite arr_set_ok by lia. by rewrite Nat2Z.id. Qed.
Lemma arr_get_nat {A} (l : list A) (i : nat) (x : A) : l !! i = Some x → arr_get l (Z.of_nat i) = Ret x.
Proof. intros Hi. apply arr_get_Some; [lia|by rewrite Nat2Z.id]. Qed.
Lemma arr_get_middle {A} (l l' : list A) (x : A) i : i = Z.of_nat (length l) → arr_get (l ++ x :: l') i = Ret x.
Proof. intros ->. apply arr_get_nat. by rewrite list_lookup_middle. Qed.
Lemma arr_set_middle {A} (l l' : list A) (x y : A) i : i = Z.of_nat (length l) →
  arr_set (l ++ x :: l') i y = Ret (l ++ y :: l').
Proof.
  intros ->. rewrite arr_set_nat by (rewrite length_app; cbn; lia). f_equal.
  rewrite insert_app_r_alt, Nat.sub_diag by done. done.
Qed.

(** ** 4. Bytes

    The contents of a buffer is a map from offsets to bytes whose default is
    0 (the buffers of the program come from [calloc]); an entry is read modulo
    2^8, so that every map is the contents of some buffer. *)

Abbreviation bytes := (gmap Z Z).

Definition byte_at (d : bytes) (o : Z) : Z := default 0 (d !! o) mod 256.

(** Two contents are the same when no read tells them apart. *)
Definition bytes_eq (d d' : bytes) : Prop := ∀ o, byte_at d o = byte_at d' o.

#[export] Instance bytes_eq_equiv : Equivalence bytes_eq.
Proof. split; repeat intro; unfold bytes_eq in *; congruence. Qed.

(** little-endian loads and stores of [n] bytes *)
Fixpoint load_le (n : nat) (d : bytes) (o : Z) : Z :=
  match n with
  | O => 0
  | S n => byte_at d o + 256 * load_le n d (o + 1)
  end.

Fixpoint store_le (n : nat) (d : bytes) (o v : Z) : bytes :=
  match n with
  | O => d
  | S n => <[o := v mod 256]> (store_le n d (o + 1) (v / 256))
  end.

(** [memcpy]: [n] bytes from [s] at [so] over [d] at [o]; as [s] is read
    before anything is written, with [s = d] it is [memmove]. *)
Fixpoint copy_bytes (n : nat) (s : bytes) (so : Z) (d : bytes) (o : Z) : bytes :=
  match n with
  | O => d
  | S n => <[o := byte_at s so]> (copy_bytes n s (so + 1) d (o + 1))
  end.

(** The [n] bytes at [o], as a list. *)
Definition segment (d : bytes) (o : Z) (n : Z) : list Z := byte_at d <$> seqZ o n.

Section Bytes.
Implicit Types (d s : bytes) (o v : Z) (n : nat).

Lemma byte_at_range d o : 0 ≤ byte_at d o < 256.
Proof. by apply Z.mod_pos_bound. Qed.

Lemma byte_at_insert d o v x :
  byte_at (<[o := v]> d) x = if decide (o = x) then v mod 256 else byte_at d x.
Proof. unfold byte_at. rewrite lookup_insert. by case_decide. Qed.

Lemma byte_at_store_le n d o v x :
  byte_at (store_le n d o v) x =
  if decide (o ≤ x < o + Z.of_nat n) then (v / 256 ^ (x - o)) mod 256 else byte_at d x.
Proof.
  revert o v. induction n as [|n IH]; intros o v; simpl.
  - rewrite decide_False; [done|lia].
  - rewrite byte_at_insert. case_decide as E.
    + subst x. rewrite decide_True by lia. rewrite Z.sub_diag, Z.pow_0_r, Z.div_1_r.
      apply Z.mod_mod. lia.
    + rewrite IH. repeat case_decide; try lia.
      replace (x - o) with (1 + (x - (o + 1))) by lia.
      rewrite Z.pow_add_r by lia. rewrite <- Z.div_div by lia. done.
Qed.

Lemma byte_at_copy n s so d o x :
  byte_at (copy_bytes n s so d o) x =
  if decide (o ≤ x < o + Z.of_nat n) then byte_at s (so + (x - o)) else byte_at d x.
Proof.
  revert so o. induction n as [|n IH]; intros so o; simpl.
  - rewrite decide_False; [done|lia].
  - rewrite byte_at_insert. case_decide as E.
    + subst x. rewrite decide_True by lia.
      rewrite Z.mod_small by apply byte_at_range. f_equal. lia.
    + rewrite IH. repeat case_decide; try lia. f_equal. lia.
Qed.

Lemma load_le_ext n d d' o o' :
  (∀ x, 0 ≤ x < Z.of_nat n → byte_at d (o + x) = byte_at d' (o' + x)) →
  load_le n d o = load_le n d' o'.
Proof.
  revert o o'. induction n as [|n IH]; intros o o' H; simpl; [done|].
  f_equal.
  - specialize (H 0). rewrite !Z.add_0_r in H. apply H. lia.
  - f_equal. apply IH. intros x Hx. rewrite <- !Z.add_assoc. apply H. lia.
Qed.

Lemma load_le_range n d o : 0 ≤ load_le n d o < 256 ^ Z.of_nat n.
Proof.
  revert o. induction n as [|n IH]; intros o; [simpl; lia|].
  rewrite Nat2Z.inj_succ, Z.pow_succ_r by lia. cbn [load_le].
  pose proof (byte_at_range d o). specialize (IH (o + 1)). nia.
Qed.

Lemma load_store_le n d o v : load_le n (store_le n d o v) o = v mod 256 ^ Z.of_nat n.
Proof.
  revert o v. induction n as [|n IH]; intros o v.
  - simpl. by rewrite Z.mod_1_r.
  - rewrite Nat2Z.inj_succ, Z.pow_succ_r by lia. cbn [load_le store_le].
    rewrite byte_at_insert, decide_True by done.
    rewrite (load_le_ext n _ (store_le n d (o + 1) (v / 256)) (o + 1) (o + 1)).
    + rewrite IH, Z.mod_mod by lia. symmetry.
      rewrite Z.rem_mul_r by lia. done.
    + intros x Hx. rewrite byte_at_insert, decide_False by lia. done.
Qed.

Lemma load_store_le_disjoint n m d o p v :
  o + Z.of_nat n ≤ p ∨ p + Z.of_nat m ≤ o →
  load_le n (store_le m d p v) o = load_le n d o.
Proof.
  intros H. apply load_le_ext. intros x Hx.
  rewrite byte_at_store_le, decide_False by lia. done.
Qed.

Lemma load_copy n m s so d o p :
  o ≤ p → p + Z.of_nat n ≤ o + Z.of_nat m →
  load_le n (copy_bytes m s so d o) p = load_le n s (so + (p - o)).
Proof.
  intros. apply load_le_ext. intros x Hx.
  rewrite byte_at_copy, decide_True by lia. f_equal. lia.
Qed.

Lemma load_copy_disjoint n m s so d o p :
  p + Z.of_nat n ≤ o ∨ o + Z.of_nat m ≤ p →
  load_le n (copy_bytes m s so d o) p = load_le n d p.
Proof.
  intros H. apply load_le_ext. intros x Hx.
  rewrite byte_at_copy, decide_False by lia. done.
Qed.

Lemma segment_length d o z : 0 ≤ z → Z.of_nat (length (segment d o z)) = z.
Proof. intros. unfold segment. rewrite length_fmap, length_seqZ. lia. Qed.

Lemma segment_ext d d' o o' z :
  (∀ x, 0 ≤ x < z → byte_at d (o + x) = byte_at d' (o' + x)) →
  segment d o z = segment d' o' z.
Proof.
  intros H. apply list_eq. intros i. unfold segment. rewrite !list_lookup_fmap.
  destruct (decide (Z.of_nat i < z)) as [Hi|Hi].
  - rewrite !lookup_seqZ_lt by lia. simpl. f_equal. apply H. lia.
  - rewrite !lookup_seqZ_ge by lia. done.
Qed.

Lemma segment_inv d d' o o' z : segment d o z = segment d' o' z →
  ∀ x, 0 ≤ x < z → byte_at d (o + x) = byte_at d' (o' + x).
Proof.
  intros E x Hx. apply (f_equal (lookup (Z.to_nat x))) in E. unfold segment in E.
  rewrite !list_lookup_fmap, !lookup_seqZ_lt in E by lia. injection E as E.
  by rewrite Z2Nat.id in E by lia.
Qed.

Lemma segment_app d o z1 z2 : 0 ≤ z1 → 0 ≤ z2 →
  segment d o (z1 + z2) = segment d o z1 ++ segment d (o + z1) z2.
Proof. intros. unfold segment. rewrite seqZ_app by lia. by rewrite fmap_app. Qed.

Lemma segment_copy n s so d o :
  segment (copy_bytes n s so d o) o (Z.of_nat n) = segment s so (Z.of_nat n).
Proof.
  apply segment_ext. intros x Hx. rewrite byte_at_copy, decide_True by lia. f_equal. lia.
Qed.
End Bytes.

#[export] Instance byte_at_proper : Proper (bytes_eq ==> eq ==> eq) byte_at.
Proof. intros d d' H o ? <-. apply H. Qed.
#[export] Instance load_le_proper n : Proper (bytes_eq ==> eq ==> eq) (load_le n).
Proof. intros d d' H o ? <-. apply load_le_ext. intros. apply H. Qed.
#[export] Instance segment_proper : Proper (bytes_eq ==> eq ==> eq ==> eq) segment.
Proof. intros d d' H o ? <- z ? <-. apply segment_ext. intros. apply H. Qed.

(** ** 5. Memory blocks: a buffer with its size, accesses checked *)

Record block := Block { blk_size : Z; blk_data : bytes }.

Definition in_block (b : block) (o n : Z) : bool :=
  (0 <=? o) && (0 <=? n) && (o + n <=? blk_size b).

Definition blk_load (n : nat) (b : block) (o : Z) : outcome Z :=
  if in_block b o (Z.of_nat n) then Ret (load_le n (blk_data b) o) else Stop UB.
Definition blk_store (n : nat) (b : block) (o v : Z) : outcome block :=
  if in_block b o (Z.of_nat n)
  then Ret (Block (blk_size b) (store_le n (blk_data b) o v)) else Stop UB.
(** [memcpy(dst + o, src + so, n)] *)
Definition blk_copy (src : block) (so : Z) (dst : block) (o n : Z) : outcome block :=
  if in_block src so n && in_block dst o n
  then Ret (Block (blk_size dst) (copy_bytes (Z.to_nat n) (blk_data src) so (blk_data dst) o))
  else Stop UB.

(** a buffer of [size] bytes returned by [calloc] *)
Definition calloc_block (size : Z) : block := Block size ∅.

Section Blocks.
Implicit Types (b : block) (o v : Z).

Lemma in_block_spec b o n : in_block b o n = true ↔ 0 ≤ o ∧ 0 ≤ n ∧ o + n ≤ blk_size b.
Proof. unfold in_block. lia. Qed.

Lemma blk_load_ok n b o : 0 ≤ o → o + Z.of_nat n ≤ blk_size b →
  blk_load n b o = Ret (load_le n (blk_data b) o).
Proof. intros. unfold blk_load. rewrite (proj2 (in_block_spec _ _ _)); [done|lia]. Qed.

Lemma blk_load_inv n b o v : blk_load n b o = Ret v →
  0 ≤ o ∧ o + Z.of_nat n ≤ blk_size b ∧ v = load_le n (blk_data b) o.
Proof.
  unfold blk_load. destruct (in_block b o _) eqn:E; [|done].
  apply in_block_spec in E. intros [= <-]. lia.
Qed.

Lemma blk_store_ok n b o v : 0 ≤ o → o + Z.of_nat n ≤ blk_size b →
  blk_store n b o v = Ret (Block (blk_size b) (store_le n (blk_data b) o v)).
Proof. intros. unfold blk_store. rewrite (proj2 (in_block_spec _ _ _)); [done|lia]. Qed.

Lemma blk_store_inv n b o v b' : blk_store n b o v = Ret b' →
  0 ≤ o ∧ o + Z.of_nat n ≤ blk_size b ∧
  b' = Block (blk_size b) (store_le n (blk_data b) o v).
Proof.
  unfold blk_store. destruct (in_block b o _) eqn:E; [|done].
  apply in_block_spec in E. intros [= <-]. repeat split; lia.
Qed.

Lemma blk_copy_ok src so dst o n :
  0 ≤ so → 0 ≤ o → 0 ≤ n → so + n ≤ blk_size src → o + n ≤ blk_size dst →
  blk_copy src so dst o n =
  Ret (Block (blk_size dst) (copy_bytes (Z.to_nat n) (blk_data src) so (blk_data dst) o)).
Proof.
  intros. unfold blk_copy.
  rewrite !(proj2 (in_block_spec _ _ _)) by lia. done.
Qed.

Lemma blk_copy_inv src so dst o n b' : blk_copy src so dst o n = Ret b' →
  0 ≤ so ∧ 0 ≤ o ∧ 0 ≤ n ∧ so + n ≤ blk_size src ∧ o + n ≤ blk_size dst ∧
  b' = Block (blk_size dst) (copy_bytes (Z.to_nat n) (blk_data src) so (blk_data dst) o).
Proof.
  unfold blk_copy. destruct (_ && _) eqn:E; [|done].
  apply andb_prop in E as [E1%in_block_spec E2%in_block_spec].
  intros [= <-]. repeat split; lia.
Qed.
End Blocks.

Create HintDb dw.
#[export] Hint Resolve byte_at_range u32_range load_le_range : dw.
