(* ===== verification/Timespec.v ===== *)
(** * Time arithmetic (src/src/timespec.h)

    [struct timespec] values, their sum and difference, the comparison used by
    the client to spin until the next send, and the conversions between
    microseconds and the [itimerspec] of a timerfd used by the timeouts of the
    node. Fields are 64-bit [long]s; signed overflow is [Stop UB]. The two
    normalisation loops run on fuel computed from their own counter, which
    [norm_up_total] and [norm_down_total] show to be enough. *)

From S2P Require Import Prelude.

Local Open Scope Z_scope.

Record timespec := TS { tv_sec : Z; tv_nsec : Z }.
Record itimerspec := ITS { it_interval : timespec; it_value : timespec }.

#[export] Instance timespec_eq_dec : EqDecision timespec.
Proof. solve_decision. Defined.

Abbreviation NSEC := 1000000000.

(** [while (c.tv_nsec >= 1000000000) { c.tv_sec++; c.tv_nsec -= 1000000000; }] *)
Fixpoint norm_up (fuel : nat) (s n : Z) : outcome timespec :=
  match fuel with
  | O => Stop OutOfFuel
  | S fuel =>
      if NSEC <=? n then
        s' ← long_ (s + 1); n' ← long_ (n - NSEC); norm_up fuel s' n'
      else Ret (TS s n)
  end.

Definition ts_add (a b : timespec) : outcome timespec :=
  s ← long_ (tv_sec a + tv_sec b);
  n ← long_ (tv_nsec a + tv_nsec b);
  norm_up (S (Z.to_nat (n / NSEC))) s n.

(** [while (c.tv_nsec < 0) { c.tv_sec--; c.tv_nsec += 1000000000; }] *)
Fixpoint norm_down (fuel : nat) (s n : Z) : outcome timespec :=
  match fuel with
  | O => Stop OutOfFuel
  | S fuel =>
      if n <? 0 then
        s' ← long_ (s - 1); n' ← long_ (n + NSEC); norm_down fuel s' n'
      else Ret (TS s n)
  end.

Definition ts_sub (a b : timespec) : outcome timespec :=
  s ← long_ (tv_sec a - tv_sec b);
  n ← long_ (tv_nsec a - tv_nsec b);
  norm_down (S (Z.to_nat (- (n / NSEC)))) s n.

Definition ts_sub_us (a b : timespec) : outcome Z :=
  c ← ts_sub a b;
  us ← long_ (tv_sec c * 1000000);
  long_ (us + Z.quot (tv_nsec c) 1000).

Definition ts_sub_ns (a b : timespec) : outcome Z :=
  c ← ts_sub a b;
  ns ← long_ (tv_sec c * NSEC);
  long_ (ns + tv_nsec c).

Definition ts_leq (a b : timespec) : outcome bool :=
  ts ← ts_sub a b;
  Ret ((tv_sec ts <? 0) || ((tv_sec ts =? 0) && (tv_nsec ts <? 0))).

(** The sum is computed on [long]s and converted to the [int] returned. *)
Definition its_to_us (t : itimerspec) : outcome Z :=
  us ← long_ (tv_sec (it_value t) * 1000000);
  r ← long_ (us + Z.quot (tv_nsec (it_value t)) 1000);
  Ret (s32 r).

Definition us_to_its (micros : Z) : itimerspec :=
  ITS (TS 0 0) (TS (Z.quot micros 1000000) (Z.rem micros 1000000 * 1000)).

(** ** Specification *)

(** the instant (or duration) a timespec stands for, in nanoseconds *)
Definition total_ns (t : timespec) : Z := tv_sec t * NSEC + tv_nsec t.

(** a timespec as the clock returns it *)
Definition normal (t : timespec) : Prop := 0 ≤ tv_nsec t < NSEC.

(** far from the limits of a 64-bit [long]: about 146 years in nanoseconds *)
Definition sec_small (s : Z) : Prop := - 2 ^ 32 ≤ s ≤ 2 ^ 32.
Definition ts_small (t : timespec) : Prop := normal t ∧ sec_small (tv_sec t).

Lemma norm_up_total fuel s n :
  is_long n → - 2 ^ 62 ≤ s → s + n / NSEC < 2 ^ 62 → 0 ≤ n →
  n / NSEC < Z.of_nat fuel →
  norm_up fuel s n = Ret (TS (s + n / NSEC) (n mod NSEC)).
Proof.
  revert s n. induction fuel as [|fuel IH]; intros s n Hn Hs Hs' Hpos Hf.
  { pose proof (Z.div_pos n NSEC). lia. }
  cbn [norm_up]. destruct (Z.leb_spec NSEC n) as [Hge|Hlt].
  - assert (E : n / NSEC = 1 + (n - NSEC) / NSEC).
    { replace n with (n - NSEC + 1 * NSEC) at 1 by lia. rewrite Z.div_add by lia. lia. }
    assert (Em : n mod NSEC = (n - NSEC) mod NSEC).
    { replace n with (n - NSEC + 1 * NSEC) at 1 by lia. by rewrite Z.mod_add by lia. }
    pose proof (Z.div_pos (n - NSEC) NSEC). unfold is_long in *.
    rewrite !long_ok by (unfold is_long; lia). simpl.
    rewrite IH by lia. rewrite E, Em. f_equal. f_equal. lia.
  - rewrite Z.div_small, Z.mod_small by lia. by rewrite Z.add_0_r.
Qed.

Lemma norm_down_total fuel s n :
  is_long n → s < 2 ^ 62 → - 2 ^ 62 ≤ s + n / NSEC → n < NSEC →
  - (n / NSEC) < Z.of_nat fuel →
  norm_down fuel s n = Ret (TS (s + n / NSEC) (n mod NSEC)).
Proof.
  revert s n. induction fuel as [|fuel IH]; intros s n Hn Hs Hs' Hub Hf.
  { pose proof (Z.div_lt_upper_bound n NSEC 1). lia. }
  cbn [norm_down]. destruct (Z.ltb_spec n 0) as [Hlt|Hge].
  - assert (E : n / NSEC = (n + NSEC) / NSEC - 1).
    { replace (n + NSEC) with (n + 1 * NSEC) by lia. rewrite Z.div_add by lia. lia. }
    assert (Em : n mod NSEC = (n + NSEC) mod NSEC).
    { replace (n + NSEC) with (n + 1 * NSEC) by lia. by rewrite Z.mod_add by lia. }
    pose proof (Z.div_lt_upper_bound (n + NSEC) NSEC 1). unfold is_long in *.
    rewrite !long_ok by (unfold is_long; lia). simpl.
    rewrite IH by lia. rewrite E, Em. f_equal. f_equal. lia.
  - rewrite Z.div_small, Z.mod_small by lia. by rewrite Z.add_0_r.
Qed.

Arguments norm_up : simpl never.
Arguments norm_down : simpl never.

Lemma total_normal_unique a b :
  normal a → normal b → total_ns a = total_ns b → a = b.
Proof. destruct a, b. unfold normal, total_ns; simpl. intros. f_equal; lia. Qed.

Lemma total_ns_div t : normal t → total_ns t / NSEC = tv_sec t ∧ total_ns t mod NSEC = tv_nsec t.
Proof.
  unfold normal, total_ns. intros.
  split; [rewrite Z.div_add_l, Z.div_small by lia; lia|].
  rewrite Z.add_comm, Z.mod_add, Z.mod_small by lia. done.
Qed.

Lemma ts_sub_small a b : ts_small a → ts_small b →
  ∃ c, ts_sub a b = Ret c ∧ normal c ∧ total_ns c = total_ns a - total_ns b
       ∧ - 2 ^ 34 ≤ tv_sec c ≤ 2 ^ 34.
Proof.
  destruct a as [sa na], b as [sb nb]. unfold ts_small, normal, sec_small, total_ns, ts_sub; simpl.
  intros [Ha1 Ha2] [Hb1 Hb2].
  rewrite !long_ok by (unfold is_long; lia). obind.
  pose proof (Z.div_mod (na - nb) NSEC). pose proof (Z.mod_pos_bound (na - nb) NSEC).
  assert (-1 ≤ (na - nb) / NSEC ≤ 0) by lia.
  rewrite norm_down_total by (unfold is_long; lia).
  eexists. split; [done|]. simpl. lia.
Qed.

Lemma ts_add_small a b : - 2 ^ 40 ≤ tv_sec a ≤ 2 ^ 40 → - 2 ^ 40 ≤ tv_sec b ≤ 2 ^ 40 →
  normal a → normal b →
  ∃ c, ts_add a b = Ret c ∧ normal c ∧ total_ns c = total_ns a + total_ns b.
Proof.
  destruct a as [sa na], b as [sb nb]. unfold normal, total_ns, ts_add; simpl. intros.
  rewrite !long_ok by (unfold is_long; lia). obind.
  pose proof (Z.div_mod (na + nb) NSEC). pose proof (Z.mod_pos_bound (na + nb) NSEC).
  assert (0 ≤ (na + nb) / NSEC ≤ 1) by lia.
  rewrite norm_up_total by (unfold is_long; lia).
  eexists. split; [done|]. simpl. lia.
Qed.

(** Subtraction and addition are exact and inverse on clock readings: for
    normalised times the difference is normalised, denotes the difference of
    the instants, and adding the subtrahend back gives the minuend. *)
Theorem ts_sub_add_inverse (a b : timespec) :
  ts_small a → ts_small b →
  ∃ c, ts_sub a b = Ret c ∧ normal c ∧ total_ns c = total_ns a - total_ns b
       ∧ ts_add c b = Ret a.
Proof.
  intros Ha Hb. destruct (ts_sub_small a b Ha Hb) as (c & Hc & Hn & Ht & Hs).
  exists c. split_and!; [done..|].
  destruct (ts_add_small c b) as (d & Hd & Hdn & Hdt); [| |done|apply Hb|].
  - lia.
  - destruct Hb as [_ Hb]. unfold sec_small in Hb. lia.
  - rewrite Hd. f_equal. apply total_normal_unique; [done|apply Ha|lia].
Qed.

Lemma ts_sub_add_inverse_witness :
  ts_small (TS 30 20) ∧ ts_small (TS 20 500) ∧
  ∃ c, ts_sub (TS 30 20) (TS 20 500) = Ret c ∧ normal c
       ∧ total_ns c = total_ns (TS 30 20) - total_ns (TS 20 500)
       ∧ ts_add c (TS 20 500) = Ret (TS 30 20).
Proof.
  assert (H : ts_small (TS 30 20) ∧ ts_small (TS 20 500)).
  { unfold ts_small, normal, sec_small; simpl; lia. }
  destruct H as [H1 H2]. split; [exact H1|split; [exact H2|]].
  apply ts_sub_add_inverse; [exact H1|exact H2].
Defined.

(** The elapsed time reported in microseconds is the difference of the
    instants rounded down, whatever the order of the two readings. *)
Theorem ts_sub_us_floor (a b : timespec) :
  ts_small a → ts_small b →
  ts_sub_us a b = Ret ((total_ns a - total_ns b) / 1000).
Proof.
  intros Ha Hb. destruct (ts_sub_small a b Ha Hb) as (c & Hc & Hn & Ht & Hs).
  unfold ts_sub_us. rewrite Hc. obind. unfold normal in Hn.
  rewrite Z.quot_div_nonneg by lia.
  pose proof (Z.div_lt_upper_bound (tv_nsec c) 1000 1000000).
  pose proof (Z.div_pos (tv_nsec c) 1000).
  rewrite !long_ok by (unfold is_long; lia). obind.
  rewrite long_ok by (unfold is_long; lia). f_equal.
  rewrite <- Ht. unfold total_ns.
  replace (tv_sec c * NSEC + tv_nsec c) with (tv_sec c * 1000000 * 1000 + tv_nsec c) by lia.
  rewrite Z.div_add_l by lia. done.
Qed.

Lemma ts_sub_us_floor_witness :
  ts_sub_us (TS 30 20000) (TS 20 10000) = Ret 10000010.
Proof.
  assert (H : ts_small (TS 30 20000) ∧ ts_small (TS 20 10000)).
  { unfold ts_small, normal, sec_small; simpl; lia. }
  destruct H as [H1 H2]. rewrite (ts_sub_us_floor _ _ H1 H2). reflexivity.
Defined.

(** [ts_leq a b] is the strict order of the instants: it is false when
    the two readings are equal, despite its name. *)
Theorem ts_leq_is_strict (a b : timespec) :
  ts_small a → ts_small b →
  ts_leq a b = Ret (bool_decide (total_ns a < total_ns b)).
Proof.
  intros Ha Hb. destruct (ts_sub_small a b Ha Hb) as (c & Hc & Hn & Ht & Hs).
  unfold ts_leq. rewrite Hc. obind. f_equal. unfold normal, total_ns in *.
  case_bool_decide; lia.
Qed.

Lemma ts_leq_is_strict_witness :
  ts_leq (TS 30 20) (TS 30 20) = Ret false ∧ ts_leq (TS 30 19) (TS 30 20) = Ret true.
Proof.
  assert (H : ts_small (TS 30 20) ∧ ts_small (TS 30 19)).
  { unfold ts_small, normal, sec_small; simpl; lia. }
  destruct H as [H1 H2].
  rewrite (ts_leq_is_strict _ _ H1 H1), (ts_leq_is_strict _ _ H2 H1). split; reflexivity.
Defined.

Lemma its_roundtrip_aux micros : is_int micros →
  Z.quot micros 1000000 * 1000000 + Z.quot (Z.rem micros 1000000 * 1000) 1000 = micros.
Proof.
  intros _. rewrite Z.quot_mul by lia. pose proof (Z.quot_rem micros 1000000). lia.
Qed.

Lemma us_to_its_zero micros : it_value (us_to_its micros) = TS 0 0 ↔ micros = 0.
Proof.
  unfold us_to_its; simpl. split; [|intros ->; reflexivity].
  intros [= E1 E2]. pose proof (Z.quot_rem micros 1000000). lia.
Qed.

(** Microseconds survive the trip through an [itimerspec] for every [int],
    and the timer is disarmed exactly by 0 microseconds. *)
Theorem us_to_its_roundtrip (micros : Z) :
  is_int micros →
  its_to_us (us_to_its micros) = Ret micros
  ∧ (it_value (us_to_its micros) = TS 0 0 ↔ micros = 0).
Proof.
  intros H. split; [|apply us_to_its_zero].
  pose proof (its_roundtrip_aux micros H) as E. unfold is_int in *.
  unfold its_to_us, us_to_its; cbn [it_value tv_sec tv_nsec].
  pose proof (Z.quot_rem micros 1000000).
  pose proof (Z.rem_bound_abs micros 1000000).
  rewrite long_ok by (unfold is_long; lia). obind.
  rewrite E. rewrite long_ok by (unfold is_long; lia). obind.
  by rewrite s32_small.
Qed.

Lemma us_to_its_roundtrip_witness :
  its_to_us (us_to_its (-1234567)) = Ret (-1234567).
Proof. apply (us_to_its_roundtrip (-1234567)). unfold is_int; lia. Defined.
