(* ===== verification/Text.v ===== *)
(** * Texts: the string functions of the C library the sources call

    [split] is a loop of strsep, [strip] a literal of a format of sscanf and
    strncmp, [scan_int] is %d and strtol in base 10, [strchr], [strstr] and
    [strtok] are their namesakes. [dec] prints a number, the inverse that the
    round trips use, and [ld] one with its sign; [joined] is a line of fields. *)

From Stdlib Require Import String Ascii.
From S2P Require Import Prelude.

Local Open Scope Z_scope.

(** ** Characters *)

Definition is_digit (a : ascii) : bool := (48 <=? nat_of_ascii a)%nat && (nat_of_ascii a <=? 57)%nat.
(** [isspace] in the C locale *)
Definition is_space (a : ascii) : bool :=
  (nat_of_ascii a =? 32)%nat || ((9 <=? nat_of_ascii a)%nat && (nat_of_ascii a <=? 13)%nat).
Definition is_in (cs : string) (a : ascii) : bool := existsb (Ascii.eqb a) (list_ascii_of_string cs).

(** no character of [t] is one of [cs] *)
Fixpoint free (cs t : string) : bool :=
  match t with EmptyString => true | String a t => negb (is_in cs a) && free cs t end.
Definition starts (f : ascii → bool) (s : string) : bool :=
  match s with String a _ => f a | EmptyString => false end.

(** ** Searching and cutting *)

(** the pieces of [s] between the characters of [sep], as strsep gives them *)
Fixpoint split (sep : string) (s : string) : list string :=
  match s with
  | EmptyString => [EmptyString]
  | String a s =>
      if is_in sep a then EmptyString :: split sep s
      else match split sep s with
           | t :: ts => String a t :: ts
           | [] => [String a EmptyString]
           end
  end.

(** what follows the literal [pre] *)
Fixpoint strip (pre s : string) : option string :=
  match pre, s with
  | EmptyString, _ => Some s
  | String a pre, String b s => if Ascii.eqb a b then strip pre s else None
  | String _ _, EmptyString => None
  end.

(** what is before and after the first character [a] *)
Fixpoint strchr (a : ascii) (s : string) : option (string * string) :=
  match s with
  | EmptyString => None
  | String b s =>
      if Ascii.eqb a b then Some (EmptyString, s)
      else '(t, u) ← strchr a s; Some (String b t, u)
  end.

(** whether [pat] occurs *)
Fixpoint strstr (pat s : string) : bool :=
  match strip pat s with
  | Some _ => true
  | None => match s with EmptyString => false | String _ s => strstr pat s end
  end.

(** the next token between characters of [sep], and the rest *)
Fixpoint span (cs : string) (s : string) : string * string :=
  match s with
  | EmptyString => (EmptyString, EmptyString)
  | String a s =>
      if is_in cs a then (EmptyString, s) else let '(t, u) := span cs s in (String a t, u)
  end.
Fixpoint skip (cs : string) (s : string) : string :=
  match s with String a s' => if is_in cs a then skip cs s' else s | EmptyString => s end.
Definition strtok (cs : string) (s : string) : option (string * string) :=
  match skip cs s with EmptyString => None | s => Some (span cs s) end.

(** ** Numbers *)

Fixpoint digits (s : string) (n : Z) : Z * string :=
  match s with
  | String a s' => if is_digit a then digits s' (10 * n + (Z.of_nat (nat_of_ascii a) - 48)) else (n, s)
  | EmptyString => (n, s)
  end.
Fixpoint skip_space (s : string) : string :=
  match s with String a s' => if is_space a then skip_space s' else s | EmptyString => s end.

(** white space, a sign, digits: the number and what follows *)
Definition scan_int (s : string) : option (Z * string) :=
  let s := skip_space s in
  let '(neg, s) :=
    match s with
    | String "-" s => (true, s)
    | String "+" s => (false, s)
    | _ => (false, s)
    end in
  if starts is_digit s then
    let '(n, s) := digits s 0 in Some (if neg then - n else n, s)
  else None.

Definition digit (n : Z) : ascii := ascii_of_nat (Z.to_nat (48 + n)).
Fixpoint dec_loop (fuel : nat) (n : Z) (s : string) : string :=
  match fuel with
  | O => s
  | S fuel =>
      let s := String (digit (n mod 10)) s in if n <? 10 then s else dec_loop fuel (n / 10) s
  end.
(** the decimal digits of [n >= 0] *)
Definition dec (n : Z) : string := dec_loop (S (Z.to_nat (Z.log2 n))) n EmptyString.

(** %d and %ld; the end of a line *)
Definition ld (z : Z) : string := if z <? 0 then String "-" (dec (- z)) else dec z.
Definition endl : string := String (ascii_of_nat 10) EmptyString.

(** ** Lemmas *)

Lemma string_app_cons a s t : (String a s ++ t = String a (s ++ t))%string.
Proof. done. Qed.
Lemma string_nil_app t : (EmptyString ++ t = t)%string.
Proof. done. Qed.
Lemma string_app_nil s : (s ++ EmptyString = s)%string.
Proof. induction s as [|a s IH]; [done|]. by rewrite string_app_cons, IH. Qed.
Lemma string_app_assoc s t u : ((s ++ t) ++ u = s ++ (t ++ u))%string.
Proof. induction s as [|a s IH]; [done|]. by rewrite !string_app_cons, IH. Qed.

Lemma is_in_1 a b : is_in (String a EmptyString) b = Ascii.eqb b a.
Proof. unfold is_in. cbn. by rewrite orb_false_r. Qed.

Lemma free_app cs s t : free cs (s ++ t) = free cs s && free cs t.
Proof. induction s as [|a s IH]; [done|]. rewrite string_app_cons. cbn [free]. by rewrite IH, andb_assoc. Qed.

Lemma split_free cs t : free cs t = true → split cs t = [t].
Proof.
  induction t as [|a t IH]; [done|]. cbn [free split]. intros [Ha Ht]%andb_prop.
  apply negb_true_iff in Ha. by rewrite Ha, IH.
Qed.
Lemma split_app cs t a u : free cs t = true → is_in cs a = true →
  split cs (t ++ String a u) = t :: split cs u.
Proof.
  intros Ht Ha. induction t as [|b t IH]; [rewrite string_nil_app; cbn [split]; by rewrite Ha|].
  rewrite string_app_cons. cbn [free] in Ht.
  apply andb_prop in Ht as [Hb%negb_true_iff Ht]. cbn [split]. by rewrite Hb, IH.
Qed.

Lemma strip_app p s : strip p (p ++ s) = Some s.
Proof. induction p as [|a p IH]; [by destruct s|]. rewrite string_app_cons. cbn. by rewrite Ascii.eqb_refl. Qed.
Lemma strip_same a p s : strip (String a p) (String a s) = strip p s.
Proof. cbn [strip]. by rewrite Ascii.eqb_refl. Qed.
Lemma strip_char a s : strip (String a EmptyString) (String a s) = Some s.
Proof. apply (strip_app (String a EmptyString)). Qed.
Lemma strip_app_inv p s t : strip p s = Some t → s = (p ++ t)%string.
Proof.
  revert s. induction p as [|a p IH]; intros [|b s]; cbn; try naive_solver.
  destruct (Ascii.eqb_spec a b) as [<-|]; [|done]. intros H. by rewrite (IH _ H).
Qed.

Lemma strchr_app a t u : free (String a EmptyString) t = true → strchr a (t ++ String a u) = Some (t, u).
Proof.
  induction t as [|b t IH]; [rewrite string_nil_app; cbn [strchr]; by rewrite Ascii.eqb_refl|].
  rewrite string_app_cons. cbn [strchr free].
  rewrite is_in_1, Ascii.eqb_sym. intros [Hb%negb_true_iff Ht]%andb_prop. by rewrite Hb, IH.
Qed.
Lemma strchr_none a t : free (String a EmptyString) t = true → strchr a t = None.
Proof.
  induction t as [|b t IH]; cbn [strchr free]; [done|].
  rewrite is_in_1, Ascii.eqb_sym. intros [Hb%negb_true_iff Ht]%andb_prop. by rewrite Hb, IH.
Qed.

(** a pattern does not occur where its first character does not *)
Lemma strstr_free a pat t : free (String a EmptyString) t = true → strstr (String a pat) t = false.
Proof.
  induction t as [|b t IH]; cbn [strstr strip free]; [done|].
  rewrite is_in_1, Ascii.eqb_sym. intros [Hb%negb_true_iff Ht]%andb_prop. by rewrite Hb, IH.
Qed.
Lemma strstr_app a pat t u : free (String a EmptyString) t = true →
  strstr (String a pat) (t ++ u) = strstr (String a pat) u.
Proof.
  induction t as [|b t IH]; [done|]. rewrite string_app_cons. cbn [strstr strip free].
  rewrite is_in_1, Ascii.eqb_sym. intros [Hb%negb_true_iff Ht]%andb_prop. by rewrite Hb, IH.
Qed.

Lemma span_free cs t : free cs t = true → span cs t = (t, EmptyString).
Proof.
  induction t as [|b t IH]; cbn [span free]; [done|].
  intros [Hb%negb_true_iff Ht]%andb_prop. by rewrite Hb, IH.
Qed.
Lemma span_app cs t a u : free cs t = true → is_in cs a = true → span cs (t ++ String a u) = (t, u).
Proof.
  intros Ht Ha. induction t as [|b t IH]; [rewrite string_nil_app; cbn [span]; by rewrite Ha|].
  rewrite string_app_cons. cbn [span].
  cbn [free] in Ht. apply andb_prop in Ht as [Hb%negb_true_iff Ht]. by rewrite Hb, IH.
Qed.

Lemma digit_code n : 0 ≤ n < 10 → Z.of_nat (nat_of_ascii (digit n)) = 48 + n.
Proof. intros Hn. unfold digit. rewrite nat_ascii_embedding; lia. Qed.
Lemma digit_is_digit n : 0 ≤ n < 10 → is_digit (digit n) = true.
Proof.
  intros Hn. pose proof (digit_code n Hn). unfold is_digit.
  apply andb_true_intro. split; apply Nat.leb_le; lia.
Qed.

Lemma digits_dec_loop fuel n s : 0 ≤ n < 2 ^ Z.of_nat fuel → digits (dec_loop fuel n s) 0 = digits s n.
Proof.
  revert n s. induction fuel as [|fuel IH]; intros n s Hn; cbn [dec_loop].
  { change (2 ^ Z.of_nat 0) with 1 in Hn. by replace n with 0 by lia. }
  pose proof (Z.mod_pos_bound n 10 eq_refl) as Hm. pose proof (Z.div_mod n 10) as Hd.
  rewrite Nat2Z.inj_succ, Z.pow_succ_r in Hn by lia.
  destruct (Z.ltb_spec n 10).
  - cbn [digits]. rewrite digit_is_digit, digit_code, Z.mod_small by lia. f_equal. lia.
  - rewrite IH by lia. cbn [digits]. rewrite digit_is_digit, digit_code by lia. f_equal. lia.
Qed.
Lemma dec_loop_starts fuel n s : 0 ≤ n → starts is_digit s = true ∨ (0 < fuel)%nat →
  starts is_digit (dec_loop fuel n s) = true.
Proof.
  revert n s. induction fuel as [|fuel IH]; intros n s Hn Hs; cbn [dec_loop]; [destruct Hs; [done|lia]|].
  pose proof (digit_is_digit (n mod 10) (Z.mod_pos_bound n 10 eq_refl)) as Hd.
  destruct (n <? 10); [done|]. apply IH; [by apply Z.div_pos|]. by left.
Qed.
Lemma dec_loop_app fuel n s t : (dec_loop fuel n s ++ t = dec_loop fuel n (s ++ t))%string.
Proof.
  revert n s. induction fuel as [|fuel IH]; intros n s; [done|]. cbn [dec_loop].
  destruct (n <? 10); [done|]. by rewrite IH.
Qed.

(** a character that is no digit does not occur in a number *)
Lemma dec_loop_free cs fuel n s : existsb is_digit (list_ascii_of_string cs) = false → 0 ≤ n →
  free cs s = true → free cs (dec_loop fuel n s) = true.
Proof.
  intros Hc. revert n s. induction fuel as [|fuel IH]; intros n s Hn Hs; [done|]. cbn [dec_loop].
  assert (is_in cs (digit (n mod 10)) = false) as Hd.
  { pose proof (digit_is_digit (n mod 10) (Z.mod_pos_bound n 10 eq_refl)) as Hd. unfold is_in.
    apply not_true_iff_false. intros (a & Ha & <-%Ascii.eqb_eq)%existsb_exists.
    apply not_true_iff_false in Hc. apply Hc, existsb_exists. eauto. }
  assert (free cs (String (digit (n mod 10)) s) = true) by (cbn [free]; by rewrite Hd).
  destruct (n <? 10); [done|]. apply IH; [by apply Z.div_pos|done].
Qed.
Lemma dec_free cs n : existsb is_digit (list_ascii_of_string cs) = false → 0 ≤ n → free cs (dec n) = true.
Proof. intros. by apply dec_loop_free. Qed.

Lemma skip_space_digit s : starts is_digit s = true → skip_space s = s.
Proof.
  destruct s as [|a s]; [done|]. cbn. unfold is_digit, is_space. intros H.
  apply andb_prop in H as [H1%Nat.leb_le H2%Nat.leb_le].
  destruct (Nat.eqb_spec (nat_of_ascii a) 32); [lia|].
  destruct (Nat.leb_spec (nat_of_ascii a) 13); [lia|]. by rewrite andb_false_r.
Qed.
Lemma scan_int_digit s : starts is_digit s = true → scan_int s = Some (digits s 0).
Proof.
  intros H. unfold scan_int. rewrite skip_space_digit by done.
  destruct s as [|[[] [] [] [] [] [] [] []] s]; try discriminate H; by destruct (digits _ 0).
Qed.

(** what was printed is read back *)
Lemma scan_dec n s : 0 ≤ n → starts is_digit s = false → scan_int (dec n ++ s) = Some (n, s).
Proof.
  intros Hn Hs. unfold dec. rewrite dec_loop_app.
  rewrite scan_int_digit by (apply dec_loop_starts; [done|right; lia]).
  rewrite string_nil_app, digits_dec_loop.
  - f_equal. destruct s as [|a s]; [done|]. cbn [starts digits] in *. by rewrite Hs.
  - split; [done|]. rewrite Nat2Z.inj_succ, Z2Nat.id by apply Z.log2_nonneg.
    destruct (Z.eq_dec n 0) as [->|]; [done|]. apply Z.log2_spec. lia.
Qed.
Lemma scan_dec_end n : 0 ≤ n → scan_int (dec n) = Some (n, EmptyString).
Proof. intros. rewrite <- (string_app_nil (dec n)). by apply scan_dec. Qed.

Lemma dec_starts n : 0 ≤ n → starts is_digit (dec n) = true.
Proof. intros. apply dec_loop_starts; [done|right; lia]. Qed.
Lemma starts_app f s t : starts f s = true → starts f (s ++ t) = true.
Proof. by destruct s. Qed.

Lemma free_starts cs s a t : s = String a t → free cs s = true → is_in cs a = false.
Proof. intros ->. cbn [free]. intros [H _]%andb_prop. by apply negb_true_iff. Qed.

(** a character that does not occur in [t <> ""] does not start [t ++ u] *)
Lemma strip_free a pat t u : t ≠ EmptyString → free (String a EmptyString) t = true →
  strip (String a pat) (t ++ u) = None.
Proof.
  destruct t as [|b t]; [done|]. intros _. cbn [free]. rewrite string_app_cons, is_in_1, Ascii.eqb_sym.
  intros [Hb%negb_true_iff _]%andb_prop. cbn [strip]. by rewrite Hb.
Qed.
Lemma strstr_cons pat a s : strip pat (String a s) = None → strstr pat (String a s) = strstr pat s.
Proof. intros H. cbn [strstr]. by rewrite H. Qed.
Lemma strstr_here pat s t : strip pat s = Some t → strstr pat s = true.
Proof. intros H. destruct s; cbn [strstr]; by rewrite H. Qed.

Lemma strtok_app cs t a u : t ≠ EmptyString → free cs t = true → is_in cs a = true →
  strtok cs (t ++ String a u) = Some (t, u).
Proof.
  intros Ht Hf Ha. unfold strtok. rewrite <- (span_app cs t a u) by done. destruct t as [|b t]; [done|].
  rewrite string_app_cons. cbn [free skip] in *. apply andb_prop in Hf as [Hb%negb_true_iff _].
  by rewrite Hb.
Qed.
Lemma strtok_free cs t : t ≠ EmptyString → free cs t = true → strtok cs t = Some (t, EmptyString).
Proof.
  intros Ht Hf. unfold strtok. rewrite <- (span_free cs t) by done. destruct t as [|b t]; [done|].
  cbn [free skip] in *. apply andb_prop in Hf as [Hb%negb_true_iff _]. by rewrite Hb.
Qed.
Lemma dec_nonempty n : 0 ≤ n → dec n ≠ EmptyString.
Proof. intros Hn E. pose proof (dec_starts n Hn) as H. by rewrite E in H. Qed.

(** fewer characters to look for *)
Lemma free_sub cs ds t : (∀ a, is_in ds a = true → is_in cs a = true) → free cs t = true → free ds t = true.
Proof.
  intros Hs. induction t as [|a t IH]; [done|]. cbn [free]. intros [Ha%negb_true_iff Ht]%andb_prop.
  rewrite IH, andb_true_r by done. destruct (is_in ds a) eqn:E; [|done]. by rewrite Hs in Ha.
Qed.

(** a text that fits is not cut *)
Lemma substring_all n s : (String.length s ≤ n)%nat → String.substring 0 n s = s.
Proof.
  revert n. induction s as [|a s IH]; intros [|n] Hn; cbn in *; try lia; [done..|].
  rewrite IH by lia. done.
Qed.
Lemma string_length_app s t : String.length (s ++ t) = (String.length s + String.length t)%nat.
Proof. induction s as [|a s IH]; [done|]. rewrite string_app_cons. cbn. by rewrite IH. Qed.

Lemma ld_scan z : scan_int (ld z) = Some (z, EmptyString).
Proof.
  unfold ld. destruct (Z.ltb_spec z 0) as [Hz|Hz]; [|by apply scan_dec_end].
  unfold scan_int. change (skip_space (String "-" (dec (- z)))) with (String "-" (dec (- z))). cbn iota beta.
  pose proof (scan_dec_end (- z) ltac:(lia)) as E. pose proof (dec_starts (- z) ltac:(lia)) as Hs.
  rewrite scan_int_digit in E by done. rewrite Hs. injection E as E. rewrite E. by rewrite Z.opp_involutive.
Qed.
(** a separator that is no part of a number *)
Definition separates (a : ascii) : Prop := is_digit a = false ∧ a ≠ "-"%char.
Lemma ld_free a z : separates a → free (String a EmptyString) (ld z) = true.
Proof.
  intros [Hd Hm]. assert (D : existsb is_digit (list_ascii_of_string (String a EmptyString)) = false)
    by (cbn; by rewrite Hd).
  unfold ld. destruct (Z.ltb_spec z 0); [|by apply dec_free].
  cbn [free]. rewrite is_in_1. apply andb_true_intro. split; [|apply dec_free; [done|lia]].
  apply negb_true_iff. by apply Ascii.eqb_neq.
Qed.

(** ** Texts with a character between them *)

Fixpoint joined (sep : ascii) (l : list string) : string :=
  match l with
  | [] => EmptyString
  | [t] => t
  | t :: l => (t ++ String sep (joined sep l))%string
  end.
Lemma split_joined sep l : l ≠ [] → Forall (fun t => free (String sep EmptyString) t = true) l →
  split (String sep EmptyString) (joined sep l) = l.
Proof.
  intros Hl H. induction H as [|t [|u l] Ht Hl' IH]; [done|by apply split_free|].
  change (joined sep (t :: u :: l)) with (t ++ String sep (joined sep (u :: l)))%string.
  rewrite split_app, IH by (done || (rewrite is_in_1; apply Ascii.eqb_refl)). done.
Qed.
Lemma joined_free cs sep l : is_in cs sep = false → Forall (fun t => free cs t = true) l → free cs (joined sep l) = true.
Proof.
  intros Hs H. induction H as [|t [|u l] Ht Hl' IH]; [done|done|].
  change (joined sep (t :: u :: l)) with (t ++ String sep (joined sep (u :: l)))%string.
  rewrite free_app, Ht. cbn [free]. by rewrite Hs.
Qed.

(** ** The length of a number *)

Lemma dec_loop_length (k fuel : nat) n s : 10 ^ Z.of_nat k ≤ n < 10 ^ Z.of_nat (S k) → (k < fuel)%nat →
  String.length (dec_loop fuel n s) = (S k + String.length s)%nat.
Proof.
  revert fuel n s. induction k as [|k IH]; intros [|fuel] n s Hn Hf; [lia| |lia|]; cbn [dec_loop].
  - destruct (Z.ltb_spec n 10); [done|lia].
  - rewrite !Nat2Z.inj_succ, !Z.pow_succ_r in Hn by lia. pose proof (Z.pow_pos_nonneg 10 (Z.of_nat k)).
    destruct (Z.ltb_spec n 10); [lia|]. rewrite IH; [|rewrite Nat2Z.inj_succ, Z.pow_succ_r by lia; dlia|lia].
    change (String.length (String ?a s)) with (S (String.length s)). lia.
Qed.
Lemma dec_length (k : nat) n : 10 ^ Z.of_nat k ≤ n < 10 ^ Z.of_nat (S k) → String.length (dec n) = S k.
Proof.
  intros Hn. unfold dec. rewrite dec_loop_length with (k := k); [cbn; lia|done|].
  assert (Z.of_nat k ≤ Z.log2 n); [|lia]. apply Z.log2_le_pow2; [pose proof (Z.pow_pos_nonneg 10 (Z.of_nat k)); lia|].
  etrans; [|apply Hn]. apply Z.pow_le_mono_l. lia.
Qed.
