(* ===== verification/Queue.v ===== *)
(** * Bounded ring queue (src/src/queue.h, queue.c, queueing_common.h)

    The array of nodes allocated by [queue_alloc] is uninitialised memory: the
    model takes its initial contents as an argument. A [node_t *] into the
    array is the index of the node, NULL is [None], and an access through an
    index outside the array is undefined. The specification is the list
    [contents q] of keys and data from head to tail. *)

From S2P Require Import Prelude.

Local Open Scope Z_scope.

(** ** Data (queueing_common.h) *)

Inductive data_t :=
  | d_fd (fd : Z)
  | d_value (value : Z)
  | d_ptr (ptr : option nat).

Record node_t := Node { heap_id : Z; key : Z; data : data_t }.

#[export] Instance node_t_inhabited : Inhabited node_t :=
  populate (Node 0 0 (d_value 0)).
#[export] Instance data_t_eq_dec : EqDecision data_t.
Proof. solve_decision. Defined.
#[export] Instance node_t_eq_dec : EqDecision node_t.
Proof. solve_decision. Defined.

Module Queue.

Record queue_t := MkQueue {
  nodes : list node_t;
  head : Z;
  tail : Z;
  size : Z;
  capacity : Z
}.

(** ** Operations *)

(** [junk i] is the uninitialised contents of the i-th node; the [uint32_t]
    capacity is stored in an [int]. *)
Definition queue_alloc (cap : Z) (junk : Z → node_t) : queue_t :=
  MkQueue (junk <$> seqZ 0 cap) 0 (-1) 0 (s32 cap).

Definition queue_itr_begin (q : queue_t) : Z := head q.
Definition queue_itr_has_next (q : queue_t) (itr : Z) : bool :=
  negb (size q =? 0) && (0 <=? itr) && (itr <=? tail q).

Definition queue_size (q : queue_t) : Z := size q.
Definition queue_capacity (q : queue_t) : Z := capacity q.
Definition queue_head (q : queue_t) : option Z :=
  if size q =? 0 then None else Some (head q).
Definition queue_tail (q : queue_t) : option Z :=
  if size q =? 0 then None else Some (tail q).
Definition queue_node (q : queue_t) (i : Z) : option Z :=
  if queue_itr_has_next q i then Some i else None.

(** the node a non-null [node_t *] points to *)
Definition node_of (q : queue_t) (p : option Z) : outcome node_t :=
  i ← deref p; arr_get (nodes q) i.

Definition queue_enqueue (q : queue_t) (k : Z) (d : data_t) : outcome (queue_t * option Z) :=
  if size q =? capacity q then Ret (q, None)
  else
    t ← rem_ (tail q + 1) (capacity q);
    old ← arr_get (nodes q) t;
    ns ← arr_set (nodes q) t (Node (heap_id old) k d);
    Ret (MkQueue ns (head q) t (size q + 1) (capacity q), Some t).

Definition queue_dequeue_head (q : queue_t) : outcome queue_t :=
  if size q =? 0 then Ret q
  else
    h ← rem_ (head q + 1) (capacity q);
    Ret (MkQueue (nodes q) h (tail q) (size q - 1) (capacity q)).

Definition queue_dequeue_tail (q : queue_t) : outcome queue_t :=
  if size q =? 0 then Ret q
  else
    t ← rem_ (tail q - 1) (capacity q);
    Ret (MkQueue (nodes q) (head q) t (size q - 1) (capacity q)).

Definition queue_drop (q : queue_t) : queue_t :=
  MkQueue (nodes q) 0 (-1) 0 (capacity q).

(** the node returned and the new value of the iterator *)
Definition queue_itr_next (q : queue_t) (itr : Z) : outcome (option Z * Z) :=
  if negb (queue_itr_has_next q itr) then Ret (None, itr)
  else
    itr' ← rem_ (itr + 1) (capacity q);
    let itr'' := if bool_decide (queue_node q itr' = queue_head q) then -1 else itr' in
    Ret (queue_node q itr, itr'').

(** the loop [while (has_next) node = next(&itr)] of [queue_log], which
    returns the nodes it visits (queue_log prints their keys) *)
Fixpoint iterate (fuel : nat) (q : queue_t) (itr : Z) : outcome (list node_t) :=
  match fuel with
  | O => Stop OutOfFuel
  | S fuel =>
      if queue_itr_has_next q itr then
        '(p, itr') ← queue_itr_next q itr;
        n ← node_of q p;
        rest ← iterate fuel q itr';
        Ret (n :: rest)
      else Ret []
  end.

(** every index is visited at most once: [capacity] turns and the exit test *)
Definition iteration (q : queue_t) : outcome (list node_t) :=
  iterate (S (Z.to_nat (capacity q))) q (queue_itr_begin q).

Definition queue_log (q : queue_t) : outcome (list Z) :=
  ns ← iteration q;
  Ret (map key ns).

(** ** Specification *)

Definition entry (n : node_t) : Z * data_t := (key n, data n).

(** the i-th slot after the head *)
Definition slot (q : queue_t) (i : Z) : Z := (head q + i) mod capacity q.

Definition contents (q : queue_t) : list (Z * data_t) :=
  (fun i => entry (nodes q !!! Z.to_nat (slot q i))) <$> seqZ 0 (size q).

Record queue_wf (q : queue_t) : Prop := {
  wf_cap : 0 < capacity q < 2 ^ 31;
  wf_nodes : Z.of_nat (length (nodes q)) = capacity q;
  wf_size : 0 ≤ size q ≤ capacity q;
  wf_head : 0 ≤ head q < capacity q;
  wf_tail : -1 ≤ tail q < capacity q;
  wf_tail_pos : 0 < size q → 0 ≤ tail q;
  wf_link : (tail q + 1) mod capacity q = (head q + size q) mod capacity q
}.

Section Refinement.
Implicit Types (q : queue_t) (k : Z) (d : data_t).

Lemma slot_range q i : queue_wf q → 0 ≤ slot q i < capacity q.
Proof. intros H. apply Z.mod_pos_bound. apply H. Qed.

Lemma slot_inj q i j : queue_wf q → 0 ≤ i < capacity q → 0 ≤ j < capacity q →
  slot q i = slot q j → i = j.
Proof.
  intros H Hi Hj E. destruct H as [Hc _ _ Hh _ _ _]. unfold slot in E.
  assert (Hm : ((head q + i) - (head q + j)) mod capacity q = 0).
  { rewrite Zminus_mod, E, Z.sub_diag. apply Z.mod_0_l. lia. }
  assert (Hne : capacity q ≠ 0) by lia.
  destruct (proj1 (Z.mod_divide _ _ Hne) Hm) as [c Hc'].
  assert (c ≤ -1 ∨ c = 0 ∨ 1 ≤ c) as [|[->|]] by lia; nia.
Qed.

Lemma contents_length q : queue_wf q → Z.of_nat (length (contents q)) = size q.
Proof.
  intros H. unfold contents. rewrite length_fmap, length_seqZ.
  destruct H. lia.
Qed.

Lemma contents_snoc q : 0 ≤ size q →
  contents (MkQueue (nodes q) (head q) (tail q) (size q + 1) (capacity q)) =
  contents q ++ [entry (nodes q !!! Z.to_nat (slot q (size q)))].
Proof.
  intros Hs. unfold contents; cbn [nodes size]. rewrite seqZ_app by lia.
  rewrite fmap_app. f_equal.
Qed.

Lemma contents_cons q : queue_wf q → 0 < size q →
  contents q = entry (nodes q !!! Z.to_nat (head q)) ::
    contents (MkQueue (nodes q) ((head q + 1) mod capacity q) (tail q) (size q - 1) (capacity q)).
Proof.
  intros H Hs. unfold contents; cbn [nodes size]. rewrite seqZ_cons by lia.
  rewrite fmap_cons. f_equal.
  - unfold slot. rewrite Z.add_0_r, Z.mod_small by apply H. done.
  - rewrite <- Z.sub_1_r. rewrite <- (Z.add_0_l (Z.succ 0)).
    replace (0 + Z.succ 0) with (1 + 0) by lia. rewrite <- fmap_add_seqZ.
    rewrite <- list_fmap_compose. apply list_fmap_ext. intros i x Hx. simpl.
    unfold slot; cbn [head capacity]. rewrite Zplus_mod_idemp_l. do 4 f_equal. lia.
Qed.

Lemma contents_nodes_ext q ns : queue_wf q →
  (∀ i, 0 ≤ i < size q → entry (ns !!! Z.to_nat (slot q i)) = entry (nodes q !!! Z.to_nat (slot q i))) →
  contents (MkQueue ns (head q) (tail q) (size q) (capacity q)) = contents q.
Proof.
  intros H E. unfold contents; cbn [nodes size]. apply list_fmap_ext.
  intros i x [Hx ?]%lookup_seqZ. apply E. lia.
Qed.
End Refinement.

Section Operations.
Implicit Types (q : queue_t) (k : Z) (d : data_t).

Lemma alloc_wf (cap : Z) junk : 0 < cap < 2 ^ 31 → queue_wf (queue_alloc cap junk).
Proof.
  intros H. unfold queue_alloc. rewrite s32_small by (unfold is_int; lia).
  split; cbn; try lia; [|done].
  rewrite length_fmap, length_seqZ. lia.
Qed.

Lemma tail_succ q : queue_wf q → rem_ (tail q + 1) (capacity q) = Ret (slot q (size q)).
Proof.
  intros H. pose proof (wf_tail q H). pose proof (wf_cap q H).
  rewrite rem_pos by lia. f_equal. apply (wf_link q H).
Qed.

Lemma enqueue_full q k d : size q = capacity q → queue_enqueue q k d = Ret (q, None).
Proof. intros E. unfold queue_enqueue. by rewrite (proj2 (Z.eqb_eq _ _) E). Qed.

Lemma enqueue_ok q k d : queue_wf q → size q < capacity q →
  ∃ q', queue_enqueue q k d = Ret (q', Some (slot q (size q)))
    ∧ queue_wf q' ∧ contents q' = contents q ++ [(k, d)] ∧ capacity q' = capacity q
    ∧ head q' = head q.
Proof.
  intros H Hlt. pose proof (slot_range q (size q) H) as Hs.
  pose proof (wf_nodes q H) as Hn. pose proof (wf_size q H) as Hz.
  unfold queue_enqueue. rewrite (proj2 (Z.eqb_neq _ _)) by lia.
  rewrite tail_succ by done. obind.
  destruct (arr_get_lt (nodes q) (slot q (size q))) as [old Ho]; [lia|].
  rewrite Ho. obind. rewrite arr_set_ok by lia. obind.
  set (ns := <[_ := _]> _).
  eexists. split; [done|]. split_and!; [|..|done|done].
  - destruct H. split; cbn; unfold slot in *; try lia.
    + unfold ns. rewrite length_insert. lia.
    + rewrite Zplus_mod_idemp_l. f_equal. lia.
  - set (q1 := MkQueue ns (head q) (tail q) (size q) (capacity q)).
    transitivity (contents (MkQueue (nodes q1) (head q1) (tail q1) (size q1 + 1) (capacity q1)));
      [done|].
    rewrite contents_snoc by (cbn; lia). f_equal.
    + apply contents_nodes_ext; [done|]. intros i Hi. unfold ns.
      rewrite list_lookup_total_insert_ne; [done|].
      pose proof (slot_range q i H). intros E%Z2Nat.inj; [|lia..].
      apply (slot_inj q) in E; [|done|lia|lia]. lia.
    + cbn [q1 nodes size]. change (slot q1 (size q)) with (slot q (size q)).
      unfold ns. rewrite list_lookup_total_insert_eq by lia. done.
Qed.

Lemma dequeue_head_ok q : queue_wf q → 0 < size q →
  ∃ q', queue_dequeue_head q = Ret q' ∧ queue_wf q' ∧ capacity q' = capacity q
    ∧ contents q = entry (nodes q !!! Z.to_nat (head q)) :: contents q'.
Proof.
  intros H Hs. pose proof (wf_head q H). pose proof (wf_cap q H).
  unfold queue_dequeue_head. rewrite (proj2 (Z.eqb_neq _ _)) by lia.
  rewrite rem_pos by lia. obind. eexists. split; [done|].
  split_and!; [|done|by apply contents_cons].
  pose proof (Z.mod_pos_bound (head q + 1) (capacity q)).
  destruct H. split; cbn; try lia.
  rewrite Zplus_mod_idemp_l, wf_link0. f_equal. lia.
Qed.

Lemma dequeue_tail_step q : queue_wf q → 0 < size q → 0 < tail q ∨ size q = 1 →
  ∃ q', queue_dequeue_tail q = Ret q' ∧ queue_wf q' ∧ capacity q' = capacity q
    ∧ head q' = head q ∧ size q' = size q - 1 ∧ nodes q' = nodes q.
Proof.
  intros H Hs Ht. pose proof (wf_tail_pos q H). pose proof (wf_tail q H). pose proof (wf_cap q H).
  unfold queue_dequeue_tail. rewrite (proj2 (Z.eqb_neq _ _)) by lia.
  unfold rem_. rewrite (proj2 (Z.eqb_neq _ _)) by lia. obind.
  eexists. split; [done|]. split_and!; [|done..].
  assert (E : Z.rem (tail q - 1) (capacity q) = tail q - 1 ∨ tail q = 0 ∧ capacity q = 1).
  { destruct (decide (tail q = 0)) as [->|]; [|left; rewrite Z.rem_small; lia].
    destruct (decide (capacity q = 1)); [by right|left].
    change (0 - 1) with (- (1)). rewrite Z.rem_opp_l by lia. by rewrite Z.rem_small by lia. }
  destruct H; split; cbn; try lia.
  { destruct E as [->|[-> ->]]; [lia|by cbn]. }
  destruct E as [->|[E1 E2]].
  - replace (tail q - 1 + 1) with ((tail q + 1) - 1) by lia.
    rewrite Zminus_mod, wf_link0, <- Zminus_mod. f_equal. lia.
  - rewrite E2. by rewrite !Z.mod_1_r.
Qed.

Lemma contents_drop_last q q' : queue_wf q → 0 < size q →
  nodes q' = nodes q → head q' = head q → capacity q' = capacity q → size q' = size q - 1 →
  contents q = contents q' ++ [entry (nodes q !!! Z.to_nat (slot q (size q - 1)))].
Proof.
  intros H Hs En Eh Ec Es.
  destruct q' as [ns h t s c]; cbn in *; subst.
  pose proof (contents_snoc (MkQueue (nodes q) (head q) t (size q - 1) (capacity q))) as E.
  cbn [nodes head tail size capacity] in E. etransitivity; [|apply E; lia].
  unfold contents; cbn [nodes size]. by replace (size q - 1 + 1) with (size q) by lia.
Qed.
End Operations.

(** [C40] The ring buffer is a bounded FIFO: enqueue appends the key and data
    when there is room and returns NULL without a change when the queue is
    full, dequeue_head removes the oldest entry, which is the one queue_head
    points to, and both keep the invariant across the wrap-around. *)
Theorem queue_fifo (q : queue_t) (k : Z) (d : data_t) :
  queue_wf q →
  (size q = capacity q → queue_enqueue q k d = Ret (q, None)) ∧
  (size q < capacity q → ∃ q' p,
     queue_enqueue q k d = Ret (q', Some p) ∧ queue_wf q' ∧
     contents q' = contents q ++ [(k, d)]) ∧
  (size q = 0 → queue_dequeue_head q = Ret q ∧ queue_head q = None) ∧
  (0 < size q → ∃ n q',
     node_of q (queue_head q) = Ret n ∧ queue_dequeue_head q = Ret q' ∧ queue_wf q' ∧
     contents q = entry n :: contents q').
Proof.
  intros H. split_and!.
  - apply enqueue_full.
  - intros Hlt. destruct (enqueue_ok q k d H Hlt) as (q' & ? & ? & ? & _). eauto.
  - intros E. unfold queue_dequeue_head, queue_head. by rewrite E.
  - intros Hs. destruct (dequeue_head_ok q H Hs) as (q' & ? & ? & _ & Hc).
    exists (nodes q !!! Z.to_nat (head q)), q'. split_and!; [|done..].
    unfold node_of, queue_head. rewrite (proj2 (Z.eqb_neq _ _)) by lia. obind.
    destruct H. destruct (arr_get_lt (nodes q) (head q)) as [n Hn]; [lia|].
    rewrite Hn. apply arr_get_inv in Hn as [_ Hn]. f_equal.
    symmetry. by apply list_lookup_total_correct.
Qed.

(** a queue of capacity 2 whose contents wraps around *)
Definition wrapped : queue_t :=
  MkQueue [Node 0 7 (d_value 70); Node 0 6 (d_value 60)] 1 0 2 2.

Lemma wrapped_wf : queue_wf wrapped.
Proof. split; cbn; try lia; reflexivity. Qed.

Lemma queue_fifo_witness :
  contents wrapped = [(6, d_value 60); (7, d_value 70)] ∧
  ∃ n q', node_of wrapped (queue_head wrapped) = Ret n ∧
    queue_dequeue_head wrapped = Ret q' ∧ queue_wf q' ∧
    contents wrapped = entry n :: contents q'.
Proof.
  split; [reflexivity|].
  apply (queue_fifo wrapped 0 (d_value 0) wrapped_wf). reflexivity.
Defined.

Section Tail.
Implicit Types (q : queue_t).

Lemma tail_slot q : queue_wf q → 0 < size q → tail q = slot q (size q - 1).
Proof.
  intros H Hs. pose proof (wf_tail_pos q H Hs). pose proof (wf_tail q H).
  unfold slot. replace (head q + (size q - 1)) with (head q + size q - 1) by lia.
  rewrite Zminus_mod, <- (wf_link q H), <- Zminus_mod.
  replace (tail q + 1 - 1) with (tail q) by lia. by rewrite Z.mod_small by lia.
Qed.

Lemma node_of_tail q : queue_wf q → 0 < size q →
  node_of q (queue_tail q) = Ret (nodes q !!! Z.to_nat (slot q (size q - 1))).
Proof.
  intros H Hs. unfold node_of, queue_tail. rewrite (proj2 (Z.eqb_neq _ _)) by lia. obind.
  rewrite <- tail_slot by done. pose proof (wf_tail_pos q H Hs). pose proof (wf_tail q H).
  pose proof (wf_nodes q H).
  destruct (arr_get_lt (nodes q) (tail q)) as [n Hn]; [lia|].
  rewrite Hn. apply arr_get_inv in Hn as [_ Hn].
  f_equal. symmetry. by apply list_lookup_total_correct.
Qed.
End Tail.

(** dequeue_tail removes the newest entry, the one queue_tail points
    to, and keeps the invariant as long as the tail index does not have to
    wrap below 0; when it does (a wrapped queue whose tail is the first slot)
    it leaves the tail at -1 with entries still queued, and following
    queue_tail is an access outside the array. *)
Theorem queue_tail_pop (q : queue_t) :
  queue_wf q → 0 < size q →
  (0 < tail q ∨ size q = 1 → ∃ n q',
     node_of q (queue_tail q) = Ret n ∧ queue_dequeue_tail q = Ret q' ∧ queue_wf q' ∧
     contents q = contents q' ++ [entry n]) ∧
  (tail q = 0 ∧ 1 < size q → ∃ q',
     queue_dequeue_tail q = Ret q' ∧ size q' = size q - 1 ∧ 0 < size q' ∧
     node_of q' (queue_tail q') = Stop UB).
Proof.
  intros H Hs. split.
  - intros Ht. destruct (dequeue_tail_step q H Hs Ht) as (q' & E & Hq' & Ec & Eh & Es & En).
    eexists _, q'. split_and!; [by apply node_of_tail|done|done|].
    by apply contents_drop_last.
  - intros [Ht Hsz]. pose proof (wf_size q H).
    unfold queue_dequeue_tail. rewrite (proj2 (Z.eqb_neq _ _)) by lia.
    unfold rem_. rewrite (proj2 (Z.eqb_neq _ _)) by lia. obind.
    eexists. split; [done|]. cbn [size]. split; [done|]. split; [lia|].
    unfold node_of, queue_tail. cbn [size tail nodes].
    rewrite (proj2 (Z.eqb_neq _ _)) by lia. obind. rewrite Ht.
    change (0 - 1) with (- (1)). rewrite Z.rem_opp_l by lia. rewrite Z.rem_small by lia.
    done.
Qed.

Lemma queue_tail_pop_witness :
  queue_wf wrapped ∧ ∃ q', queue_dequeue_tail wrapped = Ret q' ∧ size q' = size wrapped - 1
    ∧ 0 < size q' ∧ node_of q' (queue_tail q') = Stop UB.
Proof.
  split; [exact wrapped_wf|].
  apply (queue_tail_pop wrapped wrapped_wf eq_refl). split; reflexivity.
Defined.

Lemma iterate_stop q fuel itr : queue_itr_has_next q itr = false →
  iterate (S fuel) q itr = Ret [].
Proof. intros E. cbn [iterate]. by rewrite E. Qed.

Lemma itr_next_straight q k : queue_wf q → head q = 0 → tail q = size q - 1 →
  0 ≤ k < size q →
  queue_itr_next q k = Ret (Some k, if bool_decide (k + 1 = capacity q) then -1 else k + 1).
Proof.
  intros H Hh Ht Hk. pose proof (wf_size q H). pose proof (wf_cap q H).
  assert (Hn : queue_itr_has_next q k = true) by (unfold queue_itr_has_next; lia).
  unfold queue_itr_next. rewrite Hn. cbn [negb].
  rewrite rem_pos by lia. obind. unfold queue_head.
  rewrite (proj2 (Z.eqb_neq (size q) 0)), Hh by lia.
  replace (queue_node q k) with (Some k) by (unfold queue_node; by rewrite Hn).
  case_bool_decide as En; case_bool_decide as Ec; try done.
  - rewrite Z.mod_small in En by lia. unfold queue_node in En.
    destruct (queue_itr_has_next q (k + 1)); [|done]. injection En; lia.
  - destruct En. rewrite Ec, Z.mod_same by lia. unfold queue_node.
    by replace (queue_itr_has_next q 0) with true by (unfold queue_itr_has_next; lia).
  - by rewrite Z.mod_small by lia.
Qed.

Lemma iterate_straight q fuel k itr : queue_wf q → head q = 0 → tail q = size q - 1 →
  (0 ≤ k ≤ size q ∧ itr = k ∨ k = size q ∧ itr = -1) → size q - k < Z.of_nat fuel →
  ∃ ns, iterate fuel q itr = Ret ns ∧
    entry <$> ns = (fun i => entry (nodes q !!! Z.to_nat i)) <$> seqZ k (size q - k).
Proof.
  intros H Hh Ht. revert k itr. induction fuel as [|fuel IH]; intros k itr Hi Hf; [lia|].
  destruct (decide (k = size q)) as [->|Hk].
  { rewrite Z.sub_diag. exists []. split; [|done]. apply iterate_stop.
    unfold queue_itr_has_next. lia. }
  assert (0 ≤ k < size q ∧ itr = k) as [Hk' ->] by lia.
  pose proof (wf_size q H). pose proof (wf_nodes q H).
  cbn [iterate]. replace (queue_itr_has_next q k) with true by (unfold queue_itr_has_next; lia).
  rewrite itr_next_straight by done. obind. unfold node_of. obind.
  destruct (arr_get_lt (nodes q) k) as [n Hn]; [lia|]. rewrite Hn. obind.
  destruct (IH (k + 1) (if bool_decide (k + 1 = capacity q) then -1 else k + 1)) as (ns & E & En);
    [case_bool_decide; lia|lia|].
  rewrite E. obind. exists (n :: ns). split; [done|].
  rewrite seqZ_cons by lia. rewrite !fmap_cons, En. f_equal.
  - apply arr_get_inv in Hn as [_ Hn]. by rewrite (list_lookup_total_correct _ _ _ Hn).
  - do 2 f_equal; lia.
Qed.

(** Iterating with queue_itr_begin/has_next/next visits exactly the
    contents in order as long as nothing was dequeued from the head (the only
    way the client uses its queues), and visits nothing at all when the
    contents wraps around the end of the array. *)
Theorem queue_iteration (q : queue_t) :
  queue_wf q →
  (head q = 0 → ∃ ns, iteration q = Ret ns ∧ entry <$> ns = contents q) ∧
  (tail q < head q → iteration q = Ret []).
Proof.
  intros H. pose proof (wf_size q H). pose proof (wf_cap q H). pose proof (wf_tail q H).
  split.
  - intros Hh. destruct (decide (size q = 0)) as [E|E].
    { exists []. split; [|unfold contents; by rewrite E].
      apply iterate_stop. unfold queue_itr_has_next. by rewrite E. }
    assert (Ht : tail q = size q - 1).
    { rewrite tail_slot by (done || lia). unfold slot. rewrite Hh, Z.mod_small; lia. }
    destruct (iterate_straight q (S (Z.to_nat (capacity q))) 0 0 H Hh Ht) as (ns & En & Em);
      [lia|lia|].
    exists ns. unfold iteration, queue_itr_begin. rewrite Hh. split; [done|].
    rewrite Em, Z.sub_0_r. unfold contents. apply list_fmap_ext. intros i x [Hx ?]%lookup_seqZ.
    unfold slot. rewrite Hh, Z.mod_small by lia. do 3 f_equal.
  - intros Ht. apply iterate_stop. unfold queue_itr_has_next, queue_itr_begin. lia.
Qed.

Lemma queue_iteration_witness :
  queue_wf wrapped ∧ contents wrapped ≠ [] ∧ iteration wrapped = Ret [].
Proof.
  split; [exact wrapped_wf|]. split; [discriminate|].
  apply (queue_iteration wrapped wrapped_wf). reflexivity.
Defined.

End Queue.
