(* ===== verification/PQueue.v ===== *)
(** * Priority queue (src/src/priority_queue.h, priority_queue.c)

    A binary min-heap of node identifiers over a fixed array of nodes, with a
    stack of free identifiers. The [node_t *] handed to the caller is the index
    of the node in the array: the caller keeps it (req_info_t.timeout_node) and
    removes through it later, so the specification is a map [live] from handles
    to keys and data, in which handles are stable. *)

From Stdlib Require Import Sorting.Sorted Sorting.Permutation.
From S2P Require Import Prelude Queue.

Local Open Scope Z_scope.

Module PQueue.

Record pqueue_t := MkPQueue {
  nodes : list node_t;
  heap : list Z;
  stack : list Z;
  size : Z;
  capacity : Z
}.

(** ** Operations *)

(** the arrays of nodes and heap entries are uninitialised memory *)
Definition pqueue_alloc (cap : Z) (junk_nodes : Z → node_t) (junk_heap : Z → Z) : pqueue_t :=
  MkPQueue (junk_nodes <$> seqZ 0 cap) (junk_heap <$> seqZ 0 cap) (seqZ 0 cap) 0 (s32 cap).

Definition pqueue_size (q : pqueue_t) : Z := size q.
Definition pqueue_capacity (q : pqueue_t) : Z := capacity q.

Definition set_heap_id (n : node_t) (i : Z) : node_t := Node i (key n) (data n).

Definition swap_node (q : pqueue_t) (node0 node1 : Z) : outcome pqueue_t :=
  nd0 ← arr_get (nodes q) node0;
  nd1 ← arr_get (nodes q) node1;
  let i0 := heap_id nd0 in
  let i1 := heap_id nd1 in
  temp ← arr_get (heap q) i0;
  other ← arr_get (heap q) i1;
  h ← arr_set (heap q) i0 other;
  h' ← arr_set h i1 temp;
  ns ← arr_set (nodes q) node0 (set_heap_id nd0 i1);
  nd1' ← arr_get ns node1;
  ns' ← arr_set ns node1 (set_heap_id nd1' i0);
  Ret (MkPQueue ns' h' (stack q) (size q) (capacity q)).

Definition get_parent_node (q : pqueue_t) (node : Z) : outcome (option Z) :=
  nd ← arr_get (nodes q) node;
  if heap_id nd =? 0 then Ret None
  else p ← arr_get (heap q) ((heap_id nd - 1) / 2); Ret (Some p).

(** the indices are [uint32_t]; [queue->size] is converted for the comparison *)
Definition get_child_node (q : pqueue_t) (node : Z) : outcome (option Z) :=
  nd ← arr_get (nodes q) node;
  let child1_idx := u32 (2 * heap_id nd + 1) in
  let child2_idx := u32 (2 * heap_id nd + 2) in
  if u32 (size q) <=? child1_idx then Ret None
  else if u32 (size q) <=? child2_idx then
    c ← arr_get (heap q) child1_idx; Ret (Some c)
  else
    child1 ← arr_get (heap q) child1_idx;
    child2 ← arr_get (heap q) child2_idx;
    nd1 ← arr_get (nodes q) child1;
    nd2 ← arr_get (nodes q) child2;
    Ret (Some (if key nd1 <? key nd2 then child1 else child2)).

Definition get_node_id (q : pqueue_t) (node : Z) : Z := u32 node.

Fixpoint up_loop (fuel : nat) (q : pqueue_t) (curr_node : Z) (parent_node : option Z)
    : outcome pqueue_t :=
  match fuel, parent_node with
  | _, None => Ret q
  | O, _ => Stop OutOfFuel
  | S fuel, Some p =>
      pn ← arr_get (nodes q) p;
      cn ← arr_get (nodes q) curr_node;
      if key cn <? key pn then
        q' ← swap_node q p curr_node;
        p' ← get_parent_node q' curr_node;
        up_loop fuel q' curr_node p'
      else Ret q
  end.

(** the position of the node decreases at every turn *)
Definition up (q : pqueue_t) (node : Z) : outcome pqueue_t :=
  p ← get_parent_node q node;
  up_loop (S (Z.to_nat (capacity q))) q node p.

Fixpoint down_loop (fuel : nat) (q : pqueue_t) (curr_node : Z) (child_node : option Z)
    : outcome pqueue_t :=
  match fuel, child_node with
  | _, None => Ret q
  | O, _ => Stop OutOfFuel
  | S fuel, Some c =>
      chn ← arr_get (nodes q) c;
      cn ← arr_get (nodes q) curr_node;
      if key chn <? key cn then
        q' ← swap_node q c curr_node;
        c' ← get_child_node q' curr_node;
        down_loop fuel q' curr_node c'
      else Ret q
  end.

(** the position of the node increases at every turn *)
Definition down (q : pqueue_t) (node : Z) : outcome pqueue_t :=
  c ← get_child_node q node;
  down_loop (S (Z.to_nat (capacity q))) q node c.

Definition pqueue_top (q : pqueue_t) : outcome (option Z) :=
  if size q =? 0 then Ret None else p ← arr_get (heap q) 0; Ret (Some p).

Definition pqueue_node_data (q : pqueue_t) (node : Z) : outcome data_t :=
  nd ← arr_get (nodes q) node; Ret (data nd).
Definition pqueue_node_key (q : pqueue_t) (node : Z) : outcome Z :=
  nd ← arr_get (nodes q) node; Ret (key nd).

Definition pqueue_insert (q : pqueue_t) (k : Z) (d : data_t) : outcome (pqueue_t * Z) :=
  node_id ← arr_get (stack q) (capacity q - size q - 1);
  ns ← arr_set (nodes q) node_id (Node (size q) k d);
  h ← arr_set (heap q) (size q) node_id;
  q' ← up (MkPQueue ns h (stack q) (size q + 1) (capacity q)) node_id;
  Ret (q', node_id).

(** the common part of [pqueue_remove] and [pqueue_pop]: the last entry of the
    heap takes the place of [node], whose identifier is pushed on the stack;
    returns the node now at that place *)
Definition detach (q : pqueue_t) (node : Z) : outcome (pqueue_t * Z) :=
  let sz := size q - 1 in
  nd ← arr_get (nodes q) node;
  last ← arr_get (heap q) sz;
  h ← arr_set (heap q) (heap_id nd) last;
  moved ← arr_get h (heap_id nd);
  mn ← arr_get (nodes q) moved;
  ns ← arr_set (nodes q) moved (set_heap_id mn (heap_id nd));
  st ← arr_set (stack q) (capacity q - sz - 1) (get_node_id q node);
  nd' ← arr_get ns node;
  curr_node ← arr_get h (heap_id nd');
  Ret (MkPQueue ns h st sz (capacity q), curr_node).

Definition pqueue_remove (q : pqueue_t) (node : Z) : outcome pqueue_t :=
  '(q1, curr_node) ← detach q node;
  q2 ← up q1 curr_node;
  down q2 curr_node.

Definition pqueue_pop (q : pqueue_t) : outcome pqueue_t :=
  top ← pqueue_top q;
  node ← deref top;
  '(q1, curr_node) ← detach q node;
  down q1 curr_node.

(** ** Specification *)

(** views of the arrays: the node id at a heap position, a free id of the
    stack, the heap position and the key of a node, the key at a position *)
Definition hget (q : pqueue_t) (i : Z) : Z := heap q !!! Z.to_nat i.
Definition sget (q : pqueue_t) (i : Z) : Z := stack q !!! Z.to_nat i.
Definition nget (q : pqueue_t) (n : Z) : node_t := nodes q !!! Z.to_nat n.
Definition kpos (q : pqueue_t) (i : Z) : Z := key (nget q (hget q i)).

Definition parent (i : Z) : Z := (i - 1) / 2.

Lemma parent_range i : 0 < i → 0 ≤ parent i < i.
Proof. unfold parent. intros. dlia. Qed.

Lemma parent_iff c p : 0 < c → parent c = p ↔ c = 2 * p + 1 ∨ c = 2 * p + 2.
Proof. unfold parent. intros. split; dlia. Qed.

(** The arrays agree with each other: positions and nodes are inverse, and
    the identifiers left on the stack are the ones not in the heap. *)
Record base (q : pqueue_t) : Prop := {
  b_cap : 0 < capacity q < 2 ^ 31;
  b_nodes : Z.of_nat (length (nodes q)) = capacity q;
  b_heap : Z.of_nat (length (heap q)) = capacity q;
  b_stack : Z.of_nat (length (stack q)) = capacity q;
  b_size : 0 ≤ size q ≤ capacity q;
  b_pos : ∀ i, 0 ≤ i < size q → 0 ≤ hget q i < capacity q ∧ heap_id (nget q (hget q i)) = i;
  b_free : ∀ j, 0 ≤ j < capacity q - size q → 0 ≤ sget q j < capacity q;
  b_free_inj : ∀ j j', 0 ≤ j < capacity q - size q → 0 ≤ j' < capacity q - size q →
    sget q j = sget q j' → j = j';
  b_disj : ∀ i j, 0 ≤ i < size q → 0 ≤ j < capacity q - size q → hget q i ≠ sget q j
}.

Definition ordered (q : pqueue_t) : Prop :=
  ∀ i, 0 < i < size q → kpos q (parent i) ≤ kpos q i.

Record wf (q : pqueue_t) : Prop := { wf_base :> base q; wf_ordered : ordered q }.

Definition entry (n : node_t) : Z * data_t := (key n, data n).

(** what the queue holds: handle of a queued node ↦ its key and data *)
Definition live (q : pqueue_t) : gmap Z (Z * data_t) :=
  list_to_map ((fun i => (hget q i, entry (nget q (hget q i)))) <$> seqZ 0 (size q)).

(** The order is restored below and above position [p]. *)
Definition near (q : pqueue_t) (p : Z) : Prop :=
  (∀ i, 0 < i < size q → i ≠ p → parent i ≠ p → kpos q (parent i) ≤ kpos q i) ∧
  (∀ c, 0 < p → 0 < c < size q → parent c = p → kpos q (parent p) ≤ kpos q c).
Definition up_inv (q : pqueue_t) (p : Z) : Prop :=
  near q p ∧ ∀ c, 0 < c < size q → parent c = p → kpos q p ≤ kpos q c.
Definition down_inv (q : pqueue_t) (p : Z) : Prop :=
  near q p ∧ (0 < p < size q → kpos q (parent p) ≤ kpos q p).

(** [q'] holds the same entries as [q], perhaps at other positions. *)
Record same_entries (q q' : pqueue_t) : Prop := {
  se_cap : capacity q' = capacity q;
  se_size : size q' = size q;
  se_stack : stack q' = stack q;
  se_entry : ∀ n, 0 ≤ n < capacity q → entry (nget q' n) = entry (nget q n);
  se_ids : ∀ i, 0 ≤ i < size q → ∃ j, 0 ≤ j < size q ∧ hget q' i = hget q j;
  se_ids' : ∀ i, 0 ≤ i < size q → ∃ j, 0 ≤ j < size q ∧ hget q i = hget q' j
}.

Lemma same_entries_refl q : same_entries q q.
Proof. split; eauto. Qed.

Lemma same_entries_trans q1 q2 q3 :
  same_entries q1 q2 → same_entries q2 q3 → same_entries q1 q3.
Proof.
  intros [A1 A2 A3 A4 A5 A6] [B1 B2 B3 B4 B5 B6]. split; try congruence.
  - intros n Hn. rewrite B4 by lia. by apply A4.
  - intros i Hi. destruct (B5 i) as (j & Hj & E); [lia|].
    destruct (A5 j) as (l & Hl & E'); [lia|]. exists l. split; [lia|congruence].
  - intros i Hi. destruct (A6 i) as (j & Hj & E); [lia|].
    destruct (B6 j) as (l & Hl & E'); [lia|]. exists l. split; [lia|congruence].
Qed.

Section Live.
Implicit Types (q : pqueue_t).

Lemma hget_inj q i j : base q → 0 ≤ i < size q → 0 ≤ j < size q →
  hget q i = hget q j → i = j.
Proof.
  intros H Hi Hj E. destruct (b_pos q H i Hi) as [_ Ei]. destruct (b_pos q H j Hj) as [_ Ej].
  congruence.
Qed.

Lemma live_lookup q n e : base q →
  live q !! n = Some e ↔
  ∃ i, 0 ≤ i < size q ∧ hget q i = n ∧ entry (nget q n) = e.
Proof.
  intros H. unfold live. split.
  - intros E%elem_of_list_to_map_2. apply list_elem_of_fmap in E as (i & [= -> ->] & Hi).
    apply elem_of_seqZ in Hi. exists i. split_and!; [lia|lia|done|done].
  - intros (i & Hi & <- & <-). apply elem_of_list_to_map_1.
    + rewrite <- list_fmap_compose. apply NoDup_fmap_2_strong; [|apply NoDup_seqZ].
      intros x y [? ?]%elem_of_seqZ [? ?]%elem_of_seqZ. simpl.
      intros E. apply (hget_inj q); (done || lia).
    + apply list_elem_of_fmap. exists i. split; [done|]. apply elem_of_seqZ. lia.
Qed.

Lemma live_same q q' : base q → base q' → same_entries q q' → live q' = live q.
Proof.
  intros H H' S. apply map_eq. intros n. apply option_eq. intros e.
  rewrite !live_lookup by done. destruct S. split.
  - intros (i & Hi & <- & <-). rewrite se_size0 in Hi.
    destruct (se_ids0 i Hi) as (j & Hj & E). exists j. split_and!; [lia|lia|done|].
    symmetry. rewrite se_entry0; [done|]. rewrite E. by apply (b_pos q H).
  - intros (i & Hi & <- & <-). destruct (se_ids'0 i Hi) as (j & Hj & E).
    exists j. split_and!; [lia|lia|done|]. apply se_entry0. by apply (b_pos q H).
Qed.
End Live.

Section Swap.
Implicit Types (q : pqueue_t).

Lemma nget_ok q n : base q → 0 ≤ n < capacity q → arr_get (nodes q) n = Ret (nget q n).
Proof. intros H Hn. apply arr_get_total. rewrite (b_nodes q H). done. Qed.

Lemma hget_ok q i : base q → 0 ≤ i < capacity q → arr_get (heap q) i = Ret (hget q i).
Proof. intros H Hi. apply arr_get_total. rewrite (b_heap q H). done. Qed.

Definition swapped (q : pqueue_t) (i0 i1 i : Z) : Z :=
  if decide (i = i0) then hget q i1 else if decide (i = i1) then hget q i0 else hget q i.

Lemma swap_spec q i0 i1 : base q → 0 ≤ i0 < size q → 0 ≤ i1 < size q → i0 ≠ i1 →
  ∃ q', swap_node q (hget q i0) (hget q i1) = Ret q' ∧ base q' ∧ same_entries q q'
    ∧ ∀ i, 0 ≤ i < size q → hget q' i = swapped q i0 i1 i.
Proof.
  intros H H0 H1 Hne. pose proof (b_size q H) as Hs.
  destruct (b_pos q H i0 H0) as [R0 P0]. destruct (b_pos q H i1 H1) as [R1 P1].
  assert (Hn : hget q i0 ≠ hget q i1) by (intros E; by apply (hget_inj q) in E).
  pose proof (b_nodes q H) as Ln. pose proof (b_heap q H) as Lh.
  unfold swap_node. rewrite !nget_ok by done. obind. rewrite P0, P1.
  rewrite !hget_ok by (done || lia). obind.
  rewrite !arr_set_ok by (rewrite ?length_insert; lia). obind.
  rewrite arr_set_ok by (rewrite ?length_insert; lia). obind.
  rewrite arr_get_insert, decide_False by (done || lia).
  rewrite nget_ok by done. obind.
  rewrite arr_set_ok by (rewrite ?length_insert; lia). obind.
  eexists. split; [done|].
  set (q' := MkPQueue _ _ _ _ _).
  assert (Eh : ∀ i, 0 ≤ i < capacity q → hget q' i = swapped q i0 i1 i).
  { intros i Hi. unfold hget at 1, swapped; cbn [q' heap].
    rewrite !lookup_total_insert_Z by (rewrite ?length_insert; lia).
    unfold hget. repeat case_decide; congruence. }
  assert (En : ∀ n, 0 ≤ n < capacity q → nget q' n =
    if decide (n = hget q i1) then set_heap_id (nget q n) i0
    else if decide (n = hget q i0) then set_heap_id (nget q n) i1 else nget q n).
  { intros n Hn'. unfold nget at 1; cbn [q' nodes].
    rewrite !lookup_total_insert_Z by (rewrite ?length_insert; lia).
    unfold nget. repeat case_decide; congruence. }
  split_and!.
  - split; cbn [q' capacity size nodes heap stack]; rewrite ?length_insert;
      [apply H|done|done|apply H|apply H| |apply (b_free q H)|apply (b_free_inj q H)|].
    + intros i Hi. rewrite Eh by lia. unfold swapped.
      destruct (b_pos q H i Hi) as [R P].
      destruct (decide (i = i0)) as [->|N0]; [|destruct (decide (i = i1)) as [->|N1]].
      * split; [done|]. by rewrite En, decide_True by done.
      * split; [done|]. by rewrite En, decide_False, decide_True by done.
      * split; [done|]. rewrite En by done.
        rewrite !decide_False; [done|intros E; by apply (hget_inj q) in E..].
    + intros i j Hi Hj. rewrite Eh by lia. unfold swapped.
      change (sget q' j) with (sget q j).
      repeat case_decide; by apply (b_disj q H).
  - split; cbn [q' capacity size stack]; try done.
    + intros n Hn'. rewrite En by lia. repeat case_decide; done.
    + intros i Hi. rewrite Eh by lia. unfold swapped. repeat case_decide; eauto.
    + intros i Hi. exists (if decide (i = i0) then i1 else if decide (i = i1) then i0 else i).
      split; [repeat case_decide; lia|]. rewrite Eh by (repeat case_decide; lia).
      unfold swapped. repeat case_decide; congruence.
  - intros i Hi. apply Eh. lia.
Qed.

Lemma kpos_same q q' i : base q' → same_entries q q' → 0 ≤ i < size q →
  kpos q' i = key (nget q (hget q' i)).
Proof.
  intros H' S Hi. unfold kpos. destruct S.
  assert (E : entry (nget q' (hget q' i)) = entry (nget q (hget q' i))).
  { apply se_entry0. rewrite <- se_cap0. apply (b_pos q' H'). lia. }
  by injection E.
Qed.

Lemma kpos_swap q q' i0 i1 i : base q' → same_entries q q' →
  (∀ i, 0 ≤ i < size q → hget q' i = swapped q i0 i1 i) → 0 ≤ i < size q →
  kpos q' i = if decide (i = i0) then kpos q i1 else if decide (i = i1) then kpos q i0 else kpos q i.
Proof.
  intros H' S E Hi. rewrite (kpos_same q) by done. rewrite E by done.
  unfold swapped. by repeat case_decide.
Qed.

Lemma parent_ok q i : base q → 0 ≤ i < size q →
  get_parent_node q (hget q i) = Ret (if decide (i = 0) then None else Some (hget q (parent i))).
Proof.
  intros H Hi. destruct (b_pos q H i Hi) as [R P]. pose proof (b_size q H).
  unfold get_parent_node. rewrite nget_ok by done. obind. rewrite P.
  case_decide as E; [by rewrite E|].
  rewrite (proj2 (Z.eqb_neq i 0)) by done. fold (parent i).
  pose proof (parent_range i). rewrite hget_ok by (done || lia). done.
Qed.

Definition child_pos (q : pqueue_t) (i : Z) : option Z :=
  if decide (size q ≤ 2 * i + 1) then None
  else if decide (size q ≤ 2 * i + 2) then Some (2 * i + 1)
  else Some (if decide (kpos q (2 * i + 1) < kpos q (2 * i + 2)) then 2 * i + 1 else 2 * i + 2).

Lemma child_ok q i : base q → 0 ≤ i < size q →
  get_child_node q (hget q i) = Ret (hget q <$> child_pos q i).
Proof.
  intros H Hi. destruct (b_pos q H i Hi) as [R P].
  pose proof (b_size q H). pose proof (b_cap q H).
  unfold get_child_node, child_pos. rewrite nget_ok by done. obind. rewrite P.
  rewrite !u32_small by lia.
  case_decide; [by rewrite (proj2 (Z.leb_le _ _))|rewrite (proj2 (Z.leb_gt _ _)) by lia].
  case_decide.
  { rewrite (proj2 (Z.leb_le _ _)) by done. rewrite hget_ok by (done || lia). done. }
  rewrite (proj2 (Z.leb_gt _ _)) by lia.
  rewrite !hget_ok by (done || lia). obind.
  destruct (b_pos q H (2 * i + 1)) as [R1 _]; [lia|].
  destruct (b_pos q H (2 * i + 2)) as [R2 _]; [lia|].
  rewrite !nget_ok by done. obind. unfold kpos. cbn.
  case_decide; [rewrite (proj2 (Z.ltb_lt _ _)) by done|rewrite (proj2 (Z.ltb_ge _ _)) by lia]; done.
Qed.
End Swap.

Section Sift.
Implicit Types (q : pqueue_t).

Lemma key_at q i : base q → 0 ≤ i < size q →
  arr_get (nodes q) (hget q i) = Ret (nget q (hget q i)).
Proof. intros H Hi. apply nget_ok; [done|]. by apply (b_pos q H). Qed.

Lemma ordered_up q p : up_inv q p → (0 < p < size q → kpos q (parent p) ≤ kpos q p) → ordered q.
Proof.
  intros [[N G] C] Hp i Hi.
  destruct (decide (i = p)) as [->|]; [by apply Hp|].
  destruct (decide (parent i = p)) as [E|]; [rewrite E; by apply C|by apply N].
Qed.

Lemma up_step q q' p : base q' → same_entries q q' → 0 < p < size q → up_inv q p →
  kpos q p < kpos q (parent p) →
  (∀ i, 0 ≤ i < size q → hget q' i = swapped q (parent p) p i) →
  up_inv q' (parent p).
Proof.
  intros H' S Hp [[N G] C] Hlt E. pose proof (parent_range p) as Hpp.
  pose proof (se_size q q' S) as Es.
  assert (K := fun i => kpos_swap q q' (parent p) p i H' S E). clear E.
  split; [split|].
  - intros i Hi N1 N2. rewrite Es in Hi. pose proof (parent_range i).
    assert (i ≠ p) by (intros ->; done).
    rewrite !K by lia. rewrite (decide_False (P := parent i = parent p)) by done.
    rewrite (decide_False (P := i = parent p)), (decide_False (P := i = p)) by done.
    case_decide as Ei; [|apply N; done || lia].
    apply G; [lia|lia|done].
  - intros c Hpos Hc Ec. rewrite Es in Hc. pose proof (parent_range c).
    pose proof (parent_range (parent p)).
    rewrite !K by lia. rewrite !(decide_False (P := parent (parent p) = _)) by lia.
    rewrite (decide_False (P := c = parent p)) by lia.
    assert (kpos q (parent (parent p)) ≤ kpos q (parent p)) by (apply N; lia).
    case_decide as Ei; [done|].
    assert (kpos q (parent c) ≤ kpos q c) by (apply N; lia). rewrite Ec in *. lia.
  - intros c Hc Ec. rewrite Es in Hc. pose proof (parent_range c).
    rewrite !K by lia. rewrite (decide_True (P := parent p = parent p)) by done.
    rewrite (decide_False (P := c = parent p)) by lia.
    case_decide as Ei; [lia|].
    assert (kpos q (parent c) ≤ kpos q c) by (apply N; lia). rewrite Ec in *. lia.
Qed.

Lemma up_loop_spec fuel q p : base q → 0 ≤ p < size q → up_inv q p → p < Z.of_nat fuel →
  ∃ q', up_loop fuel q (hget q p) (if decide (p = 0) then None else Some (hget q (parent p)))
        = Ret q' ∧ base q' ∧ ordered q' ∧ same_entries q q'.
Proof.
  revert q p. induction fuel as [|fuel IH]; intros q p H Hp U Hf; [lia|].
  destruct (decide (p = 0)) as [->|Hne].
  { exists q. split_and!; [done|done| |apply same_entries_refl].
    apply (ordered_up q 0 U). lia. }
  pose proof (parent_range p) as Hpp.
  cbn [up_loop]. rewrite !key_at by (done || lia). obind.
  fold (kpos q p). fold (kpos q (parent p)).
  destruct (Z.ltb_spec (kpos q p) (kpos q (parent p))) as [Hlt|Hge].
  - destruct (swap_spec q (parent p) p) as (q' & E & H' & S & Eh); [done|lia|lia|lia|].
    rewrite E. obind. pose proof (se_size q q' S) as Es.
    assert (Ec : hget q p = hget q' (parent p)).
    { rewrite Eh by lia. unfold swapped. by rewrite decide_True by done. }
    rewrite Ec. rewrite parent_ok by (done || lia). obind.
    destruct (IH q' (parent p)) as (q'' & E' & ? & ? & ?);
      [done|lia|apply (up_step q q' p); done || lia|lia|].
    exists q''. rewrite E'. split_and!; [done..|]. by eapply same_entries_trans.
  - exists q. split_and!; [done|done| |apply same_entries_refl].
    apply (ordered_up q p U). lia.
Qed.

Lemma up_spec q p : base q → 0 ≤ p < size q → up_inv q p →
  ∃ q', up q (hget q p) = Ret q' ∧ base q' ∧ ordered q' ∧ same_entries q q'.
Proof.
  intros H Hp U. unfold up. rewrite parent_ok by done. obind.
  apply up_loop_spec; try done. pose proof (b_size q H). lia.
Qed.

Lemma child_pos_spec q i : base q → 0 ≤ i < size q →
  match child_pos q i with
  | None => ∀ c, 0 < c < size q → parent c ≠ i
  | Some m => i < m < size q ∧ parent m = i ∧
      ∀ c, 0 < c < size q → parent c = i → kpos q m ≤ kpos q c
  end.
Proof.
  intros H Hi. unfold child_pos.
  assert (P : ∀ c, 0 < c → parent c = i ↔ c = 2 * i + 1 ∨ c = 2 * i + 2) by
    (intros; by apply parent_iff).
  repeat case_decide.
  - intros c Hc Ec. apply P in Ec; lia.
  - split_and!; [lia|lia|apply P; lia|]. intros c Hc [->| ->]%P; lia.
  - split_and!; [lia|lia|apply P; lia|]. intros c Hc [->| ->]%P; lia.
  - split_and!; [lia|lia|apply P; lia|]. intros c Hc [->| ->]%P; lia.
Qed.

Lemma ordered_down q p : down_inv q p →
  (∀ c, 0 < c < size q → parent c = p → kpos q p ≤ kpos q c) → ordered q.
Proof.
  intros [[N G] D] Hc i Hi.
  destruct (decide (parent i = p)) as [E|]; [rewrite E; by apply Hc|].
  destruct (decide (i = p)) as [->|]; [by apply D|by apply N].
Qed.

Lemma down_step q q' p m : base q' → same_entries q q' → 0 ≤ p < m → m < size q →
  parent m = p → (∀ c, 0 < c < size q → parent c = p → kpos q m ≤ kpos q c) →
  down_inv q p → kpos q m < kpos q p →
  (∀ i, 0 ≤ i < size q → hget q' i = swapped q m p i) →
  down_inv q' m.
Proof.
  intros H' S Hp Hm Pm Hmin [[N G] D] Hlt E.
  pose proof (se_size q q' S) as Es.
  assert (K := fun i => kpos_swap q q' m p i H' S E). clear E.
  split; [split|].
  - intros i Hi N1 N2. rewrite Es in Hi. pose proof (parent_range i).
    rewrite !K by lia. rewrite (decide_False (P := parent i = m)) by done.
    rewrite (decide_False (P := i = m)) by done.
    destruct (decide (parent i = p)) as [E1|E1].
    + rewrite (decide_False (P := i = p)) by lia. by apply Hmin.
    + case_decide as Ei; [subst i; apply G; done || lia|by apply N].
  - intros c Hpos Hc Ec. rewrite Es in Hc. pose proof (parent_range c). rewrite Pm.
    rewrite !K by lia.
    rewrite (decide_False (P := p = m)), (decide_True (P := p = p)) by (done || lia).
    rewrite (decide_False (P := c = m)), (decide_False (P := c = p)) by lia.
    rewrite <- Ec. apply N; lia.
  - intros Hm'. rewrite Pm. rewrite !K by lia.
    rewrite (decide_False (P := p = m)), !decide_True by (done || lia). lia.
Qed.

Lemma down_loop_spec fuel q p : base q → 0 ≤ p < size q → down_inv q p →
  size q - p ≤ Z.of_nat fuel →
  ∃ q', down_loop fuel q (hget q p) (hget q <$> child_pos q p) = Ret q'
    ∧ base q' ∧ ordered q' ∧ same_entries q q'.
Proof.
  revert q p. induction fuel as [|fuel IH]; intros q p H Hp D Hf; [lia|].
  pose proof (child_pos_spec q p H Hp) as Hc.
  destruct (child_pos q p) as [m|]; cbn [fmap option_fmap option_map].
  - destruct Hc as (Hm & Pm & Hmin). cbn [down_loop].
    rewrite !key_at by (done || lia). obind.
    fold (kpos q p). fold (kpos q m).
    destruct (Z.ltb_spec (kpos q m) (kpos q p)) as [Hlt|Hge].
    + destruct (swap_spec q m p) as (q' & E & H' & S & Eh); [done|lia|lia|lia|].
      rewrite E. obind. pose proof (se_size q q' S) as Es.
      assert (Ec : hget q p = hget q' m).
      { rewrite Eh by lia. unfold swapped. by rewrite decide_True by done. }
      rewrite Ec. rewrite child_ok by (done || lia). obind.
      destruct (IH q' m) as (q'' & E' & ? & ? & ?);
        [done|lia|apply (down_step q q' p m); done || lia|lia|].
      exists q''. rewrite E'. split_and!; [done..|]. by eapply same_entries_trans.
    + exists q. split_and!; [done|done| |apply same_entries_refl].
      apply (ordered_down q p D). intros c Hc Ec. specialize (Hmin c Hc Ec). lia.
  - exists q. split_and!; [by destruct fuel|done| |apply same_entries_refl].
    apply (ordered_down q p D). intros c Hc' Ec. by destruct (Hc c Hc').
Qed.

Lemma down_spec q p : base q → 0 ≤ p < size q → down_inv q p →
  ∃ q', down q (hget q p) = Ret q' ∧ base q' ∧ ordered q' ∧ same_entries q q'.
Proof.
  intros H Hp D. unfold down. rewrite child_ok by done. obind.
  apply down_loop_spec; try done. pose proof (b_size q H). lia.
Qed.
End Sift.

Section InsertRemove.
Implicit Types (q : pqueue_t).

Lemma live_insert q q1 n e : base q → base q1 → size q1 = size q + 1 →
  (∀ i, 0 ≤ i < size q → hget q1 i = hget q i ∧ hget q i ≠ n
     ∧ entry (nget q1 (hget q i)) = entry (nget q (hget q i))) →
  hget q1 (size q) = n → entry (nget q1 n) = e →
  live q !! n = None ∧ live q1 = <[n := e]> (live q).
Proof.
  intros H H1 Es E En Ee. pose proof (b_size q H).
  assert (L : live q !! n = None).
  { apply eq_None_not_Some. intros [e' (i & Hi & E' & _)%live_lookup]; [|done].
    by destruct (E i Hi) as (_ & ? & _). }
  split; [done|]. apply map_eq. intros x. apply option_eq. intros e'.
  rewrite live_lookup, lookup_insert_Some, live_lookup by done. split.
  - intros (i & Hi & Ex & Ex'). destruct (decide (i = size q)) as [->|Hn].
    + left. rewrite <- Ex, En in *. split; [done|congruence].
    + right. destruct (E i) as (E1 & E2 & E3); [lia|]. rewrite E1 in Ex. subst x.
      split; [done|]. exists i. split_and!; [lia|lia|done|congruence].
  - intros [[<- <-]|(Hx & i & Hi & Ex & Ex')].
    + exists (size q). split_and!; [lia|lia|done|done].
    + destruct (E i) as (E1 & E2 & E3); [lia|]. subst x.
      exists i. split_and!; [lia|lia|congruence|congruence].
Qed.

Lemma insert_base q k d : base q → size q < capacity q →
  let id := sget q (capacity q - size q - 1) in
  let q1 := MkPQueue (<[Z.to_nat id := Node (size q) k d]> (nodes q))
              (<[Z.to_nat (size q) := id]> (heap q)) (stack q) (size q + 1) (capacity q) in
  base q1 ∧ hget q1 (size q) = id ∧ nget q1 id = Node (size q) k d ∧
  (∀ i, 0 ≤ i < size q → hget q1 i = hget q i ∧ hget q i ≠ id
     ∧ nget q1 (hget q i) = nget q (hget q i)).
Proof.
  intros H Hlt id q1. pose proof (b_size q H) as Hs.
  assert (Rid : 0 ≤ id < capacity q) by (apply (b_free q H); lia).
  assert (Eh : ∀ i, 0 ≤ i → hget q1 i = if decide (size q = i) then id else hget q i).
  { intros i Hi. unfold hget; cbn [q1 heap].
    apply lookup_total_insert_Z; [rewrite (b_heap q H); lia|done]. }
  assert (En : ∀ n, 0 ≤ n → nget q1 n = if decide (id = n) then Node (size q) k d else nget q n).
  { intros i Hi. unfold nget; cbn [q1 nodes].
    apply lookup_total_insert_Z; [rewrite (b_nodes q H); lia|done]. }
  assert (Hd : ∀ i, 0 ≤ i < size q → hget q i ≠ id) by (intros; apply (b_disj q H); lia).
  split_and!.
  - split; cbn [q1 capacity size nodes heap stack]; rewrite ?length_insert; try apply H; try lia.
    + intros i Hi. rewrite Eh by lia. case_decide as Ei.
      * split; [done|]. rewrite En, decide_True by (done || lia). done.
      * destruct (b_pos q H i) as [R P]; [lia|]. split; [done|].
        rewrite En, decide_False by (lia || (symmetry; apply Hd; lia) || (intros X; by destruct (Hd i))). done.
    + intros j Hj. apply (b_free q H). lia.
    + intros j j' Hj Hj'. apply (b_free_inj q H); lia.
    + intros i j Hi Hj. change (sget q1 j) with (sget q j). rewrite Eh by lia.
      case_decide; [|apply (b_disj q H); lia].
      intros E. apply (b_free_inj q H) in E; lia.
  - rewrite Eh by lia. by rewrite decide_True.
  - rewrite En by lia. by rewrite decide_True.
  - intros i Hi. pose proof (Hd i Hi). split_and!; [|done|].
    + rewrite Eh, decide_False by lia. done.
    + rewrite En, decide_False by (congruence || apply (b_pos q H i Hi)). done.
Qed.

Lemma insert_spec q k d : wf q → size q < capacity q →
  ∃ q' p, pqueue_insert q k d = Ret (q', p) ∧ wf q' ∧ live q !! p = None ∧
    live q' = <[p := (k, d)]> (live q) ∧ size q' = size q + 1 ∧ capacity q' = capacity q.
Proof.
  intros [H O] Hlt. pose proof (b_size q H) as Hs.
  destruct (insert_base q k d H Hlt) as (H1 & Eh & En & Ei).
  set (id := sget q _) in *. set (q1 := MkPQueue _ _ _ _ _) in *.
  assert (Rid : 0 ≤ id < capacity q) by (apply (b_free q H); lia).
  assert (K : ∀ i, 0 ≤ i < size q → kpos q1 i = kpos q i).
  { intros i Hi. unfold kpos. destruct (Ei i Hi) as (-> & _ & ->). done. }
  destruct (up_spec q1 (size q) H1) as (q' & E & H' & O' & S); [cbn; lia| |].
  { split; [split|]; cbn [q1 size]; intros c Hc.
    - intros Hn Hp. pose proof (parent_range c). rewrite !K by lia. apply O. lia.
    - intros Hc' Ec. pose proof (parent_range c). lia.
    - intros Ec. pose proof (parent_range c). lia. }
  exists q', id. unfold pqueue_insert.
  rewrite arr_get_total by (rewrite (b_stack q H); lia). obind.
  fold (sget q (capacity q - size q - 1)). fold id.
  rewrite (arr_set_ok (nodes q)) by (rewrite (b_nodes q H); lia). obind.
  rewrite arr_set_ok by (rewrite (b_heap q H); lia). obind. fold q1.
  rewrite <- Eh at 1. rewrite E. obind.
  destruct (live_insert q q1 id (k, d)) as [L1 L2]; [done..| |done|by rewrite En|].
  { intros i Hi. destruct (Ei i Hi) as (? & ? & E3). rewrite E3. done. }
  split_and!; [done|by split|done| |apply S|apply S].
  rewrite <- L2. by apply live_same.
Qed.
End InsertRemove.

Section Detach.
Implicit Types (q : pqueue_t).

(** what [detach] leaves when the node at position [p] is taken out *)
Record detached (q : pqueue_t) (p : Z) (q1 : pqueue_t) : Prop := {
  dt_base : base q1;
  dt_size : size q1 = size q - 1;
  dt_cap : capacity q1 = capacity q;
  dt_hget : ∀ i, 0 ≤ i < size q → hget q1 i = if decide (i = p) then hget q (size q - 1) else hget q i;
  dt_entry : ∀ n, 0 ≤ n < capacity q → entry (nget q1 n) = entry (nget q n);
  dt_last : p = size q - 1 → heap_id (nget q1 (hget q p)) = p
}.

Lemma detach_spec q p : base q → 0 ≤ p < size q →
  ∃ q1, detach q (hget q p) = Ret (q1, hget q (size q - 1)) ∧ detached q p q1.
Proof.
  intros H Hp. pose proof (b_size q H) as Hs. pose proof (b_cap q H) as Hc.
  pose proof (b_nodes q H) as Ln. pose proof (b_heap q H) as Lh. pose proof (b_stack q H) as Ls.
  set (sz := size q - 1). assert (Hsz : 0 ≤ sz < size q) by lia.
  destruct (b_pos q H p Hp) as [Rn Pn]. destruct (b_pos q H sz Hsz) as [Rl Pl].
  unfold detach. fold sz. rewrite nget_ok by done. obind. rewrite Pn.
  rewrite hget_ok by (done || lia). obind.
  rewrite (arr_set_ok (heap q)) by lia. obind.
  rewrite arr_get_insert, decide_True by (done || lia). obind.
  rewrite nget_ok by done. obind.
  rewrite (arr_set_ok (nodes q)) by lia. obind.
  unfold get_node_id. rewrite u32_small by lia.
  rewrite (arr_set_ok (stack q)) by lia. obind.
  rewrite arr_get_insert by lia.
  assert (En : ∀ n, 0 ≤ n < capacity q →
    (if decide (hget q sz = n) then Ret (set_heap_id (nget q (hget q sz)) p) else arr_get (nodes q) n)
    = Ret (if decide (hget q sz = n) then set_heap_id (nget q (hget q sz)) p else nget q n)).
  { intros n Hn. case_decide; [done|]. by apply nget_ok. }
  rewrite En by done. obind.
  replace (heap_id (if decide (hget q sz = hget q p) then _ else _)) with p
    by (case_decide; done || by rewrite Pn).
  rewrite arr_get_insert, decide_True by (done || lia). obind.
  eexists. split; [done|].
  set (q1 := MkPQueue _ _ _ _ _).
  assert (Eh : ∀ i, 0 ≤ i < capacity q → hget q1 i = if decide (i = p) then hget q sz else hget q i).
  { intros i Hi. unfold hget; cbn [q1 heap]. rewrite lookup_total_insert_Z by lia.
    repeat case_decide; done. }
  assert (En' : ∀ n, 0 ≤ n < capacity q → nget q1 n =
    if decide (n = hget q sz) then set_heap_id (nget q n) p else nget q n).
  { intros n Hn. unfold nget; cbn [q1 nodes]. rewrite lookup_total_insert_Z by lia.
    repeat case_decide; by subst. }
  assert (Es : ∀ j, 0 ≤ j < capacity q → sget q1 j =
    if decide (j = capacity q - size q) then hget q p else sget q j).
  { intros j Hj. unfold sget; cbn [q1 stack]. rewrite lookup_total_insert_Z by lia.
    repeat case_decide; (done || lia). }
  split; [|done|done|intros; apply Eh; lia| |].
  - split; cbn [q1 capacity size nodes heap stack]; rewrite ?length_insert; fold q1;
      try done; try lia.
    + intros i Hi. rewrite Eh by lia. case_decide as Ei.
      * subst i. split; [done|]. by rewrite En', decide_True by done.
      * destruct (b_pos q H i) as [R P]; [lia|]. split; [done|].
        rewrite En', decide_False; [done|intros E; apply (hget_inj q) in E; done || lia|done].
    + intros j Hj. rewrite Es by lia. case_decide; [done|]. apply (b_free q H). lia.
    + intros j j' Hj Hj'. rewrite !Es by lia. repeat case_decide; try lia; intros E.
      * destruct (b_disj q H p j'); [lia|lia|done].
      * destruct (b_disj q H p j); [lia|lia|done].
      * apply (b_free_inj q H) in E; lia.
    + intros i j Hi Hj. rewrite Eh, Es by lia. repeat case_decide; intros E.
      * apply (hget_inj q) in E; done || lia.
      * by apply (b_disj q H) in E; lia.
      * apply (hget_inj q) in E; done || lia.
      * by apply (b_disj q H) in E; lia.
  - intros n Hn. rewrite En' by done. by case_decide.
  - intros ->. rewrite En', decide_True by done. done.
Qed.

Lemma kpos_detached q p q1 i : base q → 0 ≤ p < size q → detached q p q1 →
  0 ≤ i < size q - 1 → kpos q1 i = if decide (i = p) then kpos q (size q - 1) else kpos q i.
Proof.
  intros H Hp D Hi. unfold kpos. rewrite (dt_hget _ _ _ D) by lia.
  assert (E : ∀ n, 0 ≤ n < capacity q → key (nget q1 n) = key (nget q n)).
  { intros n Hn. pose proof (dt_entry _ _ _ D n Hn) as E. by injection E. }
  case_decide; apply E; apply (b_pos q H); lia.
Qed.

Lemma live_detached q p q1 : base q → 0 ≤ p < size q → detached q p q1 →
  live q1 = delete (hget q p) (live q).
Proof.
  intros H Hp D. pose proof (dt_base _ _ _ D) as H1. pose proof (dt_size _ _ _ D) as Es.
  apply map_eq. intros n. apply option_eq. intros e.
  rewrite lookup_delete_Some, !live_lookup by done. split.
  - intros (i & Hi & En & Ee). rewrite (dt_hget _ _ _ D) in En by lia.
    set (j := if decide (i = p) then size q - 1 else i).
    assert (Hj : 0 ≤ j < size q) by (unfold j; case_decide; lia).
    assert (Ej : hget q j = n) by (unfold j; case_decide; done).
    split.
    + rewrite <- Ej. intros E. apply (hget_inj q) in E; [|done..].
      unfold j in E. case_decide; lia.
    + exists j. split_and!; [lia|lia|done|]. rewrite <- Ee. symmetry.
      apply (dt_entry _ _ _ D). rewrite <- Ej. by apply (b_pos q H).
  - intros (Hn & i & Hi & En & Ee).
    assert (Hip : i ≠ p) by (intros ->; done).
    set (j := if decide (i = size q - 1) then p else i).
    assert (Hj : 0 ≤ j < size q - 1) by (unfold j; case_decide; lia).
    exists j. split_and!; [lia|lia| |].
    + rewrite (dt_hget _ _ _ D) by lia. unfold j. repeat case_decide; congruence || lia.
    + rewrite <- Ee. apply (dt_entry _ _ _ D). rewrite <- En. by apply (b_pos q H).
Qed.

Lemma up_noop q p : base q → 0 ≤ p < size q → (0 < p → kpos q (parent p) ≤ kpos q p) →
  up q (hget q p) = Ret q.
Proof.
  intros H Hp Hk. unfold up. rewrite parent_ok by done. obind. cbn [up_loop].
  case_decide; [done|]. pose proof (parent_range p).
  rewrite !key_at by (done || lia). obind. fold (kpos q p). fold (kpos q (parent p)).
  rewrite (proj2 (Z.ltb_ge _ _)); [done|]. apply Hk. lia.
Qed.

Lemma ordered_down_inv q p : ordered q → 0 ≤ p → down_inv q p.
Proof.
  intros O Hp. split; [split|].
  - intros. by apply O.
  - intros c Hp' Hc Ec. pose proof (parent_range c). pose proof (parent_range p).
    assert (kpos q (parent c) ≤ kpos q c) by (by apply O).
    assert (kpos q (parent p) ≤ kpos q p) by (apply O; lia). rewrite Ec in *. lia.
  - intros. by apply O.
Qed.

Lemma near_detached q p q1 : wf q → 0 ≤ p < size q → detached q p q1 → near q1 p.
Proof.
  intros [H O] Hp D. pose proof (dt_size _ _ _ D) as Es.
  assert (K := fun i => kpos_detached q p q1 i H Hp D). split.
  - intros i Hi N1 N2. pose proof (parent_range i). rewrite !K by lia.
    rewrite !decide_False by done. apply O. lia.
  - intros c Hpos Hc Ec. pose proof (parent_range c). pose proof (parent_range p).
    rewrite !K by lia. rewrite !decide_False by lia.
    assert (kpos q (parent c) ≤ kpos q c) by (apply O; lia).
    assert (kpos q (parent p) ≤ kpos q p) by (apply O; lia). rewrite Ec in *. lia.
Qed.

(** the detached node was the last one: sifting it does nothing *)
Lemma sift_last q p q1 : wf q → 0 ≤ p → p = size q - 1 → detached q p q1 →
  up q1 (hget q p) = Ret q1 ∧ down q1 (hget q p) = Ret q1.
Proof.
  intros [H O] Hp E D. pose proof (dt_base _ _ _ D) as H1. pose proof (dt_size _ _ _ D) as Es.
  pose proof (dt_cap _ _ _ D) as Ec. pose proof (b_size q H). pose proof (b_cap q H).
  destruct (b_pos q H p) as [R P]; [lia|].
  pose proof (dt_last _ _ _ D E) as Hl. pose proof (parent_range p).
  assert (Ek : key (nget q1 (hget q p)) = kpos q p).
  { pose proof (dt_entry _ _ _ D (hget q p) R) as X. by injection X. }
  split.
  - unfold up, get_parent_node. rewrite nget_ok by (done || lia). obind. rewrite Hl.
    destruct (Z.eqb_spec p 0) as [->|Hne]; [done|]. fold (parent p).
    rewrite hget_ok by (done || lia). obind. cbn [up_loop].
    rewrite key_at by (done || lia). obind. rewrite nget_ok by (done || lia). obind.
    fold (kpos q1 (parent p)). rewrite Ek.
    rewrite (kpos_detached q p q1), (decide_False (P := parent p = p)) by (done || lia).
    rewrite (proj2 (Z.ltb_ge _ _)); [done|]. apply O. lia.
  - unfold down, get_child_node. rewrite nget_ok by (done || lia). obind. rewrite Hl.
    rewrite !u32_small by lia. by rewrite (proj2 (Z.leb_le _ _)) by lia.
Qed.
End Detach.

Section Contract.
Implicit Types (q : pqueue_t).

Lemma top_spec q : wf q → 0 < size q →
  pqueue_top q = Ret (Some (hget q 0)) ∧
  live q !! hget q 0 = Some (entry (nget q (hget q 0))).
Proof.
  intros [H O] Hs. pose proof (b_size q H).
  unfold pqueue_top. rewrite (proj2 (Z.eqb_neq _ _)) by lia.
  rewrite hget_ok by (done || lia). obind. split; [done|].
  apply live_lookup; [done|]. exists 0. split_and!; [lia|lia|done|done].
Qed.

(** the root is minimal: by induction on the distance to the root *)
Lemma root_min q : ordered q → ∀ n i, 0 ≤ i < size q → i ≤ Z.of_nat n → kpos q 0 ≤ kpos q i.
Proof.
  intros O. induction n as [|n IH]; intros i Hi Hn.
  - by replace i with 0 by lia.
  - destruct (decide (i = 0)) as [->|Hne]; [done|].
    pose proof (parent_range i). pose proof (O i ltac:(lia)).
    pose proof (IH (parent i) ltac:(lia) ltac:(lia)). lia.
Qed.

(** the entries of an empty queue, and the entry at the root *)
Lemma live_empty q : size q ≤ 0 → live q = ∅.
Proof. intros E. unfold live. by rewrite seqZ_nil by lia. Qed.

Lemma top_min q n k d : wf q → live q !! n = Some (k, d) → 0 < size q ∧ kpos q 0 ≤ k.
Proof.
  intros W (i & Hi & <- & E)%live_lookup; [|apply W]. split; [lia|]. injection E as <- _.
  apply (root_min q (wf_ordered q W) (Z.to_nat i)); lia.
Qed.

Lemma remove_spec q n e : wf q → live q !! n = Some e →
  ∃ q', pqueue_remove q n = Ret q' ∧ wf q' ∧ live q' = delete n (live q)
    ∧ size q' = size q - 1 ∧ capacity q' = capacity q.
Proof.
  intros W L. pose proof (wf_base q W) as H.
  apply live_lookup in L as (p & Hp & <- & _); [|done].
  destruct (detach_spec q p H Hp) as (q1 & E & D).
  pose proof (dt_base _ _ _ D) as H1. pose proof (dt_size _ _ _ D) as Es.
  pose proof (dt_cap _ _ _ D) as Ec.
  unfold pqueue_remove. rewrite E. obind.
  rewrite <- (live_detached q p q1 H Hp D).
  destruct (decide (p = size q - 1)) as [El|Hlt].
  { destruct (sift_last q p q1) as [Eu Ed]; [done|lia|done|done|].
    replace (hget q (size q - 1)) with (hget q p) by (by rewrite <- El).
    rewrite Eu. obind. exists q1. split_and!; [done| |done|done|done].
    split; [done|]. intros i Hi. pose proof (parent_range i).
    rewrite !(kpos_detached q p q1) by (done || lia). rewrite !decide_False by lia.
    apply W. lia. }
  assert (Ehp : hget q (size q - 1) = hget q1 p).
  { rewrite (dt_hget _ _ _ D) by lia. by rewrite decide_True. }
  rewrite Ehp. pose proof (near_detached q p q1 W Hp D) as N.
  destruct (decide (0 < p ∧ kpos q1 p < kpos q1 (parent p))) as [[Hpos Hk]|Hk].
  - destruct (up_spec q1 p) as (q2 & Eu & H2 & O2 & S2); [done|lia| |].
    { split; [done|]. intros c Hc Epc. pose proof (proj2 N c Hpos Hc Epc). lia. }
    destruct (se_ids' _ _ S2 p) as (j & Hj & Ej); [lia|].
    rewrite Eu. obind. rewrite Ej.
    destruct (down_spec q2 j) as (q3 & Ed & H3 & O3 & S3);
      [done|rewrite (se_size _ _ S2); lia|apply ordered_down_inv; done || lia|].
    exists q3. split_and!; [done|by split| | |].
    + rewrite (live_same q2 q3), (live_same q1 q2) by done. done.
    + rewrite (se_size _ _ S3), (se_size _ _ S2). done.
    + rewrite (se_cap _ _ S3), (se_cap _ _ S2). done.
  - rewrite up_noop by (done || lia). obind.
    destruct (down_spec q1 p) as (q3 & Ed & H3 & O3 & S3); [done|lia| |].
    { split; [done|lia]. }
    exists q3. split_and!; [done|by split|by apply live_same| |].
    + by rewrite (se_size _ _ S3).
    + by rewrite (se_cap _ _ S3).
Qed.

Lemma pop_spec q : wf q → 0 < size q →
  ∃ q', pqueue_pop q = Ret q' ∧ wf q' ∧ live q' = delete (hget q 0) (live q)
    ∧ size q' = size q - 1 ∧ capacity q' = capacity q.
Proof.
  intros W Hs. pose proof (wf_base q W) as H. assert (Hp : 0 ≤ 0 < size q) by lia.
  destruct (top_spec q W Hs) as [Et _].
  destruct (detach_spec q 0 H Hp) as (q1 & E & D).
  pose proof (dt_base _ _ _ D) as H1. pose proof (dt_size _ _ _ D) as Es.
  pose proof (dt_cap _ _ _ D) as Ec.
  unfold pqueue_pop. rewrite Et. obind. rewrite E. obind.
  rewrite <- (live_detached q 0 q1 H Hp D).
  destruct (decide (size q = 1)) as [El|Hlt].
  { destruct (sift_last q 0 q1) as [_ Ed]; [done|lia|lia|done|].
    replace (size q - 1) with 0 by lia. exists q1. split_and!; [done| |done|lia|done].
    split; [done|]. intros i Hi. lia. }
  assert (Ehp : hget q (size q - 1) = hget q1 0).
  { rewrite (dt_hget _ _ _ D) by lia. by rewrite decide_True. }
  rewrite Ehp. pose proof (near_detached q 0 q1 W Hp D) as N.
  destruct (down_spec q1 0) as (q3 & Ed & H3 & O3 & S3); [done|lia|split; [done|lia]|].
  exists q3. split_and!; [done|by split|by apply live_same| |].
  - by rewrite (se_size _ _ S3).
  - by rewrite (se_cap _ _ S3).
Qed.
End Contract.

Lemma palloc_wf (cap : Z) jn jh : 0 < cap < 2 ^ 31 →
  wf (pqueue_alloc cap jn jh) ∧ live (pqueue_alloc cap jn jh) = ∅.
Proof.
  intros Hc. split; [|done]. unfold pqueue_alloc.
  rewrite s32_small by (unfold is_int; lia).
  assert (L : ∀ {A} (f : Z → A), Z.of_nat (length (f <$> seqZ 0 cap)) = cap).
  { intros. rewrite length_fmap, length_seqZ. lia. }
  assert (S : ∀ j, 0 ≤ j < cap → seqZ 0 cap !!! Z.to_nat j = j).
  { intros j Hj. apply list_lookup_total_correct. apply lookup_seqZ. lia. }
  split; [split|]; cbn [capacity size nodes heap stack]; try lia; try apply L.
  - rewrite length_seqZ. lia.
  - intros j Hj. unfold sget; cbn [stack]. rewrite S by lia. lia.
  - intros j j' Hj Hj'. unfold sget; cbn [stack]. rewrite !S by lia. done.
  - intros i Hi. cbn in Hi. lia.
Qed.

(** a queue of capacity 4 with the keys 30, 10 and 20 inserted in this order *)
Definition empty4 : pqueue_t := pqueue_alloc 4 (fun _ => Node 0 0 (d_value 0)) (fun _ => 0).
Definition three_q : pqueue_t :=
  MkPQueue [Node 0 0 (d_value 0); Node 2 20 (d_value 200); Node 0 10 (d_value 100);
            Node 1 30 (d_value 300)]
    [2; 3; 1; 0] [0; 1; 2; 3] 3 4.

Lemma empty4_wf : wf empty4.
Proof. by apply palloc_wf. Qed.

Lemma insert_wf q k d q' p : wf q → size q < capacity q →
  pqueue_insert q k d = Ret (q', p) → wf q'.
Proof. intros W Hs E. destruct (insert_spec q k d W Hs) as (? & ? & E' & ? & _). congruence. Qed.

Lemma three_wf : wf three_q.
Proof.
  set (z := Node 0 0 (d_value 0)).
  pose (one_q := MkPQueue [z; z; z; Node 0 30 (d_value 300)] [3; 0; 0; 0] [0; 1; 2; 3] 1 4).
  pose (two_q := MkPQueue [z; z; Node 0 10 (d_value 100); Node 1 30 (d_value 300)]
                   [2; 3; 0; 0] [0; 1; 2; 3] 2 4).
  assert (W1 : wf one_q).
  { apply (insert_wf empty4 30 (d_value 300) one_q 3 empty4_wf); reflexivity. }
  assert (W2 : wf two_q).
  { apply (insert_wf one_q 10 (d_value 100) two_q 2 W1); reflexivity. }
  apply (insert_wf two_q 20 (d_value 200) three_q 1 W2); reflexivity.
Qed.

(** [C37] The heap refines a map from handles to keys and data. Insertion:
    when there is room the node handed back was not in use and the map gains
    exactly the new entry under it; on a full queue the code reads below the
    stack of free nodes. Removal through a handle, wherever its node is in the
    heap, deletes exactly its entry and frees one slot. The top is a queued node
    whose key is minimal, NULL exactly when the queue is empty, and pop deletes
    exactly that node. Every other handle keeps its key and data, and the heap
    is well formed again. *)
Theorem pqueue_refines_map (q : pqueue_t) :
  wf q →
  (∀ k d, size q < capacity q → ∃ q' p, pqueue_insert q k d = Ret (q', p) ∧ wf q' ∧
     live q !! p = None ∧ live q' = <[p := (k, d)]> (live q) ∧
     size q' = size q + 1 ∧ capacity q' = capacity q) ∧
  (∀ k d, size q = capacity q → pqueue_insert q k d = Stop UB) ∧
  (∀ n e, live q !! n = Some e → ∃ q', pqueue_remove q n = Ret q' ∧ wf q' ∧
     live q' = delete n (live q) ∧ size q' = size q - 1 ∧ capacity q' = capacity q) ∧
  (size q = 0 → pqueue_top q = Ret None) ∧
  (0 < size q → ∃ n k d q',
     pqueue_top q = Ret (Some n) ∧ live q !! n = Some (k, d) ∧
     (∀ n' k' d', live q !! n' = Some (k', d') → k ≤ k') ∧
     pqueue_pop q = Ret q' ∧ wf q' ∧ live q' = delete n (live q)).
Proof.
  intros W. split_and!.
  - intros k d. by apply insert_spec.
  - intros k d E. unfold pqueue_insert, arr_get. rewrite decide_False by lia. done.
  - intros n e. by apply remove_spec.
  - intros E. unfold pqueue_top. by rewrite E.
  - intros Hs. destruct (top_spec q W Hs) as [Et El].
    destruct (pop_spec q W Hs) as (q' & Ep & W' & L' & _).
    exists (hget q 0), (kpos q 0), (data (nget q (hget q 0))), q'. split_and!; try done.
    intros n' k' d' (i & Hi & <- & E)%live_lookup; [|apply W].
    injection E as <- <-. fold (kpos q i).
    apply (root_min q (wf_ordered q W) (Z.to_nat i)); lia.
Qed.

Lemma pqueue_refines_map_witness :
  (∃ q' p, pqueue_insert empty4 5 (d_value 50) = Ret (q', p) ∧ wf q' ∧
    live q' = <[p := (5, d_value 50)]> (live empty4)) ∧
  (∃ q', pqueue_remove three_q 3 = Ret q' ∧ wf q' ∧ live q' = delete 3 (live three_q)) ∧
  ∃ n k d q', pqueue_top three_q = Ret (Some n) ∧ live three_q !! n = Some (k, d) ∧
    (∀ n' k' d', live three_q !! n' = Some (k', d') → k ≤ k') ∧
    pqueue_pop three_q = Ret q' ∧ wf q' ∧ live q' = delete n (live three_q).
Proof.
  split_and!.
  - destruct (pqueue_refines_map empty4 empty4_wf) as (H & _).
    destruct (H 5 (d_value 50) eq_refl) as (q' & p & E & W & _ & L & _). by exists q', p.
  - destruct (pqueue_refines_map three_q three_wf) as (_ & _ & H & _).
    destruct (H 3 (30, d_value 300)) as (q' & E & W & L & _); [vm_compute; reflexivity|]. by exists q'.
  - destruct (pqueue_refines_map three_q three_wf) as (_ & _ & _ & _ & H). apply H. reflexivity.
Defined.

End PQueue.
