(* ===== verification/Message.v ===== *)
(** * Messages and their commands (src/src/message.h, message.c)

    A message is a run of bytes: a header ([message_t]: req_id at 0, req_size
    at 4, status at 8) followed by commands of variable size, each a 4-byte
    type followed by the options of that type (x86-64 layout of the structs).
    A [command_t *] or [message_t *] is an offset into the block of memory that
    holds the message, NULL is [None]; pointer arithmetic is unchecked, as in
    the code, and every access is checked against the block.

    [tokens b o e] is the abstract view: the types of the commands a bounded
    walk from [o] can see. The walks of the code are proved to compute
    functions of that list on every contents of the buffer, and those functions
    are proved to follow the grammar of contexts. *)

From stdpp Require Import strings.
From S2P Require Import Prelude.

Local Open Scope Z_scope.

Definition BUF_SIZE : Z := 16 * 1024 * 1024.

(** ** 1. Data *)

(** the enum is read from the wire: every 32-bit value is possible *)
Inductive command_type_t :=
  | COMPUTE | STORE | LOAD | PSKIP | FORWARD_BEGIN | FORWARD_CONTINUE | REPLY | EOM
  | UNKNOWN (v : Z).

#[export] Instance command_type_eq_dec : EqDecision command_type_t.
Proof. solve_decision. Defined.

Definition type_of_Z (v : Z) : command_type_t :=
  match v with
  | 0 => COMPUTE | 1 => STORE | 2 => LOAD | 3 => PSKIP
  | 4 => FORWARD_BEGIN | 5 => FORWARD_CONTINUE | 6 => REPLY | 7 => EOM
  | _ => UNKNOWN v
  end.
Definition type_to_Z (t : command_type_t) : Z :=
  match t with
  | COMPUTE => 0 | STORE => 1 | LOAD => 2 | PSKIP => 3
  | FORWARD_BEGIN => 4 | FORWARD_CONTINUE => 5 | REPLY => 6 | EOM => 7
  | UNKNOWN v => v
  end.

(** proto_t: UDP, TCP, TLS, DPDK *)
Definition UDP : Z := 0.
Definition TCP : Z := 1.
Definition TLS : Z := 2.
Definition DPDK : Z := 3.

(** msg_status_t *)
Definition SUCCESS : Z := 0.
Definition TIMEOUT : Z := 1.
Definition ERR : Z := 2.

(** reply_mode_t *)
Definition REPLY_MODE_NORMAL : Z := 0.
Definition REPLY_MODE_SENDFILE : Z := 1.

(** The options. [fwd_host] and [fwd_port] share their 6 bytes with [fwd_addr]. *)
Record fwd_opts_t := MkFwd {
  pkt_size : Z; fwd_host : Z; fwd_port : Z; timeout : Z; retries : Z; n_ack : Z;
  on_fail_skip : Z; branched : Z; proto : Z }.
Record load_opts_t := MkLoad { load_offset : Z; load_nbytes : Z; load_dev_id : Z }.
Record store_opts_t := MkStore {
  store_offset : Z; store_nbytes : Z; wait_sync : Z; store_dev_id : Z }.
Record comp_opts_t := MkComp { comp_time_us : Z }.
Record reply_opts_t := MkReply { resp_size : Z; mode : Z; reply_dev_id : Z }.

(** sizeof *)
Definition sizeof_command_t : Z := 4.
Definition sizeof_message_t : Z := 12.
Definition sizeof_fwd_opts_t : Z := 24.
Definition sizeof_load_opts_t : Z := 24.
Definition sizeof_store_opts_t : Z := 24.
Definition sizeof_comp_opts_t : Z := 4.
Definition sizeof_reply_opts_t : Z := 12.

(** ** 2. Accesses to the fields *)

Definition get_msg_req_id (b : block) (m : Z) : outcome Z := blk_load 4 b m.
Definition get_msg_req_size (b : block) (m : Z) : outcome Z := blk_load 4 b (m + 4).
Definition get_msg_status (b : block) (m : Z) : outcome Z := blk_load 4 b (m + 8).
Definition set_msg_req_id (b : block) (m v : Z) : outcome block := blk_store 4 b m v.
Definition set_msg_req_size (b : block) (m v : Z) : outcome block := blk_store 4 b (m + 4) v.
Definition set_msg_status (b : block) (m v : Z) : outcome block := blk_store 4 b (m + 8) v.

(** [cmd->cmd] *)
Definition get_cmd (b : block) (cmd : Z) : outcome command_type_t :=
  v ← blk_load 4 b cmd; Ret (type_of_Z v).
Definition set_cmd (b : block) (cmd : Z) (t : command_type_t) : outcome block :=
  blk_store 4 b cmd (type_to_Z t).

(** [cmd_get_opts(fwd_opts_t, cmd)] and so on, all fields at once *)
Definition get_fwd_opts (b : block) (cmd : Z) : outcome fwd_opts_t :=
  let o := cmd + sizeof_command_t in
  a1 ← blk_load 4 b o; a2 ← blk_load 4 b (o + 4); a3 ← blk_load 2 b (o + 8);
  a4 ← blk_load 4 b (o + 12); a5 ← blk_load 1 b (o + 16); a6 ← blk_load 1 b (o + 17);
  a7 ← blk_load 1 b (o + 18); a8 ← blk_load 1 b (o + 19); a9 ← blk_load 4 b (o + 20);
  Ret (MkFwd a1 a2 a3 a4 a5 a6 a7 a8 a9).
Definition set_fwd_opts (b : block) (cmd : Z) (f : fwd_opts_t) : outcome block :=
  let o := cmd + sizeof_command_t in
  b ← blk_store 4 b o (pkt_size f); b ← blk_store 4 b (o + 4) (fwd_host f);
  b ← blk_store 2 b (o + 8) (fwd_port f); b ← blk_store 4 b (o + 12) (timeout f);
  b ← blk_store 1 b (o + 16) (retries f); b ← blk_store 1 b (o + 17) (n_ack f);
  b ← blk_store 1 b (o + 18) (on_fail_skip f); b ← blk_store 1 b (o + 19) (branched f);
  blk_store 4 b (o + 20) (proto f).

Definition get_load_opts (b : block) (cmd : Z) : outcome load_opts_t :=
  let o := cmd + sizeof_command_t in
  a1 ← blk_load 8 b o; a2 ← blk_load 8 b (o + 8); a3 ← blk_load 1 b (o + 16);
  Ret (MkLoad a1 a2 a3).
Definition set_load_opts (b : block) (cmd : Z) (l : load_opts_t) : outcome block :=
  let o := cmd + sizeof_command_t in
  b ← blk_store 8 b o (load_offset l); b ← blk_store 8 b (o + 8) (load_nbytes l);
  blk_store 1 b (o + 16) (load_dev_id l).

Definition get_store_opts (b : block) (cmd : Z) : outcome store_opts_t :=
  let o := cmd + sizeof_command_t in
  a1 ← blk_load 8 b o; a2 ← blk_load 8 b (o + 8); a3 ← blk_load 1 b (o + 16);
  a4 ← blk_load 1 b (o + 17);
  Ret (MkStore a1 a2 a3 a4).
Definition set_store_opts (b : block) (cmd : Z) (s : store_opts_t) : outcome block :=
  let o := cmd + sizeof_command_t in
  b ← blk_store 8 b o (store_offset s); b ← blk_store 8 b (o + 8) (store_nbytes s);
  b ← blk_store 1 b (o + 16) (wait_sync s); blk_store 1 b (o + 17) (store_dev_id s).

Definition get_comp_opts (b : block) (cmd : Z) : outcome comp_opts_t :=
  MkComp <$> blk_load 4 b (cmd + sizeof_command_t).
Definition set_comp_opts (b : block) (cmd : Z) (c : comp_opts_t) : outcome block :=
  blk_store 4 b (cmd + sizeof_command_t) (comp_time_us c).

Definition get_reply_opts (b : block) (cmd : Z) : outcome reply_opts_t :=
  let o := cmd + sizeof_command_t in
  a1 ← blk_load 4 b o; a2 ← blk_load 4 b (o + 4); a3 ← blk_load 1 b (o + 8);
  Ret (MkReply a1 a2 a3).
Definition set_reply_opts (b : block) (cmd : Z) (r : reply_opts_t) : outcome block :=
  let o := cmd + sizeof_command_t in
  b ← blk_store 4 b o (resp_size r); b ← blk_store 4 b (o + 4) (mode r);
  blk_store 1 b (o + 8) (reply_dev_id r).

(** ** 3. Operations *)

Module Message.

Definition proto_str (p : Z) : outcome string :=
  arr_get ["UDP"; "TCP"; "SSL"; "DPDK"]%string p.
Definition msg_status_str (s : Z) : outcome string :=
  arr_get ["SUCCESS"; "TIMEOUT"; "ERROR"]%string s.

(** the process exits on a value that is not a command *)
Definition get_command_name (t : command_type_t) : outcome string :=
  match t with
  | COMPUTE => Ret "COMPUTE" | STORE => Ret "STORE" | LOAD => Ret "LOAD" | PSKIP => Ret "SKIP"
  | FORWARD_BEGIN => Ret "FORWARD_BEGIN" | FORWARD_CONTINUE => Ret "FORWARD_CONTINUE"
  | REPLY => Ret "REPLY" | EOM => Ret "EOM"
  | UNKNOWN _ => Stop CheckFailed
  end%string.

Definition cmd_type_size (t : command_type_t) : Z :=
  let base := sizeof_command_t in
  match t with
  | REPLY => base + sizeof_reply_opts_t
  | FORWARD_BEGIN | FORWARD_CONTINUE => base + sizeof_fwd_opts_t
  | COMPUTE => base + sizeof_comp_opts_t
  | LOAD => base + sizeof_load_opts_t
  | STORE => base + sizeof_store_opts_t
  | PSKIP | EOM => base
  | UNKNOWN _ => base
  end.

Definition message_first_cmd (m : Z) : Z := m + sizeof_message_t.
Definition message_end (b : block) (m : Z) : outcome Z :=
  s ← get_msg_req_size b m; Ret (m + s).

Definition cmd_in_bounds (b : block) (cmd msg_end : Z) : outcome bool :=
  if msg_end <? cmd + sizeof_command_t then Ret false
  else t ← get_cmd b cmd; Ret (cmd + cmd_type_size t <=? msg_end).

Definition cmd_next (b : block) (cmd : Z) : outcome Z :=
  t ← get_cmd b cmd; Ret (cmd + cmd_type_size t).

Definition cmd_bounded_next (b : block) (cmd msg_end : Z) : outcome (option Z) :=
  t ← get_cmd b cmd;
  let would_be_next := cmd + cmd_type_size t in
  ok ← cmd_in_bounds b would_be_next msg_end;
  Ret (if (ok : bool) then Some would_be_next else None).

(** the [do ... while] of cmd_bounded_skip: [None] is its [return NULL] *)
Fixpoint skip_context (fuel : nat) (b : block) (cmd nested_fwd msg_end : Z) : outcome (option Z) :=
  match fuel with
  | O => Stop OutOfFuel
  | S fuel =>
      next ← cmd_bounded_next b cmd msg_end;
      match next with
      | None => Ret None
      | Some would_be_next =>
          t ← get_cmd b cmd;
          nested_fwd ←
            match t with
            | FORWARD_BEGIN => int_ (nested_fwd + 1)
            | FORWARD_CONTINUE => Ret nested_fwd
            | REPLY =>
                tn ← get_cmd b would_be_next;
                if decide (tn = FORWARD_CONTINUE) then Ret nested_fwd else int_ (nested_fwd - 1)
            | _ => Ret nested_fwd
            end;
          tn ← get_cmd b would_be_next;
          if bool_decide (tn ≠ EOM) && (0 <? nested_fwd)
          then skip_context fuel b would_be_next nested_fwd msg_end
          else Ret (Some would_be_next)
      end
  end.

(** Every command takes at least 4 bytes, so a walk within [msg_end] takes at
    most as many steps as there are bytes. *)
Definition walk_fuel (cmd msg_end : Z) : nat := S (Z.to_nat (msg_end - cmd)).

(** the outer [while], and what follows it *)
Fixpoint skip_loop (fuel : nat) (b : block) (cmd to_skip msg_end : Z) : outcome (option Z) :=
  match fuel with
  | O => Stop OutOfFuel
  | S fuel =>
      t ← get_cmd b cmd;
      if bool_decide (t ≠ EOM) && (0 <? to_skip) then
        r ← skip_context (walk_fuel cmd msg_end) b cmd 0 msg_end;
        match r with
        | None => Ret None
        | Some cmd => skip_loop fuel b cmd (to_skip - 1) msg_end
        end
      else Ret (if 0 <? to_skip then None else Some cmd)
  end.

Definition cmd_bounded_skip (b : block) (cmd : option Z) (to_skip msg_end : Z)
    : outcome (option Z) :=
  match cmd with
  | None => Ret None
  | Some cmd =>
      ok ← cmd_in_bounds b cmd msg_end;
      if negb ok then Ret None
      else skip_loop (walk_fuel cmd msg_end) b cmd to_skip msg_end
  end.

Definition is_forward (t : command_type_t) : bool :=
  match t with FORWARD_BEGIN | FORWARD_CONTINUE => true | _ => false end.

(** the [while] of cmd_bounded_next_forward; [Some cmd] when it is left by its
    condition *)
Fixpoint next_forward_loop (fuel : nat) (b : block) (br : Z) (cmd : option Z) (msg_end : Z)
    : outcome (option Z) :=
  match fuel with
  | O => Stop OutOfFuel
  | S fuel =>
      match cmd with
      | None => Ret None
      | Some cmd =>
          t ← get_cmd b cmd;
          match t with
          | EOM | FORWARD_CONTINUE => Ret (Some cmd)
          | FORWARD_BEGIN =>
              r ← cmd_bounded_skip b (Some cmd) 1 msg_end;
              next_forward_loop fuel b br r msg_end
          | _ =>
              next ← cmd_bounded_next b cmd msg_end;
              match next with
              | None => Ret None
              | Some would_be_next =>
                  tn ← get_cmd b would_be_next;
                  if bool_decide (t = REPLY) && ((br =? 0) || bool_decide (tn ≠ FORWARD_CONTINUE))
                  then Ret None
                  else next_forward_loop fuel b br (Some would_be_next) msg_end
              end
          end
      end
  end.

Definition cmd_bounded_next_forward (b : block) (cmd : option Z) (msg_end : Z)
    : outcome (option Z) :=
  match cmd with
  | None => Ret None
  | Some cmd =>
      ok ← cmd_in_bounds b cmd msg_end;
      if negb ok then Ret None
      else
        t ← get_cmd b cmd;
        _ ← check (is_forward t);
        br ← blk_load 1 b (cmd + sizeof_command_t + 19);
        next ← cmd_bounded_next b cmd msg_end;
        r ← next_forward_loop (walk_fuel cmd msg_end) b br next msg_end;
        match r with
        | None => Ret None
        | Some cmd =>
            ok ← cmd_in_bounds b cmd msg_end;
            t ← (if (ok : bool) then get_cmd b cmd else Ret EOM);
            Ret (if (ok : bool) && bool_decide (t = FORWARD_CONTINUE) then Some cmd else None)
        end
  end.

(** the loop of msg_num_cmd: the number of commands before EOM or the end *)
Fixpoint num_cmd_loop (fuel : nat) (b : block) (cmd msg_end n : Z) : outcome Z :=
  match fuel with
  | O => Stop OutOfFuel
  | S fuel =>
      ok ← cmd_in_bounds b cmd msg_end;
      if negb ok then Ret n
      else
        t ← get_cmd b cmd;
        if decide (t = EOM) then Ret n
        else
          n ← int_ (n + 1);
          cmd ← cmd_next b cmd;
          num_cmd_loop fuel b cmd msg_end n
  end.
Definition msg_num_cmd (b : block) (m : Z) : outcome Z :=
  e ← message_end b m;
  num_cmd_loop (walk_fuel (message_first_cmd m) e) b (message_first_cmd m) e 0.

(** the search for the matching REPLY in message_copy_tail; behind the end of
    the message it takes one step more, to see that there is nothing *)
Fixpoint copy_tail_loop (fuel : nat) (b : block) (itr : option Z) (msg_end : Z)
    : outcome (option Z) :=
  match fuel with
  | O => Stop OutOfFuel
  | S fuel =>
      match itr with
      | None => Ret None
      | Some i =>
          t ← get_cmd b i;
          match t with
          | EOM | REPLY => Ret itr
          | _ => r ← cmd_bounded_skip b itr 1 msg_end; copy_tail_loop fuel b r msg_end
          end
      end
  end.

(** [b] holds [m] and [cmd], [bd] holds [m_dst] (the code copies from a receive
    buffer into a send buffer); returns [bd] as the call leaves it *)
Definition message_copy_tail (b : block) (m : Z) (bd : block) (m_dst : Z) (cmd : Z)
    : outcome (block * option Z) :=
  id ← get_msg_req_id b m;
  bd ← set_msg_req_id bd m_dst id;
  msg_end ← message_end b m;
  itr ← copy_tail_loop (S (walk_fuel cmd msg_end)) b (Some cmd) msg_end;
  match itr with
  | None => Ret (bd, None)
  | Some itr =>
      ok ← cmd_in_bounds b itr msg_end;
      if negb ok then Ret (bd, None)
      else
        t ← get_cmd b itr;
        let cmds_len := itr + cmd_type_size t - cmd in
        let dst_itr := message_first_cmd m_dst in
        avail ← get_msg_req_size bd m_dst;
        if avail <? cmds_len + cmd_type_size EOM then Ret (bd, None)
        else
          bd ← blk_copy b cmd bd dst_itr cmds_len;
          let end_command := dst_itr + cmds_len in
          bd ← set_cmd bd end_command EOM;
          te ← get_cmd bd end_command;
          bd ← set_msg_req_size bd m_dst (end_command + cmd_type_size te - m_dst);
          Ret (bd, Some itr)
  end.

(** what cmd_log prints for a command: its name and the numbers shown; it
    exits on a command its switch does not list *)
Definition cmd_log_opts (b : block) (c : Z) (t : command_type_t) : outcome (list Z) :=
  match t with
  | STORE => o ← get_store_opts b c; Ret [store_nbytes o; wait_sync o; store_offset o]
  | COMPUTE => o ← get_comp_opts b c; Ret [comp_time_us o]
  | LOAD => o ← get_load_opts b c; Ret [load_nbytes o; load_offset o]
  | FORWARD_BEGIN =>
      o ← get_fwd_opts b c;
      Ret [if proto o =? TCP then 1 else 0; fwd_host o; fwd_port o; pkt_size o; retries o;
           timeout o; branched o; n_ack o]
  | FORWARD_CONTINUE =>
      o ← get_fwd_opts b c;
      Ret [if proto o =? TCP then 1 else 0; fwd_host o; fwd_port o; pkt_size o]
  | REPLY => o ← get_reply_opts b c; Ret [resp_size o]
  | _ => Stop CheckFailed
  end.
Fixpoint cmd_log_loop (fuel : nat) (b : block) (c : option Z) (msg_end : Z)
    : outcome (list (string * list Z)) :=
  match fuel with
  | O => Stop OutOfFuel
  | S fuel =>
      match c with
      | None => Ret []
      | Some c =>
          ok ← cmd_in_bounds b c msg_end;
          if negb ok then Ret []
          else
            t ← get_cmd b c;
            if decide (t = EOM) then Ret []
            else
              opts ← cmd_log_opts b c t;
              next ← cmd_bounded_next b c msg_end;
              name ← get_command_name t;
              rest ← cmd_log_loop fuel b next msg_end;
              Ret ((name, opts) :: rest)
      end
  end.
Definition cmd_log (b : block) (cmd msg_end : Z) : outcome (list (string * list Z)) :=
  cmd_log_loop (walk_fuel cmd msg_end) b (Some cmd) msg_end.

End Message.

(** ** 4. The commands a bounded walk can see *)

Import Message.

(** the sizes of the structures in the goal and the hypotheses *)
Ltac sizes := unfold Message.cmd_type_size, sizeof_command_t, sizeof_fwd_opts_t, sizeof_load_opts_t,
  sizeof_store_opts_t, sizeof_comp_opts_t, sizeof_reply_opts_t in *.

Definition ctype (b : block) (o : Z) : command_type_t := type_of_Z (load_le 4 (blk_data b) o).
Definition inb (b : block) (o e : Z) : bool :=
  (o + sizeof_command_t <=? e) && (o + cmd_type_size (ctype b o) <=? e).

(** the types of the commands from [o] on: up to EOM, or to the last command
    that fits below [e] *)
Fixpoint tokens_upto (fuel : nat) (b : block) (o e : Z) : list command_type_t :=
  match fuel with
  | O => []
  | S fuel =>
      if inb b o e then
        let t := ctype b o in
        t :: (if decide (t = EOM) then []
              else tokens_upto fuel b (o + cmd_type_size t) e)
      else []
  end.
Definition tokens (b : block) (o e : Z) : list command_type_t :=
  tokens_upto (walk_fuel o e) b o e.

(** the bytes taken by a list of commands *)
Definition tsize (ts : list command_type_t) : Z := foldr (fun t n => cmd_type_size t + n) 0 ts.

(** ** 5. The walks, on lists of types: what is left of the list *)

Module Walk.

Definition depth_step (t tn : command_type_t) (n : Z) : Z :=
  match t with
  | FORWARD_BEGIN => n + 1
  | REPLY => if decide (tn = FORWARD_CONTINUE) then n else n - 1
  | _ => n
  end.

Fixpoint context (ts : list command_type_t) (n : Z) : option (list command_type_t) :=
  match ts with
  | t :: ((tn :: _) as rest) =>
      let n' := depth_step t tn n in
      if bool_decide (tn ≠ EOM) && (0 <? n') then context rest n' else Some rest
  | _ => None
  end.

Lemma context_cons t tn rest n : context (t :: tn :: rest) n =
  let n' := depth_step t tn n in
  if bool_decide (tn ≠ EOM) && (0 <? n') then context (tn :: rest) n' else Some (tn :: rest).
Proof. done. Qed.

Fixpoint skip (k : nat) (ts : list command_type_t) : option (list command_type_t) :=
  match ts with
  | [] => None
  | t :: _ =>
      match k with
      | O => Some ts
      | S k => if decide (t = EOM) then None else context ts 0 ≫= skip k
      end
  end.

Fixpoint forward_loop (fuel : nat) (br : Z) (ts : list command_type_t)
    : option (list command_type_t) :=
  match fuel with
  | O => None
  | S fuel =>
      match ts with
      | FORWARD_CONTINUE :: _ => Some ts
      | FORWARD_BEGIN :: _ => skip 1 ts ≫= forward_loop fuel br
      | t :: ((tn :: _) as rest) =>
          if decide (t = EOM) then None
          else if bool_decide (t = REPLY) && ((br =? 0) || bool_decide (tn ≠ FORWARD_CONTINUE))
          then None else forward_loop fuel br rest
      | _ => None
      end
  end.
Definition next_forward (br : Z) (ts : list command_type_t) : option (list command_type_t) :=
  match ts with
  | _ :: rest => forward_loop (length ts) br rest
  | [] => None
  end.

(** the commands from the matching REPLY (or EOM) on *)
Fixpoint to_reply (fuel : nat) (ts : list command_type_t) : option (list command_type_t) :=
  match fuel with
  | O => None
  | S fuel =>
      match ts with
      | [] => None
      | EOM :: _ | REPLY :: _ => Some ts
      | _ => skip 1 ts ≫= to_reply fuel
      end
  end.

End Walk.

(** where the commands that are left start *)
Definition at_rest (o : Z) (ts rest : list command_type_t) : Z := o + tsize ts - tsize rest.

(** ** 6. The walks compute those functions, on any contents *)

Section Tokens.
Context (b : block) (e : Z) (He : e ≤ blk_size b).
Implicit Types (o n : Z) (t : command_type_t) (ts : list command_type_t).

Lemma cmd_type_size_range t : 4 ≤ cmd_type_size t ≤ 28.
Proof. destruct t; cbv; split; discriminate. Qed.

Lemma get_cmd_eq o : 0 ≤ o → o + 4 ≤ e → get_cmd b o = Ret (ctype b o).
Proof. intros. unfold get_cmd. rewrite blk_load_ok by lia. done. Qed.

Lemma inb_spec o : inb b o e = true ↔ o + cmd_type_size (ctype b o) ≤ e.
Proof. unfold inb, sizeof_command_t. pose proof (cmd_type_size_range (ctype b o)). lia. Qed.

Lemma in_bounds_eq o : 0 ≤ o → cmd_in_bounds b o e = Ret (inb b o e).
Proof.
  intros Ho. unfold cmd_in_bounds, inb, sizeof_command_t.
  destruct (Z.ltb_spec e (o + 4)).
  - by replace (o + 4 <=? e) with false by lia.
  - rewrite get_cmd_eq by lia. by replace (o + 4 <=? e) with true by lia.
Qed.

Lemma inb_get_cmd o : 0 ≤ o → inb b o e = true → get_cmd b o = Ret (ctype b o).
Proof.
  intros Ho H%inb_spec. pose proof (cmd_type_size_range (ctype b o)).
  apply get_cmd_eq; lia.
Qed.

Lemma bounded_next_eq o : 0 ≤ o → inb b o e = true →
  cmd_bounded_next b o e =
  Ret (if inb b (o + cmd_type_size (ctype b o)) e
       then Some (o + cmd_type_size (ctype b o)) else None).
Proof.
  intros Ho Hi. unfold cmd_bounded_next. rewrite inb_get_cmd by done. obind.
  pose proof (cmd_type_size_range (ctype b o)).
  rewrite in_bounds_eq by lia. done.
Qed.

Lemma tokens_upto_enough f f' o : e - o < Z.of_nat f → e - o < Z.of_nat f' →
  tokens_upto f b o e = tokens_upto f' b o e.
Proof.
  revert f' o. induction f as [|f IH]; intros f' o Hf Hf'.
  - destruct f'; cbn [tokens_upto]; [done|].
    destruct (inb b o e) eqn:E; [|done]. apply inb_spec in E.
    pose proof (cmd_type_size_range (ctype b o)). lia.
  - destruct f' as [|f']; cbn [tokens_upto]; (destruct (inb b o e) eqn:E; [|done]);
      apply inb_spec in E; pose proof (cmd_type_size_range (ctype b o)); [lia|].
    f_equal. case_decide; [done|]. apply IH; lia.
Qed.

Lemma tokens_eq o : tokens b o e =
  if inb b o e then
    ctype b o :: (if decide (ctype b o = EOM) then [] else tokens b (o + cmd_type_size (ctype b o)) e)
  else [].
Proof.
  unfold tokens at 1, walk_fuel. cbn [tokens_upto].
  destruct (inb b o e) eqn:E; [|done]. f_equal. case_decide; [done|].
  apply inb_spec in E. pose proof (cmd_type_size_range (ctype b o)).
  apply tokens_upto_enough; unfold walk_fuel; lia.
Qed.

Lemma tokens_nil o : inb b o e = false → tokens b o e = [].
Proof. intros E. by rewrite tokens_eq, E. Qed.

Lemma tokens_cons_inv o t ts : tokens b o e = t :: ts →
  inb b o e = true ∧ t = ctype b o ∧
  ts = if decide (t = EOM) then [] else tokens b (o + cmd_type_size t) e.
Proof.
  rewrite tokens_eq. destruct (inb b o e); [|done]. intros [= <- <-]. done.
Qed.

Lemma tsize_cons t ts : tsize (t :: ts) = cmd_type_size t + tsize ts.
Proof. done. Qed.

Lemma tsize_nonneg ts : 0 ≤ tsize ts.
Proof. induction ts as [|t ts IH]; [done|]. rewrite tsize_cons. pose proof (cmd_type_size_range t). lia. Qed.

Lemma tsize_app ts ts' : tsize (ts ++ ts') = tsize ts + tsize ts'.
Proof. induction ts as [|t ts IH]; [done|]. rewrite <- app_comm_cons, !tsize_cons. lia. Qed.

Lemma tokens_fit o ts : tokens b o e = ts → ts ≠ [] → o + tsize ts ≤ e.
Proof.
  revert o. induction ts as [|t ts IH]; intros o E Hn; [done|].
  apply tokens_cons_inv in E as (E & -> & Et). apply inb_spec in E.
  rewrite tsize_cons. destruct ts as [|t' ts]; [unfold tsize; cbn [foldr]; lia|].
  case_decide; [done|]. specialize (IH _ (eq_sym Et) ltac:(done)). lia.
Qed.

Lemma tokens_length o ts : tokens b o e = ts → Z.of_nat (length ts) * 4 ≤ tsize ts.
Proof.
  intros _. induction ts as [|t ts IH]; [done|]. cbn [length]. rewrite tsize_cons.
  pose proof (cmd_type_size_range t). lia.
Qed.
End Tokens.

(** what the walks return is described by the rest of the list of tokens *)
Definition walked (b : block) (e o : Z) (r : outcome (option Z))
    (s : option (list command_type_t)) : Prop :=
  match s with
  | None => r = Ret None
  | Some rest => ∃ o', r = Ret (Some o') ∧ tokens b o' e = rest ∧ rest ≠ [] ∧
      o ≤ o' ∧ o' = at_rest o (tokens b o e) rest
  end.

Section Refinement.
Context (b : block) (e : Z) (He : e ≤ blk_size b) (Hmax : e < 2 ^ 31).
Implicit Types (o n : Z) (t : command_type_t) (ts : list command_type_t).

Lemma tokens_step o : 0 ≤ o → inb b o e = true → ctype b o ≠ EOM →
  tokens b o e = ctype b o :: tokens b (o + cmd_type_size (ctype b o)) e.
Proof. intros Ho Hi Ht. rewrite tokens_eq at 1. rewrite Hi. by rewrite decide_False. Qed.

Lemma tokens_head o : inb b o e = true → ∃ ts, tokens b o e = ctype b o :: ts.
Proof. intros H. rewrite tokens_eq, H. eauto. Qed.

Lemma walked_step o o' r s : 0 ≤ o → inb b o e = true → ctype b o ≠ EOM →
  o' = o + cmd_type_size (ctype b o) →
  walked b e o' r s → walked b e o r s.
Proof.
  intros Ho Hi Ht ->. destruct s as [rest|]; [|done].
  intros (o'' & -> & E & Hn & Hle & Eo). exists o''.
  pose proof (cmd_type_size_range (ctype b o)). split_and!; try done; [lia|].
  rewrite Eo. unfold at_rest. rewrite (tokens_step o) by done. rewrite tsize_cons. lia.
Qed.

Lemma walked_here o : inb b o e = true → walked b e o (Ret (Some o)) (Some (tokens b o e)).
Proof.
  intros Hi. exists o. split_and!; try done; [|unfold at_rest; lia].
  destruct (tokens_head o Hi) as [ts ->]. done.
Qed.

Lemma skip_context_walked fuel o n :
  0 ≤ o → e - o < Z.of_nat fuel → inb b o e = true → ctype b o ≠ EOM →
  0 ≤ n → n + (e - o) < 2 ^ 31 →
  walked b e o (skip_context fuel b o n e) (Walk.context (tokens b o e) n) ∧
  ∀ o', skip_context fuel b o n e = Ret (Some o') → o < o'.
Proof.
  revert o n. induction fuel as [|fuel IH]; intros o n Ho Hf Hi Ht Hn Hno.
  { apply inb_spec in Hi. pose proof (cmd_type_size_range (ctype b o)). lia. }
  pose proof (cmd_type_size_range (ctype b o)) as Hsz.
  set (o1 := o + cmd_type_size (ctype b o)) in *.
  cbn [skip_context]. rewrite bounded_next_eq by done. obind. fold o1.
  destruct (inb b o1 e) eqn:Hi1.
  2: { split; [|done]. rewrite tokens_step by done. fold o1. by rewrite (tokens_nil b e o1). }
  assert (He1 : o1 ≤ e).
  { apply inb_spec in Hi. unfold o1. lia. }
  rewrite !(inb_get_cmd b e He) by (done || lia). obind.
  assert (En : match ctype b o with
    | FORWARD_BEGIN => int_ (n + 1)
    | REPLY => if decide (ctype b o1 = FORWARD_CONTINUE) then Ret n else int_ (n - 1)
    | _ => Ret n end = Ret (Walk.depth_step (ctype b o) (ctype b o1) n)).
  { unfold Walk.depth_step. destruct (ctype b o); try done;
      repeat case_decide; try done; apply int_ok; unfold is_int; lia. }
  rewrite En. obind. rewrite tokens_step by done. fold o1.
  destruct (tokens_head o1 Hi1) as [rest Er].
  rewrite Er, Walk.context_cons, <- Er. cbv zeta.
  set (n' := Walk.depth_step (ctype b o) (ctype b o1) n).
  assert (Hn' : n - 1 ≤ n' ≤ n + 1).
  { unfold n', Walk.depth_step. destruct (ctype b o); try lia. case_decide; lia. }
  destruct (bool_decide (ctype b o1 ≠ EOM) && (0 <? n')) eqn:Eb.
  - apply andb_prop in Eb as [Eb1%bool_decide_eq_true Eb2].
    destruct (IH o1 n') as [W Hlt]; try (done || lia).
    split; [by apply (walked_step o o1)|]. intros o' E'. specialize (Hlt _ E'). lia.
  - split; [|intros o' [= <-]; lia].
    apply (walked_step o o1); try done. by apply walked_here.
Qed.

Lemma skip_loop_walked fuel o k :
  0 ≤ o → e - o < Z.of_nat fuel → inb b o e = true →
  walked b e o (skip_loop fuel b o k e) (Walk.skip (Z.to_nat k) (tokens b o e)).
Proof.
  revert o k. induction fuel as [|fuel IH]; intros o k Ho Hf Hi.
  { apply inb_spec in Hi. pose proof (cmd_type_size_range (ctype b o)). lia. }
  cbn [skip_loop]. rewrite (inb_get_cmd b e He) by done. obind.
  destruct (tokens_head o Hi) as [ts Et].
  destruct (Z.ltb_spec 0 k) as [Hk0|Hk0].
  2: { rewrite andb_false_r. replace (Z.to_nat k) with O by lia. rewrite Et. cbn [Walk.skip].
       rewrite <- Et. by apply walked_here. }
  rewrite andb_true_r. replace (Z.to_nat k) with (S (Z.to_nat (k - 1))) by lia.
  rewrite Et. cbn [Walk.skip]. rewrite <- Et.
  destruct (decide (ctype b o = EOM)) as [Eo|Eo].
  { rewrite bool_decide_false by naive_solver. exact eq_refl. }
  rewrite bool_decide_true by done.
  destruct (skip_context_walked (walk_fuel o e) o 0) as [W Hlt];
    try (done || (unfold walk_fuel; lia)).
  destruct (Walk.context (tokens b o e) 0) as [rest|]; cbn [walked] in W |- *.
  2: { by rewrite W. }
  destruct W as (o1 & E1 & Er & Hne & Hle & Hat). specialize (Hlt _ E1). rewrite E1. obind.
  assert (Hi1 : inb b o1 e = true).
  { destruct (inb b o1 e) eqn:X; [done|]. by rewrite tokens_nil in Er. }
  cbn [mbind option_bind]. rewrite <- Er.
  pose proof (IH o1 (k - 1) ltac:(lia) ltac:(lia) Hi1) as W.
  destruct (Walk.skip (Z.to_nat (k - 1)) (tokens b o1 e)) as [rest'|]; cbn [walked] in W |- *; [|done].
  destruct W as (o2 & -> & Er' & Hne' & Hle' & Hat'). exists o2. split_and!; try done; [lia|].
  unfold at_rest in *. rewrite <- Er in Hat. lia.
Qed.

Lemma skip_walked o k : 0 ≤ o →
  walked b e o (cmd_bounded_skip b (Some o) k e) (Walk.skip (Z.to_nat k) (tokens b o e)).
Proof.
  intros Ho. unfold cmd_bounded_skip. rewrite in_bounds_eq by done. obind.
  destruct (inb b o e) eqn:Hi; cbn [negb].
  - apply skip_loop_walked; try done. unfold walk_fuel. lia.
  - rewrite tokens_nil by done. by destruct (Z.to_nat k).
Qed.
End Refinement.

(** a walk ends strictly further on *)
Lemma context_suffix ts n rest : Walk.context ts n = Some rest →
  ∃ t pre, ts = t :: pre ++ rest ∧ rest ≠ [].
Proof.
  revert n. induction ts as [|t ts IH]; intros n E; [done|].
  destruct ts as [|tn ts]; [done|]. rewrite Walk.context_cons in E. cbv zeta in E.
  destruct (_ && _).
  - destruct (IH _ E) as (t' & pre & -> & Hn). by exists t, (t' :: pre).
  - injection E as <-. by exists t, [].
Qed.

Lemma skip_suffix k ts rest : Walk.skip k ts = Some rest →
  ∃ pre, ts = pre ++ rest ∧ rest ≠ [] ∧ (0 < k → pre ≠ [])%nat.
Proof.
  revert ts. induction k as [|k IH]; intros [|t ts] E; try done; cbn [Walk.skip] in E.
  - injection E as <-. exists []. split_and!; [done..|lia].
  - case_decide; [done|]. apply bind_Some in E as (r & Er & E).
    apply context_suffix in Er as (t' & pre & Et & Hn).
    apply IH in E as (pre' & -> & Hn' & _).
    exists (t' :: pre ++ pre'). by rewrite Et, <- app_comm_cons, <- app_assoc.
Qed.

Lemma tsize_pos ts : ts ≠ [] → 4 ≤ tsize ts.
Proof.
  destruct ts as [|t ts]; [done|]. intros _. rewrite tsize_cons.
  pose proof (cmd_type_size_range t). pose proof (tsize_nonneg ts). lia.
Qed.

Section Refinement2.
Context (b : block) (e : Z) (He : e ≤ blk_size b) (Hmax : e < 2 ^ 31).
Implicit Types (o n : Z) (t : command_type_t) (ts : list command_type_t).

(** one bounded step, on the list: to the second command *)
Lemma next_walked o : 0 ≤ o → inb b o e = true → ctype b o ≠ EOM →
  walked b e o (cmd_bounded_next b o e)
    (match tokens b o e with _ :: ((_ :: _) as rest) => Some rest | _ => None end).
Proof.
  intros Ho Hi Ht. rewrite (bounded_next_eq b e He) by done. rewrite tokens_step by done.
  pose proof (cmd_type_size_range (ctype b o)).
  destruct (inb b (o + cmd_type_size (ctype b o)) e) eqn:Hi1.
  - destruct (tokens_head b e _ Hi1) as [ts Et]. rewrite Et, <- Et.
    eapply walked_step; try done. by apply walked_here.
  - rewrite (tokens_nil _ _ _ Hi1). exact eq_refl.
Qed.

Lemma walked_trans o o1 r s : walked b e o (Ret (Some o1)) (Some (tokens b o1 e)) →
  walked b e o1 r s → walked b e o r s.
Proof.
  intros (o1' & [= <-] & _ & _ & Hle & Hat) W. destruct s as [rest|]; [|done].
  destruct W as (o2 & -> & E & Hn & Hle' & Hat'). exists o2. split_and!; try done; [lia|].
  unfold at_rest in *. lia.
Qed.

Lemma walked_inv o r rest : walked b e o r (Some rest) →
  ∃ o', r = Ret (Some o') ∧ tokens b o' e = rest ∧ inb b o' e = true ∧ o ≤ o' ∧
    walked b e o (Ret (Some o')) (Some (tokens b o' e)) ∧ o' = at_rest o (tokens b o e) rest.
Proof.
  intros (o' & -> & E & Hn & Hle & Hat). exists o'.
  assert (Hi : inb b o' e = true).
  { destruct (inb b o' e) eqn:X; [done|]. by rewrite tokens_nil in E. }
  split_and!; try done. rewrite E. exists o'. by split_and!.
Qed.

(** the loop of cmd_bounded_next_forward may also stop on EOM, which the code
  rejects after the loop *)
Definition forward_found (r : outcome (option Z)) : outcome (option Z) :=
  i ← r;
  match i with
  | None => Ret None
  | Some cmd =>
      ok ← cmd_in_bounds b cmd e;
      t ← (if (ok : bool) then get_cmd b cmd else Ret EOM);
      Ret (if (ok : bool) && bool_decide (t = FORWARD_CONTINUE) then Some cmd else None)
  end.

Lemma forward_found_here o : 0 ≤ o → inb b o e = true →
  forward_found (Ret (Some o)) =
  Ret (if decide (ctype b o = FORWARD_CONTINUE) then Some o else None).
Proof.
  intros Ho Hi. unfold forward_found. obind. rewrite (in_bounds_eq b e He) by done. obind.
  rewrite Hi, (inb_get_cmd b e He) by done. obind. rewrite andb_true_l.
  case_decide; [by rewrite bool_decide_true|by rewrite bool_decide_false].
Qed.

Lemma forward_loop_walked fuel f' br o : 0 ≤ o → inb b o e = true →
  e - o < Z.of_nat fuel → (length (tokens b o e) < f')%nat →
  walked b e o (forward_found (next_forward_loop fuel b br (Some o) e))
    (Walk.forward_loop f' br (tokens b o e)).
Proof.
  revert f' o. induction fuel as [|fuel IH]; intros f' o Ho Hi Hf Hf'.
  { apply inb_spec in Hi. pose proof (cmd_type_size_range (ctype b o)). lia. }
  destruct f' as [|f']; [lia|]. cbn [next_forward_loop].
  rewrite (inb_get_cmd b e He) by done. obind.
  destruct (tokens_head b e o Hi) as [ts Et].
  assert (Hnext : ctype b o ≠ EOM → ctype b o ≠ FORWARD_CONTINUE → ctype b o ≠ FORWARD_BEGIN →
    walked b e o (forward_found
      (next ← cmd_bounded_next b o e;
       match next with
       | None => Ret None
       | Some w =>
           tn ← get_cmd b w;
           if bool_decide (ctype b o = REPLY) && ((br =? 0) || bool_decide (tn ≠ FORWARD_CONTINUE))
           then Ret None else next_forward_loop fuel b br (Some w) e
       end))
      match ts with
      | tn :: _ =>
          if decide (ctype b o = EOM) then None
          else if bool_decide (ctype b o = REPLY)
                  && ((br =? 0) || bool_decide (tn ≠ FORWARD_CONTINUE))
          then None else Walk.forward_loop f' br ts
      | [] => None
      end).
  { intros H1 H2 H3. pose proof (next_walked o Ho Hi H1) as W. rewrite Et in W.
    destruct ts as [|tn ts]; [rewrite W; exact eq_refl|].
    destruct (walked_inv _ _ _ W) as (o1 & E1 & Er & Hi1 & Hle & W1 & Hat).
    rewrite E1. obind. rewrite (inb_get_cmd b e He) by (done || lia). obind.
    destruct (tokens_head b e o1 Hi1) as [ts1 Et1].
    assert (tn = ctype b o1) as -> by congruence.
    rewrite decide_False by done. destruct (_ && _); [exact eq_refl|].
    eapply walked_trans; [exact W1|]. rewrite <- Er.
    rewrite Et in Hat. unfold at_rest in Hat. rewrite (tsize_cons (ctype b o)) in Hat.
    pose proof (cmd_type_size_range (ctype b o)).
    apply IH; try (done || lia). rewrite Er. rewrite Et in Hf'. cbn [length] in *. lia. }
  rewrite Et. cbn [Walk.forward_loop].
  destruct (ctype b o) eqn:Ht; try (by apply Hnext).
  - (* FORWARD_BEGIN *)
    rewrite <- Et. pose proof (skip_walked b e He Hmax o 1 Ho) as W.
    change (Z.to_nat 1) with 1%nat in W.
    destruct (Walk.skip 1 (tokens b o e)) as [rest|] eqn:Es.
    2: { cbn [walked] in W. rewrite W. obind. destruct fuel; [|exact eq_refl].
         apply inb_spec in Hi. pose proof (cmd_type_size_range (ctype b o)). lia. }
    destruct (walked_inv _ _ _ W) as (o1 & E1 & Er & Hi1 & Hle & W1 & Hat).
    apply skip_suffix in Es as (pre & Ep & Hn & Hpre). specialize (Hpre ltac:(lia)).
    rewrite E1. obind. cbn [mbind option_bind].
    eapply walked_trans; [exact W1|]. rewrite <- Er.
    unfold at_rest in Hat. rewrite Ep, tsize_app in Hat. pose proof (tsize_pos pre Hpre).
    apply IH; try (done || lia). rewrite Er. rewrite Ep in Hf'. rewrite length_app in Hf'.
    destruct pre; [done|]. cbn [length] in Hf'. lia.
  - (* FORWARD_CONTINUE *)
    rewrite forward_found_here by done. rewrite decide_True by done.
    rewrite <- Et. by apply walked_here.
  - (* EOM *)
    rewrite forward_found_here by done. rewrite decide_False by congruence.
    destruct ts; exact eq_refl.
Qed.

Lemma next_forward_walked o : 0 ≤ o → inb b o e = true → is_forward (ctype b o) = true →
  walked b e o (cmd_bounded_next_forward b (Some o) e)
    (Walk.next_forward (load_le 1 (blk_data b) (o + 23)) (tokens b o e)).
Proof.
  intros Ho Hi Hf. unfold cmd_bounded_next_forward.
  rewrite (in_bounds_eq b e He) by done. obind. rewrite Hi. cbn [negb].
  rewrite (inb_get_cmd b e He) by done. obind. rewrite Hf. cbn [check]. obind.
  assert (Hsz : cmd_type_size (ctype b o) = 28) by (by destruct (ctype b o)).
  pose proof (proj1 (inb_spec b e o) Hi) as Hb.
  unfold sizeof_command_t. rewrite blk_load_ok by lia. obind.
  replace (o + 4 + 19) with (o + 23) by lia.
  set (br := load_le 1 (blk_data b) (o + 23)).
  assert (He' : ctype b o ≠ EOM) by (intros X; by rewrite X in Hf).
  pose proof (next_walked o Ho Hi He') as W.
  destruct (tokens_head b e o Hi) as [ts Et]. rewrite Et in W |- *.
  cbn [Walk.next_forward].
  destruct ts as [|tn ts].
  { rewrite W. obind. unfold walk_fuel. exact eq_refl. }
  destruct (walked_inv _ _ _ W) as (o1 & E1 & Er & Hi1 & Hle & W1 & Hat).
  rewrite E1. obind. rewrite <- Et. eapply walked_trans; [exact W1|]. rewrite <- Er.
  apply forward_loop_walked; try done; [lia|unfold walk_fuel; lia|].
  rewrite Er, Et. cbn [length]. lia.
Qed.

Lemma next_forward_none o : 0 ≤ o → inb b o e = false →
  cmd_bounded_next_forward b (Some o) e = Ret None.
Proof.
  intros Ho Hi. unfold cmd_bounded_next_forward.
  rewrite (in_bounds_eq b e He) by done. obind. by rewrite Hi.
Qed.

Lemma to_reply_walked fuel f' o : 0 ≤ o → inb b o e = true →
  e - o < Z.of_nat fuel → (length (tokens b o e) < f')%nat →
  walked b e o (copy_tail_loop fuel b (Some o) e) (Walk.to_reply f' (tokens b o e)).
Proof.
  revert f' o. induction fuel as [|fuel IH]; intros f' o Ho Hi Hf Hf'.
  { apply inb_spec in Hi. pose proof (cmd_type_size_range (ctype b o)). lia. }
  destruct f' as [|f']; [lia|]. cbn [copy_tail_loop].
  rewrite (inb_get_cmd b e He) by done. obind.
  destruct (tokens_head b e o Hi) as [ts Et].
  assert (Hskip : walked b e o
    (r ← cmd_bounded_skip b (Some o) 1 e; copy_tail_loop fuel b r e)
    (Walk.skip 1 (tokens b o e) ≫= Walk.to_reply f')).
  { pose proof (skip_walked b e He Hmax o 1 Ho) as W. change (Z.to_nat 1) with 1%nat in W.
    destruct (Walk.skip 1 (tokens b o e)) as [rest|] eqn:Es.
    2: { cbn [walked] in W. rewrite W. obind. destruct fuel; [|exact eq_refl].
         apply inb_spec in Hi. pose proof (cmd_type_size_range (ctype b o)). lia. }
    destruct (walked_inv _ _ _ W) as (o1 & E1 & Er & Hi1 & Hle & W1 & Hat).
    apply skip_suffix in Es as (pre & Ep & Hn & Hpre). specialize (Hpre ltac:(lia)).
    rewrite E1. obind. cbn [mbind option_bind].
    eapply walked_trans; [exact W1|]. rewrite <- Er.
    unfold at_rest in Hat. rewrite Ep, tsize_app in Hat. pose proof (tsize_pos pre Hpre).
    apply IH; try (done || lia). rewrite Er. rewrite Ep, length_app in Hf'.
    destruct pre; [done|]. cbn [length] in Hf'. lia. }
  rewrite Et in Hskip |- *. cbn [Walk.to_reply].
  destruct (ctype b o) eqn:Ht; try exact Hskip; rewrite <- Et; by apply walked_here.
Qed.

(** behind the end of the message nothing is found, in the first two steps *)
Lemma to_reply_none fuel o t : 0 ≤ o → inb b o e = false → get_cmd b o = Ret t → t ≠ EOM → t ≠ REPLY →
  copy_tail_loop (S (S fuel)) b (Some o) e = Ret None.
Proof.
  intros Ho Hi Et H1 H2. cbn [copy_tail_loop]. rewrite Et. obind.
  assert (Es : cmd_bounded_skip b (Some o) 1 e = Ret None).
  { unfold cmd_bounded_skip. rewrite (in_bounds_eq b e He) by done. obind. by rewrite Hi. }
  rewrite Es. obind. by destruct t.
Qed.

Lemma num_cmd_loop_tokens fuel o n : 0 ≤ o → Z.max 0 (e - o) < Z.of_nat fuel → 0 ≤ n →
  n + Z.max 0 (e - o) < 2 ^ 31 →
  num_cmd_loop fuel b o e n =
  Ret (n + Z.of_nat (length (filter (fun t => t ≠ EOM) (tokens b o e)))).
Proof.
  revert o n. induction fuel as [|fuel IH]; intros o n Ho Hf Hn Hno.
  - lia.
  - cbn [num_cmd_loop]. rewrite (in_bounds_eq b e He) by done. obind.
    rewrite (tokens_eq b e). destruct (inb b o e) eqn:Hi; cbn [negb].
    2: { cbn. by rewrite Z.add_0_r. }
    rewrite (inb_get_cmd b e He) by done. obind. rewrite filter_cons.
    apply inb_spec in Hi. pose proof (cmd_type_size_range (ctype b o)).
    destruct (decide (ctype b o = EOM)) as [Ht|Ht].
    + rewrite decide_False by naive_solver. cbn. by rewrite Z.add_0_r.
    + rewrite int_ok by (unfold is_int; lia). obind. unfold cmd_next.
      rewrite (get_cmd_eq b e He) by lia. obind.
      rewrite IH by lia. rewrite decide_True by done. cbn [length]. f_equal. lia.
Qed.
End Refinement2.

(** ** 7. The grammar of contexts

    A context is one command, or a FORWARD_BEGIN with its branches: each
    branch is (after the FORWARD_CONTINUEs that list further targets) a
    sequence of contexts closed by a REPLY, and a FORWARD_CONTINUE after that
    REPLY opens the next branch. *)

Definition simple (t : command_type_t) : bool :=
  match t with COMPUTE | STORE | LOAD | PSKIP => true | _ => false end.

Inductive context_of : list command_type_t → Prop :=
  | ctx_simple t : simple t = true → context_of [t]
  | ctx_forward ts : branches ts → context_of (FORWARD_BEGIN :: ts)
with branches : list command_type_t → Prop :=
  | br_last ts : branch ts → branches (ts ++ [REPLY])
  | br_more ts ts' : branch ts → branches ts' →
      branches (ts ++ REPLY :: FORWARD_CONTINUE :: ts')
with branch : list command_type_t → Prop :=
  | br_target ts : branch ts → branch (FORWARD_CONTINUE :: ts)
  | br_body ts : contexts ts → branch ts
with contexts : list command_type_t → Prop :=
  | ctxs_nil : contexts []
  | ctxs_cons c ts : context_of c → contexts ts → contexts (c ++ ts).

Scheme context_of_min := Minimality for context_of Sort Prop
  with branches_min := Minimality for branches Sort Prop
  with branch_min := Minimality for branch Sort Prop
  with contexts_min := Minimality for contexts Sort Prop.
Combined Scheme grammar_ind from context_of_min, branches_min, branch_min, contexts_min.

Lemma context_head c : context_of c → ∃ t ts, c = t :: ts ∧ t ≠ FORWARD_CONTINUE ∧ t ≠ EOM ∧ t ≠ REPLY.
Proof. intros [t Ht|ts]; [exists t, []|eexists _, _]; by destruct t || done. Qed.

(** the first command of a sequence, or what follows it, is not FORWARD_CONTINUE *)
Lemma contexts_head ts tn rest : contexts ts → tn ≠ FORWARD_CONTINUE → tn ≠ EOM →
  ∃ t r, ts ++ tn :: rest = t :: r ∧ t ≠ FORWARD_CONTINUE ∧ t ≠ EOM.
Proof.
  intros [|c ts' Hc _] H1 H2; [by exists tn, rest|].
  destruct (context_head c Hc) as (t & r & -> & ? & ? & _).
  exists t, ((r ++ ts') ++ tn :: rest). by rewrite <- !app_comm_cons.
Qed.

(** Inside a forward context (depth k ≥ 1) a context leaves the depth where it
    was, and the branches of a forward close one level. *)
Definition goes_through (ts : list command_type_t) : Prop := ∀ k tn rest,
  1 ≤ k → tn ≠ FORWARD_CONTINUE → tn ≠ EOM →
  Walk.context (ts ++ tn :: rest) k = Walk.context (tn :: rest) k.
Definition closes (ts : list command_type_t) : Prop := ∀ k tn rest,
  1 ≤ k → tn ≠ FORWARD_CONTINUE →
  Walk.context (ts ++ tn :: rest) k =
  if bool_decide (tn ≠ EOM) && (0 <? k - 1)
  then Walk.context (tn :: rest) (k - 1) else Some (tn :: rest).

Lemma context_in t tn rest k : simple t = true ∨ t = FORWARD_CONTINUE → 1 ≤ k → tn ≠ EOM →
  Walk.context (t :: tn :: rest) k = Walk.context (tn :: rest) k.
Proof.
  intros Ht Hk Hn. rewrite Walk.context_cons. cbv zeta. rewrite bool_decide_true by done.
  replace (Walk.depth_step t tn k) with k by (by destruct t, Ht).
  by replace (0 <? k) with true by lia.
Qed.

Lemma branch_head ts r : branch ts → ∃ t r', ts ++ REPLY :: r = t :: r' ∧ t ≠ EOM.
Proof.
  intros [ts'' _|ts'' Hc]; [by eexists _, _|].
  destruct (contexts_head ts'' REPLY r Hc) as (t & r' & ? & ? & ?); eauto.
Qed.

Lemma branches_nonempty ts : branches ts → ∃ t r, ts = t :: r ∧ t ≠ EOM.
Proof. intros [ts' Hb|ts' ts'' Hb _]; by apply branch_head. Qed.

Lemma grammar_depth :
  (∀ ts, context_of ts → goes_through ts) ∧ (∀ ts, branches ts → closes ts) ∧
  (∀ ts, branch ts → ∀ k rest, 1 ≤ k →
     Walk.context (ts ++ REPLY :: rest) k = Walk.context (REPLY :: rest) k) ∧
  (∀ ts, contexts ts → goes_through ts).
Proof.
  apply grammar_ind.
  - intros t Ht k tn rest Hk H1 H2. cbn [app]. apply context_in; auto.
  - intros ts Hb IH k tn rest Hk H1 H2.
    destruct (branches_nonempty ts Hb) as (t & r & Et & Ht). rewrite Et. cbn [app].
    rewrite Walk.context_cons. cbv zeta. cbn [Walk.depth_step].
    rewrite bool_decide_true by done. replace (0 <? k + 1) with true by lia. cbn [andb].
    rewrite app_comm_cons, <- Et, IH by (done || lia).
    rewrite bool_decide_true by done. replace (k + 1 - 1) with k by lia.
    by replace (0 <? k) with true by lia.
  - intros ts Hb IH k tn rest Hk H1. rewrite <- app_assoc. cbn [app].
    rewrite IH by done. rewrite Walk.context_cons. cbv zeta. cbn [Walk.depth_step].
    by rewrite decide_False by done.
  - intros ts ts' Hb IH Hb' IH' k tn rest Hk H1. rewrite <- app_assoc. cbn [app].
    rewrite IH by done. rewrite Walk.context_cons. cbv zeta. cbn [Walk.depth_step].
    rewrite decide_True by done. rewrite bool_decide_true by done.
    replace (0 <? k) with true by lia. cbn [andb].
    destruct (branches_nonempty ts' Hb') as (t & r & Et & Ht).
    rewrite Et at 1. cbn [app]. rewrite context_in by (auto || done).
    rewrite app_comm_cons, <- Et. by apply IH'.
  - intros ts Hb IH k rest Hk. destruct (branch_head ts rest Hb) as (t & r & Et & Ht).
    cbn [app]. rewrite Et, context_in by (auto || done). rewrite <- Et. by apply IH.
  - intros ts Hc IH k rest Hk. by apply IH.
  - intros k tn rest _ _ _. done.
  - intros c ts Hc IHc Hts IH k tn rest Hk H1 H2. rewrite <- app_assoc.
    destruct (contexts_head ts tn rest Hts H1 H2) as (t & r & Et & Ht1 & Ht2).
    rewrite Et. rewrite IHc by done. rewrite <- Et. by apply IH.
Qed.

(** from the outside (depth 0) a context is skipped as a whole *)
Lemma context_whole c tn rest : context_of c → tn ≠ FORWARD_CONTINUE →
  Walk.context (c ++ tn :: rest) 0 = Some (tn :: rest).
Proof.
  intros Hc H1. destruct Hc as [t Ht|ts Hb].
  - cbn [app]. rewrite Walk.context_cons. cbv zeta.
    replace (Walk.depth_step t tn 0) with 0 by (by destruct t). by rewrite andb_false_r.
  - destruct (branches_nonempty ts Hb) as (t & r & Et & Ht). rewrite Et. cbn [app].
    rewrite Walk.context_cons. cbv zeta. cbn [Walk.depth_step].
    rewrite bool_decide_true by done. change (0 + 1) with 1. change (0 <? 1) with true. cbn [andb].
    rewrite app_comm_cons, <- Et.
    rewrite (proj1 (proj2 grammar_depth) ts Hb 1 tn rest) by (done || lia).
    by rewrite andb_false_r.
Qed.

Lemma concat_head cs tn rest : Forall context_of cs → tn ≠ FORWARD_CONTINUE →
  ∃ t r, concat cs ++ tn :: rest = t :: r ∧ t ≠ FORWARD_CONTINUE.
Proof.
  intros [|c cs' Hc _] H1; [by eexists _, _|].
  destruct (context_head c Hc) as (t & r & -> & ? & _). cbn [concat].
  exists t, ((r ++ concat cs') ++ tn :: rest). by rewrite <- !app_comm_cons.
Qed.

Lemma skip_contexts_list cs tn rest : Forall context_of cs → tn ≠ FORWARD_CONTINUE →
  Walk.skip (length cs) (concat cs ++ tn :: rest) = Some (tn :: rest).
Proof.
  intros Hcs H1. induction Hcs as [|c cs Hc Hcs IH]; [done|].
  cbn [concat length]. rewrite <- app_assoc.
  destruct (context_head c Hc) as (t & r & Et & _ & Ht & _).
  destruct (concat_head cs tn rest Hcs H1) as (t' & r' & E' & Ht').
  rewrite E', Et. cbn [app Walk.skip]. rewrite decide_False by done.
  rewrite app_comm_cons, <- Et, context_whole by done. cbn [mbind option_bind].
  by rewrite <- E'.
Qed.

Lemma contexts_concat ts : contexts ts → ∃ cs, Forall context_of cs ∧ ts = concat cs.
Proof.
  induction 1 as [|c ts Hc _ (cs & Hcs & ->)]; [by exists []|].
  exists (c :: cs). by split; [constructor|].
Qed.

(** the loop of next_forward passes over a sequence of contexts *)
Lemma forward_loop_contexts cs f br tn rest : Forall context_of cs → tn ≠ FORWARD_CONTINUE →
  (length (concat cs ++ tn :: rest) < f)%nat →
  ∃ f', (length (tn :: rest) < f')%nat ∧
    Walk.forward_loop f br (concat cs ++ tn :: rest) = Walk.forward_loop f' br (tn :: rest).
Proof.
  intros Hcs H1. revert f. induction Hcs as [|c cs Hc Hcs IH]; intros f Hf; [by exists f|].
  cbn [concat] in *. rewrite <- app_assoc in *. rewrite length_app in Hf.
  destruct (concat_head cs tn rest Hcs H1) as (t' & r' & E' & Ht').
  destruct f as [|f]; [lia|]. destruct (IH f) as (f' & Hf' & Ef').
  { destruct (context_head c Hc) as (t & r & -> & _). cbn [length] in Hf. lia. }
  exists f'. split; [done|]. rewrite <- Ef', E'.
  pose proof (context_whole c t' r' Hc Ht') as W.
  destruct Hc as [t Ht|ts Hb]; cbn [app Walk.forward_loop].
  - destruct t; try done.
  - rewrite app_comm_cons. cbn [app]. cbn [Walk.skip].
    rewrite decide_False by done. rewrite app_comm_cons, W. done.
Qed.

Lemma next_forward_list fwd br body tn rest :
  contexts body →
  (br ≠ 0 → Walk.next_forward br (fwd :: body ++ REPLY :: FORWARD_CONTINUE :: rest)
            = Some (FORWARD_CONTINUE :: rest)) ∧
  (br = 0 ∨ tn ≠ FORWARD_CONTINUE →
     Walk.next_forward br (fwd :: body ++ REPLY :: tn :: rest) = None) ∧
  Walk.next_forward br (fwd :: FORWARD_CONTINUE :: rest) = Some (FORWARD_CONTINUE :: rest).
Proof.
  intros (cs & Hcs & ->)%contexts_concat.
  assert (H : ∀ r, ∃ f', (1 < f')%nat ∧ Walk.next_forward br (fwd :: concat cs ++ REPLY :: r)
                   = Walk.forward_loop f' br (REPLY :: r)).
  { intros r. destruct (forward_loop_contexts cs (S (length (concat cs ++ REPLY :: r))) br REPLY r)
      as (f' & Hf' & E); try (done || lia).
    exists f'. cbn [length] in Hf'. split; [lia|]. exact E. }
  split_and!.
  - intros Hbr. destruct (H (FORWARD_CONTINUE :: rest)) as (f' & Hf' & ->).
    destruct f' as [|[|f']]; [lia..|]. cbn [Walk.forward_loop].
    rewrite (proj2 (Z.eqb_neq br 0) Hbr). done.
  - intros Hbr. destruct (H (tn :: rest)) as (f' & Hf' & ->).
    destruct f' as [|[|f']]; [lia..|]. cbn [Walk.forward_loop].
    rewrite decide_False by done. rewrite bool_decide_true by done. cbn [andb].
    destruct Hbr as [->|Hn]; [done|]. by rewrite (bool_decide_true (tn ≠ _)), orb_true_r.
  - done.
Qed.

Lemma to_reply_list cs f t rest : Forall context_of cs → t = REPLY ∨ t = EOM →
  (length (concat cs ++ t :: rest) < f)%nat →
  Walk.to_reply f (concat cs ++ t :: rest) = Some (t :: rest).
Proof.
  intros Hcs Ht. revert f. induction Hcs as [|c cs Hc Hcs IH]; intros f Hf.
  { destruct f; [lia|]. by destruct Ht as [->| ->]. }
  cbn [concat] in *. rewrite <- app_assoc in *. rewrite length_app in Hf.
  assert (H1 : t ≠ FORWARD_CONTINUE) by naive_solver.
  destruct (concat_head cs t rest Hcs H1) as (t' & r' & E' & Ht').
  destruct f as [|f]; [lia|]. rewrite <- (IH f).
  2: { destruct (context_head c Hc) as (t0 & r & -> & _). cbn [length] in Hf. lia. }
  destruct (context_head c Hc) as (t0 & r & Ec & H2 & H3 & H4).
  rewrite E'. pose proof (context_whole c t' r' Hc Ht') as W. rewrite Ec in W |- *.
  cbn [app Walk.to_reply].
  assert (E : Walk.skip 1 (t0 :: r ++ t' :: r') = Some (t' :: r')).
  { cbn [Walk.skip]. rewrite decide_False by done. cbn [app] in W. by rewrite W. }
  destruct t0; try done; by rewrite E.
Qed.

(** The tokens depend on the bytes of the commands only. *)
Lemma tokens_moved b b' o o' e e' ts rest :
  tokens b o e = ts ++ rest → EOM ∉ ts → o' + tsize ts ≤ e' →
  (∀ x, 0 ≤ x < tsize ts → byte_at (blk_data b) (o + x) = byte_at (blk_data b') (o' + x)) →
  tokens b' o' e' = ts ++ tokens b' (o' + tsize ts) e'.
Proof.
  revert o o'. induction ts as [|t ts IH]; intros o o' E Hn Hfit Hb.
  { unfold tsize. cbn [foldr app]. by rewrite Z.add_0_r. }
  rewrite <- app_comm_cons in E. apply tokens_cons_inv in E as (Hi & Ht & E).
  pose proof (cmd_type_size_range t). pose proof (tsize_nonneg ts).
  rewrite tsize_cons in *.
  rewrite decide_False in E by set_solver.
  assert (Et : ctype b' o' = t).
  { rewrite Ht. unfold ctype. f_equal. symmetry. apply load_le_ext. intros x Hx. apply Hb. lia. }
  rewrite (tokens_eq b' e' o'), Et.
  replace (inb b' o' e') with true.
  2: { symmetry. apply inb_spec. rewrite Et. lia. }
  rewrite decide_False by set_solver. cbn [app]. f_equal.
  rewrite Z.add_assoc. apply (IH (o + cmd_type_size t)); [done|set_solver|lia|].
  intros x Hx. rewrite <- !Z.add_assoc. apply Hb. lia.
Qed.

Lemma concat_contexts cs : Forall context_of cs → contexts (concat cs).
Proof. induction 1; [constructor|]. by apply ctxs_cons. Qed.

Lemma grammar_no_eom :
  (∀ ts, context_of ts → EOM ∉ ts) ∧ (∀ ts, branches ts → EOM ∉ ts) ∧
  (∀ ts, branch ts → EOM ∉ ts) ∧ (∀ ts, contexts ts → EOM ∉ ts).
Proof. apply grammar_ind; set_solver. Qed.

Lemma contexts_no_eom ts : contexts ts → EOM ∉ ts.
Proof. apply grammar_no_eom. Qed.

Lemma forward_loop_suffix f br ts rest : Walk.forward_loop f br ts = Some rest →
  ∃ pre r, ts = pre ++ rest ∧ rest = FORWARD_CONTINUE :: r.
Proof.
  revert ts. induction f as [|f IH]; intros ts E; [done|].
  assert (Hrec : ∀ t ts', ts = t :: ts' → Walk.forward_loop f br ts' = Some rest →
    ∃ pre r, ts = pre ++ rest ∧ rest = FORWARD_CONTINUE :: r).
  { intros t ts' -> (pre & r & -> & ->)%IH. by exists (t :: pre), r. }
  cbn [Walk.forward_loop] in E. destruct ts as [|t ts]; [done|].
  destruct t; try (destruct ts as [|tn ts]; [done|]; case_decide; [done|];
    destruct (_ && _); [done|]; by apply (Hrec _ (tn :: ts) eq_refl)).
  - apply bind_Some in E as (ts' & (pre & -> & _ & _)%skip_suffix & (pre' & r & -> & ->)%IH).
    exists (pre ++ pre'), r. by rewrite app_assoc.
  - injection E as <-. by exists [], ts.
Qed.

(** ** 8. Copying the commands of a branch *)

Section CopyTail.
Context (b : block) (m o : Z) (bd : block) (m_dst : Z).
Context (cs : list (list command_type_t)) (rest : list command_type_t).
Let e := m + load_le 4 (blk_data b) (m + 4).
Let len := tsize (concat cs ++ [REPLY]).
Let avail := load_le 4 (blk_data bd) (m_dst + 4).
Context (Hm : 0 ≤ m) (Hme : m + sizeof_message_t ≤ blk_size b) (Ho : 0 ≤ o)
  (He : e ≤ blk_size b) (Hmax : e < 2 ^ 31) (Hd : 0 ≤ m_dst)
  (Hdh : m_dst + sizeof_message_t ≤ blk_size bd)
  (Hcs : Forall context_of cs)
  (Htok : tokens b o e = concat cs ++ REPLY :: rest).

Let bd1 := Block (blk_size bd) (store_le 4 (blk_data bd) m_dst (load_le 4 (blk_data b) m)).

Lemma copy_tail_found :
  ∃ itr, itr = o + tsize (concat cs) ∧ ctype b itr = REPLY ∧
  message_copy_tail b m bd m_dst o =
    if avail <? len + 4 then Ret (bd1, None)
    else
      bd ← blk_copy b o bd1 (m_dst + 12) len;
      bd ← set_cmd bd (m_dst + 12 + len) EOM;
      te ← get_cmd bd (m_dst + 12 + len);
      bd ← set_msg_req_size bd m_dst (m_dst + 12 + len + cmd_type_size te - m_dst);
      Ret (bd, Some itr).
Proof.
  unfold sizeof_message_t in *.
  assert (Hi : inb b o e = true).
  { destruct (inb b o e) eqn:X; [done|]. rewrite tokens_nil in Htok by done. by destruct (concat cs). }
  pose proof (to_reply_walked b e He Hmax (S (walk_fuel o e)) (S (length (tokens b o e))) o Ho Hi
    ltac:(unfold walk_fuel; lia) ltac:(lia)) as W.
  rewrite Htok in W.
  rewrite to_reply_list in W; [|done|by left|lia].
  destruct (walked_inv b e _ _ _ W) as (itr & Ei & Er & Hii & Hle & _ & Hat).
  assert (Eitr : itr = o + tsize (concat cs)).
  { rewrite Hat. unfold at_rest. rewrite Htok, tsize_app. lia. }
  assert (Ect : ctype b itr = REPLY).
  { destruct (tokens_head b e itr Hii) as [ts Et]. congruence. }
  exists itr. split_and!; [done..|].
  unfold message_copy_tail, get_msg_req_id, set_msg_req_id, message_end, get_msg_req_size.
  rewrite (blk_load_ok 4 b m) by lia. obind. rewrite (blk_store_ok 4 bd m_dst) by lia. obind.
  rewrite (blk_load_ok 4 b (m + 4)) by lia. obind. fold e. rewrite Ei. obind.
  pose proof (tsize_nonneg (concat cs)).
  rewrite (in_bounds_eq b e He) by lia. obind. rewrite Hii. cbn [negb].
  rewrite (inb_get_cmd b e He) by (done || lia). obind. rewrite Ect.
  rewrite blk_load_ok by (cbn [blk_size]; lia). obind. cbn [blk_data].
  rewrite load_store_le_disjoint by lia. fold avail.
  unfold message_first_cmd, sizeof_message_t. fold bd1.
  replace (itr + cmd_type_size REPLY - o) with len.
  2: { unfold len. rewrite tsize_app, Eitr. unfold tsize at 2. cbn [foldr]. lia. }
  done.
Qed.

Lemma copy_source_fits : 16 ≤ len ∧ o + len ≤ e.
Proof.
  unfold len. rewrite tsize_app. pose proof (tsize_nonneg (concat cs)).
  change (tsize [REPLY]) with 16. split; [lia|].
  pose proof (tokens_fit b e o _ Htok) as H1. rewrite tsize_app, tsize_cons in H1.
  change (cmd_type_size REPLY) with 16 in H1. pose proof (tsize_nonneg rest).
  assert (concat cs ++ REPLY :: rest ≠ []) by (by destruct (concat cs)).
  specialize (H1 ltac:(done)). lia.
Qed.

Lemma copy_tail_ok : len + 4 ≤ avail → m_dst + 16 + len ≤ blk_size bd → m_dst + 16 + len < 2 ^ 31 →
  ∃ d, message_copy_tail b m bd m_dst o =
       Ret (Block (blk_size bd) d, Some (o + tsize (concat cs))) ∧
    load_le 4 d m_dst = load_le 4 (blk_data b) m ∧
    load_le 4 d (m_dst + 4) = 16 + len ∧
    (∀ x, 0 ≤ x < len → byte_at d (m_dst + 12 + x) = byte_at (blk_data b) (o + x)) ∧
    load_le 4 d (m_dst + 12 + len) = type_to_Z EOM ∧
    (∀ x, x < m_dst ∨ m_dst + 8 ≤ x < m_dst + 12 ∨ m_dst + 16 + len ≤ x →
       byte_at d x = byte_at (blk_data bd) x).
Proof.
  intros Ha Hfit Hsmall. destruct copy_source_fits as [Hl Hs].
  destruct copy_tail_found as (itr & -> & _ & E).
  rewrite (proj2 (Z.ltb_ge avail (len + 4))) in E by lia.
  unfold set_cmd, get_cmd, set_msg_req_size in E.
  rewrite (blk_copy_ok b o bd1) in E by (unfold bd1; cbn [blk_size]; lia).
  cbn [mbind outcome_bind] in E.
  rewrite blk_store_ok in E by (unfold bd1; cbn [blk_size]; lia).
  cbn [mbind outcome_bind] in E.
  rewrite blk_load_ok in E by (unfold bd1; cbn [blk_size]; lia).
  cbn [mbind outcome_bind blk_data] in E. rewrite load_store_le in E.
  change (type_of_Z (type_to_Z EOM mod 256 ^ Z.of_nat 4)) with EOM in E.
  change (cmd_type_size EOM) with 4 in E.
  rewrite blk_store_ok in E by (unfold bd1; cbn [blk_size]; lia).
  cbn [mbind outcome_bind blk_data blk_size bd1] in E.
  eexists. split; [exact E|]. clear E.
  assert (Hid : 0 ≤ load_le 4 (blk_data b) m < 256 ^ Z.of_nat 4) by apply load_le_range.
  split_and!.
  - rewrite !load_store_le_disjoint, load_copy_disjoint, load_store_le by lia.
    by apply Z.mod_small.
  - rewrite load_store_le. replace (_ - m_dst) with (16 + len) by lia.
    apply Z.mod_small. lia.
  - intros x Hx. rewrite !byte_at_store_le, !decide_False by lia.
    rewrite byte_at_copy, decide_True by lia. f_equal. lia.
  - rewrite load_store_le_disjoint, load_store_le by lia. done.
  - intros x Hx. rewrite !byte_at_store_le, byte_at_copy, byte_at_store_le.
    rewrite !decide_False by lia. done.
Qed.

Lemma copy_tail_no_room : avail < len + 4 →
  message_copy_tail b m bd m_dst o = Ret (bd1, None).
Proof.
  intros Ha. destruct copy_tail_found as (itr & _ & _ & E).
  by rewrite (proj2 (Z.ltb_lt avail (len + 4))) in E.
Qed.

Lemma copy_tail_overrun : len + 4 ≤ avail → blk_size bd < m_dst + 16 + len →
  message_copy_tail b m bd m_dst o = Stop UB.
Proof.
  intros Ha Hfit. destruct copy_source_fits as [Hl Hs].
  destruct copy_tail_found as (itr & -> & _ & E).
  rewrite (proj2 (Z.ltb_ge avail (len + 4))) in E by lia. rewrite E.
  destruct (blk_copy b o bd1 (m_dst + 12) len) as [bd2|s] eqn:Ec.
  - apply blk_copy_inv in Ec as (_ & _ & _ & _ & _ & ->). obind.
    destruct (set_cmd _ _ _) as [bd3|s] eqn:Es; unfold set_cmd in Es.
    + apply blk_store_inv in Es as (_ & Hs' & _). unfold bd1 in Hs'. cbn [blk_size] in Hs'. lia.
    + unfold blk_store in Es. destruct (in_block _ _ _); [done|]. by injection Es as <-.
  - unfold blk_copy in Ec. destruct (_ && _); [done|]. by injection Ec as <-.
Qed.
End CopyTail.

(** the commands of the copy *)
Lemma copied_tokens b o e sz d m_dst e2 cs rest :
  let len := tsize (concat cs ++ [REPLY]) in
  Forall context_of cs → tokens b o e = concat cs ++ REPLY :: rest →
  (∀ x, 0 ≤ x < len → byte_at d (m_dst + 12 + x) = byte_at (blk_data b) (o + x)) →
  load_le 4 d (m_dst + 12 + len) = type_to_Z EOM → m_dst + 16 + len ≤ e2 →
  tokens (Block sz d) (m_dst + 12) e2 = concat cs ++ [REPLY; EOM].
Proof.
  intros len Hcs Htok Hb Heom He2.
  assert (Hne : EOM ∉ concat cs ++ [REPLY]).
  { rewrite elem_of_app. intros [Hin|Hin]; [|set_solver].
    by apply (contexts_no_eom (concat cs)); [apply concat_contexts|]. }
  rewrite (tokens_moved b (Block sz d) o (m_dst + 12) e e2
    (concat cs ++ [REPLY]) rest).
  - rewrite <- app_assoc. cbn [app]. do 2 f_equal. fold len.
    rewrite tokens_eq.
    assert (Et : ctype (Block sz d) (m_dst + 12 + len) = EOM).
    { unfold ctype. cbn [blk_data]. by rewrite Heom. }
    rewrite Et. replace (inb _ _ _) with true; [done|].
    symmetry. apply inb_spec. rewrite Et. change (cmd_type_size EOM) with 4. lia.
  - by rewrite <- app_assoc.
  - done.
  - fold len. lia.
  - intros x Hx. symmetry. by apply Hb.
Qed.

Lemma next_forward_check b o e : e ≤ blk_size b → 0 ≤ o → inb b o e = true →
  is_forward (ctype b o) = false →
  cmd_bounded_next_forward b (Some o) e = Stop CheckFailed.
Proof.
  intros He Ho Hi Hf. unfold cmd_bounded_next_forward.
  rewrite (in_bounds_eq b e He) by done. obind. rewrite Hi. cbn [negb].
  rewrite (inb_get_cmd b e He) by done. obind. by rewrite Hf.
Qed.

Lemma next_forward_safe b o e : e ≤ blk_size b → e < 2 ^ 31 → 0 ≤ o → inb b o e = true →
  is_forward (ctype b o) = true →
  ∃ r, cmd_bounded_next_forward b (Some o) e = Ret r ∧
    ∀ o', r = Some o' → o < o' ∧ inb b o' e = true ∧ ctype b o' = FORWARD_CONTINUE.
Proof.
  intros He Hmax Ho Hi Hf. pose proof (next_forward_walked b e He Hmax o Ho Hi Hf) as W.
  destruct (Walk.next_forward _ _) as [rest|] eqn:Ew.
  - destruct (walked_inv b e _ _ _ W) as (o' & E & Er & Hi' & Hle & _ & Hat).
    exists (Some o'). split; [done|]. intros ? [= <-].
    destruct (tokens_head b e o Hi) as [ts Et]. rewrite Et in Ew. cbn [Walk.next_forward] in Ew.
    destruct (forward_loop_suffix _ _ _ _ Ew) as (pre & r' & -> & ->).
    split; [|split; [done|]].
    + rewrite Hat. unfold at_rest. rewrite Et, (tsize_cons (ctype b o)), tsize_app.
      pose proof (tsize_nonneg pre). pose proof (cmd_type_size_range (ctype b o)). lia.
    + destruct (tokens_head b e o' Hi') as [ts' Et']. congruence.
  - exists None. by split.
Qed.

(** ** Options: stores and loads of distinct fields *)

Ltac opts_solve :=
  repeat (rewrite blk_store_ok by (cbn [blk_size]; lia); cbn [mbind outcome_bind blk_size blk_data]);
  eexists; split; [reflexivity|]; split; [|split; [reflexivity|]];
  [ repeat (rewrite blk_load_ok by (cbn [blk_size]; lia);
            cbn [mbind fmap outcome_bind outcome_fmap blk_size blk_data]);
    rewrite ?(load_store_le_disjoint _ _ _ _ _ _) by lia;
    repeat first [ rewrite load_store_le | rewrite load_store_le_disjoint by lia ];
    rewrite ?Z.mod_small by lia
  | let x := fresh "x" in let Hx := fresh "Hx" in
    intros x Hx; cbn [blk_data]; rewrite !byte_at_store_le, !decide_False by lia; reflexivity ].

(** The field values fit their C types. *)
Definition fits (n : nat) (v : Z) : Prop := 0 ≤ v < 256 ^ Z.of_nat n.
Definition fwd_ok (f : fwd_opts_t) : Prop :=
  fits 4 (pkt_size f) ∧ fits 4 (fwd_host f) ∧ fits 2 (fwd_port f) ∧ fits 4 (timeout f) ∧
  fits 1 (retries f) ∧ fits 1 (n_ack f) ∧ fits 1 (on_fail_skip f) ∧ fits 1 (branched f) ∧
  fits 4 (proto f).
Definition load_ok (l : load_opts_t) : Prop :=
  fits 8 (load_offset l) ∧ fits 8 (load_nbytes l) ∧ fits 1 (load_dev_id l).
Definition store_ok (s : store_opts_t) : Prop :=
  fits 8 (store_offset s) ∧ fits 8 (store_nbytes s) ∧ fits 1 (wait_sync s) ∧
  fits 1 (store_dev_id s).
Definition comp_ok (c : comp_opts_t) : Prop := fits 4 (comp_time_us c).
Definition reply_ok (r : reply_opts_t) : Prop :=
  fits 4 (resp_size r) ∧ fits 4 (mode r) ∧ fits 1 (reply_dev_id r).

Section Options.
Context (b : block) (o : Z) (Ho : 0 ≤ o) (Hb : o + 28 ≤ blk_size b).

Definition only (n : Z) (b' : block) : Prop := blk_size b' = blk_size b ∧
  ∀ x, x < o + 4 ∨ o + 4 + n ≤ x → byte_at (blk_data b') x = byte_at (blk_data b) x.

Lemma fwd_roundtrip f : fwd_ok f →
  ∃ b', set_fwd_opts b o f = Ret b' ∧ get_fwd_opts b' o = Ret f ∧ only sizeof_fwd_opts_t b'.
Proof.
  destruct f. unfold fwd_ok, fits, set_fwd_opts, get_fwd_opts, only,
    sizeof_command_t, sizeof_fwd_opts_t. cbn. intros H. opts_solve. done.
Qed.

Lemma load_roundtrip l : load_ok l →
  ∃ b', set_load_opts b o l = Ret b' ∧ get_load_opts b' o = Ret l ∧ only sizeof_load_opts_t b'.
Proof.
  destruct l. unfold load_ok, fits, set_load_opts, get_load_opts, only,
    sizeof_command_t, sizeof_load_opts_t. cbn. intros H. opts_solve. done.
Qed.

Lemma store_roundtrip s : store_ok s →
  ∃ b', set_store_opts b o s = Ret b' ∧ get_store_opts b' o = Ret s ∧ only sizeof_store_opts_t b'.
Proof.
  destruct s. unfold store_ok, fits, set_store_opts, get_store_opts, only,
    sizeof_command_t, sizeof_store_opts_t. cbn. intros H. opts_solve. done.
Qed.

Lemma comp_roundtrip c : comp_ok c →
  ∃ b', set_comp_opts b o c = Ret b' ∧ get_comp_opts b' o = Ret c ∧ only sizeof_comp_opts_t b'.
Proof.
  destruct c. unfold comp_ok, fits, set_comp_opts, get_comp_opts, only,
    sizeof_command_t, sizeof_comp_opts_t. cbn. intros H. opts_solve. done.
Qed.

Lemma reply_roundtrip r : reply_ok r →
  ∃ b', set_reply_opts b o r = Ret b' ∧ get_reply_opts b' o = Ret r ∧ only sizeof_reply_opts_t b'.
Proof.
  destruct r. unfold reply_ok, fits, set_reply_opts, get_reply_opts, only,
    sizeof_command_t, sizeof_reply_opts_t. cbn. intros H. opts_solve. done.
Qed.
End Options.

(** ** 9. Properties *)

(** an example buffer: header, a forward with two branches, a reply *)
Definition put (b : block) (ovs : list (nat * Z * Z)) : block :=
  Block (blk_size b) (foldr (fun '(n, o, v) d => store_le n d o v) (blk_data b) ovs).
Definition example_msg : block := put (calloc_block 200)
  [ (4%nat, 0, 77); (4%nat, 4, 132);
    (4%nat, 12, 4); (1%nat, 35, 1);        (* FORWARD_BEGIN, branched *)
    (4%nat, 40, 0); (4%nat, 44, 5);        (* COMPUTE *)
    (4%nat, 48, 6);                        (* REPLY *)
    (4%nat, 64, 5); (1%nat, 87, 1);        (* FORWARD_CONTINUE *)
    (4%nat, 92, 6);                        (* REPLY *)
    (4%nat, 108, 6);                       (* REPLY to the sender *)
    (4%nat, 124, 7) ].

Lemma example_tokens : tokens example_msg 12 132 =
  [FORWARD_BEGIN; COMPUTE; REPLY; FORWARD_CONTINUE; REPLY; REPLY; EOM].
Proof. vm_compute. reflexivity. Qed.

Lemma example_context :
  context_of [FORWARD_BEGIN; COMPUTE; REPLY; FORWARD_CONTINUE; REPLY].
Proof.
  apply ctx_forward. apply (br_more [COMPUTE] [REPLY]).
  - apply br_body. apply (ctxs_cons [COMPUTE] []); [by apply ctx_simple|constructor].
  - apply (br_last []). apply br_body. constructor.
Qed.

(** [C24] On any contents of the buffer, whatever the sender put there, the
    bounded skip terminates, reads nothing outside the message, and returns
    either NULL or a command that lies within the message; what it returns is
    the place that the skip over the list of visible commands gives. *)
Theorem cmd_bounded_skip_refines (b : block) (o k e : Z) :
  0 ≤ o → e ≤ blk_size b → e < 2 ^ 31 →
  walked b e o (cmd_bounded_skip b (Some o) k e) (Walk.skip (Z.to_nat k) (tokens b o e)) ∧
  ∃ r, cmd_bounded_skip b (Some o) k e = Ret r ∧
    ∀ o', r = Some o' → o ≤ o' ∧ cmd_in_bounds b o' e = Ret true.
Proof.
  intros Ho He Hmax. pose proof (skip_walked b e He Hmax o k Ho) as W. split; [done|].
  destruct (Walk.skip (Z.to_nat k) (tokens b o e)) as [rest|].
  - destruct (walked_inv b e _ _ _ W) as (o' & E & _ & Hi & Hle & _).
    exists (Some o'). split; [done|]. intros ? [= <-]. split; [done|].
    rewrite (in_bounds_eq b e He) by lia. by rewrite Hi.
  - exists None. by split.
Qed.

Lemma cmd_bounded_skip_refines_witness :
  cmd_bounded_skip example_msg (Some 12) 1 132 = Ret (Some 108) ∧
  ∃ r, cmd_bounded_skip example_msg (Some 12) 3 132 = Ret r ∧
    ∀ o', r = Some o' → 12 ≤ o' ∧ cmd_in_bounds example_msg o' 132 = Ret true.
Proof.
  split; [vm_compute; reflexivity|].
  apply (cmd_bounded_skip_refines example_msg 12 3 132); [lia|vm_compute; discriminate|lia].
Defined.

(** [C25] Skipping n contexts of a well-formed program goes to the command
    right after the n-th: a forward is skipped with all its branches, nested
    forwards and replies included. *)
Theorem cmd_bounded_skip_contexts (b : block) (o e : Z) (cs : list (list command_type_t))
    (tn : command_type_t) (rest : list command_type_t) :
  0 ≤ o → e ≤ blk_size b → e < 2 ^ 31 →
  Forall context_of cs → tn ≠ FORWARD_CONTINUE →
  tokens b o e = concat cs ++ tn :: rest →
  cmd_bounded_skip b (Some o) (Z.of_nat (length cs)) e = Ret (Some (o + tsize (concat cs))).
Proof.
  intros Ho He Hmax Hcs H1 Ht.
  pose proof (skip_walked b e He Hmax o (Z.of_nat (length cs)) Ho) as W.
  rewrite Nat2Z.id, Ht, skip_contexts_list in W by done.
  destruct W as (o' & -> & _ & _ & _ & Hat). do 2 f_equal.
  rewrite Hat. unfold at_rest. rewrite Ht, tsize_app. lia.
Qed.

Lemma cmd_bounded_skip_contexts_witness :
  context_of [FORWARD_BEGIN; COMPUTE; REPLY; FORWARD_CONTINUE; REPLY] ∧
  cmd_bounded_skip example_msg (Some 12) 1 132 =
    Ret (Some (12 + tsize [FORWARD_BEGIN; COMPUTE; REPLY; FORWARD_CONTINUE; REPLY])).
Proof.
  split; [exact example_context|].
  apply (cmd_bounded_skip_contexts example_msg 12 132
    [[FORWARD_BEGIN; COMPUTE; REPLY; FORWARD_CONTINUE; REPLY]] REPLY [EOM]);
    [lia|vm_compute; discriminate|lia| |discriminate|exact example_tokens].
  constructor; [exact example_context|constructor].
Defined.

(** [C26] The walk from one forward to the next of the same group never
    leaves the message on any contents (the only other outcome is the failed
    check on a command that is not a forward), and on well-formed branches it
    finds the FORWARD_CONTINUE right after a FORWARD, or the one after the
    matching REPLY if the group is branched, and NULL after the last. *)
Theorem cmd_bounded_next_forward_branches (b : block) (o e : Z)
    (body : list command_type_t) (tn : command_type_t) (rest : list command_type_t) :
  0 ≤ o → e ≤ blk_size b → e < 2 ^ 31 → inb b o e = true →
  let br := load_le 1 (blk_data b) (o + 23) in
  (if is_forward (ctype b o)
   then ∃ r, cmd_bounded_next_forward b (Some o) e = Ret r ∧
        ∀ o', r = Some o' → o < o' ∧ inb b o' e = true ∧ ctype b o' = FORWARD_CONTINUE
   else cmd_bounded_next_forward b (Some o) e = Stop CheckFailed) ∧
  (is_forward (ctype b o) = true → contexts body →
   (tokens b o e = ctype b o :: FORWARD_CONTINUE :: rest →
      cmd_bounded_next_forward b (Some o) e = Ret (Some (o + 28))) ∧
   (br ≠ 0 → tokens b o e = ctype b o :: body ++ REPLY :: FORWARD_CONTINUE :: rest →
      cmd_bounded_next_forward b (Some o) e = Ret (Some (o + 28 + tsize body + 16))) ∧
   (br = 0 ∨ tn ≠ FORWARD_CONTINUE →
      tokens b o e = ctype b o :: body ++ REPLY :: tn :: rest →
      cmd_bounded_next_forward b (Some o) e = Ret None)).
Proof.
  intros Ho He Hmax Hi br. split.
  - destruct (is_forward (ctype b o)) eqn:Hf; [|by apply next_forward_check].
    apply next_forward_safe; done.
  - intros Hf Hb. assert (Hsz : cmd_type_size (ctype b o) = 28) by (by destruct (ctype b o)).
    pose proof (next_forward_walked b e He Hmax o Ho Hi Hf) as W. fold br in W.
    destruct (next_forward_list (ctype b o) br body tn rest Hb) as (L1 & L2 & L3).
    split_and!; intros; match goal with H : tokens _ _ _ = _ |- _ => rewrite H in W end.
    + rewrite L3 in W. destruct W as (o' & -> & _ & _ & _ & ->). do 2 f_equal.
      unfold at_rest. rewrite H, !tsize_cons. lia.
    + rewrite L1 in W by done. destruct W as (o' & -> & _ & _ & _ & ->). do 2 f_equal.
      unfold at_rest. rewrite H0, !tsize_cons, tsize_app, !tsize_cons.
      change (cmd_type_size REPLY) with 16. lia.
    + by rewrite L2 in W.
Qed.

Lemma cmd_bounded_next_forward_branches_witness :
  inb example_msg 12 132 = true ∧
  cmd_bounded_next_forward example_msg (Some 12) 132 = Ret (Some (12 + 28 + tsize [COMPUTE] + 16)).
Proof.
  split; [vm_compute; reflexivity|].
  apply (cmd_bounded_next_forward_branches example_msg 12 132 [COMPUTE] EOM [REPLY; REPLY; EOM]);
    [lia|vm_compute; discriminate|lia|vm_compute; reflexivity|vm_compute; reflexivity
    | |vm_compute; discriminate|vm_compute; reflexivity].
  apply (ctxs_cons [COMPUTE] []); [by apply ctx_simple|constructor].
Defined.

(** [C27] Forwarding copies exactly one branch: from a sequence of contexts
    closed by a REPLY, message_copy_tail returns that REPLY, and the new
    message consists of those commands byte for byte, the REPLY and an EOM,
    with the request id of the original, a req_size that ends right after the
    EOM, and nothing else of the destination changed. When the space said to
    be available does not hold the commands and the EOM it returns NULL and
    changes the request id only. *)
Theorem message_copy_tail_branch (b : block) (m o : Z) (bd : block) (m_dst : Z)
    (cs : list (list command_type_t)) (rest : list command_type_t) :
  let e := m + load_le 4 (blk_data b) (m + 4) in
  let len := tsize (concat cs ++ [REPLY]) in
  let avail := load_le 4 (blk_data bd) (m_dst + 4) in
  0 ≤ m → m + sizeof_message_t ≤ blk_size b → 0 ≤ o → e ≤ blk_size b → e < 2 ^ 31 →
  0 ≤ m_dst → m_dst + sizeof_message_t ≤ blk_size bd →
  Forall context_of cs → tokens b o e = concat cs ++ REPLY :: rest →
  (len + 4 ≤ avail → m_dst + 16 + len ≤ blk_size bd → m_dst + 16 + len < 2 ^ 31 →
   ∃ d, message_copy_tail b m bd m_dst o =
       Ret (Block (blk_size bd) d, Some (o + tsize (concat cs))) ∧
     load_le 4 d m_dst = load_le 4 (blk_data b) m ∧ load_le 4 d (m_dst + 4) = 16 + len ∧
     tokens (Block (blk_size bd) d) (m_dst + 12) (m_dst + 16 + len) = concat cs ++ [REPLY; EOM] ∧
     segment d (m_dst + 12) len = segment (blk_data b) o len ∧
     (∀ x, x < m_dst ∨ m_dst + 8 ≤ x < m_dst + 12 ∨ m_dst + 16 + len ≤ x →
        byte_at d x = byte_at (blk_data bd) x)) ∧
  (avail < len + 4 →
   message_copy_tail b m bd m_dst o =
     Ret (Block (blk_size bd) (store_le 4 (blk_data bd) m_dst (load_le 4 (blk_data b) m)), None)).
Proof.
  intros e len avail Hm Hme Ho He Hmax Hd Hdh Hcs Htok. split.
  - intros Ha Hfit Hsmall.
    destruct (copy_tail_ok b m o bd m_dst cs rest Hm Hme Ho He Hmax Hd Hdh Hcs Htok Ha Hfit Hsmall)
      as (d & E & Eid & Esz & Eb & Eeom & Eu).
    exists d. split_and!; [exact E|exact Eid|exact Esz| |by apply segment_ext|exact Eu].
    by apply (copied_tokens b o e (blk_size bd) d m_dst (m_dst + 16 + len) cs rest).
  - intros Ha. by apply (copy_tail_no_room b m o bd m_dst cs rest).
Qed.

Definition example_dst (avail : Z) : block := put (calloc_block 100) [(4%nat, 24, avail)].

Lemma message_copy_tail_branch_witness :
  tokens example_msg 40 132 = concat [[COMPUTE]] ++ REPLY :: [FORWARD_CONTINUE; REPLY; REPLY; EOM] ∧
  ∃ d, message_copy_tail example_msg 0 (example_dst 80) 20 40 = Ret (Block 100 d, Some 48) ∧
    tokens (Block 100 d) 32 60 = [COMPUTE; REPLY; EOM].
Proof.
  assert (E : tokens example_msg 40 132 =
    concat [[COMPUTE]] ++ REPLY :: [FORWARD_CONTINUE; REPLY; REPLY; EOM])
    by (vm_compute; reflexivity).
  split; [exact E|].
  destruct (message_copy_tail_branch example_msg 0 40 (example_dst 80) 20 [[COMPUTE]]
    [FORWARD_CONTINUE; REPLY; REPLY; EOM]) as [H _];
    [lia|vm_compute; discriminate|lia|vm_compute; discriminate|vm_compute; reflexivity|lia
    |vm_compute; discriminate|repeat constructor|exact E|].
  destruct H as (d & Ed & _ & _ & Et & _);
    [vm_compute; discriminate|vm_compute; discriminate|vm_compute; reflexivity|].
  exists d. split; [exact Ed|exact Et].
Defined.

(** The space check of message_copy_tail does not count the 12 bytes of
    the message header: when the space said to be available is the real one
    and is less than 12 bytes larger than the commands and the EOM, the copy
    writes beyond the end of the destination. *)
Theorem message_copy_tail_overruns (b : block) (m o : Z) (bd : block) (m_dst : Z)
    (cs : list (list command_type_t)) (rest : list command_type_t) :
  let e := m + load_le 4 (blk_data b) (m + 4) in
  let len := tsize (concat cs ++ [REPLY]) in
  let avail := load_le 4 (blk_data bd) (m_dst + 4) in
  0 ≤ m → m + sizeof_message_t ≤ blk_size b → 0 ≤ o → e ≤ blk_size b → e < 2 ^ 31 →
  0 ≤ m_dst → m_dst + sizeof_message_t ≤ blk_size bd →
  Forall context_of cs → tokens b o e = concat cs ++ REPLY :: rest →
  m_dst + avail = blk_size bd →
  len + 4 ≤ avail < sizeof_message_t + len + 4 →
  message_copy_tail b m bd m_dst o = Stop UB.
Proof.
  intros e len avail Hm Hme Ho He Hmax Hd Hdh Hcs Htok Hroom Ha.
  unfold sizeof_message_t in Ha.
  apply (copy_tail_overrun b m o bd m_dst cs rest); (done || fold len avail; lia).
Qed.

Lemma message_copy_tail_overruns_witness :
  message_copy_tail example_msg 0 (put (calloc_block 50) [(4%nat, 24, 30)]) 20 40 = Stop UB.
Proof.
  apply (message_copy_tail_overruns example_msg 0 40 (put (calloc_block 50) [(4%nat, 24, 30)]) 20
    [[COMPUTE]] [FORWARD_CONTINUE; REPLY; REPLY; EOM]);
    [lia|vm_compute; discriminate|lia|vm_compute; discriminate|vm_compute; reflexivity|lia
    |vm_compute; discriminate|repeat constructor|vm_compute; reflexivity|vm_compute; reflexivity|].
  vm_compute. split; [discriminate|reflexivity].
Defined.

(** The number of commands reported for a message is the number of
    commands before the first EOM or the first one that does not fit. *)
Theorem msg_num_cmd_counts (b : block) (m : Z) :
  let e := m + load_le 4 (blk_data b) (m + 4) in
  0 ≤ m → m + sizeof_message_t ≤ blk_size b → e ≤ blk_size b → e < 2 ^ 31 →
  msg_num_cmd b m =
  Ret (Z.of_nat (length (filter (fun t => t ≠ EOM) (tokens b (m + 12) e)))).
Proof.
  intros e Hm Hh He Hmax. unfold sizeof_message_t in Hh.
  unfold msg_num_cmd, message_end, get_msg_req_size. rewrite blk_load_ok by lia. obind. fold e.
  unfold message_first_cmd, sizeof_message_t.
  rewrite (num_cmd_loop_tokens b e He) by (unfold walk_fuel; lia). done.
Qed.

Lemma msg_num_cmd_counts_witness : msg_num_cmd example_msg 0 = Ret 6.
Proof.
  rewrite (msg_num_cmd_counts example_msg 0);
    [vm_compute; reflexivity|lia|vm_compute; discriminate|vm_compute; discriminate
    |vm_compute; reflexivity].
Defined.

(** The options of every command survive the wire: what one side stores
    in a command is what the other reads back, field by field, for all values
    of the C types; the stores stay within the options of that command. *)
Theorem opts_roundtrip (b : block) (o : Z) (f : fwd_opts_t) (l : load_opts_t)
    (s : store_opts_t) (c : comp_opts_t) (r : reply_opts_t) :
  0 ≤ o → o + 28 ≤ blk_size b →
  fwd_ok f → load_ok l → store_ok s → comp_ok c → reply_ok r →
  let same (n : Z) (b' : block) := blk_size b' = blk_size b ∧
    ∀ x, x < o + 4 ∨ o + 4 + n ≤ x → byte_at (blk_data b') x = byte_at (blk_data b) x in
  (∃ b', set_fwd_opts b o f = Ret b' ∧ get_fwd_opts b' o = Ret f ∧ same sizeof_fwd_opts_t b') ∧
  (∃ b', set_load_opts b o l = Ret b' ∧ get_load_opts b' o = Ret l ∧ same sizeof_load_opts_t b') ∧
  (∃ b', set_store_opts b o s = Ret b' ∧ get_store_opts b' o = Ret s ∧ same sizeof_store_opts_t b') ∧
  (∃ b', set_comp_opts b o c = Ret b' ∧ get_comp_opts b' o = Ret c ∧ same sizeof_comp_opts_t b') ∧
  (∃ b', set_reply_opts b o r = Ret b' ∧ get_reply_opts b' o = Ret r ∧ same sizeof_reply_opts_t b').
Proof.
  intros Ho Hb Hf Hl Hs Hc Hr same. unfold same. split_and!.
  - by apply fwd_roundtrip.
  - by apply load_roundtrip.
  - by apply store_roundtrip.
  - by apply comp_roundtrip.
  - by apply reply_roundtrip.
Qed.

Lemma opts_roundtrip_witness :
  ∃ b', set_fwd_opts (calloc_block 64) 12 (MkFwd 1000 (2 ^ 31) 7891 500 3 2 1 1 1) = Ret b' ∧
    get_fwd_opts b' 12 = Ret (MkFwd 1000 (2 ^ 31) 7891 500 3 2 1 1 1).
Proof.
  destruct (opts_roundtrip (calloc_block 64) 12 (MkFwd 1000 (2 ^ 31) 7891 500 3 2 1 1 1)
    (MkLoad 0 0 0) (MkStore 0 0 0 0) (MkComp 0) (MkReply 0 0 0)) as [(b' & E1 & E2 & _) _];
    [lia|vm_compute; discriminate|unfold fwd_ok, fits; cbn; lia|unfold load_ok, fits; cbn; lia
    |unfold store_ok, fits; cbn; lia|unfold comp_ok, fits; cbn; lia|unfold reply_ok, fits; cbn; lia|].
  exists b'. split; [exact E1|exact E2].
Defined.
