(* ===== verification/Memory.v ===== *)
(** * The heap: blocks of memory shared through pointers

    The buffers of the connections are allocated and freed one by one and
    referred to by pointers kept in connections and requests. A pointer is NULL
    or an offset into a block; a block that was freed is gone, its identifier is
    not used again, so that a dangling pointer is never mistaken for a valid
    one. Accesses outside a block, through NULL or into a freed block, are
    undefined, and so is the difference of pointers into two blocks. *)

From S2P Require Import Prelude.

Local Open Scope Z_scope.

Inductive ptr := NULL | Ptr (blk off : Z).

#[export] Instance ptr_eq_dec : EqDecision ptr.
Proof. solve_decision. Defined.

Record mem := Mem { blocks : gmap Z block; next_block : Z }.

Definition mem_empty : mem := Mem ∅ 0.

(** [calloc(size, 1)] when it succeeds *)
Definition mem_calloc (h : mem) (size : Z) : mem * ptr :=
  (Mem (<[next_block h := calloc_block size]> (blocks h)) (next_block h + 1),
   Ptr (next_block h) 0).

(** [free(p)]: p is NULL or the start of a block not yet freed *)
Definition mem_free (h : mem) (p : ptr) : outcome mem :=
  match p with
  | NULL => Ret h
  | Ptr b o =>
      match blocks h !! b with
      | Some _ => if o =? 0 then Ret (Mem (delete b (blocks h)) (next_block h)) else Stop UB
      | None => Stop UB
      end
  end.

Definition ptr_add (p : ptr) (n : Z) : outcome ptr :=
  match p with NULL => Stop UB | Ptr b o => Ret (Ptr b (o + n)) end.

Definition ptr_diff (p q : ptr) : outcome Z :=
  match p, q with
  | Ptr b o, Ptr b' o' => if b =? b' then Ret (o - o') else Stop UB
  | _, _ => Stop UB
  end.

(** the block a pointer points into, and the offset *)
Definition mem_block (h : mem) (p : ptr) : outcome (Z * Z * block) :=
  match p with
  | NULL => Stop UB
  | Ptr b o => blk ← deref (blocks h !! b); Ret (b, o, blk)
  end.

Definition mem_load (n : nat) (h : mem) (p : ptr) : outcome Z :=
  '(_, o, blk) ← mem_block h p; blk_load n blk o.

Definition mem_put (h : mem) (b : Z) (blk : block) : mem :=
  Mem (<[b := blk]> (blocks h)) (next_block h).

Definition mem_store (n : nat) (h : mem) (p : ptr) (v : Z) : outcome mem :=
  '(b, o, blk) ← mem_block h p; blk' ← blk_store n blk o v; Ret (mem_put h b blk').

(** [memmove(dst, src, n)], also [memcpy] *)
Definition mem_move (h : mem) (dst src : ptr) (n : Z) : outcome mem :=
  '(_, so, sblk) ← mem_block h src;
  '(b, o, dblk) ← mem_block h dst;
  blk' ← blk_copy sblk so dblk o n;
  Ret (mem_put h b blk').

(** the kernel writes [data] at [p] *)
Fixpoint write_bytes (data : list Z) (d : bytes) (o : Z) : bytes :=
  match data with [] => d | x :: data => <[o := x]> (write_bytes data d (o + 1)) end.
Definition mem_write (h : mem) (p : ptr) (data : list Z) : outcome mem :=
  '(b, o, blk) ← mem_block h p;
  if in_block blk o (Z.of_nat (length data))
  then Ret (mem_put h b (Block (blk_size blk) (write_bytes data (blk_data blk) o)))
  else Stop UB.

Section Memory.
Implicit Types (h : mem) (b o v : Z) (blk : block).

Lemma mem_block_ok h b o blk : blocks h !! b = Some blk → mem_block h (Ptr b o) = Ret (b, o, blk).
Proof. intros E. unfold mem_block. by rewrite E. Qed.

Lemma mem_load_ok n h b o blk : blocks h !! b = Some blk → 0 ≤ o → o + Z.of_nat n ≤ blk_size blk →
  mem_load n h (Ptr b o) = Ret (load_le n (blk_data blk) o).
Proof. intros E ??. unfold mem_load. rewrite (mem_block_ok _ _ _ _ E). obind. by apply blk_load_ok. Qed.

Lemma mem_store_ok n h b o v blk : blocks h !! b = Some blk → 0 ≤ o →
  o + Z.of_nat n ≤ blk_size blk →
  mem_store n h (Ptr b o) v =
  Ret (mem_put h b (Block (blk_size blk) (store_le n (blk_data blk) o v))).
Proof.
  intros E ??. unfold mem_store. rewrite (mem_block_ok _ _ _ _ E). obind.
  by rewrite blk_store_ok.
Qed.

Lemma mem_move_ok h b blk dst src n : blocks h !! b = Some blk →
  0 ≤ src → 0 ≤ dst → 0 ≤ n → src + n ≤ blk_size blk → dst + n ≤ blk_size blk →
  mem_move h (Ptr b dst) (Ptr b src) n =
  Ret (mem_put h b (Block (blk_size blk)
    (copy_bytes (Z.to_nat n) (blk_data blk) src (blk_data blk) dst))).
Proof.
  intros E ?????. unfold mem_move. rewrite !(mem_block_ok _ _ _ _ E). obind. by rewrite blk_copy_ok.
Qed.

Lemma byte_at_write data d o x : byte_at (write_bytes data d o) x =
  if decide (o ≤ x < o + Z.of_nat (length data)) then (data !!! Z.to_nat (x - o)) mod 256
  else byte_at d x.
Proof.
  revert o. induction data as [|y data IH]; intros o; cbn [write_bytes length].
  - rewrite decide_False by lia. done.
  - rewrite byte_at_insert. case_decide as E.
    + subst x. rewrite decide_True by lia. by rewrite Z.sub_diag.
    + rewrite IH. repeat case_decide; try lia.
      replace (Z.to_nat (x - o)) with (S (Z.to_nat (x - (o + 1)))) by lia. done.
Qed.

Lemma mem_write_ok h b o blk data : blocks h !! b = Some blk → 0 ≤ o →
  o + Z.of_nat (length data) ≤ blk_size blk →
  mem_write h (Ptr b o) data =
  Ret (mem_put h b (Block (blk_size blk) (write_bytes data (blk_data blk) o))).
Proof.
  intros E ??. unfold mem_write. rewrite (mem_block_ok _ _ _ _ E). obind.
  by rewrite (proj2 (in_block_spec _ _ _)) by lia.
Qed.

Lemma segment_write data d o : Forall (fun x => 0 ≤ x < 256) data →
  segment (write_bytes data d o) o (Z.of_nat (length data)) = data.
Proof.
  intros Hd. apply list_eq. intros i. unfold segment. rewrite list_lookup_fmap.
  destruct (decide (i < length data)%nat) as [Hi|Hi].
  - rewrite lookup_seqZ_lt by lia. cbn [fmap option_fmap option_map].
    rewrite byte_at_write, decide_True by lia.
    destruct (lookup_lt_is_Some_2 data i Hi) as [x Hx].
    replace (Z.to_nat (o + Z.of_nat i - o)) with i by lia.
    rewrite (list_lookup_total_correct _ _ _ Hx), Hx.
    f_equal. apply Z.mod_small. by eapply Forall_lookup_1 in Hd.
  - rewrite lookup_seqZ_ge by lia. by rewrite lookup_ge_None_2 by lia.
Qed.

Lemma segment_write_before data d o p n : p + n ≤ o →
  segment (write_bytes data d o) p n = segment d p n.
Proof.
  intros Hp. apply segment_ext. intros x Hx. rewrite byte_at_write, decide_False by lia. done.
Qed.
End Memory.
