(* ===== verification/Request.v ===== *)
(** * The table of requests (src/src/request.h, request.c)

    [reqs] is an array of MAX_REQS entries, a [req_info_t *] is the index of
    its entry and NULL is [None]. An entry the table does not list is one that
    [req_init] tagged as unused. [last_reqs] is an atomic int, its increments
    wrap around. *)

From S2P Require Import Prelude Memory.

Local Open Scope Z_scope.

Definition MAX_REQS : Z := 65536.

(** [struct sockaddr_in]: what the program reads of it *)
Record sockaddr_in := SockAddr { sin_port : Z; s_addr : Z }.

#[export] Instance sockaddr_eq_dec : EqDecision sockaddr_in.
Proof. solve_decision. Defined.

Record req_info_t := MkReq {
  req_id : Z;
  r_conn_id : Z;
  r_target : sockaddr_in;
  fwd_replies_left : Z;
  fwd_replies_mask : Z;
  fwd_retries : Z;
  fwd_timeout : Z;
  fwd_on_fail_skip : Z;
  message_ptr : ptr;
  curr_cmd : ptr;
  timeout_node : option Z;
  prev : option Z;
  next : option Z;
  sendfile_fd : Z;
  sendfile_offset : Z;
  sendfile_size : Z
}.

Record reqs_t := MkReqs { rtab : gmap Z req_info_t; last_reqs : Z }.

(** ** Field updates *)

Definition set_req_id (r : req_info_t) (v : Z) : req_info_t :=
  MkReq v (r_conn_id r) (r_target r) (fwd_replies_left r) (fwd_replies_mask r) (fwd_retries r)
    (fwd_timeout r) (fwd_on_fail_skip r) (message_ptr r) (curr_cmd r) (timeout_node r)
    (prev r) (next r) (sendfile_fd r) (sendfile_offset r) (sendfile_size r).
Definition set_owner (r : req_info_t) (c : Z) (t : sockaddr_in) : req_info_t :=
  MkReq (req_id r) c t (fwd_replies_left r) (fwd_replies_mask r) (fwd_retries r)
    (fwd_timeout r) (fwd_on_fail_skip r) (message_ptr r) (curr_cmd r) (timeout_node r)
    (prev r) (next r) (sendfile_fd r) (sendfile_offset r) (sendfile_size r).
Definition set_links (r : req_info_t) (p n : option Z) : req_info_t :=
  MkReq (req_id r) (r_conn_id r) (r_target r) (fwd_replies_left r) (fwd_replies_mask r)
    (fwd_retries r) (fwd_timeout r) (fwd_on_fail_skip r) (message_ptr r) (curr_cmd r)
    (timeout_node r) p n (sendfile_fd r) (sendfile_offset r) (sendfile_size r).
Definition set_message (r : req_info_t) (m c : ptr) : req_info_t :=
  MkReq (req_id r) (r_conn_id r) (r_target r) (fwd_replies_left r) (fwd_replies_mask r)
    (fwd_retries r) (fwd_timeout r) (fwd_on_fail_skip r) m c
    (timeout_node r) (prev r) (next r) (sendfile_fd r) (sendfile_offset r) (sendfile_size r).
Definition set_fwd (r : req_info_t) (left mask retries timeout skip : Z) : req_info_t :=
  MkReq (req_id r) (r_conn_id r) (r_target r) left mask retries timeout skip
    (message_ptr r) (curr_cmd r) (timeout_node r) (prev r) (next r)
    (sendfile_fd r) (sendfile_offset r) (sendfile_size r).
Definition set_timeout_node (r : req_info_t) (t : option Z) : req_info_t :=
  MkReq (req_id r) (r_conn_id r) (r_target r) (fwd_replies_left r) (fwd_replies_mask r)
    (fwd_retries r) (fwd_timeout r) (fwd_on_fail_skip r) (message_ptr r) (curr_cmd r)
    t (prev r) (next r) (sendfile_fd r) (sendfile_offset r) (sendfile_size r).
Definition set_sendfile (r : req_info_t) (fd off size : Z) : req_info_t :=
  MkReq (req_id r) (r_conn_id r) (r_target r) (fwd_replies_left r) (fwd_replies_mask r)
    (fwd_retries r) (fwd_timeout r) (fwd_on_fail_skip r) (message_ptr r) (curr_cmd r)
    (timeout_node r) (prev r) (next r) fd off size.

(** ** Operations *)

Module Request.

(** [memset(..., 0)], then the tags of req_init *)
Definition unused_req : req_info_t :=
  MkReq (-1) (-1) (SockAddr 0 0) 0 0 0 0 0 NULL NULL None None None 0 0 0.
Definition req_init : reqs_t := MkReqs ∅ 0.

Definition req_at (st : reqs_t) (i : Z) : req_info_t := default unused_req (rtab st !! i).
Definition upd (st : reqs_t) (i : Z) (f : req_info_t → req_info_t) : reqs_t :=
  MkReqs (<[i := f (req_at st i)]> (rtab st)) (last_reqs st).

(** [req_id % MAX_REQS]: MAX_REQS is unsigned, so the id is converted first *)
Definition slot (id : Z) : Z := u32 id mod MAX_REQS.

Definition req_get_by_id (st : reqs_t) (id : Z) : option Z :=
  if req_id (req_at st (slot id)) =? id then Some (slot id) else None.

Definition req_alloc (st : reqs_t) : reqs_t * option Z :=
  let id := last_reqs st in
  let st := MkReqs (rtab st) (s32 (id + 1)) in
  let i := slot id in
  if negb (req_id (req_at st i) =? -1) then (st, None)
  else (upd st i (fun r =>
          set_links (set_fwd (set_message (set_req_id r id) (message_ptr r) NULL)
            (-1) (fwd_replies_mask r) (fwd_retries r) (fwd_timeout r) (fwd_on_fail_skip r))
            None None), Some i).

(** the neighbours are relinked before the entry is cleared; returns r->next *)
Definition req_unlink (st : reqs_t) (r : Z) : reqs_t * option Z :=
  let nx := next (req_at st r) in
  let pv := prev (req_at st r) in
  let st := match nx with
            | Some n => upd st n (fun q => set_links q pv (next q))
            | None => st end in
  let st := match prev (req_at st r) with
            | Some p => upd st p (fun q => set_links q (prev q) (next (req_at st r)))
            | None => st end in
  (upd st r (fun q => set_message (set_req_id (set_links q None None) (-1)) NULL (curr_cmd q)),
   nx).

End Request.

(** ** Specification: identifiers *)

Import Request.

(** an entry in use is in the slot of its id *)
Definition ids_wf (st : reqs_t) : Prop :=
  ∀ i, req_id (req_at st i) = -1 ∨ slot (req_id (req_at st i)) = i.

Lemma req_slot_range id : 0 ≤ slot id < MAX_REQS.
Proof. apply Z.mod_pos_bound. done. Qed.

Lemma req_at_upd st i f j :
  req_at (upd st i f) j = if decide (i = j) then f (req_at st i) else req_at st j.
Proof. unfold req_at, upd. cbn [rtab]. rewrite lookup_insert. by case_decide. Qed.

Lemma req_init_wf : ids_wf req_init.
Proof. intros i. by left. Qed.

Lemma get_by_id_spec st id i : ids_wf st → id ≠ -1 →
  req_get_by_id st id = Some i ↔ req_id (req_at st i) = id.
Proof.
  intros W Hid. unfold req_get_by_id. destruct (Z.eqb_spec (req_id (req_at st (slot id))) id) as [E|E].
  - split; [by intros [= <-]|]. intros E'. destruct (W i) as [Hw|Hw]; [congruence|].
    rewrite E' in Hw. by rewrite Hw.
  - split; [done|]. intros E'. destruct (W i) as [Hw|Hw]; [congruence|].
    rewrite E' in Hw. by rewrite Hw in E.
Qed.

Lemma alloc_spec st : ids_wf st →
  let id := last_reqs st in
  match req_alloc st with
  | (st', None) => req_id (req_at st (slot id)) ≠ -1 ∧ (∀ j, req_at st' j = req_at st j)
  | (st', Some i) => i = slot id ∧ req_id (req_at st i) = -1 ∧ ids_wf st' ∧
      req_id (req_at st' i) = id ∧ curr_cmd (req_at st' i) = NULL ∧
      fwd_replies_left (req_at st' i) = -1 ∧
      prev (req_at st' i) = None ∧ next (req_at st' i) = None ∧
      (∀ j, j ≠ i → req_at st' j = req_at st j)
  end ∧ last_reqs (req_alloc st).1 = s32 (id + 1).
Proof.
  intros W id. unfold req_alloc. fold id.
  destruct (Z.eqb_spec (req_id (req_at st (slot id))) (-1)) as [E|E].
  2: { change (req_at (MkReqs _ _)) with (req_at st).
       by rewrite (proj2 (Z.eqb_neq _ _) E). }
  change (req_at (MkReqs _ _)) with (req_at st).
  rewrite (proj2 (Z.eqb_eq _ _) E). cbn [negb]. split; [|done].
  assert (Hother : ∀ j f, j ≠ slot id →
    req_at (upd (MkReqs (rtab st) (s32 (id + 1))) (slot id) f) j = req_at st j).
  { intros j f Hj. rewrite req_at_upd, decide_False; done. }
  split_and!; [done..| | | | | | |by intros j Hj; apply Hother].
  - intros j. destruct (decide (j = slot id)) as [->|Hj].
    + rewrite req_at_upd, decide_True by done. right. done.
    + rewrite Hother by done. apply W.
  - by rewrite req_at_upd, decide_True.
  - by rewrite req_at_upd, decide_True.
  - by rewrite req_at_upd, decide_True.
  - by rewrite req_at_upd, decide_True.
  - by rewrite req_at_upd, decide_True.
Qed.

(** ** Specification: the list of the requests of a connection *)

(** [l] lists the entries reached from the head through [next], and [prev] is
    the way back *)
Definition linked (st : reqs_t) (l : list Z) : Prop :=
  NoDup l ∧ ∀ k i, l !! k = Some i →
    next (req_at st i) = l !! S k ∧
    prev (req_at st i) = match k with O => None | S k => l !! k end.

(** what the list operations leave alone in an entry *)
Definition same_but_links (r r' : req_info_t) : Prop :=
  req_id r' = req_id r ∧ r_conn_id r' = r_conn_id r ∧ r_target r' = r_target r ∧
  message_ptr r' = message_ptr r ∧ curr_cmd r' = curr_cmd r ∧
  timeout_node r' = timeout_node r.

Lemma same_but_links_refl r : same_but_links r r.
Proof. by split_and!. Qed.

Section Links.
Implicit Types (st : reqs_t) (l : list Z).

Lemma linked_nil st : linked st [].
Proof. split; [constructor|]. intros k i E. done. Qed.

Lemma linked_ext st st' l : linked st l →
  (∀ i, i ∈ l → next (req_at st' i) = next (req_at st i) ∧ prev (req_at st' i) = prev (req_at st i)) →
  linked st' l.
Proof.
  intros [Hn H] E. split; [done|]. intros k i Hi.
  destruct (E i) as [-> ->]; [by eapply list_elem_of_lookup_2|]. by apply H.
Qed.

Lemma unlink_at st l k r : linked st l → l !! k = Some r →
  ∀ i, req_at (req_unlink st r).1 i =
    if decide (i = r) then
      set_message (set_req_id (set_links (req_at st r) None None) (-1)) NULL (curr_cmd (req_at st r))
    else if decide (l !! S k = Some i) then set_links (req_at st i) (prev (req_at st r)) (next (req_at st i))
    else if decide (prev (req_at st r) = Some i) then set_links (req_at st i) (prev (req_at st i)) (next (req_at st r))
    else req_at st i.
Proof.
  intros [Hnd H] Hk i. destruct (H k r Hk) as [En Ep].
  assert (Hnr : next (req_at st r) ≠ Some r).
  { rewrite En. intros X. pose proof (NoDup_lookup _ _ _ _ Hnd Hk X). lia. }
  assert (Hpr : prev (req_at st r) ≠ Some r).
  { rewrite Ep. destruct k; [done|]. intros X. pose proof (NoDup_lookup _ _ _ _ Hnd Hk X). lia. }
  assert (Hpn : ∀ x, next (req_at st r) = Some x → prev (req_at st r) ≠ Some x).
  { rewrite En, Ep. intros x X. destruct k; [done|]. intros Y.
    pose proof (NoDup_lookup _ _ _ _ Hnd X Y). lia. }
  rewrite <- En. unfold req_unlink. cbn [fst]. clear H En Ep Hk Hnd.
  set (nx := next (req_at st r)) in *. set (pv := prev (req_at st r)) in *.
  set (st1 := match nx with Some n => _ | None => st end).
  assert (E1 : ∀ j, req_at st1 j =
    if decide (nx = Some j) then set_links (req_at st j) pv (next (req_at st j)) else req_at st j).
  { intros j. unfold st1. destruct nx as [n|]; [|done]. rewrite req_at_upd.
    destruct (decide (n = j)) as [->|]; [by rewrite decide_True|by rewrite decide_False by congruence]. }
  assert (E1r : req_at st1 r = req_at st r) by (by rewrite E1, decide_False).
  rewrite E1r. fold pv nx.
  set (st2 := match pv with Some p => _ | None => st1 end).
  assert (E2 : ∀ j, req_at st2 j =
    if decide (pv = Some j) then set_links (req_at st1 j) (prev (req_at st1 j)) nx else req_at st1 j).
  { intros j. unfold st2. destruct pv as [p|]; [|done]. rewrite req_at_upd.
    destruct (decide (p = j)) as [->|]; [by rewrite decide_True|by rewrite decide_False by congruence]. }
  assert (E2r : req_at st2 r = req_at st r) by (by rewrite E2, decide_False).
  rewrite req_at_upd, E2r. destruct (decide (r = i)) as [->|Hri]; [by rewrite decide_True|].
  rewrite (decide_False (P := i = r)) by congruence. rewrite E2, E1.
  destruct (decide (nx = Some i)) as [Hx|Hx]; [|done].
  by rewrite decide_False by auto.
Qed.

Lemma unlink_linked st l k r : linked st l → l !! k = Some r →
  let '(st', nx) := req_unlink st r in
  nx = l !! S k ∧ linked st' (delete k l) ∧
  req_id (req_at st' r) = -1 ∧ message_ptr (req_at st' r) = NULL ∧
  next (req_at st' r) = None ∧ prev (req_at st' r) = None ∧
  (∀ i, i ≠ r → same_but_links (req_at st i) (req_at st' i)) ∧
  (∀ i, i ∉ l → req_at st' i = req_at st i).
Proof.
  intros L Hk. pose proof (unlink_at st l k r L Hk) as U.
  destruct L as [Hnd H]. destruct (H k r Hk) as [En Ep].
  destruct (req_unlink st r) as [st' nx] eqn:E. cbn [fst] in U.
  assert (nx = next (req_at st r)) as -> by (unfold req_unlink in E; congruence).
  split_and!; [done| |by rewrite U, decide_True..| |].
  - split; [by eapply sublist_NoDup; [|apply sublist_delete]|]. intros m i Hi.
    assert (Hpos : (∃ m', l !! m' = Some i ∧ m' ≠ k ∧ ((m < k ∧ m' = m) ∨ (k ≤ m ∧ m' = S m)))%nat).
    { destruct (decide (m < k)%nat) as [Hm|Hm].
      - rewrite list_lookup_delete_lt in Hi by done. exists m. split_and!; [done|lia|lia].
      - rewrite list_lookup_delete_ge in Hi by lia. exists (S m). split_and!; [done|lia|lia]. }
    destruct Hpos as (m' & Hm' & Hne & Hmm). destruct (H m' i Hm') as [Eni Epi].
    assert (i ≠ r) by (intros ->; apply Hne; by apply (NoDup_lookup l m' k r)).
    assert (Hnext : l !! S k = Some i ↔ m' = S k).
    { split; [intros X; by apply (NoDup_lookup l m' (S k) i)|by intros ->]. }
    assert (Hprev : prev (req_at st r) = Some i ↔ S m' = k).
    { rewrite Ep. destruct k as [|k']; [naive_solver|].
      split; [intros X; f_equal; by apply (NoDup_lookup l m' k' i)|by intros [= ->]]. }
    rewrite U, decide_False by done.
    split.
    + assert (delete k l !! S m = if decide (S m' = k) then next (req_at st r) else l !! S m') as ->.
      { case_decide.
        - rewrite list_lookup_delete_ge by lia. rewrite En. f_equal. lia.
        - destruct Hmm as [[? ->]|[? ->]]; [rewrite list_lookup_delete_lt by lia; done|].
          by rewrite list_lookup_delete_ge by lia. }
      destruct (decide (l !! S k = Some i)) as [X|X].
      { rewrite decide_False by (apply Hnext in X; lia). done. }
      destruct (decide (prev (req_at st r) = Some i)) as [Y|Y].
      { by rewrite decide_True by tauto. }
      by rewrite decide_False by tauto.
    + assert (match m with O => None | S m => delete k l !! m end =
        if decide (m' = S k) then prev (req_at st r) else
        match m' with O => None | S m' => l !! m' end) as ->.
      { case_decide as Ek.
        - rewrite Ep. destruct m as [|m]; [destruct k; [done|lia]|].
          destruct k as [|k']; [lia|]. rewrite list_lookup_delete_lt by lia. f_equal. lia.
        - destruct m as [|m]; [destruct m'; [done|lia]|].
          destruct Hmm as [[? ->]|[? ->]]; [by rewrite list_lookup_delete_lt by lia|].
          by rewrite list_lookup_delete_ge by lia. }
      destruct (decide (l !! S k = Some i)) as [X|X].
      { by rewrite decide_True by tauto. }
      rewrite (decide_False (P := m' = S k)) by tauto. by destruct (decide (prev (req_at st r) = Some i)).
  - intros i Hi. rewrite U, decide_False by done. repeat case_decide; by split_and!.
  - intros i Hi. rewrite U. rewrite !decide_False; [done| | |].
    + rewrite Ep. destruct k; [done|]. intros X. by apply Hi, (list_elem_of_lookup_2 _ k).
    + intros X. by apply Hi, (list_elem_of_lookup_2 _ (S k)).
    + intros ->. by apply Hi, (list_elem_of_lookup_2 _ k).
Qed.
End Links.

(** ** Properties *)

(** three requests of one connection, the newest first *)
Definition three_linked : reqs_t :=
  MkReqs (list_to_map
    [(2, set_links (set_req_id unused_req 2) None (Some 1));
     (1, set_links (set_req_id unused_req 1) (Some 2) (Some 0));
     (0, set_links (set_req_id unused_req 0) (Some 1) None)]) 3.

Lemma three_linked_ok : ids_wf three_linked ∧ linked three_linked [2; 1; 0].
Proof.
  split.
  - intros i. unfold req_at, three_linked. cbn [rtab].
    destruct (list_to_map _ !! i) as [r|] eqn:E; [|by left]. right.
    apply elem_of_list_to_map_2 in E. set_unfold in E.
    destruct E as [[= -> ->]|[[= -> ->]|[[= -> ->]|[]]]]; reflexivity.
  - split; [repeat constructor; set_solver|].
    intros [|[|[|k]]] i E; cbn in E; try (injection E as <-; split; reflexivity). done.
Qed.

(** Allocation: the id comes from the shared counter, and either the
    slot of that id is still in use and nothing changes but the counter, or
    the entry is handed out with that id, is found again by it (unless the id
    is -1, the tag of unused entries), and every other entry is untouched;
    ids stay in their slots. *)
Theorem req_alloc_lookup (st : reqs_t) :
  ids_wf st →
  let id := last_reqs st in
  match req_alloc st with
  | (st', None) => req_id (req_at st (slot id)) ≠ -1 ∧ ∀ j, req_at st' j = req_at st j
  | (st', Some i) => req_id (req_at st i) = -1 ∧ ids_wf st' ∧ req_id (req_at st' i) = id ∧
      (id ≠ -1 → req_get_by_id st' id = Some i) ∧ (∀ j, j ≠ i → req_at st' j = req_at st j)
  end.
Proof.
  intros W id. destruct (alloc_spec st W) as [H _]. fold id in H.
  destruct (req_alloc st) as [st' [i|]]; [|done].
  destruct H as (-> & E & W' & E' & _ & _ & _ & _ & Ho). split_and!; try done.
  intros Hid. by apply get_by_id_spec.
Qed.

Lemma req_alloc_lookup_witness :
  ids_wf three_linked ∧ req_get_by_id (req_alloc three_linked).1 3 = Some 3.
Proof.
  split; [apply three_linked_ok|].
  pose proof (req_alloc_lookup three_linked (proj1 three_linked_ok)) as H.
  destruct (req_alloc three_linked) as [st' o] eqn:E.
  assert (o = Some 3) as -> by (apply (f_equal snd) in E; vm_compute in E; symmetry; exact E).
  apply H. discriminate.
Defined.

(** Releasing a request takes it out of its connection's list, wherever
    it is, keeps the list and its backward links in order, returns the next
    (older) request, and changes nothing else of the other entries; from then
    on a late reply or an expired timer that carries its id finds no request. *)
Theorem req_unlink_releases (st : reqs_t) (l : list Z) (k : nat) (r : Z) :
  ids_wf st → linked st l → l !! k = Some r →
  let '(st', nx) := req_unlink st r in
  nx = l !! S k ∧ linked st' (delete k l) ∧ ids_wf st' ∧
  (∀ i, i ≠ r → same_but_links (req_at st i) (req_at st' i)) ∧
  (req_id (req_at st r) ≠ -1 → req_get_by_id st' (req_id (req_at st r)) = None).
Proof.
  intros W L Hk. pose proof (unlink_linked st l k r L Hk) as H.
  destruct (req_unlink st r) as [st' nx].
  destruct H as (-> & L' & Er & _ & _ & _ & Ho & _).
  assert (W' : ids_wf st').
  { intros i. destruct (decide (i = r)) as [->|Hi]; [by left|].
    destruct (Ho i Hi) as (-> & _). apply W. }
  split_and!; try done. intros Hid.
  destruct (req_get_by_id st' (req_id (req_at st r))) as [i|] eqn:E; [|done].
  apply get_by_id_spec in E; [|done..].
  destruct (decide (i = r)) as [->|Hi]; [congruence|].
  destruct (Ho i Hi) as (Ei & _). destruct (W i) as [Hw|Hw]; [congruence|].
  destruct (W r) as [Hw'|Hw']; [congruence|]. destruct Hi.
  rewrite <- Hw, <- Hw'. congruence.
Qed.

Lemma req_unlink_releases_witness :
  linked three_linked [2; 1; 0] ∧
  let '(st', nx) := req_unlink three_linked 1 in
  nx = Some 0 ∧ linked st' [2; 0] ∧ req_get_by_id st' 1 = None.
Proof.
  split; [apply three_linked_ok|].
  destruct (req_unlink_releases three_linked [2; 1; 0] 1 1 (proj1 three_linked_ok)
    (proj2 three_linked_ok) eq_refl) as (E1 & E2 & _ & _ & E3).
  exact (conj E1 (conj E2 (E3 ltac:(discriminate)))).
Defined.
