(* ===== verification/Connection.v ===== *)
(** * Connections (src/src/connection.h, connection.c)

    The table [conns], the receive and send buffers of each connection and the
    list of its requests. The state of the program the functions share is a
    [world]: the table of requests, the table of connections and the heap. A
    [conn_info_t *] is the index of the connection. What the kernel and OpenSSL
    answer (return values, errno, the bytes received) is an argument of the
    function that makes the call; DPDK_ENABLED is not defined.

    The fields of [conn_info_t] are grouped by the part of the connection they
    describe (receive side, send side, sendfile, TLS). *)

From stdpp Require Import strings.
From S2P Require Import Prelude Memory Request Message.

Local Open Scope Z_scope.

Definition MAX_CONNS : Z := 8192.

Inductive conn_status_t :=
  | NOT_INIT | READY | SENDING | CONNECTING | SSL_HANDSHAKE | CLOSING | CLOSE.

#[export] Instance conn_status_eq_dec : EqDecision conn_status_t.
Proof. solve_decision. Defined.

Record rx_t := MkRx {
  recv_buf : ptr;
  curr_recv_buf : ptr;
  curr_recv_size : Z;
  curr_proc_buf : ptr
}.
Record tx_t := MkTx { send_buf : ptr; curr_send_buf : ptr; curr_send_size : Z }.
Record file_t := MkFile {
  file_fd : Z;
  file_offset : Z;
  file_remaining : Z;
  reply_mode : Z
}.
Record ssl_t := MkSsl {
  use_ssl : Z;
  ssl : option Z;
  ssl_handshake_done : Z;
  ssl_is_server : Z
}.

Record conn_info_t := MkConn {
  c_proto : Z;
  sock : Z;
  status : conn_status_t;
  target : sockaddr_in;
  rx : rx_t;
  tx : tx_t;
  file : file_t;
  req_list : option Z;
  serialize_request : Z;
  parent_thread : Z;
  busy : Z;
  enable_defrag : Z;
  is_listen : Z;
  c_ssl : ssl_t
}.

Record world := World {
  w_reqs : reqs_t;
  w_conns : gmap Z conn_info_t;
  w_mem : mem
}.

(** ** Field updates *)

Definition with_status (c : conn_info_t) (s : conn_status_t) : conn_info_t :=
  MkConn (c_proto c) (sock c) s (target c) (rx c) (tx c) (file c) (req_list c)
    (serialize_request c) (parent_thread c) (busy c) (enable_defrag c) (is_listen c) (c_ssl c).
Definition with_sock (c : conn_info_t) (s : Z) : conn_info_t :=
  MkConn (c_proto c) s (status c) (target c) (rx c) (tx c) (file c) (req_list c)
    (serialize_request c) (parent_thread c) (busy c) (enable_defrag c) (is_listen c) (c_ssl c).
Definition with_target (c : conn_info_t) (t : sockaddr_in) : conn_info_t :=
  MkConn (c_proto c) (sock c) (status c) t (rx c) (tx c) (file c) (req_list c)
    (serialize_request c) (parent_thread c) (busy c) (enable_defrag c) (is_listen c) (c_ssl c).
Definition with_rx (c : conn_info_t) (x : rx_t) : conn_info_t :=
  MkConn (c_proto c) (sock c) (status c) (target c) x (tx c) (file c) (req_list c)
    (serialize_request c) (parent_thread c) (busy c) (enable_defrag c) (is_listen c) (c_ssl c).
Definition with_tx (c : conn_info_t) (x : tx_t) : conn_info_t :=
  MkConn (c_proto c) (sock c) (status c) (target c) (rx c) x (file c) (req_list c)
    (serialize_request c) (parent_thread c) (busy c) (enable_defrag c) (is_listen c) (c_ssl c).
Definition with_file (c : conn_info_t) (f : file_t) : conn_info_t :=
  MkConn (c_proto c) (sock c) (status c) (target c) (rx c) (tx c) f (req_list c)
    (serialize_request c) (parent_thread c) (busy c) (enable_defrag c) (is_listen c) (c_ssl c).
Definition with_req_list (c : conn_info_t) (l : option Z) : conn_info_t :=
  MkConn (c_proto c) (sock c) (status c) (target c) (rx c) (tx c) (file c) l
    (serialize_request c) (parent_thread c) (busy c) (enable_defrag c) (is_listen c) (c_ssl c).
Definition with_busy (c : conn_info_t) (b : Z) : conn_info_t :=
  MkConn (c_proto c) (sock c) (status c) (target c) (rx c) (tx c) (file c) (req_list c)
    (serialize_request c) (parent_thread c) b (enable_defrag c) (is_listen c) (c_ssl c).
Definition with_ssl (c : conn_info_t) (s : ssl_t) : conn_info_t :=
  MkConn (c_proto c) (sock c) (status c) (target c) (rx c) (tx c) (file c) (req_list c)
    (serialize_request c) (parent_thread c) (busy c) (enable_defrag c) (is_listen c) s.

(** ** The answers of the kernel and of OpenSSL *)

(** errno after a failed call; EWOULDBLOCK is EAGAIN *)
Inductive errno := EAGAIN | EPIPE | ECONNRESET | EOTHER.

#[export] Instance errno_eq_dec : EqDecision errno.
Proof. solve_decision. Defined.

(** [send], [sendto], [sendfile]: the value returned, and errno *)
Record sys_ret := SysRet { s_ret : Z; s_errno : errno }.

Inductive ssl_err := SSL_ERROR_WANT_READ | SSL_ERROR_WANT_WRITE | SSL_ERROR_ZERO_RETURN
  | SSL_ERROR_OTHER.
(** [SSL_write], [SSL_accept], [SSL_connect]: the value returned, and SSL_get_error *)
Record ssl_ret := SslRet { l_ret : Z; l_err : ssl_err }.

(** [recvfrom]: the bytes placed in the buffer and the sender's address, where
    the kernel gives one (no bytes: the peer closed), or an error *)
Inductive recv_ret :=
  | Received (data : list Z) (from : option sockaddr_in)
  | RecvFail (e : errno).
(** [SSL_read] *)
Inductive ssl_recv_ret :=
  | SslReceived (data : list Z)
  | SslRecvFail (e : ssl_err).

Module Connection.

(** ** The table *)

(** an entry as conn_init leaves the zeroed table *)
Definition conn0 : conn_info_t :=
  MkConn 0 (-1) NOT_INIT (SockAddr 0 0) (MkRx NULL NULL 0 NULL) (MkTx NULL NULL 0)
    (MkFile 0 0 0 0) None 0 0 0 0 0 (MkSsl 0 None 0 0).

Definition conn_at (w : world) (c : Z) : conn_info_t := default conn0 (w_conns w !! c).
(** [conns[c]] *)
Definition get_conn (w : world) (c : Z) : outcome conn_info_t :=
  if (0 <=? c) && (c <? MAX_CONNS) then Ret (conn_at w c) else Stop UB.
Definition set_conn (w : world) (c : Z) (x : conn_info_t) : world :=
  World (w_reqs w) (<[c := x]> (w_conns w)) (w_mem w).
Definition set_mem (w : world) (h : mem) : world := World (w_reqs w) (w_conns w) h.
Definition set_reqs (w : world) (st : reqs_t) : world := World st (w_conns w) (w_mem w).

Definition conn_init (w : world) : world :=
  World (w_reqs w)
    ((fun c => with_ssl (with_busy (with_sock
        (with_tx (with_rx c (MkRx NULL (curr_recv_buf (rx c)) (curr_recv_size (rx c))
                               (curr_proc_buf (rx c))))
           (MkTx NULL (curr_send_buf (tx c)) (curr_send_size (tx c)))) (-1)) 0)
        (MkSsl 0 None 0 0)) <$> w_conns w)
    (w_mem w).

Definition conn_status_str (s : conn_status_t) : outcome (option string) :=
  arr_get [Some "NOT INIT"; Some "READY"; Some "SENDING"; Some "CONNECTING";
           Some "SSL HANDSHAKE"; Some "CLOSE"; None]%string
    match s with
    | NOT_INIT => 0 | READY => 1 | SENDING => 2 | CONNECTING => 3 | SSL_HANDSHAKE => 4
    | CLOSING => 5 | CLOSE => 6
    end.

Definition conn_set_status (w : world) (c : Z) (s : conn_status_t)
    : outcome (world * conn_status_t) :=
  conn ← get_conn w c; Ret (set_conn w c (with_status conn s), status conn).
Definition conn_get_status (w : world) (c : Z) : outcome conn_status_t :=
  status <$> get_conn w c.

(** [conn_find_existing], [conn_find_sock]: the first entry that satisfies the
    test, from [i] on *)
Fixpoint find_from (fuel : nat) (p : conn_info_t → bool) (w : world) (i : Z) : Z :=
  match fuel with
  | O => -1
  | S fuel => if p (conn_at w i) then i else find_from fuel p w (i + 1)
  end.
Definition find_conn (p : conn_info_t → bool) (w : world) : Z :=
  find_from (Z.to_nat MAX_CONNS) p w 0.

Definition conn_matches (self : Z) (t : sockaddr_in) (p : Z) (c : conn_info_t) : bool :=
  if (p =? DPDK) && (c_proto c =? DPDK) && (parent_thread c =? self) then true
  else if sock c =? -1 then false
  else if negb (is_listen c =? 0) then false
  else if (p =? UDP) && (parent_thread c =? self) then true
  else (p =? TCP) && (sin_port (target c) =? sin_port t) && (s_addr (target c) =? s_addr t)
       && (c_proto c =? p).
(** [self] is pthread_self() *)
Definition conn_find_existing (w : world) (self : Z) (t : sockaddr_in) (p : Z) : Z :=
  find_conn (conn_matches self t p) w.

Definition conn_find_sock (w : world) (s : Z) : outcome Z :=
  _ ← assert_ (negb (s =? -1));
  Ret (find_conn (fun c => sock c =? s) w).

(** ** Requests of a connection *)

Definition conn_req_add (w : world) (c : Z) : outcome (world * option Z) :=
  match Request.req_alloc (w_reqs w) with
  | (st, None) => Ret (set_reqs w st, None)
  | (st, Some r) =>
      conn ← get_conn w c;
      let st := Request.upd st r (fun q =>
        set_links (set_owner q c (target conn)) (prev q) (req_list conn)) in
      let st := match req_list conn with
                | Some n => Request.upd st n (fun q => set_links q (Some r) (next q))
                | None => st end in
      Ret (set_conn (set_reqs w st) c (with_req_list conn (Some r)), Some r)
  end.

(** the loop of conn_reset that releases the requests; req_list is not reset.
    (The loop before it only logs.) *)
Fixpoint unlink_all (fuel : nat) (st : reqs_t) (t : option Z) : outcome reqs_t :=
  match fuel with
  | O => Stop OutOfFuel
  | S fuel =>
      match t with
      | None => Ret st
      | Some r => let '(st, nx) := Request.req_unlink st r in unlink_all fuel st nx
      end
  end.
(** a list has at most MAX_REQS entries *)
Definition conn_reset (w : world) (c : Z) : outcome world :=
  conn ← get_conn w c;
  st ← unlink_all (S (Z.to_nat MAX_REQS)) (w_reqs w) (req_list conn);
  Ret (set_reqs w st).

(** is [p] within the [BUF_SIZE] bytes of the buffer that starts at [buf]? *)
Definition in_buf (p buf : ptr) : outcome bool :=
  match p, buf with
  | Ptr b o, Ptr b' o' => Ret ((b =? b') && (o' <=? o) && (o <? o' + BUF_SIZE))
  | NULL, NULL => Stop UB
  | _, _ => Ret false
  end.

(** the messages of the newer requests have moved down by [size] bytes *)
Fixpoint shift_newer (fuel : nat) (st : reqs_t) (t : option Z) (size : Z) : outcome reqs_t :=
  match fuel with
  | O => Stop OutOfFuel
  | S fuel =>
      match t with
      | None => Ret st
      | Some i =>
          m ← ptr_add (message_ptr (Request.req_at st i)) (- size);
          cc ← match curr_cmd (Request.req_at st i) with
               | NULL => Ret NULL
               | p => ptr_add p (- size)
               end;
          shift_newer fuel (Request.upd st i (fun q => set_message q m cc))
            (prev (Request.req_at st i)) size
      end
  end.

Definition defragment (w : world) (c r : Z) : outcome world :=
  conn ← get_conn w c;
  let req := Request.req_at (w_reqs w) r in
  let x := rx conn in
  mp ← ptr_add (message_ptr req) 4;
  size ← mem_load 4 (w_mem w) mp;
  after ← ptr_add (message_ptr req) size;
  leftover ← ptr_diff (curr_recv_buf x) after;
  h ← mem_move (w_mem w) (message_ptr req) after (u64 leftover);
  crb ← ptr_add (curr_recv_buf x) (- size);
  cpb ← ptr_add (curr_proc_buf x) (- size);
  let conn := with_rx conn (MkRx (recv_buf x) crb (u64 (curr_recv_size x + size)) cpb) in
  st ← shift_newer (S (Z.to_nat MAX_REQS)) (w_reqs w) (prev req) size;
  Ret (set_conn (set_reqs (set_mem w h) st) c conn).

Definition conn_req_remove (w : world) (c r : Z) : outcome (world * option Z) :=
  conn ← get_conn w c;
  inside ← (if enable_defrag conn =? 0 then Ret false
            else in_buf (message_ptr (Request.req_at (w_reqs w) r)) (recv_buf (rx conn)));
  w ← (if (inside : bool) then defragment w c r else Ret w);
  conn ← get_conn w c;
  let conn := if bool_decide (req_list conn = Some r)
              then with_req_list conn (next (Request.req_at (w_reqs w) r)) else conn in
  let '(st, nx) := Request.req_unlink (w_reqs w) r in
  Ret (set_conn (set_reqs w st) c conn, nx).

(** ** Allocation and release *)

Definition conn_del_id (w : world) (id : Z) : outcome world :=
  _ ← assert_ ((0 <=? id) && (id <? MAX_CONNS));
  w ← conn_reset w id;
  conn ← get_conn w id;
  Ret (set_conn w id (with_sock conn (-1))).

Definition conn_del_sock (w : world) (s : Z) : outcome (world * Z) :=
  id ← conn_find_sock w s;
  if id =? -1 then Ret (w, id) else w ← conn_del_id w id; Ret (w, id).

(** SSL_shutdown and SSL_free leave the tables alone *)
Definition conn_free (w : world) (c : Z) : outcome world :=
  if c <? 0 then Ret w
  else
    w ← conn_reset w c;
    conn ← get_conn w c;
    h ← mem_free (w_mem w) (recv_buf (rx conn));
    h ← mem_free h (send_buf (tx conn));
    let x := rx conn in
    let y := tx conn in
    let s := c_ssl conn in
    let conn := with_tx (with_rx conn
      (MkRx NULL (curr_recv_buf x) (curr_recv_size x) (curr_proc_buf x)))
      (MkTx NULL (curr_send_buf y) (curr_send_size y)) in
    let conn := with_ssl conn
      (MkSsl (use_ssl s) (if use_ssl s =? 0 then ssl s else None) 0 0) in
    Ret (set_conn (set_mem w h) c (with_busy (with_sock (with_status conn CLOSE) (-1)) 0)).

(** [atomic_exchange(&conns[i].busy, 1)] on each entry until one was free:
    the entries before it were busy and stay so *)
Definition first_free (w : world) : Z := find_conn (fun c => busy c =? 0) w.

(** [ok_recv], [ok_send]: whether each calloc succeeds *)
Definition conn_alloc (w : world) (self : Z) (ok_recv ok_send : bool)
    (conn_sock : Z) (t : sockaddr_in) (p : Z) : outcome (world * Z) :=
  let id := first_free w in
  if id =? -1 then Ret (w, -1)
  else
    let w := set_conn w id (with_busy (conn_at w id) 1) in
    if negb (ok_recv && ok_send) then Ret (w, -1)
    else
      let '(h, rb) := mem_calloc (w_mem w) BUF_SIZE in
      let '(h, sb) := mem_calloc h BUF_SIZE in
      let c := conn_at w id in
      let c := MkConn p conn_sock (if p =? TCP then NOT_INIT else READY) t
        (MkRx rb rb BUF_SIZE rb) (MkTx sb sb 0) (file c) (req_list c) 0 self (busy c)
        (enable_defrag c) (is_listen c) (MkSsl 0 None 0 0) in
      ps ← ptr_add sb sizeof_message_t;
      h ← mem_store 4 h ps (type_to_Z EOM);
      pr ← ptr_add rb sizeof_message_t;
      h ← mem_store 4 h pr (type_to_Z EOM);
      Ret (set_conn (set_mem w h) id c, id).

(** ** Buffers *)

Definition get_send_buf (w : world) (c size : Z) : outcome ptr :=
  conn ← get_conn w c;
  used ← ptr_diff (curr_send_buf (tx conn)) (send_buf (tx conn));
  _ ← assert_ (u64 (used + curr_send_size (tx conn) + size) <=? BUF_SIZE);
  ptr_add (curr_send_buf (tx conn)) (curr_send_size (tx conn)).

Definition conn_prepare_send_message (w : world) (c : Z) : outcome (world * ptr) :=
  conn ← get_conn w c;
  let y := tx conn in
  m ← ptr_add (send_buf y) (curr_send_size y);
  used ← ptr_diff (curr_send_buf y) (send_buf y);
  pm ← ptr_add m 4;
  h ← mem_store 4 (w_mem w) pm (u32 (BUF_SIZE - (used + curr_send_size y)));
  Ret (set_mem w h, m).

Definition conn_prepare_recv_message (w : world) (c : Z) : outcome (world * option ptr) :=
  conn ← get_conn w c;
  let x := rx conn in
  d ← ptr_diff (curr_recv_buf x) (curr_proc_buf x);
  let msg_size := u64 d in
  if msg_size <? sizeof_message_t then Ret (w, None)
  else
    pm ← ptr_add (curr_proc_buf x) 4;
    req_size ← mem_load 4 (w_mem w) pm;
    if msg_size <? req_size then Ret (w, None)
    else
      _ ← assert_ ((sizeof_message_t <=? req_size) && (req_size <=? BUF_SIZE));
      cpb ← ptr_add (curr_proc_buf x) req_size;
      Ret (set_conn w c (with_rx conn
             (MkRx (recv_buf x) (curr_recv_buf x) (curr_recv_size x) cpb)),
           Some (curr_proc_buf x)).

(** ** Sending *)

(** [curr_send_buf += sent; curr_send_size -= sent] *)
Definition advance_tx (y : tx_t) (sent : Z) : outcome tx_t :=
  p ← ptr_add (curr_send_buf y) sent;
  Ret (MkTx (send_buf y) p (u64 (curr_send_size y - sent))).
(** back to the start of the buffer when all is sent *)
Definition rewind_tx (y : tx_t) : tx_t :=
  if curr_send_size y =? 0 then MkTx (send_buf y) (send_buf y) 0 else y.

(** the lock of [ssl_mtx] around the body is released on every path *)
Definition conn_ssl_send (w : world) (c : Z) (a : ssl_ret) : outcome (world * Z) :=
  conn ← get_conn w c;
  if l_ret a <=? 0 then
    match l_err a with
    | SSL_ERROR_WANT_WRITE | SSL_ERROR_WANT_READ => Ret (w, 0)
    | SSL_ERROR_ZERO_RETURN => Ret (set_conn w c (with_status conn CLOSING), 0)
    | SSL_ERROR_OTHER => Ret (w, -1)
    end
  else
    y ← advance_tx (tx conn) (l_ret a);
    Ret (set_conn w c (with_tx conn (rewind_tx y)), s32 (l_ret a)).

Definition conn_send (w : world) (c : Z) (a : sys_ret) (la : ssl_ret) : outcome (world * Z) :=
  conn ← get_conn w c;
  if negb (use_ssl (c_ssl conn) =? 0) then conn_ssl_send w c la
  else if s_ret a =? 0 then Ret (w, 0)
  else if s_ret a =? -1 then
    match s_errno a with
    | EAGAIN => Ret (set_conn w c (with_status conn SENDING), 0)
    | EPIPE | ECONNRESET => Ret (set_conn w c (with_status conn CLOSING), 0)
    | EOTHER => Ret (w, -1)
    end
  else
    y ← advance_tx (tx conn) (s_ret a);
    let conn := with_tx conn (rewind_tx y) in
    let conn := if (curr_send_size y =? 0) && bool_decide (status conn = SENDING)
                then with_status conn READY else conn in
    Ret (set_conn w c conn, s32 (s_ret a)).

Definition not_connected (s : conn_status_t) : bool :=
  match s with CONNECTING | SSL_HANDSHAKE | NOT_INIT => true | _ => false end.

Definition conn_start_send (w : world) (c : Z) (t : sockaddr_in) (a : sys_ret) (la : ssl_ret)
    : outcome (world * Z) :=
  conn ← get_conn w c;
  let y := tx conn in
  m ← ptr_add (send_buf y) (curr_send_size y);
  pm ← ptr_add m 4;
  req_size ← mem_load 4 (w_mem w) pm;
  let csb := if curr_send_size y =? 0 then send_buf y else curr_send_buf y in
  let y := MkTx (send_buf y) csb (u64 (curr_send_size y + req_size)) in
  let w := set_conn w c (with_tx (with_target conn t) y) in
  if not_connected (status conn) then Ret (w, 0) else conn_send w c a la.

(** phase 1 of conn_send_v2: [answers] are those of the successive [send]s;
    a list that runs out is a loop that still waits. The second component is
    the value returned at once, if any *)
Fixpoint send_header (answers : list sys_ret) (conn : conn_info_t)
    : outcome (conn_info_t * option Z) :=
  if 0 <? curr_send_size (tx conn) then
    match answers with
    | [] => Stop OutOfFuel
    | a :: answers =>
        if (s_ret a <=? 0) && bool_decide (s_errno a = EAGAIN) then send_header answers conn
        else if (s_ret a <=? 0)
                && bool_decide (s_errno a = EPIPE ∨ s_errno a = ECONNRESET)
        then Ret (with_status conn CLOSING, Some (-1))
        else
          y ← advance_tx (tx conn) (s_ret a);
          send_header answers (with_tx conn y)
    end
  else Ret (conn, None).

(** phase 3 *)
Definition file_complete (conn : conn_info_t) : conn_info_t :=
  let f := file conn in
  if file_remaining f =? 0 then
    with_status (with_tx (with_file conn (MkFile (-1) 0 (file_remaining f) (reply_mode f)))
      (MkTx (send_buf (tx conn)) (send_buf (tx conn)) (curr_send_size (tx conn)))) READY
  else conn.

(** [fa]: the answer of sendfile, which advances [file_offset] by what it sent *)
Definition conn_send_v2 (w : world) (c : Z) (answers : list sys_ret) (fa : sys_ret)
    : outcome (world * Z) :=
  conn ← get_conn w c;
  '(conn, early) ← send_header answers conn;
  match early with
  | Some rv => Ret (set_conn w c conn, rv)
  | None =>
      let f := file conn in
      if 0 <? file_remaining f then
        if s_ret fa =? -1 then
          match s_errno fa with
          | EAGAIN => Ret (set_conn w c (with_status conn SENDING), 0)
          | EPIPE | ECONNRESET => Ret (set_conn w c (with_status conn CLOSING), -1)
          | EOTHER => Ret (set_conn w c conn, -1)
          end
        else
          let f := MkFile (file_fd f) (file_offset f + s_ret fa)
                     (u64 (file_remaining f - s_ret fa)) (reply_mode f) in
          let conn := with_file conn f in
          if 0 <? file_remaining f then Ret (set_conn w c (with_status conn SENDING), 0)
          else Ret (set_conn w c (file_complete conn), 1)
      else Ret (set_conn w c (file_complete conn), 1)
  end.

Definition conn_start_sendfile (w : world) (c : Z) (t : sockaddr_in) (fd offset size : Z)
    (answers : list sys_ret) (fa : sys_ret) : outcome (world * Z) :=
  conn ← get_conn w c;
  let y := tx conn in
  pm ← ptr_add (send_buf y) 4;
  h ← mem_store 4 (w_mem w) pm (u32 size);
  let csb := if curr_send_size y =? 0 then send_buf y else curr_send_buf y in
  let f := MkFile fd offset (u64 (size - sizeof_message_t)) (reply_mode (file conn)) in
  let conn := with_file (with_tx (with_target conn t) (MkTx (send_buf y) csb sizeof_message_t)) f in
  let w := set_conn (set_mem w h) c conn in
  if not_connected (status conn) then Ret (w, 0) else conn_send_v2 w c answers fa.

Definition conn_flush (w : world) (c : Z) (a : sys_ret) (la : ssl_ret)
    (answers : list sys_ret) (fa : sys_ret) : outcome (world * Z) :=
  conn ← get_conn w c;
  if reply_mode (file conn) =? REPLY_MODE_NORMAL then conn_send w c a la
  else if reply_mode (file conn) =? REPLY_MODE_SENDFILE then conn_send_v2 w c answers fa
  else Ret (w, -1).

(** ** Receiving *)

(** the bytes land at curr_recv_buf; [curr_recv_buf += n; curr_recv_size -= n] *)
Definition receive (w : world) (c : Z) (conn : conn_info_t) (data : list Z) : outcome world :=
  let x := rx conn in
  let n := Z.of_nat (length data) in
  h ← mem_write (w_mem w) (curr_recv_buf x) data;
  p ← ptr_add (curr_recv_buf x) n;
  Ret (set_conn (set_mem w h) c
         (with_rx conn (MkRx (recv_buf x) p (u64 (curr_recv_size x - n)) (curr_proc_buf x)))).

Definition conn_ssl_recv (w : world) (c : Z) (a : ssl_recv_ret) : outcome (world * Z) :=
  conn ← get_conn w c;
  if bool_decide (status conn = SSL_HANDSHAKE) then Ret (w, 1)
  else
    match a with
    | SslReceived [] => Ret (w, 0)
    | SslReceived data => w ← receive w c conn data; Ret (w, 1)
    | SslRecvFail (SSL_ERROR_WANT_READ | SSL_ERROR_WANT_WRITE) => Ret (w, -1)
    | SslRecvFail _ => Ret (w, 0)
    end.

Definition conn_recv (w : world) (c : Z) (a : recv_ret) (la : ssl_recv_ret)
    : outcome (world * Z) :=
  conn ← get_conn w c;
  if negb (use_ssl (c_ssl conn) =? 0) then conn_ssl_recv w c la
  else
    match a with
    | Received data from =>
        let conn := match from with Some t => with_target conn t | None => conn end in
        match data with
        | [] => Ret (set_conn w c conn, 0)
        | _ => w ← receive w c conn data; Ret (w, 1)
        end
    | RecvFail EAGAIN => Ret (w, -1)
    | RecvFail _ => Ret (w, 0)
    end.

(** ** TLS *)

Definition conn_do_ssl_handshake (w : world) (c : Z) (a : ssl_ret) : outcome (world * Z) :=
  conn ← get_conn w c;
  if negb (bool_decide (status conn = SSL_HANDSHAKE)) then Ret (w, 1)
  else if l_ret a <=? 0 then
    match l_err a with
    | SSL_ERROR_WANT_READ | SSL_ERROR_WANT_WRITE => Ret (w, 0)
    | _ => Ret (w, -1)
    end
  else
    let s := c_ssl conn in
    Ret (set_conn w c (with_status (with_ssl conn
           (MkSsl (use_ssl s) (ssl s) 1 (ssl_is_server s))) READY), 1).

(** [new]: what SSL_new returns; [set_fd]: whether SSL_set_fd succeeds *)
Definition conn_enable_ssl (w : world) (c : Z) (new : option Z) (set_fd : bool) (is_server : Z)
    : outcome (world * Z) :=
  if (c <? 0) || (MAX_CONNS <=? c) then Ret (w, -1)
  else
    conn ← get_conn w c;
    let s := c_ssl conn in
    if sock conn <? 0 then Ret (w, -1)
    else if negb (use_ssl s =? 0) then Ret (w, 0)
    else
      match new with
      | None => Ret (set_conn w c (with_ssl conn
                  (MkSsl (use_ssl s) None (ssl_handshake_done s) (ssl_is_server s))), -1)
      | Some h =>
          if negb set_fd then
            Ret (set_conn w c (with_ssl conn
              (MkSsl (use_ssl s) None (ssl_handshake_done s) (ssl_is_server s))), -1)
          else
            Ret (set_conn w c (with_status (with_ssl conn (MkSsl 1 (Some h) 0 is_server))
                   SSL_HANDSHAKE), 1)
      end.

End Connection.

Import Connection.

(** ** Specification: the table *)

Section Table.
Implicit Types (w : world) (c : Z).

Lemma conn_at_set w c x c' :
  conn_at (set_conn w c x) c' = if decide (c = c') then x else conn_at w c'.
Proof. unfold conn_at, set_conn. cbn [w_conns]. rewrite lookup_insert. by case_decide. Qed.

Lemma conn_at_set_mem w h c : conn_at (set_mem w h) c = conn_at w c.
Proof. done. Qed.

Lemma conn_at_set_reqs w st c : conn_at (set_reqs w st) c = conn_at w c.
Proof. done. Qed.

Lemma get_conn_ok w c : 0 ≤ c < MAX_CONNS → get_conn w c = Ret (conn_at w c).
Proof. intros. unfold get_conn. by replace (_ && _) with true by lia. Qed.

Lemma find_from_spec fuel p w i :
  let r := find_from fuel p w i in
  (i ≤ r < i + Z.of_nat fuel ∧ p (conn_at w r) = true ∧
     ∀ j, i ≤ j < r → p (conn_at w j) = false) ∨
  (r = -1 ∧ ∀ j, i ≤ j < i + Z.of_nat fuel → p (conn_at w j) = false).
Proof.
  revert i. induction fuel as [|fuel IH]; intros i; cbn [find_from].
  - right. split; [done|]. lia.
  - destruct (p (conn_at w i)) eqn:E.
    + left. split_and!; [lia..|done|lia].
    + destruct (IH (i + 1)) as [(H1 & H2 & H3)|[H1 H2]].
      * left. split_and!; [lia..|done|]. intros j Hj.
        destruct (decide (j = i)) as [->|]; [done|]. apply H3. lia.
      * right. split; [done|]. intros j Hj.
        destruct (decide (j = i)) as [->|]; [done|]. apply H2. lia.
Qed.

Lemma find_conn_spec p w :
  (0 ≤ find_conn p w < MAX_CONNS ∧ p (conn_at w (find_conn p w)) = true ∧
     ∀ j, 0 ≤ j < find_conn p w → p (conn_at w j) = false) ∨
  (find_conn p w = -1 ∧ ∀ j, 0 ≤ j < MAX_CONNS → p (conn_at w j) = false).
Proof. apply (find_from_spec (Z.to_nat MAX_CONNS) p w 0). Qed.
End Table.

(** ** Specification: the buffers

    [R] bytes were received and [P] of them were taken as messages; in the send
    buffer the [N] bytes at [S] are waiting to be sent. *)

Definition rx_ok (w : world) (c rb : Z) (d : bytes) (R P : Z) : Prop :=
  blocks (w_mem w) !! rb = Some (Block BUF_SIZE d) ∧
  rx (conn_at w c) = MkRx (Ptr rb 0) (Ptr rb R) (BUF_SIZE - R) (Ptr rb P) ∧
  0 ≤ P ≤ R ∧ R ≤ BUF_SIZE.
Definition tx_ok (w : world) (c sb : Z) (d : bytes) (S N : Z) : Prop :=
  blocks (w_mem w) !! sb = Some (Block BUF_SIZE d) ∧
  tx (conn_at w c) = MkTx (Ptr sb 0) (Ptr sb S) N ∧
  0 ≤ S ∧ 0 ≤ N ∧ S + N ≤ BUF_SIZE.

(** the bytes received and not yet taken; the bytes waiting to be sent *)
Definition unprocessed (d : bytes) (R P : Z) : list Z := segment d P (R - P).
Definition pending (d : bytes) (S N : Z) : list Z := segment d S N.

(** ** Framing, on byte lists *)

Inductive frame := Incomplete | Malformed | Complete (m rest : list Z).

Fixpoint le_of (l : list Z) : Z :=
  match l with [] => 0 | x :: l => x + 256 * le_of l end.

(** the length of the message is the second word of the bytes *)
Definition take_frame (l : list Z) : frame :=
  let n := Z.of_nat (length l) in
  if n <? sizeof_message_t then Incomplete
  else
    let size := le_of (take 4 (drop 4 l)) in
    if n <? size then Incomplete
    else if (sizeof_message_t <=? size) && (size <=? BUF_SIZE)
    then Complete (take (Z.to_nat size) l) (drop (Z.to_nat size) l)
    else Malformed.

Section Framing.
Implicit Types (d : bytes) (o n : Z).

Lemma segment_take d o n k : 0 ≤ k ≤ n → take (Z.to_nat k) (segment d o n) = segment d o k.
Proof.
  intros. replace n with (k + (n - k)) by lia. rewrite segment_app by lia.
  rewrite take_app_length'; [done|]. pose proof (segment_length d o k). lia.
Qed.

Lemma segment_drop d o n k : 0 ≤ k ≤ n →
  drop (Z.to_nat k) (segment d o n) = segment d (o + k) (n - k).
Proof.
  intros. replace n with (k + (n - k)) at 1 by lia. rewrite segment_app by lia.
  rewrite drop_app_length'; [done|]. pose proof (segment_length d o k). lia.
Qed.

Lemma load_le_segment k d o : load_le k d o = le_of (segment d o (Z.of_nat k)).
Proof.
  revert o. induction k as [|k IH]; intros o; [done|].
  unfold segment. rewrite Nat2Z.inj_succ, seqZ_cons by lia. cbn [load_le fmap list_fmap le_of].
  rewrite IH. unfold segment. do 5 f_equal; lia.
Qed.

Lemma take_frame_segment d P R : P ≤ R → R - P < 2 ^ 62 →
  take_frame (segment d P (R - P)) =
  if R - P <? sizeof_message_t then Incomplete
  else if R - P <? load_le 4 d (P + 4) then Incomplete
  else if (sizeof_message_t <=? load_le 4 d (P + 4)) && (load_le 4 d (P + 4) <=? BUF_SIZE)
  then Complete (segment d P (load_le 4 d (P + 4)))
         (segment d (P + load_le 4 d (P + 4)) (R - P - load_le 4 d (P + 4)))
  else Malformed.
Proof.
  intros HP Hmax. unfold take_frame. rewrite segment_length by lia. unfold sizeof_message_t.
  destruct (Z.ltb_spec (R - P) 12); [done|].
  change 4%nat with (Z.to_nat 4). rewrite segment_drop, segment_take by lia.
  change (segment d (P + 4) 4) with (segment d (P + 4) (Z.of_nat 4)).
  rewrite <- load_le_segment. change (Z.to_nat 4) with 4%nat.
  destruct (Z.ltb_spec (R - P) (load_le 4 d (P + 4))); [done|].
  destruct ((12 <=? _) && _) eqn:E; [|done].
  rewrite segment_take, segment_drop by lia. done.
Qed.

(** More bytes after a complete message change the rest only. *)
Lemma take_frame_more l m rest l' : take_frame l = Complete m rest →
  take_frame (l ++ l') = Complete m (rest ++ l').
Proof.
  unfold take_frame. rewrite length_app.
  destruct (Z.ltb_spec (Z.of_nat (length l)) sizeof_message_t) as [|H]; [done|].
  unfold sizeof_message_t in *.
  rewrite (proj2 (Z.ltb_ge _ 12)) by lia.
  rewrite drop_app_le, take_app_le by (rewrite ?length_drop; lia).
  set (sz := le_of _).
  destruct (Z.ltb_spec (Z.of_nat (length l)) sz) as [|H2]; [done|].
  rewrite (proj2 (Z.ltb_ge _ sz)) by lia.
  destruct (_ && _); [|done]. intros [= <- <-].
  by rewrite take_app_le, drop_app_le by lia.
Qed.

Lemma take_frame_malformed l l' : take_frame l = Malformed → take_frame (l ++ l') = Malformed.
Proof.
  unfold take_frame. rewrite length_app.
  destruct (Z.ltb_spec (Z.of_nat (length l)) sizeof_message_t) as [|H]; [done|].
  unfold sizeof_message_t in *.
  rewrite (proj2 (Z.ltb_ge _ 12)) by lia.
  rewrite drop_app_le, take_app_le by (rewrite ?length_drop; lia).
  set (sz := le_of _).
  destruct (Z.ltb_spec (Z.of_nat (length l)) sz) as [|H2]; [done|].
  rewrite (proj2 (Z.ltb_ge _ sz)) by lia. by destruct (_ && _).
Qed.

Lemma take_frame_rest l m rest : take_frame l = Complete m rest →
  l = m ++ rest ∧ (length rest < length l)%nat.
Proof.
  unfold take_frame. destruct (_ <? sizeof_message_t); [done|]. set (sz := le_of _).
  destruct (Z.ltb_spec (Z.of_nat (length l)) sz) as [|H2]; [done|].
  destruct (_ && _) eqn:E; [|done]. intros [= <- <-]. rewrite take_drop. split; [done|].
  rewrite length_drop. unfold sizeof_message_t in E. lia.
Qed.

(** All the messages at the front of a list of bytes, and what is left; [None]
    when one of them is malformed. *)
Fixpoint frames (fuel : nat) (l : list Z) : option (list (list Z) * list Z) :=
  match fuel with
  | O => None
  | S fuel =>
      match take_frame l with
      | Incomplete => Some ([], l)
      | Malformed => None
      | Complete m rest => '(ms, r) ← frames fuel rest; Some (m :: ms, r)
      end
  end.
Definition all_frames (l : list Z) : option (list (list Z) * list Z) := frames (S (length l)) l.

Lemma frames_enough f f' l : (length l < f)%nat → (length l < f')%nat → frames f l = frames f' l.
Proof.
  revert f' l. induction f as [|f IH]; intros [|f'] l Hf Hf'; try lia. cbn [frames].
  destruct (take_frame l) as [| |m rest] eqn:E; [done..|].
  apply take_frame_rest in E as [_ E]. rewrite (IH f') by lia. done.
Qed.

Lemma all_frames_eq l : all_frames l =
  match take_frame l with
  | Incomplete => Some ([], l)
  | Malformed => None
  | Complete m rest => '(ms, r) ← all_frames rest; Some (m :: ms, r)
  end.
Proof.
  unfold all_frames at 1. cbn [frames]. destruct (take_frame l) as [| |m rest] eqn:E; [done..|].
  apply take_frame_rest in E as [_ E]. unfold all_frames.
  by rewrite (frames_enough (length l) (S (length rest))) by lia.
Qed.

Lemma all_frames_rest l ms r : all_frames l = Some (ms, r) → take_frame r = Incomplete.
Proof.
  remember (length l) as n eqn:Hn. revert l ms Hn.
  induction n as [n IH] using lt_wf_ind. intros l ms ->. rewrite all_frames_eq.
  destruct (take_frame l) as [| |m rest] eqn:E; [|done|].
  - intros [= _ <-]. done.
  - apply take_frame_rest in E as [_ E]. intros E2.
    apply bind_Some in E2 as ([ms' r'] & E2 & [= _ <-]). by eapply (IH (length rest)).
Qed.

(** Framing in two steps is framing at once: the messages do not depend on how
    the stream was cut. *)
Lemma all_frames_app l l' :
  all_frames (l ++ l') =
  '(ms, r) ← all_frames l; '(ms', r') ← all_frames (r ++ l'); Some (ms ++ ms', r').
Proof.
  remember (length l) as n eqn:Hn. revert l Hn.
  induction n as [n IH] using lt_wf_ind. intros l ->.
  rewrite (all_frames_eq l). destruct (take_frame l) as [| |m rest] eqn:E.
  - cbn [mbind option_bind]. by destruct (all_frames (l ++ l')) as [[ms r]|].
  - rewrite all_frames_eq, (take_frame_malformed _ _ E). done.
  - rewrite all_frames_eq, (take_frame_more _ _ _ _ E).
    rewrite (IH (length rest)) by (done || by apply take_frame_rest in E as [_ E]).
    destruct (all_frames rest) as [[ms r]|]; [|done]. cbn [mbind option_bind].
    by destruct (all_frames (r ++ l')) as [[ms' r']|].
Qed.
End Framing.

(** ** The buffer operations *)

Section Buffers.
Implicit Types (w : world) (c rb sb R P S N : Z) (d : bytes).

Lemma u64_le z : 0 ≤ z ≤ BUF_SIZE → u64 z = z.
Proof. intros. apply u64_small. unfold BUF_SIZE in *. lia. Qed.

(** receiving appends to the unprocessed bytes *)
Lemma receive_spec w c rb d R P data conn :
  rx_ok w c rb d R P → rx conn = rx (conn_at w c) →
  Forall (fun x => 0 ≤ x < 256) data → Z.of_nat (length data) ≤ BUF_SIZE - R →
  ∃ w' d', receive w c conn data = Ret w' ∧
    rx_ok w' c rb d' (R + Z.of_nat (length data)) P ∧
    unprocessed d' (R + Z.of_nat (length data)) P = unprocessed d R P ++ data ∧
    segment d' 0 P = segment d 0 P ∧
    w_reqs w' = w_reqs w ∧
    w_conns w' = <[c := with_rx conn (MkRx (Ptr rb 0) (Ptr rb (R + Z.of_nat (length data)))
                          (BUF_SIZE - R - Z.of_nat (length data)) (Ptr rb P))]> (w_conns w) ∧
    (∀ b, b ≠ rb → blocks (w_mem w') !! b = blocks (w_mem w) !! b).
Proof.
  intros (Hb & Hx & HP & HR) Hc Hd Hl. set (n := Z.of_nat (length data)) in *.
  unfold receive. rewrite Hc, Hx. cbn [curr_recv_buf curr_recv_size curr_proc_buf recv_buf].
  rewrite (mem_write_ok _ _ _ _ _ Hb) by (cbn [blk_size]; lia). obind. cbn [ptr_add]. obind.
  rewrite u64_le by lia.
  eexists _, _. split; [reflexivity|]. unfold rx_ok. cbn [set_conn set_mem w_mem blocks mem_put w_reqs w_conns].
  rewrite lookup_insert, decide_True by done. rewrite conn_at_set, decide_True by done.
  split_and!; try done; try lia.
  - cbn [rx with_rx blk_size]. f_equal. fold n. lia.
  - unfold unprocessed. cbn [blk_data]. replace (R + n - P) with ((R - P) + n) by lia.
    rewrite segment_app by lia. replace (P + (R - P)) with R by lia.
    rewrite segment_write_before by lia. f_equal. by apply segment_write.
  - cbn [blk_data]. apply segment_write_before. lia.
  - intros b Hne. by rewrite lookup_insert_ne.
Qed.

(** taking a message *)
Lemma prepare_recv_spec w c rb d R P : 0 ≤ c < MAX_CONNS → rx_ok w c rb d R P →
  match take_frame (unprocessed d R P) with
  | Incomplete => conn_prepare_recv_message w c = Ret (w, None)
  | Malformed => conn_prepare_recv_message w c = Stop AssertFailed
  | Complete m rest => ∃ w', conn_prepare_recv_message w c = Ret (w', Some (Ptr rb P)) ∧
      let n := Z.of_nat (length m) in
      rx_ok w' c rb d R (P + n) ∧ segment d P n = m ∧ unprocessed d R (P + n) = rest ∧
      w_reqs w' = w_reqs w ∧ w_mem w' = w_mem w ∧
      w' = set_conn w c (with_rx (conn_at w c)
             (MkRx (Ptr rb 0) (Ptr rb R) (BUF_SIZE - R) (Ptr rb (P + n))))
  end.
Proof.
  intros Hc (Hb & Hx & HP & HR). unfold unprocessed.
  rewrite take_frame_segment by (unfold BUF_SIZE in *; lia).
  unfold conn_prepare_recv_message. rewrite get_conn_ok by done. obind.
  rewrite Hx. cbn [curr_recv_buf curr_recv_size curr_proc_buf recv_buf ptr_diff].
  rewrite Z.eqb_refl. obind. rewrite u64_le by lia.
  destruct (Z.ltb_spec (R - P) sizeof_message_t) as [|H1]; [done|].
  unfold sizeof_message_t in *. cbn [ptr_add]. obind.
  rewrite (mem_load_ok _ _ _ _ _ Hb) by (cbn [blk_size]; lia). obind. cbn [blk_data].
  set (sz := load_le 4 d (P + 4)).
  destruct (Z.ltb_spec (R - P) sz) as [|H2]; [done|].
  destruct ((12 <=? sz) && (sz <=? BUF_SIZE)) eqn:E; [|done].
  cbn [assert_ mbind outcome_bind]. eexists. split; [reflexivity|].
  rewrite segment_length by lia. cbv zeta.
  split_and!; try done.
  - split_and!; try done; [|lia..]. rewrite conn_at_set, decide_True by done. done.
  - unfold unprocessed. f_equal. lia.
Qed.

(** The loop over the complete messages of obtain_messages: the contents of
    each, and the state in which the rest is left. *)
Fixpoint take_messages (fuel : nat) (w : world) (c : Z) : outcome (world * list (list Z)) :=
  match fuel with
  | O => Stop OutOfFuel
  | S fuel =>
      '(w, m) ← conn_prepare_recv_message w c;
      match m with
      | None => Ret (w, [])
      | Some p =>
          '(_, o, blk) ← mem_block (w_mem w) p;
          size ← blk_load 4 blk (o + 4);
          '(w, ms) ← take_messages fuel w c;
          Ret (w, segment (blk_data blk) o size :: ms)
      end
  end.
(** a message has at least 12 bytes *)
Definition take_fuel : nat := S (Z.to_nat BUF_SIZE).

Lemma take_messages_spec fuel w c rb d R P : 0 ≤ c < MAX_CONNS → rx_ok w c rb d R P →
  R - P < Z.of_nat fuel →
  match all_frames (unprocessed d R P) with
  | None => take_messages fuel w c = Stop AssertFailed
  | Some (ms, rest) => ∃ w' P', take_messages fuel w c = Ret (w', ms) ∧
      rx_ok w' c rb d R P' ∧ P ≤ P' ∧ unprocessed d R P' = rest ∧
      use_ssl (c_ssl (conn_at w' c)) = use_ssl (c_ssl (conn_at w c))
  end.
Proof.
  intros Hc. revert w P. induction fuel as [|fuel IH]; intros w P Hrx Hf.
  { destruct Hrx as (_ & _ & ? & _). lia. }
  pose proof (prepare_recv_spec w c rb d R P Hc Hrx) as H.
  rewrite all_frames_eq. cbn [take_messages].
  destruct (take_frame (unprocessed d R P)) as [| |m rest] eqn:E.
  - rewrite H. obind. exists w, P. by split_and!.
  - by rewrite H.
  - destruct H as (w1 & -> & Hrx1 & Em & Er & _ & Emem & Ew). obind.
    set (n := Z.of_nat (length m)) in *.
    destruct Hrx as (Hb & Hx & HP & HR).
    rewrite Emem, (mem_block_ok _ _ _ _ Hb). obind.
    assert (Hn : 12 ≤ n ≤ R - P ∧ n = load_le 4 d (P + 4)).
    { unfold unprocessed in E. rewrite take_frame_segment in E by (unfold BUF_SIZE in *; lia).
      unfold sizeof_message_t in E. destruct (_ <? 12); [done|].
      destruct (Z.ltb_spec (R - P) (load_le 4 d (P + 4))); [done|].
      pose proof (load_le_range 4 d (P + 4)) as Hsz. remember (load_le 4 d (P + 4)) as sz.
      destruct (_ && _) eqn:E2; [|done]. injection E as E3 _. unfold n.
      rewrite <- E3, segment_length by lia. lia. }
    rewrite blk_load_ok by (cbn [blk_size]; lia). obind. cbn [blk_data].
    destruct Hn as [Hn En]. rewrite <- En, Em.
    assert (Hssl : use_ssl (c_ssl (conn_at w1 c)) = use_ssl (c_ssl (conn_at w c))).
    { rewrite Ew, conn_at_set, decide_True by done. done. }
    specialize (IH w1 (P + n) Hrx1 ltac:(lia)). rewrite Er in IH.
    destruct (all_frames rest) as [[ms r]|]; cbn [mbind option_bind] in *.
    + destruct IH as (w' & P' & -> & Hrx' & HP' & Er' & Hs'). obind.
      exists w', P'. split_and!; try done; [lia|congruence].
    + by rewrite IH.
Qed.

(** A stream received piece by piece: each piece is received and its complete
    messages taken. *)
Fixpoint receive_stream (w : world) (c : Z) (chunks : list (list Z))
    : outcome (world * list (list Z)) :=
  match chunks with
  | [] => Ret (w, [])
  | data :: chunks =>
      '(w, _) ← conn_recv w c (Received data None) (SslReceived []);
      '(w, ms) ← take_messages take_fuel w c;
      '(w, ms') ← receive_stream w c chunks;
      Ret (w, ms ++ ms')
  end.

Lemma receive_stream_spec w c rb d R P chunks : 0 ≤ c < MAX_CONNS → rx_ok w c rb d R P →
  use_ssl (c_ssl (conn_at w c)) = 0 →
  Forall (fun data => data ≠ [] ∧ Forall (fun x => 0 ≤ x < 256) data) chunks →
  R + Z.of_nat (length (concat chunks)) ≤ BUF_SIZE →
  take_frame (unprocessed d R P) = Incomplete →
  match all_frames (unprocessed d R P ++ concat chunks) with
  | None => receive_stream w c chunks = Stop AssertFailed
  | Some (ms, rest) => ∃ w' d' R' P', receive_stream w c chunks = Ret (w', ms) ∧
      rx_ok w' c rb d' R' P' ∧ unprocessed d' R' P' = rest
  end.
Proof.
  intros Hc. revert w d R P. induction chunks as [|data chunks IH]; intros w d R P Hrx Hssl Hch Hlen Hinc.
  - cbn [concat receive_stream]. rewrite app_nil_r, all_frames_eq, Hinc.
    exists w, d, R, P. by split_and!.
  - apply Forall_cons in Hch as [[Hne Hby] Hch]. cbn [concat] in *. rewrite length_app in Hlen.
    cbn [receive_stream].
    destruct (receive_spec w c rb d R P data (conn_at w c) Hrx eq_refl Hby ltac:(lia))
      as (w1 & d1 & E1 & Hrx1 & Eu & _ & _ & Ec & _).
    assert (Er : conn_recv w c (Received data None) (SslReceived []) = Ret (w1, 1)).
    { unfold conn_recv. rewrite get_conn_ok by done. obind. rewrite Hssl. cbn [Z.eqb negb].
      destruct data; [done|]. by rewrite E1. }
    rewrite Er. obind. rewrite app_assoc, all_frames_app.
    assert (Hssl1 : use_ssl (c_ssl (conn_at w1 c)) = 0).
    { unfold conn_at. rewrite Ec, lookup_insert, decide_True by done. done. }
    pose proof (take_messages_spec take_fuel w1 c rb d1 _ P Hc Hrx1) as T.
    assert (Hfu : R + Z.of_nat (length data) - P < Z.of_nat take_fuel).
    { destruct Hrx as (_ & _ & ? & ?). unfold take_fuel. lia. }
    specialize (T Hfu). rewrite Eu in T.
    destruct (all_frames (unprocessed d R P ++ data)) as [[ms r]|] eqn:Ef.
    2: { cbn [mbind option_bind]. by rewrite T. }
    destruct T as (w2 & P2 & -> & Hrx2 & HP2 & Er2 & Hs2). obind. cbn [mbind option_bind].
    specialize (IH w2 d1 (R + Z.of_nat (length data)) P2 Hrx2 ltac:(congruence) Hch ltac:(lia)).
    rewrite Er2 in IH. specialize (IH (all_frames_rest _ _ _ Ef)).
    destruct (all_frames (r ++ concat chunks)) as [[ms' r']|].
    + destruct IH as (w' & d' & R' & P' & -> & Hrx' & Eu'). obind.
      exists w', d', R', P'. by split_and!.
    + cbn [mbind option_bind]. by rewrite IH.
Qed.
End Buffers.

(** ** Sending *)

Section Sending.
Implicit Types (w : world) (c rb sb R P S N : Z) (d : bytes).

Lemma pending_split d S N n : 0 ≤ n ≤ N →
  pending d S N = segment d S n ++ pending d (S + n) (N - n).
Proof.
  intros. unfold pending. replace N with (n + (N - n)) at 1 by lia. apply segment_app; lia.
Qed.

Lemma advance_tx_ok sb S N n : 0 ≤ n ≤ N → N ≤ BUF_SIZE →
  advance_tx (MkTx (Ptr sb 0) (Ptr sb S) N) n = Ret (MkTx (Ptr sb 0) (Ptr sb (S + n)) (N - n)).
Proof.
  intros. unfold advance_tx. cbn [ptr_add curr_send_buf curr_send_size send_buf mbind outcome_bind].
  by rewrite u64_le by lia.
Qed.

(** the state of the send side after [n] bytes went out *)
Lemma rewind_tx_ok w c sb d S N n conn : tx_ok w c sb d S N → 0 ≤ n ≤ N →
  tx conn = rewind_tx (MkTx (Ptr sb 0) (Ptr sb (S + n)) (N - n)) →
  ∃ S', tx_ok (set_conn w c conn) c sb d S' (N - n) ∧
    pending d S N = segment d S n ++ pending d S' (N - n) ∧ (N - n = 0 → S' = 0).
Proof.
  intros (Hb & _ & HS & HN & Hf) Hn E. rewrite (pending_split d S N n) by done.
  unfold rewind_tx in E. cbn [curr_send_size send_buf] in E.
  destruct (Z.eqb_spec (N - n) 0) as [H0|H0]; [exists 0|exists (S + n)];
    (split_and!; [|try done|try done]).
  - split_and!; [done| |lia..]. rewrite conn_at_set, decide_True by done. by rewrite E, H0.
  - by rewrite H0.
  - split_and!; [done| |lia..]. rewrite conn_at_set, decide_True by done. done.
Qed.

(** the loop of phase 1: answers that interrupt it or send something *)
Fixpoint header_sent (answers : list sys_ret) (N : Z) : Prop :=
  if 0 <? N then
    match answers with
    | [] => False
    | a :: answers => (s_ret a = -1 ∧ s_errno a = EAGAIN ∧ header_sent answers N) ∨
        (0 < s_ret a ≤ N ∧ header_sent answers (N - s_ret a))
    end
  else True.

Lemma send_header_spec answers sb S N conn :
  tx conn = MkTx (Ptr sb 0) (Ptr sb S) N → 0 ≤ N ≤ BUF_SIZE → header_sent answers N →
  send_header answers conn = Ret (with_tx conn (MkTx (Ptr sb 0) (Ptr sb (S + N)) 0), None).
Proof.
  revert S N conn. induction answers as [|a answers IH]; intros S N conn Ht HN Hs;
    cbn [header_sent send_header] in *; rewrite Ht; cbn [curr_send_size];
    destruct (Z.ltb_spec 0 N) as [H0|H0]; try done.
  1, 3: replace N with 0 by lia; rewrite Z.add_0_r; destruct conn; cbn in *; subst; by
    replace N with 0 by lia.
  destruct Hs as [(E1 & E2 & Hs)|[Hn Hs]].
  - rewrite E1, E2. cbn [andb]. rewrite bool_decide_true by done. by apply IH.
  - replace (s_ret a <=? 0) with false by lia. cbn [andb].
    rewrite advance_tx_ok by lia. cbn [mbind outcome_bind].
    rewrite (IH (S + s_ret a) (N - s_ret a)) by (done || lia).
    by replace (S + s_ret a + (N - s_ret a)) with (S + N) by lia.
Qed.
End Sending.

(** ** Allocation and release *)

Section Alloc.
Implicit Types (w : world) (c : Z).

(** identifiers not yet given out are those of no block *)
Definition mem_wf (h : mem) : Prop := ∀ b, next_block h ≤ b → blocks h !! b = None.

Lemma first_free_spec w :
  (0 ≤ first_free w < MAX_CONNS ∧ busy (conn_at w (first_free w)) = 0 ∧
     ∀ j, 0 ≤ j < first_free w → busy (conn_at w j) ≠ 0) ∨
  (first_free w = -1 ∧ ∀ j, 0 ≤ j < MAX_CONNS → busy (conn_at w j) ≠ 0).
Proof.
  unfold first_free. pose proof (find_conn_spec (fun x => busy x =? 0) w) as F.
  remember (find_conn _ w) as r eqn:Er. clear Er.
  destruct F as [(Hc & Hb & Hlow)|[E Hall]].
  - left. split; [exact Hc|]. split; [by apply Z.eqb_eq|].
    intros j Hj. by apply Z.eqb_neq, Hlow.
  - right. split; [done|]. intros j Hj. by apply Z.eqb_neq, Hall.
Qed.

Lemma conn_matches_spec self t p (x : conn_info_t) :
  conn_matches self t p x = true ↔
  (p = DPDK ∧ c_proto x = DPDK ∧ parent_thread x = self) ∨
  (sock x ≠ -1 ∧ is_listen x = 0 ∧
   ((p = UDP ∧ parent_thread x = self) ∨ (p = TCP ∧ target x = t ∧ c_proto x = TCP))).
Proof.
  unfold conn_matches, DPDK, UDP, TCP.
  assert (Et : target x = t ↔ sin_port (target x) = sin_port t ∧ s_addr (target x) = s_addr t).
  { destruct (target x), t. cbn. naive_solver. }
  destruct ((p =? 3) && _ && _) eqn:E1; [split; [left; lia|done]|].
  destruct (Z.eqb_spec (sock x) (-1)); [split; [done|lia]|].
  destruct (Z.eqb_spec (is_listen x) 0); cbn [negb]; [|split; [done|lia]].
  destruct ((p =? 0) && _) eqn:E2; [split; [lia|done]|].
  rewrite Et. lia.
Qed.

Lemma unlink_all_linked fuel st l : linked st l → (length l < fuel)%nat →
  ∃ st', unlink_all fuel st (l !! 0%nat) = Ret st' ∧
    (∀ r, r ∈ l → req_id (Request.req_at st' r) = -1 ∧ message_ptr (Request.req_at st' r) = NULL ∧
       next (Request.req_at st' r) = None ∧ prev (Request.req_at st' r) = None) ∧
    (∀ i, i ∉ l → Request.req_at st' i = Request.req_at st i).
Proof.
  revert st l. induction fuel as [|fuel IH]; intros st l L Hf; [lia|].
  destruct l as [|r l]; cbn [unlink_all lookup list_lookup].
  - exists st. split_and!; [done|set_solver|done].
  - pose proof (unlink_linked st (r :: l) 0 r L eq_refl) as U.
    destruct (Request.req_unlink st r) as [st1 nx].
    destruct U as (-> & L1 & H1 & H2 & H3 & H4 & Ho & Hn).
    cbn [length] in Hf.
    change (delete 0%nat (r :: l)) with l in L1. change ((r :: l) !! 1%nat) with (l !! 0%nat).
    destruct (IH st1 l L1 ltac:(lia)) as (st' & E & Hin & Hout).
    exists st'. split; [done|]. destruct L as [Hnd _]. apply NoDup_cons in Hnd as [Hr Hnd].
    split.
    + intros i Hi. apply elem_of_cons in Hi as [->|Hi]; [|by apply Hin].
      by rewrite Hout.
    + intros i Hi. rewrite Hout by set_solver. apply Hn. done.
Qed.

Lemma reset_linked w c l : 0 ≤ c < MAX_CONNS → linked (w_reqs w) l →
  req_list (conn_at w c) = l !! 0%nat → Z.of_nat (length l) ≤ MAX_REQS →
  ∃ st', conn_reset w c = Ret (set_reqs w st') ∧
    (∀ r, r ∈ l → req_id (Request.req_at st' r) = -1 ∧ message_ptr (Request.req_at st' r) = NULL ∧
       next (Request.req_at st' r) = None ∧ prev (Request.req_at st' r) = None) ∧
    (∀ i, i ∉ l → Request.req_at st' i = Request.req_at (w_reqs w) i).
Proof.
  intros Hc L Hl Hlen. unfold conn_reset. rewrite get_conn_ok by done. obind. rewrite Hl.
  destruct (unlink_all_linked (Datatypes.S (Z.to_nat MAX_REQS)) (w_reqs w) l L) as (st' & E & H1 & H2);
    [lia|].
  rewrite E. obind. by exists st'.
Qed.

Lemma mem_calloc_spec h n : mem_wf h →
  let '(h', p) := mem_calloc h n in
  ∃ b, p = Ptr b 0 ∧ blocks h !! b = None ∧ mem_wf h' ∧
    blocks h' = <[b := calloc_block n]> (blocks h).
Proof.
  intros W. unfold mem_calloc. exists (next_block h).
  split_and!; [done|by apply W| |done]. intros b Hb. cbn [next_block blocks] in *.
  rewrite lookup_insert_ne by lia. apply W. lia.
Qed.

Lemma mem_wf_put h b blk : mem_wf h → is_Some (blocks h !! b) → mem_wf (mem_put h b blk).
Proof.
  intros W [x Hx] b' Hb'. cbn [mem_put blocks next_block] in *.
  rewrite lookup_insert_ne; [by apply W|]. intros ->. rewrite W in Hx; done.
Qed.
End Alloc.

(** ** Requests and the receive buffer *)

Definition msz (d : bytes) (o : Z) : Z := load_le 4 d (o + 4).

(** the messages of the requests, the newest first, lie one after the other
    below [hi]; curr_cmd points into the same buffer *)
Fixpoint laid (st : reqs_t) (rb : Z) (d : bytes) (hi : Z) (l : list Z) : Prop :=
  match l with
  | [] => True
  | i :: l => ∃ o, message_ptr (Request.req_at st i) = Ptr rb o ∧ 0 ≤ o ∧
      sizeof_message_t ≤ msz d o ∧ o + msz d o ≤ hi ∧
      (curr_cmd (Request.req_at st i) = NULL ∨ ∃ co, curr_cmd (Request.req_at st i) = Ptr rb co) ∧
      laid st rb d o l
  end.

Definition shift_ptr (s : Z) (p : ptr) : ptr :=
  match p with NULL => NULL | Ptr b o => Ptr b (o - s) end.
Definition shift_req (s : Z) (q : req_info_t) : req_info_t :=
  set_message q (shift_ptr s (message_ptr q)) (shift_ptr s (curr_cmd q)).

(** the message of a request and where it is being executed *)
Definition req_view (st : reqs_t) (d : bytes) (i : Z) : list Z * option Z :=
  match message_ptr (Request.req_at st i) with
  | NULL => ([], None)
  | Ptr _ o => (segment d o (msz d o),
      match curr_cmd (Request.req_at st i) with NULL => None | Ptr _ co => Some (co - o) end)
  end.

Section Defrag.
Implicit Types (w : world) (c rb R P s o hi : Z) (d : bytes) (st : reqs_t) (l : list Z).

Lemma laid_ext st st' rb d d' hi l : laid st rb d hi l →
  (∀ i, i ∈ l → message_ptr (Request.req_at st' i) = message_ptr (Request.req_at st i) ∧
                curr_cmd (Request.req_at st' i) = curr_cmd (Request.req_at st i)) →
  (∀ x, x < hi → byte_at d' x = byte_at d x) →
  laid st' rb d' hi l.
Proof.
  revert hi. induction l as [|i l IH]; intros hi H Hl Hd; [done|]. cbn [laid] in *.
  destruct H as (o & Em & H0 & Hs & Hhi & Hc & H).
  assert (E : msz d' o = msz d o).
  { apply load_le_ext. intros x Hx. apply Hd. unfold sizeof_message_t in Hs. lia. }
  unfold sizeof_message_t in *.
  exists o. destruct (Hl i) as [-> ->]; [set_solver|]. rewrite E. split_and!; try done.
  apply IH; [done|intros; apply Hl; set_solver|]. intros x Hx. apply Hd. lia.
Qed.

Lemma laid_weaken st rb d hi hi' l : laid st rb d hi l → hi ≤ hi' → laid st rb d hi' l.
Proof.
  destruct l; [done|]. cbn [laid]. intros (o & ? & ? & ? & ? & ? & ?) ?.
  exists o. split_and!; done || lia.
Qed.

Lemma laid_at st rb d hi l k i : laid st rb d hi l → l !! k = Some i →
  ∃ o, message_ptr (Request.req_at st i) = Ptr rb o ∧ 0 ≤ o ∧ sizeof_message_t ≤ msz d o ∧
    o + msz d o ≤ hi ∧ laid st rb d o (drop (Datatypes.S k) l).
Proof.
  revert hi k. induction l as [|j l IH]; intros hi k H Hk; [done|]. cbn [laid] in H.
  destruct H as (o & Em & H0 & Hs & Hhi & Hc & H). destruct k as [|k].
  - injection Hk as <-. exists o. by split_and!.
  - destruct (IH o k H Hk) as (o' & ? & ? & ? & ? & ?). exists o'. unfold sizeof_message_t in *.
    split_and!; done || lia.
Qed.

Lemma shift_newer_spec fuel st l k s : linked st l → (k ≤ length l)%nat → (k < fuel)%nat →
  (∀ i, i ∈ take k l → message_ptr (Request.req_at st i) ≠ NULL) →
  ∃ st', shift_newer fuel st (match k with O => None | Datatypes.S k => l !! k end) s = Ret st' ∧
    linked st' l ∧
    ∀ i, Request.req_at st' i =
      if decide (i ∈ take k l) then shift_req s (Request.req_at st i) else Request.req_at st i.
Proof.
  revert st k. induction fuel as [|fuel IH]; intros st k L Hk Hf Hm; [lia|].
  destruct k as [|k]; cbn [shift_newer].
  - exists st. split_and!; [done..|]. intros i. by rewrite decide_False by set_solver.
  - destruct (lookup_lt_is_Some_2 l k) as [i Hi]; [lia|]. rewrite Hi.
    pose proof L as [Hnd Hl]. destruct (Hl k i Hi) as [En Ep].
    assert (Htake : take (Datatypes.S k) l = take k l ++ [i]) by by apply take_S_r.
    rewrite Htake in *.
    assert (Hik : i ∉ take k l).
    { intros Hin. apply list_elem_of_lookup in Hin as [j Hj].
      apply lookup_take_Some in Hj as [Hj Hlt].
      pose proof (NoDup_lookup _ _ _ _ Hnd Hi Hj). lia. }
    destruct (message_ptr (Request.req_at st i)) as [|b o] eqn:Em.
    { destruct (Hm i); [set_solver|done]. }
    cbn [ptr_add]. obind.
    set (cc := shift_ptr s (curr_cmd (Request.req_at st i))).
    assert (Ec : match curr_cmd (Request.req_at st i) with
      | NULL => Ret NULL | Ptr b o => Ret (Ptr b (o + - s)) end = Ret cc).
    { unfold cc. destruct (curr_cmd (Request.req_at st i)); done. }
    cbn [ptr_add] in *.
    replace (match curr_cmd (Request.req_at st i) with
      | NULL => Ret NULL | Ptr b0 o0 => Ret (Ptr b0 (o0 + - s)) end) with (@Ret ptr cc).
    obind. rewrite Ep.
    set (st1 := Request.upd st i _).
    assert (E1 : ∀ j, Request.req_at st1 j =
      if decide (i = j) then shift_req s (Request.req_at st i) else Request.req_at st j).
    { intros j. unfold st1. rewrite req_at_upd. case_decide; [|done].
      unfold shift_req. rewrite Em. done. }
    assert (L1 : linked st1 l).
    { apply (linked_ext st); [done|]. intros j _. rewrite E1. by case_decide; subst. }
    destruct (IH st1 k L1 ltac:(lia) ltac:(lia)) as (st' & E & L' & H').
    { intros j Hj. rewrite E1, decide_False by (intros <-; done). apply Hm. set_solver. }
    exists st'. split_and!; [exact E|done|]. intros j. rewrite H', E1.
    destruct (decide (j ∈ take k l)) as [Hj|Hj].
    + rewrite (decide_False (P := i = j)) by (intros <-; done).
      by rewrite decide_True by set_solver.
    + destruct (decide (i = j)) as [->|Hij].
      * by rewrite decide_True by set_solver.
      * by rewrite decide_False by set_solver.
Qed.

(** the buffer after [s] bytes at [o] were cut out of the first [R] *)
Lemma byte_at_cut d o s R x : 0 ≤ s →
  byte_at (copy_bytes (Z.to_nat (R - (o + s))) d (o + s) d o) x =
  if decide (o ≤ x < R - s) then byte_at d (x + s) else byte_at d x.
Proof.
  intros. rewrite byte_at_copy. repeat case_decide; try lia; try done; f_equal; lia.
Qed.

Lemma msz_moved d d' o o' : sizeof_message_t ≤ msz d o →
  (∀ x, 0 ≤ x < msz d o → byte_at d' (o' + x) = byte_at d (o + x)) → msz d' o' = msz d o.
Proof.
  intros Hs H. unfold sizeof_message_t in Hs. apply load_le_ext. intros x Hx.
  rewrite <- !Z.add_assoc. apply H. lia.
Qed.

Lemma view_moved st st' rb d d' i s o : sizeof_message_t ≤ msz d o →
  message_ptr (Request.req_at st i) = Ptr rb o →
  message_ptr (Request.req_at st' i) = Ptr rb (o - s) →
  curr_cmd (Request.req_at st' i) = shift_ptr s (curr_cmd (Request.req_at st i)) →
  (∀ x, 0 ≤ x < msz d o → byte_at d' (o - s + x) = byte_at d (o + x)) →
  req_view st' d' i = req_view st d i.
Proof.
  intros Hs Em Em' Ec' Hb. unfold req_view. rewrite Em, Em', Ec'.
  rewrite (msz_moved d d' o (o - s)) by done. f_equal; [by apply segment_ext|].
  destruct (curr_cmd (Request.req_at st i)); cbn [shift_ptr]; [done|]. f_equal. lia.
Qed.

(** the older messages, below the cut, stay *)
Lemma laid_below st st' rb d d' hi l : laid st rb d hi l →
  (∀ i, i ∈ l → message_ptr (Request.req_at st' i) = message_ptr (Request.req_at st i) ∧
                curr_cmd (Request.req_at st' i) = curr_cmd (Request.req_at st i)) →
  (∀ x, x < hi → byte_at d' x = byte_at d x) →
  ∀ i, i ∈ l → req_view st' d' i = req_view st d i.
Proof.
  intros H Hl Hd i Hi. destruct (Hl i Hi) as [Em Ec].
  apply list_elem_of_lookup in Hi as [k Hk].
  destruct (laid_at _ _ _ _ _ _ _ H Hk) as (o & Eo & H0 & Hs & Hhi & _).
  apply (view_moved st st' rb d d' i 0 o); try done.
  - by rewrite Em, Eo, Z.sub_0_r.
  - rewrite Ec. destruct (curr_cmd (Request.req_at st i)); cbn [shift_ptr]; by rewrite ?Z.sub_0_r.
  - intros x Hx. rewrite Z.sub_0_r. apply Hd. lia.
Qed.

(** the messages of the newer requests, above the cut, are where their
    pointers now say *)
Lemma laid_cut st st' rb d R o s l k hi : 0 ≤ s →
  let d' := copy_bytes (Z.to_nat (R - (o + s))) d (o + s) d o in
  (k < length l)%nat → laid st rb d hi l → hi ≤ R →
  (∃ r, l !! k = Some r ∧ message_ptr (Request.req_at st r) = Ptr rb o ∧ s = msz d o) →
  (∀ j i, l !! j = Some i → (j < k)%nat →
     message_ptr (Request.req_at st' i) = shift_ptr s (message_ptr (Request.req_at st i)) ∧
     curr_cmd (Request.req_at st' i) = shift_ptr s (curr_cmd (Request.req_at st i))) →
  (∀ j i, l !! j = Some i → (k < j)%nat →
     message_ptr (Request.req_at st' i) = message_ptr (Request.req_at st i) ∧
     curr_cmd (Request.req_at st' i) = curr_cmd (Request.req_at st i)) →
  laid st' rb d' (hi - s) (delete k l) ∧
  ∀ i, i ∈ delete k l → req_view st' d' i = req_view st d i.
Proof.
  intros Hs d' Hk H HR Hr Hnew Hold.
  assert (Hd' : ∀ x, byte_at d' x = if decide (o ≤ x < R - s) then byte_at d (x + s) else byte_at d x)
    by (intros x; by apply byte_at_cut).
  clearbody d'. revert hi k Hk H HR Hr Hnew Hold.
  induction l as [|i l IH]; intros hi k Hk H HR Hr Hnew Hold; [cbn in Hk; lia|].
  cbn [laid] in H. destruct H as (oi & Em & H0 & Hsz & Hhi & Hc & H).
  destruct Hr as (r & Er & Emr & Es). destruct k as [|k].
  - injection Er as <-. rewrite Em in Emr. injection Emr as ->.
    change (delete 0%nat (i :: l)) with l.
    assert (Hlow : ∀ x, x < o → byte_at d' x = byte_at d x).
    { intros x Hx. rewrite Hd'. by rewrite decide_False by lia. }
    assert (Hl : ∀ j, j ∈ l → message_ptr (Request.req_at st' j) = message_ptr (Request.req_at st j) ∧
                curr_cmd (Request.req_at st' j) = curr_cmd (Request.req_at st j)).
    { intros j Hj. apply list_elem_of_lookup in Hj as [m Hm].
      apply (Hold (Datatypes.S m)); [done|lia]. }
    split; [|by apply (laid_below st st' rb d d' o)].
    apply (laid_weaken _ _ _ o); [by apply (laid_ext st st' rb d d')|lia].
  - cbn [length] in Hk. change ((i :: l) !! Datatypes.S k) with (l !! k) in Er.
    destruct (laid_at _ _ _ _ _ _ _ H Er) as (o' & Eo' & Hpos & _ & Hoi & _).
    rewrite Emr in Eo'. injection Eo' as <-.
    destruct (Hnew 0%nat i eq_refl ltac:(lia)) as [Em' Ec'].
    rewrite Em in Em'. cbn [shift_ptr] in Em'.
    assert (Hb : ∀ x, 0 ≤ x < msz d oi → byte_at d' (oi - s + x) = byte_at d (oi + x)).
    { intros x Hx. rewrite Hd', decide_True by lia. f_equal. lia. }
    destruct (IH oi k ltac:(lia) H ltac:(unfold sizeof_message_t in Hsz; lia)) as [IH1 IH2].
    { by exists r. }
    { intros j x Hj Hlt. apply (Hnew (Datatypes.S j)); [done|lia]. }
    { intros j x Hj Hlt. apply (Hold (Datatypes.S j)); [done|lia]. }
    change (delete (Datatypes.S k) (i :: l)) with (i :: delete k l). split.
    + cbn [laid]. exists (oi - s). rewrite (msz_moved d d' oi) by done.
      unfold sizeof_message_t in *. split_and!; try (done || lia). rewrite Ec'.
      destruct Hc as [->|[co ->]]; [by left|right; by eexists].
    + intros j [->|Hj]%elem_of_cons; [|by apply IH2].
      by apply (view_moved st st' rb d d' i s oi).
Qed.

Lemma cut_unprocessed d R P o s : 0 ≤ s → o + s ≤ P → P ≤ R →
  unprocessed (copy_bytes (Z.to_nat (R - (o + s))) d (o + s) d o) (R - s) (P - s) =
  unprocessed d R P.
Proof.
  intros. unfold unprocessed. replace (R - s - (P - s)) with (R - P) by lia.
  apply segment_ext. intros x Hx. rewrite byte_at_cut, decide_True by lia. f_equal. lia.
Qed.

Lemma defragment_spec w c rb d R P l k r : 0 ≤ c < MAX_CONNS → rx_ok w c rb d R P →
  linked (w_reqs w) l → Z.of_nat (length l) ≤ MAX_REQS → laid (w_reqs w) rb d P l →
  l !! k = Some r →
  ∃ o, message_ptr (Request.req_at (w_reqs w) r) = Ptr rb o ∧ 0 ≤ o < BUF_SIZE ∧
    let s := msz d o in let d' := copy_bytes (Z.to_nat (R - (o + s))) d (o + s) d o in
    ∃ st', let x := MkRx (Ptr rb 0) (Ptr rb (R - s)) (BUF_SIZE - (R - s)) (Ptr rb (P - s)) in
    defragment w c r = Ret (set_conn (set_reqs (set_mem w (mem_put (w_mem w) rb
       (Block BUF_SIZE d'))) st') c (with_rx (conn_at w c) x)) ∧
    0 ≤ s ∧ o + s ≤ P ∧ linked st' l ∧
    (∀ i, Request.req_at st' i =
       if decide (i ∈ take k l) then shift_req s (Request.req_at (w_reqs w) i)
       else Request.req_at (w_reqs w) i) ∧
    laid st' rb d' (P - s) (delete k l) ∧
    ∀ i, i ∈ delete k l → req_view st' d' i = req_view (w_reqs w) d i.
Proof.
  intros Hc (Hb & Hx & HP & HR) L Hlen H Hk.
  destruct (laid_at _ _ _ _ _ _ _ H Hk) as (o & Em & H0 & Hsz & Ho & _).
  unfold sizeof_message_t in *. exists o. split; [done|]. split; [unfold BUF_SIZE in *; lia|].
  cbv zeta. set (s := msz d o) in *. set (d' := copy_bytes _ d (o + s) d o).
  pose proof (proj2 L k r Hk) as [_ Ep].
  assert (Hlk : (k < length l)%nat) by (by eapply lookup_lt_Some).
  destruct (shift_newer_spec (Datatypes.S (Z.to_nat MAX_REQS)) (w_reqs w) l k s L) as (st' & Esh & L' & Hst');
    [lia|lia| |].
  { intros i Hi. apply list_elem_of_lookup in Hi as [j Hj].
    apply lookup_take_Some in Hj as [Hj _].
    destruct (laid_at _ _ _ _ _ _ _ H Hj) as (o' & -> & _). done. }
  assert (Hcut : laid st' rb d' (P - s) (delete k l) ∧
    ∀ i, i ∈ delete k l → req_view st' d' i = req_view (w_reqs w) d i).
  { apply (laid_cut (w_reqs w) st' rb d R o s l k P); try (done || lia).
    - by exists r.
    - intros j i Hj Hlt. rewrite Hst', decide_True; [done|].
      apply (list_elem_of_lookup_2 _ j). rewrite lookup_take_lt by lia. done.
    - intros j i Hj Hlt. rewrite Hst', decide_False; [done|]. intros Hi.
      apply list_elem_of_lookup in Hi as [m Hm]. apply lookup_take_Some in Hm as [Hm Hmk].
      pose proof (NoDup_lookup _ _ _ _ (proj1 L) Hj Hm). lia. }
  exists st'. split_and!; try done; [|unfold s; lia| |].
  - unfold defragment. rewrite get_conn_ok by done. obind. rewrite Hx, Em.
    cbn [ptr_add curr_recv_buf curr_recv_size curr_proc_buf recv_buf]. obind.
    rewrite (mem_load_ok _ _ _ _ _ Hb) by (cbn [blk_size]; lia). obind. cbn [blk_data].
    fold (msz d o). fold s. cbn [ptr_diff]. rewrite Z.eqb_refl. obind.
    rewrite (u64_le (R - (o + s))) by lia.
    rewrite (mem_move_ok _ _ _ _ _ _ Hb) by (cbn [blk_size]; lia). obind.
    rewrite (u64_le (BUF_SIZE - R + s)) by lia. rewrite Ep, Esh. obind. cbn [blk_size blk_data].
    unfold d'. replace (R + - s) with (R - s) by lia. replace (P + - s) with (P - s) by lia.
    by replace (BUF_SIZE - R + s) with (BUF_SIZE - (R - s)) by lia.
  - apply Hcut.
  - apply Hcut.
Qed.
End Defrag.

(** ** Properties *)

Definition addr1 : sockaddr_in := SockAddr 7891 16777343.

(** one connection, number 0, on socket 5 *)
Definition world0 : world := World Request.req_init ∅ mem_empty.
Definition world1 : world :=
  match conn_alloc world0 1 true true 5 addr1 TCP with Ret (w, _) => w | Stop _ => world0 end.

(** the bytes of a buffer just allocated: EOM where a first command would be *)
Definition fresh_buf : bytes := store_le 4 ∅ sizeof_message_t (type_to_Z EOM).

Lemma world1_ok : rx_ok world1 0 0 fresh_buf 0 0 ∧ tx_ok world1 0 1 fresh_buf 0 0.
Proof. split; (split; [vm_compute; reflexivity|]; split; [vm_compute; reflexivity|unfold BUF_SIZE; lia]). Qed.

(** the two buffers of a connection *)
Lemma calloc_two h : mem_wf h → ∃ rb sb h1 h2,
  mem_calloc h BUF_SIZE = (h1, Ptr rb 0) ∧ mem_calloc h1 BUF_SIZE = (h2, Ptr sb 0) ∧ rb ≠ sb ∧
  blocks h !! rb = None ∧ blocks h !! sb = None ∧ mem_wf h2 ∧
  blocks h2 = <[sb := calloc_block BUF_SIZE]> (<[rb := calloc_block BUF_SIZE]> (blocks h)).
Proof.
  intros W. pose proof (mem_calloc_spec h BUF_SIZE W) as H1.
  destruct (mem_calloc h BUF_SIZE) as [h1 rbp] eqn:A1.
  destruct H1 as (rb & -> & Hrb & W1 & E1).
  pose proof (mem_calloc_spec h1 BUF_SIZE W1) as H2.
  destruct (mem_calloc h1 BUF_SIZE) as [h2 sbp] eqn:A2.
  destruct H2 as (sb & -> & Hsb & W2 & E2).
  assert (Hne : rb ≠ sb).
  { intros <-. rewrite E1, lookup_insert, decide_True in Hsb by done. done. }
  rewrite E1, lookup_insert_ne in Hsb by done.
  exists rb, sb, h1, h2. split_and!; try done. by rewrite E2, E1.
Qed.

Lemma conn_alloc_ok (w : world) (self s p : Z) (t : sockaddr_in) :
  mem_wf (w_mem w) →
  (∃ c w' rb sb, 0 ≤ c < MAX_CONNS ∧ busy (conn_at w c) = 0 ∧
     (∀ j, 0 ≤ j < c → busy (conn_at w j) ≠ 0) ∧
     conn_alloc w self true true s t p = Ret (w', c) ∧
     busy (conn_at w' c) = 1 ∧ sock (conn_at w' c) = s ∧ target (conn_at w' c) = t ∧
     c_proto (conn_at w' c) = p ∧ is_listen (conn_at w' c) = is_listen (conn_at w c) ∧
     rx_ok w' c rb fresh_buf 0 0 ∧ tx_ok w' c sb fresh_buf 0 0 ∧ rb ≠ sb ∧
     blocks (w_mem w) !! rb = None ∧ blocks (w_mem w) !! sb = None ∧ mem_wf (w_mem w') ∧
     (∀ j, j ≠ c → conn_at w' j = conn_at w j) ∧
     (∀ b, is_Some (blocks (w_mem w) !! b) → blocks (w_mem w') !! b = blocks (w_mem w) !! b)) ∨
  ((∀ j, 0 ≤ j < MAX_CONNS → busy (conn_at w j) ≠ 0) ∧
     conn_alloc w self true true s t p = Ret (w, -1)).
Proof.
  intros W. unfold conn_alloc.
  destruct (first_free_spec w) as [(Hc & Hb & Hlow)|[E Hall]].
  2: { right. rewrite E. by split. }
  left. remember (first_free w) as c eqn:Ec. clear Ec.
  rewrite (proj2 (Z.eqb_neq c (-1))) by lia. cbn [andb negb].
  change (w_mem (set_conn w c _)) with (w_mem w).
  destruct (calloc_two (w_mem w) W) as (rb & sb & h1 & h2 & -> & -> & Hne & Hrb & Hsb & W2 & E2).
  assert (Hb2 : blocks h2 !! sb = Some (calloc_block BUF_SIZE)) by by rewrite E2, lookup_insert_eq.
  cbn [ptr_add]. obind.
  rewrite (mem_store_ok 4 h2 sb _ _ _ Hb2) by (cbv; done). obind.
  set (h3 := mem_put h2 sb _).
  assert (Hb3 : blocks h3 !! rb = Some (calloc_block BUF_SIZE)).
  { unfold h3. cbn [mem_put blocks]. rewrite lookup_insert_ne by done.
    by rewrite E2, lookup_insert_ne, lookup_insert_eq by done. }
  rewrite (mem_store_ok 4 h3 rb _ _ _ Hb3) by (cbv; done). obind.
  eexists c, _, rb, sb. split_and!; [lia|lia|done|done|reflexivity|..].
  - rewrite conn_at_set, decide_True by done. cbn [busy]. by rewrite conn_at_set, decide_True.
  - by rewrite conn_at_set, decide_True.
  - by rewrite conn_at_set, decide_True.
  - by rewrite conn_at_set, decide_True.
  - rewrite conn_at_set, decide_True by done. cbn [is_listen]. by rewrite conn_at_set, decide_True.
  - split_and!; [|by rewrite conn_at_set, decide_True|unfold BUF_SIZE; lia..].
    cbn [set_conn set_mem w_mem mem_put blocks]. by rewrite lookup_insert, decide_True.
  - split_and!; [|by rewrite conn_at_set, decide_True|unfold BUF_SIZE; lia..].
    cbn [set_conn set_mem w_mem mem_put blocks]. rewrite lookup_insert_ne by done.
    unfold h3. cbn [mem_put blocks]. by rewrite lookup_insert, decide_True.
  - done.
  - done.
  - done.
  - cbn [set_conn set_mem w_mem]. apply mem_wf_put; [|by eexists].
    unfold h3. apply mem_wf_put; [done|by eexists].
  - intros j Hj. rewrite conn_at_set, decide_False, conn_at_set_mem by congruence.
    by rewrite conn_at_set, decide_False by congruence.
  - intros b [x Hx]. cbn [set_conn set_mem w_mem mem_put blocks].
    assert (b ≠ rb ∧ b ≠ sb) as [? ?] by (split; intros ->; congruence).
    unfold h3. cbn [mem_put blocks]. by rewrite !lookup_insert_ne, E2, !lookup_insert_ne by done.
Qed.

(** Allocation hands out an entry that was free and is busy from then
    on, the lowest such; its two buffers are blocks nobody else has, empty on
    both sides; every other connection and every existing block is as before.
    Without memory the call fails, and so does it when all entries are busy. *)
Theorem conn_alloc_fresh (w : world) (self s p : Z) (t : sockaddr_in) :
  mem_wf (w_mem w) →
  (∃ c w' rb sb, 0 ≤ c < MAX_CONNS ∧ busy (conn_at w c) = 0 ∧
     (∀ j, 0 ≤ j < c → busy (conn_at w j) ≠ 0) ∧
     conn_alloc w self true true s t p = Ret (w', c) ∧
     busy (conn_at w' c) = 1 ∧ sock (conn_at w' c) = s ∧ target (conn_at w' c) = t ∧
     c_proto (conn_at w' c) = p ∧ is_listen (conn_at w' c) = is_listen (conn_at w c) ∧
     rx_ok w' c rb fresh_buf 0 0 ∧ tx_ok w' c sb fresh_buf 0 0 ∧ rb ≠ sb ∧
     blocks (w_mem w) !! rb = None ∧ blocks (w_mem w) !! sb = None ∧ mem_wf (w_mem w') ∧
     (∀ j, j ≠ c → conn_at w' j = conn_at w j) ∧
     (∀ b, is_Some (blocks (w_mem w) !! b) → blocks (w_mem w') !! b = blocks (w_mem w) !! b)) ∨
  ((∀ j, 0 ≤ j < MAX_CONNS → busy (conn_at w j) ≠ 0) ∧
     conn_alloc w self true true s t p = Ret (w, -1)).
Proof. apply conn_alloc_ok. Qed.

Lemma conn_alloc_fresh_witness :
  mem_wf (w_mem world0) ∧ ∃ c w', conn_alloc world0 1 true true 5 addr1 TCP = Ret (w', c) ∧ c = 0.
Proof.
  assert (W : mem_wf (w_mem world0)) by (intros b _; reflexivity).
  split; [exact W|].
  destruct (conn_alloc_fresh world0 1 5 TCP addr1 W) as [(c & w' & _ & _ & Hc & _ & _ & E & _)|[H _]].
  - exists c, w'. split; [exact E|]. apply (f_equal (fun o => match o with Ret (_, i) => i | _ => 9 end)) in E.
    vm_compute in E. congruence.
  - exfalso. apply (H 0); [split; [discriminate|reflexivity]|reflexivity].
Defined.

(** [C28] Framing: however the bytes of a stream are cut into pieces by the
    network, receiving each piece and taking the complete messages yields
    exactly the messages of the whole stream, in order, and the bytes of the
    last incomplete message are kept; a message whose size field is below the
    header's 12 bytes (or above the buffer) aborts the process, in every cut. *)
Theorem framing_independent (w : world) (c rb : Z) (d : bytes) (R P : Z) (chunks : list (list Z)) :
  0 ≤ c < MAX_CONNS → rx_ok w c rb d R P → use_ssl (c_ssl (conn_at w c)) = 0 →
  Forall (fun data => data ≠ [] ∧ Forall (fun x => 0 ≤ x < 256) data) chunks →
  R + Z.of_nat (length (concat chunks)) ≤ BUF_SIZE →
  take_frame (unprocessed d R P) = Incomplete →
  match all_frames (unprocessed d R P ++ concat chunks) with
  | None => receive_stream w c chunks = Stop AssertFailed
  | Some (ms, rest) => ∃ w' d' R' P', receive_stream w c chunks = Ret (w', ms) ∧
      rx_ok w' c rb d' R' P' ∧ unprocessed d' R' P' = rest
  end.
Proof. apply receive_stream_spec. Qed.

(** a message of 16 bytes, cut in the middle of its size, and 3 bytes of the next *)
Definition cut_stream : list (list Z) :=
  [[1; 0; 0; 0; 16]; [0; 0; 0; 0; 0; 0; 0; 7; 0; 0]; [0; 2; 0; 0]].

Lemma framing_independent_witness :
  ∃ w' d' R' P', receive_stream world1 0 cut_stream =
      Ret (w', [[1; 0; 0; 0; 16; 0; 0; 0; 0; 0; 0; 0; 7; 0; 0; 0]]) ∧
    rx_ok w' 0 0 d' R' P' ∧ unprocessed d' R' P' = [2; 0; 0].
Proof.
  pose proof (framing_independent world1 0 0 fresh_buf 0 0 cut_stream) as H.
  assert (E : all_frames (unprocessed fresh_buf 0 0 ++ concat cut_stream) =
    Some ([[1; 0; 0; 0; 16; 0; 0; 0; 0; 0; 0; 0; 7; 0; 0; 0]], [2; 0; 0])) by (vm_compute; reflexivity).
  rewrite E in H. apply H.
  - unfold MAX_CONNS. lia.
  - apply world1_ok.
  - vm_compute. reflexivity.
  - repeat constructor; (discriminate || lia).
  - vm_compute. discriminate.
  - reflexivity.
Defined.

(** [C30] One send on a connection without TLS: when the kernel takes n of
    the waiting bytes, the first n are gone and the others, in order, are what
    is still waiting (from the start of the buffer again once none is left, and
    a SENDING connection is then READY); when it takes none, the waiting bytes
    stay and the status tells why: SENDING when the kernel's buffer is full,
    CLOSING when the peer is gone. *)
Theorem conn_send_progress (w : world) (c sb : Z) (d : bytes) (S N : Z) (a : sys_ret) (la : ssl_ret) :
  0 ≤ c < MAX_CONNS → tx_ok w c sb d S N → use_ssl (c_ssl (conn_at w c)) = 0 →
  (0 < s_ret a ≤ N → ∃ w' S', conn_send w c a la = Ret (w', s_ret a) ∧
     tx_ok w' c sb d S' (N - s_ret a) ∧
     pending d S N = segment d S (s_ret a) ++ pending d S' (N - s_ret a) ∧
     (N = s_ret a → S' = 0 ∧ status (conn_at w' c) ≠ SENDING)) ∧
  (s_ret a = -1 → ∃ w' rv, conn_send w c a la = Ret (w', rv) ∧ tx_ok w' c sb d S N ∧
     status (conn_at w' c) = match s_errno a with EAGAIN => SENDING
       | EPIPE | ECONNRESET => CLOSING | EOTHER => status (conn_at w c) end ∧
     rv = match s_errno a with EOTHER => -1 | _ => 0 end).
Proof.
  intros Hc Htx Hssl. pose proof Htx as (Hb & Hx & HS & HN & Hf).
  unfold conn_send. rewrite get_conn_ok by done. obind. rewrite Hssl. cbn [Z.eqb negb]. split.
  - intros Hn. rewrite (proj2 (Z.eqb_neq (s_ret a) 0)), (proj2 (Z.eqb_neq (s_ret a) (-1))) by lia.
    rewrite Hx, advance_tx_ok by lia. obind. rewrite (s32_small (s_ret a)) by (unfold is_int, BUF_SIZE in *; lia).
    set (conn := if _ && _ then _ else _).
    destruct (rewind_tx_ok w c sb d S N (s_ret a) conn Htx) as (S' & Htx' & Ep & Hz); [lia| |].
    { unfold conn. by destruct (_ && _). }
    exists (set_conn w c conn), S'. split_and!; try done. intros En. split; [apply Hz; lia|].
    rewrite conn_at_set, decide_True by done. unfold conn. cbn [curr_send_size with_tx status].
    rewrite (proj2 (Z.eqb_eq (N - s_ret a) 0)) by lia. cbn [andb].
    case_bool_decide; [done|]. done.
  - intros ->. cbn [Z.eqb].
    assert (Hst : ∀ s, tx_ok (set_conn w c (with_status (conn_at w c) s)) c sb d S N).
    { intros s. split_and!; [done|by rewrite conn_at_set, decide_True|done..]. }
    assert (Hs : ∀ s, status (conn_at (set_conn w c (with_status (conn_at w c) s)) c) = s).
    { intros s. by rewrite conn_at_set, decide_True. }
    destruct (s_errno a); eexists _, _; (split_and!; [reflexivity|auto|auto|reflexivity]).
Qed.

(** 20 bytes waiting *)
Definition world_tx (S N : Z) : world :=
  set_conn world1 0 (with_tx (with_status (conn_at world1 0) SENDING)
    (MkTx (Ptr 1 0) (Ptr 1 S) N)).

Lemma world_tx_ok S N : 0 ≤ S → 0 ≤ N → S + N ≤ BUF_SIZE → tx_ok (world_tx S N) 0 1 fresh_buf S N.
Proof.
  intros. split_and!; [vm_compute; reflexivity| |done..].
  unfold world_tx. rewrite conn_at_set, decide_True by done. done.
Qed.

Lemma conn_send_progress_witness :
  ∃ w' S', conn_send (world_tx 0 20) 0 (SysRet 5 EAGAIN) (SslRet 0 SSL_ERROR_OTHER) = Ret (w', 5) ∧
    tx_ok w' 0 1 fresh_buf S' 15 ∧
    pending fresh_buf 0 20 = segment fresh_buf 0 5 ++ pending fresh_buf S' 15.
Proof.
  destruct (conn_send_progress (world_tx 0 20) 0 1 fresh_buf 0 20 (SysRet 5 EAGAIN)
    (SslRet 0 SSL_ERROR_OTHER)) as [H _];
    [unfold MAX_CONNS; lia|apply world_tx_ok; unfold BUF_SIZE; lia|vm_compute; reflexivity|].
  destruct (H ltac:(cbn [s_ret]; lia)) as (w' & S' & E & Htx & Ep & _). exists w', S'.
  split; [exact E|split; [exact Htx|exact Ep]].
Defined.

Lemma start_send_ok w c sb d S N t a la : 0 ≤ c < MAX_CONNS → tx_ok w c sb d S N → S = 0 ∨ N = 0 →
  let n := load_le 4 d (N + 4) in
  let w1 := set_conn w c (with_tx (with_target (conn_at w c) t)
              (MkTx (Ptr sb 0) (Ptr sb 0) (N + n))) in
  N + 8 ≤ BUF_SIZE → N + n ≤ BUF_SIZE →
  tx_ok w1 c sb d 0 (N + n) ∧
  conn_start_send w c t a la =
    if not_connected (status (conn_at w c)) then Ret (w1, 0) else conn_send w1 c a la.
Proof.
  intros Hc (Hb & Hx & HS & HN & Hf) H0 n w1 Hn Hfit. pose proof (load_le_range 4 d (N + 4)).
  split; [split_and!; [exact Hb|by unfold w1; rewrite conn_at_set, decide_True|lia..]|].
  unfold conn_start_send. rewrite get_conn_ok by done. obind. rewrite Hx.
  cbn [send_buf curr_send_size curr_send_buf ptr_add]. obind. cbn [ptr_add]. obind.
  rewrite (mem_load_ok _ _ _ _ _ Hb) by (cbn [blk_size]; lia). obind. cbn [blk_data].
  replace (0 + N + 4) with (N + 4) by lia. fold n. rewrite u64_le by lia.
  replace (if N =? 0 then Ptr sb 0 else Ptr sb S) with (Ptr sb 0)
    by (destruct (Z.eqb_spec N 0); [done|f_equal; lia]).
  done.
Qed.

(** Starting to send when nothing of the buffer is out yet (or nothing
    waits): the message the caller wrote behind the waiting bytes is appended
    to them, the destination is recorded, and on a connection that is not
    established yet nothing else happens; otherwise the bytes are offered to
    the kernel at once. *)
Theorem conn_start_send_appends (w : world) (c sb : Z) (d : bytes) (S N : Z) (t : sockaddr_in)
    (a : sys_ret) (la : ssl_ret) :
  0 ≤ c < MAX_CONNS → tx_ok w c sb d S N → S = 0 ∨ N = 0 →
  let n := load_le 4 d (N + 4) in
  N + 8 ≤ BUF_SIZE → N + n ≤ BUF_SIZE →
  ∃ w1, tx_ok w1 c sb d 0 (N + n) ∧ target (conn_at w1 c) = t ∧
    pending d 0 (N + n) = pending d 0 N ++ segment d N n ∧
    conn_start_send w c t a la =
      if not_connected (status (conn_at w c)) then Ret (w1, 0) else conn_send w1 c a la.
Proof.
  intros Hc Htx H0 n Hn Hfit. pose proof (load_le_range 4 d (N + 4)). pose proof Htx as (_ & _ & _ & HN & _).
  destruct (start_send_ok w c sb d S N t a la Hc Htx H0 Hn Hfit) as [Htx' E].
  eexists. split_and!; [exact Htx'|by rewrite conn_at_set, decide_True| |exact E].
  unfold pending. rewrite segment_app by lia. by rewrite Z.add_0_l.
Qed.

Lemma conn_start_send_appends_witness :
  ∃ w1, tx_ok w1 0 1 fresh_buf 0 0 ∧ target (conn_at w1 0) = addr1 ∧
    conn_start_send world1 0 addr1 (SysRet 0 EAGAIN) (SslRet 0 SSL_ERROR_OTHER) = Ret (w1, 0).
Proof.
  destruct (conn_start_send_appends world1 0 1 fresh_buf 0 0 addr1 (SysRet 0 EAGAIN)
    (SslRet 0 SSL_ERROR_OTHER)) as (w1 & Htx & Et & _ & E);
    [unfold MAX_CONNS; lia|apply world1_ok|by left|vm_compute; discriminate
    |vm_compute; discriminate|].
  exists w1. split; [exact Htx|split; [exact Et|]]. rewrite E. vm_compute. reflexivity.
Defined.

(** the header of the next message gets the available size *)
Lemma prepare_send_ok (w : world) (c sb : Z) (d : bytes) (S N : Z) :
  0 ≤ c < MAX_CONNS → tx_ok w c sb d S N → N + 8 ≤ BUF_SIZE →
  conn_prepare_send_message w c =
  Ret (set_mem w (mem_put (w_mem w) sb
         (Block BUF_SIZE (store_le 4 d (N + 4) (BUF_SIZE - (S + N))))), Ptr sb N).
Proof.
  intros Hc (Hb & Hx & HS & HN & Hf) Hfit.
  unfold conn_prepare_send_message. rewrite get_conn_ok by done. obind. rewrite Hx.
  cbn [send_buf curr_send_size curr_send_buf ptr_diff ptr_add]. obind.
  rewrite Z.eqb_refl. obind. cbn [ptr_add]. obind.
  rewrite u32_small by (unfold BUF_SIZE in *; lia).
  rewrite (mem_store_ok _ _ _ _ _ _ Hb) by (cbn [blk_size]; lia). obind. cbn [blk_size blk_data].
  rewrite Z.add_0_l. do 6 f_equal. lia.
Qed.

(** The place handed out for the next message is counted from the start
    of the send buffer, not from the first waiting byte: after a partial send
    (S bytes gone, N waiting) it is S bytes inside the waiting ones, where
    get_send_buf is right, and writing the available size into the header
    there changes bytes that have still to be sent. *)
Theorem prepare_send_overwrites (w : world) (c sb : Z) (d : bytes) (S N : Z) :
  0 ≤ c < MAX_CONNS → tx_ok w c sb d S N → S + N + 8 ≤ BUF_SIZE →
  get_send_buf w c 8 = Ret (Ptr sb (S + N)) ∧
  ∃ w' d', conn_prepare_send_message w c = Ret (w', Ptr sb N) ∧ tx_ok w' c sb d' S N ∧
    load_le 4 d' (N + 4) = BUF_SIZE - (S + N) ∧
    (S = 0 → pending d' S N = pending d S N) ∧
    (8 ≤ S ≤ N → load_le 4 d (N + 4) ≠ BUF_SIZE - (S + N) → pending d' S N ≠ pending d S N).
Proof.
  intros Hc (Hb & Hx & HS & HN & Hf) Hfit. split.
  - unfold get_send_buf. rewrite get_conn_ok by done. obind. rewrite Hx.
    cbn [send_buf curr_send_size curr_send_buf ptr_diff]. rewrite Z.eqb_refl. obind.
    rewrite u64_le by lia. replace (S - 0 + N + 8 <=? BUF_SIZE) with true by lia. done.
  - rewrite (prepare_send_ok w c sb d S N) by (done || lia || by split_and!).
    set (d' := store_le 4 d _ _).
    assert (El : load_le 4 d' (N + 4) = BUF_SIZE - (S + N)).
    { unfold d'. rewrite load_store_le. apply Z.mod_small. unfold BUF_SIZE in *. cbn. lia. }
    eexists _, d'. split; [reflexivity|]. split; [|split; [done|split]].
    + split; [|by split_and!]. cbn [set_mem w_mem mem_put blocks].
      by rewrite lookup_insert, decide_True.
    + intros ->. apply segment_ext. intros x Hxx. unfold d'.
      rewrite byte_at_store_le, decide_False by lia. done.
    + intros HSN Hne Eq. apply Hne. rewrite <- El. symmetry.
      apply load_le_ext. intros x Hxx.
      pose proof (segment_inv _ _ _ _ _ Eq (N + 4 + x - S) ltac:(lia)) as Ex.
      by replace (S + (N + 4 + x - S)) with (N + 4 + x) in Ex by lia.
Qed.

Lemma prepare_send_overwrites_witness :
  get_send_buf (world_tx 10 20) 0 8 = Ret (Ptr 1 30) ∧
  ∃ w' d', conn_prepare_send_message (world_tx 10 20) 0 = Ret (w', Ptr 1 20) ∧
    tx_ok w' 0 1 d' 10 20 ∧ pending d' 10 20 ≠ pending fresh_buf 10 20.
Proof.
  destruct (prepare_send_overwrites (world_tx 10 20) 0 1 fresh_buf 10 20)
    as [E (w' & d' & E' & Htx & _ & _ & Hp)];
    [unfold MAX_CONNS; lia|apply world_tx_ok; unfold BUF_SIZE; lia|unfold BUF_SIZE; lia|].
  split; [exact E|]. exists w', d'. split; [exact E'|]. split; [exact Htx|].
  apply Hp; [lia|vm_compute; discriminate].
Defined.

(** [C33] A sendfile reply: once the answers of the kernel have let the whole
    header out (interrupted as often as it likes), the file is sent from its
    recorded offset; what sendfile takes moves the offset forward and the rest
    down by the same amount, SENDING is left for POLLOUT to resume while bytes
    remain, and with none left the connection is READY, its send buffer
    rewound and the file forgotten. *)
Theorem conn_send_v2_resumes (w : world) (c sb : Z) (d : bytes) (S N k : Z) (answers : list sys_ret)
    (fe : errno) (fd off rem md : Z) :
  0 ≤ c < MAX_CONNS → tx_ok w c sb d S N → header_sent answers N →
  file (conn_at w c) = MkFile fd off rem md → 0 ≤ k ≤ rem → 0 < rem < 2 ^ 63 →
  ∃ w' rv, conn_send_v2 w c answers (SysRet k fe) = Ret (w', rv) ∧
    (k < rem → rv = 0 ∧ status (conn_at w' c) = SENDING ∧
       tx_ok w' c sb d (S + N) 0 ∧ file (conn_at w' c) = MkFile fd (off + k) (rem - k) md) ∧
    (k = rem → rv = 1 ∧ status (conn_at w' c) = READY ∧
       tx_ok w' c sb d 0 0 ∧ file (conn_at w' c) = MkFile (-1) 0 0 md).
Proof.
  intros Hc (Hb & Hx & HS & HN & Hf) Hs Ef Hk Hr.
  unfold conn_send_v2. rewrite get_conn_ok by done. obind.
  rewrite (send_header_spec answers sb S N _ Hx) by (done || lia). obind.
  cbn [file with_tx]. rewrite Ef. cbn [file_remaining file_fd file_offset reply_mode s_ret s_errno].
  replace (0 <? rem) with true by lia. rewrite (proj2 (Z.eqb_neq k (-1))) by lia.
  rewrite u64_small by lia.
  destruct (Z.ltb_spec 0 (rem - k)) as [Hlt|Hge].
  - eexists _, _. split; [reflexivity|]. split; [intros _|lia].
    rewrite !conn_at_set, decide_True by done. split; [done|]. split; [done|]. split; [|done].
    split; [exact Hb|]. split; [by rewrite conn_at_set, decide_True|lia].
  - eexists _, _. split; [reflexivity|]. split; [lia|intros ->].
    rewrite !conn_at_set, decide_True by done. unfold file_complete.
    cbn [file with_file with_tx file_remaining]. rewrite Z.sub_diag. cbn [Z.eqb].
    split; [done|]. split; [done|]. split; [|done].
    split; [exact Hb|]. split; [|lia]. rewrite conn_at_set, decide_True by done.
    unfold file_complete. by rewrite ?Z.sub_diag.
Qed.

Definition world_file : world :=
  set_conn world1 0 (with_file (with_tx (conn_at world1 0) (MkTx (Ptr 1 0) (Ptr 1 0) 12))
    (MkFile 9 0 100 REPLY_MODE_SENDFILE)).

Lemma conn_send_v2_resumes_witness :
  ∃ w', conn_send_v2 world_file 0 [SysRet 5 EAGAIN; SysRet (-1) EAGAIN; SysRet 7 EAGAIN]
      (SysRet 60 EAGAIN) = Ret (w', 0) ∧
    status (conn_at w' 0) = SENDING ∧ file (conn_at w' 0) = MkFile 9 60 40 REPLY_MODE_SENDFILE.
Proof.
  destruct (conn_send_v2_resumes world_file 0 1 fresh_buf 0 12 60
    [SysRet 5 EAGAIN; SysRet (-1) EAGAIN; SysRet 7 EAGAIN] EAGAIN 9 0 100 REPLY_MODE_SENDFILE)
    as (w' & rv & E & H & _);
    [unfold MAX_CONNS; lia| | |vm_compute; reflexivity|lia|lia|].
  - split; [vm_compute; reflexivity|]. split; [vm_compute; reflexivity|unfold BUF_SIZE; lia].
  - cbn. right. split; [lia|]. left. split; [done|]. split; [done|]. right. split; [lia|done].
  - destruct (H ltac:(lia)) as (-> & Hst & _ & Ef). exists w'. split; [exact E|split; [exact Hst|exact Ef]].
Defined.

(** Sending the header of a sendfile reply does not handle the other
    errors of send(): after an errno that is none of EAGAIN, EPIPE and
    ECONNRESET the code goes on as if minus one byte had been sent, and offers
    the byte before the header, and one more byte than there are. *)
Theorem send_header_other_error (conn : conn_info_t) (sb S N : Z) (answers : list sys_ret) :
  tx conn = MkTx (Ptr sb 0) (Ptr sb S) N → 0 < N < BUF_SIZE →
  send_header (SysRet (-1) EOTHER :: answers) conn =
  send_header answers (with_tx conn (MkTx (Ptr sb 0) (Ptr sb (S - 1)) (N + 1))).
Proof.
  intros Ht HN. cbn [send_header]. rewrite Ht. cbn [curr_send_size].
  replace (0 <? N) with true by lia. cbn [s_ret s_errno Z.leb Z.compare andb].
  rewrite !bool_decide_false by naive_solver.
  unfold advance_tx. cbn [curr_send_buf curr_send_size send_buf ptr_add mbind outcome_bind].
  rewrite u64_le by lia. by replace (N - -1) with (N + 1) by lia.
Qed.

Lemma send_header_other_error_witness :
  send_header [SysRet (-1) EOTHER; SysRet 13 EAGAIN] (conn_at world_file 0) =
  Ret (with_tx (conn_at world_file 0) (MkTx (Ptr 1 0) (Ptr 1 12) 0), None).
Proof.
  rewrite (send_header_other_error (conn_at world_file 0) 1 0 12 [SysRet 13 EAGAIN]);
    [vm_compute; reflexivity|vm_compute; reflexivity|unfold BUF_SIZE; lia].
Defined.

(** the head of a list of requests after a removal *)
Lemma delete_head (l : list Z) k r : NoDup l → l !! k = Some r →
  (if bool_decide (l !! 0%nat = Some r) then l !! Datatypes.S k else l !! 0%nat) = delete k l !! 0%nat.
Proof.
  intros Hnd Hk. destruct k as [|k].
  - rewrite bool_decide_true by done. by rewrite list_lookup_delete_ge by lia.
  - rewrite bool_decide_false; [by rewrite list_lookup_delete_lt by lia|].
    intros X. pose proof (NoDup_lookup _ _ _ _ Hnd Hk X). lia.
Qed.

(** a released entry loses its id and keeps its connection, the others keep theirs *)
Lemma unlink_fields st l k r i : linked st l → l !! k = Some r →
  r_conn_id (Request.req_at (Request.req_unlink st r).1 i) = r_conn_id (Request.req_at st i) ∧
  req_id (Request.req_at (Request.req_unlink st r).1 i) =
    if decide (i = r) then -1 else req_id (Request.req_at st i).
Proof. intros L Hk. rewrite (unlink_at st l k r L Hk i). repeat case_decide; by subst. Qed.

Lemma req_remove_spec (w : world) (c rb : Z) (d : bytes) (R P : Z) (l : list Z)
    (k : nat) (r : Z) :
  0 ≤ c < MAX_CONNS → rx_ok w c rb d R P → enable_defrag (conn_at w c) ≠ 0 →
  linked (w_reqs w) l → Z.of_nat (length l) ≤ MAX_REQS → req_list (conn_at w c) = l !! 0%nat →
  laid (w_reqs w) rb d P l → l !! k = Some r →
  ∃ w' d' s, conn_req_remove w c r = Ret (w', l !! Datatypes.S k) ∧
    message_ptr (Request.req_at (w_reqs w) r) ≠ NULL ∧
    s = Z.of_nat (length (req_view (w_reqs w) d r).1) ∧
    rx_ok w' c rb d' (R - s) (P - s) ∧ unprocessed d' (R - s) (P - s) = unprocessed d R P ∧
    linked (w_reqs w') (delete k l) ∧ req_list (conn_at w' c) = delete k l !! 0%nat ∧
    laid (w_reqs w') rb d' (P - s) (delete k l) ∧
    (∀ i, i ∈ delete k l → req_view (w_reqs w') d' i = req_view (w_reqs w) d i) ∧
    req_id (Request.req_at (w_reqs w') r) = -1 ∧
    (r_conn_id (Request.req_at (w_reqs w') r) = r_conn_id (Request.req_at (w_reqs w) r) ∧
     (∃ x h, conn_at w' c = with_req_list (with_rx (conn_at w c) x) h) ∧
     (∀ j, j ≠ c → conn_at w' j = conn_at w j) ∧
     (∀ j, j ≠ rb → blocks (w_mem w') !! j = blocks (w_mem w) !! j) ∧
     (∀ i, i ≠ r → req_id (Request.req_at (w_reqs w') i) = req_id (Request.req_at (w_reqs w) i)) ∧
     (ids_wf (w_reqs w) → ids_wf (w_reqs w'))).
Proof.
  intros Hc Hrx Hdef L Hlen Hhead H Hk.
  destruct (defragment_spec w c rb d R P l k r Hc Hrx L Hlen H Hk)
    as (o & Em & Ho & st' & E & Hs & Hos & L' & Hst & Hlaid & Hview).
  set (s := msz d o) in *. set (d' := copy_bytes _ d (o + s) d o) in *.
  pose proof Hrx as (Hb & Hx & HP & HR).
  unfold conn_req_remove. rewrite get_conn_ok by done. obind.
  rewrite (proj2 (Z.eqb_neq _ 0) Hdef), Em, Hx. cbn [recv_buf in_buf]. rewrite Z.eqb_refl.
  cbn [andb]. replace ((0 <=? o) && (o <? 0 + BUF_SIZE)) with true by lia. obind. rewrite E. obind.
  set (w1 := set_conn _ c _). rewrite get_conn_ok by done. obind.
  assert (Ew1 : w_reqs w1 = st') by done. rewrite Ew1.
  pose proof (unlink_linked st' l k r L' Hk) as U.
  pose proof (fun i => unlink_fields st' l k r i L' Hk) as F.
  destruct (Request.req_unlink st' r) as [st2 nx]. cbn [fst] in F.
  destruct U as (-> & L2 & Hr1 & Hr2 & _ & _ & Hsame & _).
  destruct (proj2 L' k r Hk) as [Enr _]. rewrite Enr.
  assert (Hnk : ∀ i, i ∈ delete k l → i ≠ r).
  { intros i Hi ->. pose proof (proj1 L) as Hnd.
    rewrite (delete_Permutation l k r Hk), NoDup_cons in Hnd. tauto. }
  set (conn := if bool_decide _ then _ else _).
  assert (Econn : rx conn = MkRx (Ptr rb 0) (Ptr rb (R - s)) (BUF_SIZE - (R - s)) (Ptr rb (P - s))).
  { unfold conn, w1. rewrite conn_at_set, decide_True by done. by case_bool_decide. }
  assert (Elist : req_list conn = delete k l !! 0%nat).
  { unfold conn, w1. rewrite conn_at_set, decide_True by done. cbn [req_list with_rx].
    rewrite <- (delete_head l k r (proj1 L) Hk), Hhead. by case_bool_decide; cbn [with_req_list with_rx req_list]. }
  assert (Hfld : ∀ i, i ∈ delete k l →
    message_ptr (Request.req_at st2 i) = message_ptr (Request.req_at st' i) ∧
    curr_cmd (Request.req_at st2 i) = curr_cmd (Request.req_at st' i)).
  { intros i Hi. destruct (Hsame i (Hnk i Hi)) as (_ & _ & _ & ? & ? & _). done. }
  exists (set_conn (set_reqs w1 st2) c conn), d', s. split_and!; try done.
  - unfold req_view. rewrite Em. cbn [fst]. by rewrite segment_length.
  - split_and!; [|by rewrite conn_at_set, decide_True|lia..].
    cbn [set_conn set_reqs w_mem w1 set_mem mem_put blocks]. by rewrite lookup_insert, decide_True.
  - apply cut_unprocessed; lia.
  - by rewrite conn_at_set, decide_True.
  - by apply (laid_ext st' st2 rb d' d').
  - intros i Hi. rewrite <- Hview by done. cbn [set_conn set_reqs w_reqs].
    unfold req_view. by destruct (Hfld i Hi) as [-> ->].
  - cbn [set_conn set_reqs w_reqs]. rewrite (proj1 (F r)), Hst. by case_decide.
  - rewrite conn_at_set, decide_True by done. unfold conn, w1.
    rewrite conn_at_set, decide_True by done. eexists _, (req_list conn).
    unfold conn, w1. rewrite conn_at_set, decide_True by done. by case_bool_decide.
  - intros j Hj. rewrite conn_at_set, decide_False by done. unfold w1.
    rewrite conn_at_set_reqs, conn_at_set, decide_False by done. done.
  - intros j Hj. cbn [set_conn set_reqs w_mem w1 set_mem mem_put blocks]. by rewrite lookup_insert_ne.
  - intros i Hi. cbn [set_conn set_reqs w_reqs]. rewrite (proj2 (F i)), decide_False, Hst by done.
    by case_decide.
  - intros W i. cbn [set_conn set_reqs w_reqs]. rewrite (proj2 (F i)).
    case_decide; [by left|]. rewrite Hst. destruct (W i) as [Hi|Hi]; case_decide; auto.
Qed.

(** [C29] Releasing a request defragments the receive buffer and loses
    nothing: its message is cut out, every other request of the connection
    still has its message and its position within it (the newer ones through
    pointers moved down), the bytes not yet processed are the same, the space
    is free again at the end of the buffer, and the list of requests is in
    order without it. *)
Theorem conn_req_remove_defragments (w : world) (c rb : Z) (d : bytes) (R P : Z) (l : list Z)
    (k : nat) (r : Z) :
  0 ≤ c < MAX_CONNS → rx_ok w c rb d R P → enable_defrag (conn_at w c) ≠ 0 →
  linked (w_reqs w) l → Z.of_nat (length l) ≤ MAX_REQS → req_list (conn_at w c) = l !! 0%nat →
  laid (w_reqs w) rb d P l → l !! k = Some r →
  ∃ w' d' s, conn_req_remove w c r = Ret (w', l !! Datatypes.S k) ∧
    message_ptr (Request.req_at (w_reqs w) r) ≠ NULL ∧
    s = Z.of_nat (length (req_view (w_reqs w) d r).1) ∧
    rx_ok w' c rb d' (R - s) (P - s) ∧ unprocessed d' (R - s) (P - s) = unprocessed d R P ∧
    linked (w_reqs w') (delete k l) ∧ req_list (conn_at w' c) = delete k l !! 0%nat ∧
    laid (w_reqs w') rb d' (P - s) (delete k l) ∧
    (∀ i, i ∈ delete k l → req_view (w_reqs w') d' i = req_view (w_reqs w) d i) ∧
    req_id (Request.req_at (w_reqs w') r) = -1.
Proof.
  intros. destruct (req_remove_spec w c rb d R P l k r) as (w' & d' & s & X); try done.
  exists w', d', s. tauto.
Qed.

(** two requests with messages of 16 and 20 bytes, and 4 bytes more *)
Definition two_msgs : bytes :=
  store_le 4 (store_le 4 (store_le 4 fresh_buf 4 16) 20 20) 36 12345.
Definition world_reqs : world :=
  World
    (MkReqs (list_to_map
      [(1, set_message (set_links (set_req_id Request.unused_req 1) None (Some 0)) (Ptr 0 16) (Ptr 0 28));
       (0, set_message (set_links (set_req_id Request.unused_req 0) (Some 1) None) (Ptr 0 0) (Ptr 0 12))]) 2)
    (<[0 := MkConn TCP 5 READY addr1 (MkRx (Ptr 0 0) (Ptr 0 40) (BUF_SIZE - 40) (Ptr 0 36))
         (MkTx (Ptr 1 0) (Ptr 1 0) 0) (MkFile 0 0 0 0) (Some 1) 0 1 1 1 0 (MkSsl 0 None 0 0)]> ∅)
    (Mem (<[0 := Block BUF_SIZE two_msgs]> (<[1 := calloc_block BUF_SIZE]> ∅)) 2).

Lemma world_reqs_linked : linked (w_reqs world_reqs) [1; 0].
Proof.
  split; [repeat constructor; set_solver|].
  intros [|[|k]] i E; cbn in E; try (injection E as <-; split; reflexivity). done.
Qed.

Lemma world_reqs_ids : ids_wf (w_reqs world_reqs).
Proof.
  intros i. unfold Request.req_at, world_reqs. cbn [w_reqs rtab].
  destruct (list_to_map _ !! i) as [r|] eqn:E; [|by left]. right.
  apply elem_of_list_to_map_2 in E. set_unfold in E.
  destruct E as [[= -> ->]|[[= -> ->]|[]]]; reflexivity.
Qed.

Lemma conn_req_remove_defragments_witness :
  ∃ w' d' s, conn_req_remove world_reqs 0 0 = Ret (w', None) ∧ s = 16 ∧
    rx_ok w' 0 0 d' (40 - s) (36 - s) ∧ linked (w_reqs w') [1] ∧
    req_view (w_reqs w') d' 1 = req_view (w_reqs world_reqs) two_msgs 1.
Proof.
  destruct (conn_req_remove_defragments world_reqs 0 0 two_msgs 40 36 [1; 0] 1 0)
    as (w' & d' & s & E & _ & Es & Hrx & _ & L & _ & _ & Hv & _).
  - unfold MAX_CONNS. lia.
  - split; [vm_compute; reflexivity|]. split; [vm_compute; reflexivity|unfold BUF_SIZE; lia].
  - vm_compute. discriminate.
  - exact world_reqs_linked.
  - vm_compute. discriminate.
  - vm_compute. reflexivity.
  - exists 16. split; [vm_compute; reflexivity|]. split; [lia|]. split; [vm_compute; discriminate|].
    split; [vm_compute; discriminate|]. split; [right; exists 28; vm_compute; reflexivity|].
    exists 0. split; [vm_compute; reflexivity|]. split; [lia|]. split; [vm_compute; discriminate|].
    split; [vm_compute; discriminate|]. split; [right; exists 12; vm_compute; reflexivity|exact I].
  - reflexivity.
  - exists w', d', s. split; [exact E|]. split; [rewrite Es; vm_compute; reflexivity|].
    split; [exact Hrx|]. split; [exact L|]. apply Hv. by apply list_elem_of_singleton.
Defined.

(** a node put in front of a linked list *)
Lemma linked_cons st st' l r : linked st l → r ∉ l →
  next (Request.req_at st' r) = l !! 0%nat → prev (Request.req_at st' r) = None →
  (∀ i, i ≠ r → next (Request.req_at st' i) = next (Request.req_at st i) ∧
     prev (Request.req_at st' i) =
       if decide (l !! 0%nat = Some i) then Some r else prev (Request.req_at st i)) →
  linked st' (r :: l).
Proof.
  intros L Hr En Ep Ho. split; [apply NoDup_cons; split; [done|apply L]|].
  intros [|k] i Hi; cbn [lookup list_lookup] in Hi.
  - injection Hi as <-. by rewrite En, Ep.
  - destruct (Ho i) as [-> ->]; [intros ->; by apply Hr, (list_elem_of_lookup_2 _ k)|].
    destruct (proj2 L k i Hi) as [Eni Epi].
    change ((r :: l) !! Datatypes.S (Datatypes.S k)) with (l !! Datatypes.S k).
    change ((r :: l) !! Datatypes.S k) with (l !! k) in *.
    destruct k as [|k]; [by rewrite decide_True|].
    rewrite decide_False; [done|]. intros X.
    pose proof (NoDup_lookup _ _ _ _ (proj1 L) Hi X). lia.
Qed.

Lemma req_add_spec (w : world) (c : Z) (l : list Z) :
  0 ≤ c < MAX_CONNS → ids_wf (w_reqs w) → linked (w_reqs w) l →
  req_list (conn_at w c) = l !! 0%nat →
  (∀ i, i ∈ l → req_id (Request.req_at (w_reqs w) i) ≠ -1) →
  match conn_req_add w c with
  | Ret (w', Some r) => linked (w_reqs w') (r :: l) ∧ req_list (conn_at w' c) = Some r ∧
      ids_wf (w_reqs w') ∧ r = Request.slot (last_reqs (w_reqs w)) ∧
      r_conn_id (Request.req_at (w_reqs w') r) = c ∧
      r_target (Request.req_at (w_reqs w') r) = target (conn_at w c) ∧
      curr_cmd (Request.req_at (w_reqs w') r) = NULL ∧ w_mem w' = w_mem w ∧
      (∀ i, i ≠ r → same_but_links (Request.req_at (w_reqs w) i) (Request.req_at (w_reqs w') i)) ∧
      (r ∉ l) ∧ req_id (Request.req_at (w_reqs w') r) = last_reqs (w_reqs w) ∧
      w' = set_conn (set_reqs w (w_reqs w')) c (with_req_list (conn_at w c) (Some r))
  | Ret (w', None) => linked (w_reqs w') l ∧ w_conns w' = w_conns w ∧ w_mem w' = w_mem w ∧
      req_id (Request.req_at (w_reqs w) (Request.slot (last_reqs (w_reqs w)))) ≠ -1
  | Stop _ => False
  end.
Proof.
  intros Hc W L Hhead Hused. unfold conn_req_add.
  pose proof (alloc_spec (w_reqs w) W) as [A _].
  destruct (Request.req_alloc (w_reqs w)) as [st [r|]].
  2: { destruct A as [A0 A]. split_and!; [|done..]. apply (linked_ext (w_reqs w)); [done|].
       intros i _. by rewrite A. }
  destruct A as (Er & Efree & W1 & Eid & Ecmd & _ & Eprev & _ & Ho).
  assert (Hr : r ∉ l) by (intros Hin; by apply (Hused r)).
  rewrite get_conn_ok by done. obind. rewrite Hhead.
  set (st1 := Request.upd st r _).
  set (st2 := match l !! 0%nat with Some n => _ | None => st1 end).
  assert (E1 : ∀ i, i ≠ r → Request.req_at st1 i = Request.req_at (w_reqs w) i).
  { intros i Hi. unfold st1. rewrite req_at_upd, decide_False by done. by apply Ho. }
  assert (E2 : ∀ i, Request.req_at st2 i =
    if decide (l !! 0%nat = Some i) then set_links (Request.req_at st1 i) (Some r) (next (Request.req_at st1 i))
    else Request.req_at st1 i).
  { intros i. unfold st2. destruct (l !! 0%nat) as [n|]; [|done]. rewrite req_at_upd.
    destruct (decide (n = i)) as [->|]; [by rewrite decide_True|by rewrite decide_False by congruence]. }
  assert (E2r : Request.req_at st2 r = Request.req_at st1 r).
  { rewrite E2, decide_False; [done|]. intros X. by apply Hr, (list_elem_of_lookup_2 _ 0). }
  assert (E1r : Request.req_at st1 r = set_links (set_owner (Request.req_at st r) c (target (conn_at w c)))
                  (prev (Request.req_at st r)) (l !! 0%nat)).
  { unfold st1. by rewrite req_at_upd, decide_True. }
  assert (Hsame : ∀ i, i ≠ r → same_but_links (Request.req_at (w_reqs w) i) (Request.req_at st2 i)).
  { intros i Hi. rewrite E2, E1 by done. case_decide; by split_and!. }
  assert (Hids : ∀ i, req_id (Request.req_at st2 i) = req_id (Request.req_at st i)).
  { intros i. destruct (decide (i = r)) as [->|Hi]; [by rewrite E2r, E1r|].
    destruct (Hsame i Hi) as (-> & _). by rewrite Ho. }
  cbn [w_reqs set_conn set_reqs w_mem]. split_and!.
  - apply (linked_cons (w_reqs w)); [done|done|by rewrite E2r, E1r| |].
    + rewrite E2r, E1r. cbn [prev set_links]. by rewrite Eprev.
    + intros i Hi. rewrite E2, E1 by done. by case_decide.
  - by rewrite conn_at_set, decide_True.
  - intros i. rewrite Hids. apply W1.
  - done.
  - by rewrite E2r, E1r.
  - by rewrite E2r, E1r.
  - by rewrite E2r, E1r.
  - done.
  - done.
  - done.
  - by rewrite E2r, E1r.
  - done.
Qed.

(** A new request of a connection goes to the head of its list: the
    list stays linked both ways, the request belongs to the connection and to
    its current peer, has no message yet, and every other request keeps its
    message, its owner and its id. When the slot of the next id is taken, NULL
    is returned and the list is as it was. *)
Theorem conn_req_add_links (w : world) (c : Z) (l : list Z) :
  0 ≤ c < MAX_CONNS → ids_wf (w_reqs w) → linked (w_reqs w) l →
  req_list (conn_at w c) = l !! 0%nat →
  (∀ i, i ∈ l → req_id (Request.req_at (w_reqs w) i) ≠ -1) →
  match conn_req_add w c with
  | Ret (w', Some r) => linked (w_reqs w') (r :: l) ∧ req_list (conn_at w' c) = Some r ∧
      ids_wf (w_reqs w') ∧ r = Request.slot (last_reqs (w_reqs w)) ∧
      r_conn_id (Request.req_at (w_reqs w') r) = c ∧
      r_target (Request.req_at (w_reqs w') r) = target (conn_at w c) ∧
      curr_cmd (Request.req_at (w_reqs w') r) = NULL ∧ w_mem w' = w_mem w ∧
      (∀ i, i ≠ r → same_but_links (Request.req_at (w_reqs w) i) (Request.req_at (w_reqs w') i))
  | Ret (w', None) => linked (w_reqs w') l ∧ w_conns w' = w_conns w ∧ w_mem w' = w_mem w
  | Stop _ => False
  end.
Proof.
  intros Hc W L Hhead Hused. pose proof (req_add_spec w c l Hc W L Hhead Hused) as X.
  destruct (conn_req_add w c) as [[w' [r|]]|]; tauto.
Qed.

Lemma conn_req_add_links_witness :
  linked (w_reqs world_reqs) [1; 0] ∧
  ∃ w', conn_req_add world_reqs 0 = Ret (w', Some 2) ∧ linked (w_reqs w') [2; 1; 0].
Proof.
  split; [exact world_reqs_linked|].
  pose proof (conn_req_add_links world_reqs 0 [1; 0]) as H.
  destruct (conn_req_add world_reqs 0) as [[w' o]|s] eqn:E; [|vm_compute in E; discriminate].
  assert (o = Some 2) as ->.
  { apply (f_equal (fun x => match x with Ret (_, o) => o | _ => None end)) in E.
    vm_compute in E. symmetry. exact E. }
  exists w'. split; [reflexivity|]. apply H.
  - unfold MAX_CONNS. lia.
  - exact world_reqs_ids.
  - exact world_reqs_linked.
  - vm_compute. reflexivity.
  - intros i Hi. set_unfold in Hi. destruct Hi as [->|[->|[]]]; vm_compute; discriminate.
Defined.

(** Freeing a connection releases its requests and its buffers, but
    leaves the head of its list of requests: when the slot is handed out again
    the new connection starts with a list whose first entry was released and
    may by then belong to any other connection, and the first request of the
    new connection is linked in front of it. *)
Theorem recycled_req_list (w : world) (c r rb sb : Z) (l : list Z) (self s p : Z) (t : sockaddr_in) :
  0 ≤ c < MAX_CONNS → linked (w_reqs w) (r :: l) → req_list (conn_at w c) = Some r →
  Z.of_nat (length (r :: l)) ≤ MAX_REQS →
  recv_buf (rx (conn_at w c)) = Ptr rb 0 → send_buf (tx (conn_at w c)) = Ptr sb 0 → rb ≠ sb →
  is_Some (blocks (w_mem w) !! rb) → is_Some (blocks (w_mem w) !! sb) →
  (∀ j, 0 ≤ j < c → busy (conn_at w j) ≠ 0) →
  ∃ w1, conn_free w c = Ret w1 ∧ busy (conn_at w1 c) = 0 ∧ sock (conn_at w1 c) = -1 ∧
    blocks (w_mem w1) !! rb = None ∧ blocks (w_mem w1) !! sb = None ∧
    (∀ i, i ∈ r :: l → req_id (Request.req_at (w_reqs w1) i) = -1) ∧
    ∀ w2 i, conn_alloc w1 self true true s t p = Ret (w2, i) →
      i = c ∧ req_list (conn_at w2 c) = Some r.
Proof.
  intros Hc L Hhead Hlen Erb Esb Hne [x Hx] [y Hy] Hlow.
  destruct (reset_linked w c (r :: l) Hc L Hhead Hlen) as (st' & E & Hin & _).
  unfold conn_free. replace (c <? 0) with false by lia. rewrite E. obind.
  rewrite get_conn_ok by done. obind. rewrite !conn_at_set_reqs, Erb, Esb.
  cbn [mem_free w_mem set_reqs]. rewrite Hx. cbn [Z.eqb mbind outcome_bind mem_free blocks].
  rewrite lookup_delete_ne, Hy by done. cbn [Z.eqb mbind outcome_bind].
  eexists. split; [reflexivity|].
  rewrite !conn_at_set, decide_True by done. cbn [w_reqs w_mem set_conn set_mem set_reqs blocks].
  split_and!; try done.
  - by rewrite lookup_delete_ne, lookup_delete_eq by done.
  - by rewrite lookup_delete_eq.
  - intros i Hi. by apply Hin.
  - intros w2 i. set (w1 := set_conn _ c _).
    assert (Ebusy : busy (conn_at w1 c) = 0) by (unfold w1; by rewrite conn_at_set, decide_True).
    assert (Elist : req_list (conn_at w1 c) = Some r).
    { unfold w1. rewrite conn_at_set, decide_True by done. done. }
    assert (Eff : first_free w1 = c).
    { destruct (first_free_spec w1) as [(Hf & Hb & Hl)|[_ Hall]].
      - destruct (decide (first_free w1 < c)) as [Hlt|Hge].
        + destruct (Hlow (first_free w1)); [lia|]. unfold w1 in Hb at 1.
          by rewrite conn_at_set, decide_False in Hb by lia.
        + destruct (decide (c < first_free w1)); [|lia]. by destruct (Hl c); [lia|].
      - by destruct (Hall c). }
    clearbody w1. unfold conn_alloc. rewrite Eff, (proj2 (Z.eqb_neq c (-1))) by lia.
    cbn [andb negb]. destruct (mem_calloc _ _) as [h1 p1]. destruct (mem_calloc h1 _) as [h2 p2].
    intros H. inv_ret. split; [done|]. rewrite conn_at_set, decide_True by done. cbn [req_list].
    by rewrite conn_at_set, decide_True.
Qed.

Lemma recycled_req_list_witness :
  ∃ w1, conn_free world_reqs 0 = Ret w1 ∧
    (∀ i, i ∈ [1; 0] → req_id (Request.req_at (w_reqs w1) i) = -1) ∧
    ∀ w2 i, conn_alloc w1 1 true true 6 addr1 TCP = Ret (w2, i) →
      i = 0 ∧ req_list (conn_at w2 0) = Some 1.
Proof.
  destruct (recycled_req_list world_reqs 0 1 0 1 [0] 1 6 TCP addr1)
    as (w1 & E & _ & _ & _ & _ & Hr & Ha).
  - unfold MAX_CONNS. lia.
  - exact world_reqs_linked.
  - vm_compute. reflexivity.
  - vm_compute. discriminate.
  - vm_compute. reflexivity.
  - vm_compute. reflexivity.
  - discriminate.
  - eexists. vm_compute. reflexivity.
  - eexists. vm_compute. reflexivity.
  - lia.
  - exists w1. split; [exact E|split; [exact Hr|exact Ha]].
Defined.

(** A lookup returns the lowest entry in use that fits: for TCP one
    with the same peer and protocol, for UDP any of the calling thread's (also
    a TCP one), never a listening socket, for TLS none at all; -1 exactly when
    there is none. *)
Theorem conn_find_existing_first (w : world) (self p : Z) (t : sockaddr_in) :
  let fits (i : Z) := let c := conn_at w i in
    (p = DPDK ∧ c_proto c = DPDK ∧ parent_thread c = self) ∨
    (sock c ≠ -1 ∧ is_listen c = 0 ∧
     ((p = UDP ∧ parent_thread c = self) ∨ (p = TCP ∧ target c = t ∧ c_proto c = TCP))) in
  let r := conn_find_existing w self t p in
  (0 ≤ r < MAX_CONNS ∧ fits r ∧ ∀ j, 0 ≤ j < r → ¬ fits j) ∨
  (r = -1 ∧ ∀ j, 0 ≤ j < MAX_CONNS → ¬ fits j).
Proof.
  intros fits r.
  assert (H : ∀ i, conn_matches self t p (conn_at w i) = true ↔ fits i) by (intros i; apply conn_matches_spec).
  assert (H' : ∀ i, conn_matches self t p (conn_at w i) = false → ¬ fits i).
  { intros i E F. apply H in F. congruence. }
  unfold r, conn_find_existing. clear r.
  pose proof (find_conn_spec (conn_matches self t p) w) as S.
  remember (find_conn (conn_matches self t p) w) as r eqn:Er. clear Er.
  destruct S as [(Hr & Hm & Hl)|[E Hall]].
  - left. split; [exact Hr|]. split; [by apply H|]. intros j Hj. by apply H', Hl.
  - right. split; [exact E|]. intros j Hj. by apply H', Hall.
Qed.

(** The TLS states: enabling TLS on a connection with a socket puts it
    in SSL_HANDSHAKE exactly when OpenSSL gives a handle and accepts the
    socket, a handshake that completes makes it READY, one that would block or
    fails leaves it there, nothing is received before it completes, and after
    a failed enable the connection still is a plain one. *)
Theorem tls_states (w : world) (c : Z) (new : option Z) (set_fd : bool) (server : Z)
    (a : ssl_ret) (la : ssl_recv_ret) :
  0 ≤ c < MAX_CONNS → use_ssl (c_ssl (conn_at w c)) = 0 → 0 ≤ sock (conn_at w c) →
  ∃ w1 rv, conn_enable_ssl w c new set_fd server = Ret (w1, rv) ∧
    (rv = 1 ↔ is_Some new ∧ set_fd = true) ∧
    (rv ≠ 1 → rv = -1 ∧ use_ssl (c_ssl (conn_at w1 c)) = 0 ∧
       status (conn_at w1 c) = status (conn_at w c)) ∧
    (rv = 1 → status (conn_at w1 c) = SSL_HANDSHAKE ∧ use_ssl (c_ssl (conn_at w1 c)) = 1 ∧
       conn_ssl_recv w1 c la = Ret (w1, 1) ∧
       ∃ w2 rv2, conn_do_ssl_handshake w1 c a = Ret (w2, rv2) ∧
         (rv2 = 1 ↔ 0 < l_ret a) ∧
         (0 < l_ret a → status (conn_at w2 c) = READY ∧ ssl_handshake_done (c_ssl (conn_at w2 c)) = 1) ∧
         (l_ret a ≤ 0 → w2 = w1)).
Proof.
  intros Hc Hs Hk. unfold conn_enable_ssl.
  replace ((c <? 0) || (MAX_CONNS <=? c)) with false by lia. rewrite get_conn_ok by done. obind.
  replace (sock (conn_at w c) <? 0) with false by lia. rewrite Hs. cbn [Z.eqb negb].
  destruct new as [h|]; [destruct set_fd; cbn [negb]|].
  - eexists _, _. split; [reflexivity|]. split; [naive_solver|]. split; [done|]. intros _.
    rewrite !conn_at_set, decide_True by done. split_and!; try done.
    + unfold conn_ssl_recv. rewrite get_conn_ok by done. obind.
      by rewrite conn_at_set, decide_True.
    + unfold conn_do_ssl_handshake. rewrite get_conn_ok by done. obind.
      rewrite conn_at_set, decide_True by done. cbn [status with_status bool_decide negb].
      destruct (Z.leb_spec (l_ret a) 0).
      * destruct (l_err a); eexists _, _; (split; [reflexivity|]; split; [lia|split; [intros; lia|done]]).
      * eexists _, _. split; [reflexivity|]. rewrite !conn_at_set, !decide_True by done.
        split; [lia|split; [done|intros; lia]].
  - eexists _, _. split; [reflexivity|]. rewrite !conn_at_set, !decide_True by done.
    split_and!; naive_solver.
  - eexists _, _. split; [reflexivity|]. rewrite !conn_at_set, !decide_True by done.
    split_and!; naive_solver.
Qed.

Lemma tls_states_witness :
  ∃ w1, conn_enable_ssl world1 0 (Some 77) true 0 = Ret (w1, 1) ∧
    status (conn_at w1 0) = SSL_HANDSHAKE.
Proof.
  destruct (tls_states world1 0 (Some 77) true 0 (SslRet 1 SSL_ERROR_OTHER) (SslReceived [1]))
    as (w1 & rv & E & Hi & _ & Hs);
    [unfold MAX_CONNS; lia|vm_compute; reflexivity|vm_compute; discriminate|].
  assert (rv = 1) as -> by (apply Hi; split; [eexists; reflexivity|reflexivity]).
  exists w1. split; [exact E|]. apply Hs. reflexivity.
Defined.
