(* ===== verification/Poll.v ===== *)
(** * Event polling (src/src/dw_poll.h, dw_poll.c)

    One interface over select(), poll() and epoll: the first two keep the
    monitored descriptors in arrays of the program, of which the model keeps
    the used part as a list; for epoll the kernel keeps them, and the model
    gives the requests issued with epoll_ctl(). What the kernel answers to a
    wait (the number of ready descriptors, the sets, the revents, the events) is
    an argument. The flags of a [dw_poll_flags] are bits of an integer. *)


From S2P Require Import Prelude.

Local Open Scope Z_scope.

Definition MAX_POLLFD : Z := 8192.
Definition DW_POLLIN : Z := 1.
Definition DW_POLLOUT : Z := 4.
Definition DW_POLLERR : Z := 8.
Definition DW_POLLHUP : Z := 16.
Definition DW_POLLONESHOT : Z := 2 ^ 30.
(** an [fd_set] holds the descriptors below FD_SETSIZE *)
Definition FD_SETSIZE : Z := 1024.

(** [flags & f] as a condition; [flags & ~DW_POLLONESHOT] *)
Definition has (flags f : Z) : bool := negb (Z.land flags f =? 0).
Definition clear_oneshot (flags : Z) : Z := Z.ldiff flags DW_POLLONESHOT.

(** an entry of rd_fd/rd_aux/rd_flags (or wr_...) *)
Record sel_fd := SelFd { s_fd : Z; s_aux : Z; s_flags : Z }.
(** an entry of pollfds/aux/flags *)
Record poll_fd := PollFd { p_fd : Z; p_events : Z; p_revents : Z; p_aux : Z; p_flags : Z }.
Record epoll_ev := EpollEv { ev_events : Z; ev_data : Z }.

#[export] Instance poll_fd_eq_dec : EqDecision poll_fd.
Proof. solve_decision. Defined.
#[export] Instance sel_fd_eq_dec : EqDecision sel_fd.
Proof. solve_decision. Defined.

Record select_fds := MkSelect {
  rd : list sel_fd;
  wr : list sel_fd;
  rd_fds : list Z;
  wr_fds : list Z;
  sel_iter : Z
}.
Record poll_fds := MkPoll { pollfds : list poll_fd; poll_iter : Z }.
Record epoll_fds := MkEpoll { epollfd : Z; events : list epoll_ev; epoll_iter : Z }.

Inductive backend :=
  | Select (s : select_fds)
  | Poll (p : poll_fds)
  | Epoll (e : epoll_fds).
Record dw_poll_t := MkDwPoll { use_spinning : Z; u : backend }.

(** the requests to epoll_ctl: for a descriptor, the events and the data *)
Inductive epoll_ctl :=
  | CTL_ADD (fd events data : Z)
  | CTL_MOD (fd events data : Z)
  | CTL_DEL (fd : Z).

Module DwPoll.

(** [dw_poll_type_t]; [epoll_create1()] gives [epfd], -1 when it fails; the
    fields that are not set are those of an object with no entries *)
Inductive dw_poll_type_t := DW_SELECT | DW_POLL | DW_EPOLL.
Definition dw_poll_init (type : dw_poll_type_t) (spin epfd : Z) : outcome dw_poll_t :=
  match type with
  | DW_SELECT => Ret (MkDwPoll spin (Select (MkSelect [] [] [] [] 0)))
  | DW_POLL => Ret (MkDwPoll spin (Poll (MkPoll [] 0)))
  | DW_EPOLL => _ ← check (0 <=? epfd); Ret (MkDwPoll spin (Epoll (MkEpoll epfd [] 0)))
  end.

(** dw_select_del_rd_pos, dw_select_del_wr_pos, dw_poll_del_pos: the last entry
    takes the place of the i-th *)
Definition del_pos {A} (l : list A) (i : Z) : list A :=
  let n := (length l - 1)%nat in
  match l !! n with
  | Some x => if i <? Z.of_nat n then take n (<[Z.to_nat i := x]> l) else take n l
  | None => l
  end.

(** dw_select_add_rd, dw_select_add_wr: no bound is checked *)
Definition select_add (l : list sel_fd) (fd flags aux : Z) : outcome (list sel_fd) :=
  if Z.of_nat (length l) <? MAX_POLLFD then Ret (l ++ [SelFd fd aux flags]) else Stop UB.

(** the events of a [pollfd] or of an [epoll_event] *)
Definition in_out (flags : Z) : Z :=
  Z.lor (if has flags DW_POLLIN then 1 else 0) (if has flags DW_POLLOUT then 4 else 0).

(** [rv]: what epoll_ctl returns *)
Definition dw_poll_add (p : dw_poll_t) (fd flags aux rv : Z)
    : outcome (dw_poll_t * Z * option epoll_ctl) :=
  match u p with
  | Select s =>
      if (has flags DW_POLLIN && (Z.of_nat (length (rd s)) =? MAX_POLLFD))
         || (has flags DW_POLLOUT && (Z.of_nat (length (wr s)) =? MAX_POLLFD))
      then Ret (p, -1, None)
      else
        r ← (if has flags DW_POLLIN then select_add (rd s) fd flags aux else Ret (rd s));
        w ← (if has flags DW_POLLOUT then select_add (wr s) fd flags aux else Ret (wr s));
        Ret (MkDwPoll (use_spinning p)
               (Select (MkSelect r w (rd_fds s) (wr_fds s) (sel_iter s))), 0, None)
  | Poll q =>
      if Z.of_nat (length (pollfds q)) =? MAX_POLLFD then Ret (p, -1, None)
      else Ret (MkDwPoll (use_spinning p)
             (Poll (MkPoll (pollfds q ++ [PollFd fd (in_out flags) 0 aux flags]) (poll_iter q))),
             0, None)
  | Epoll e =>
      let ev := Z.lor (in_out flags) (if has flags DW_POLLONESHOT then 2 ^ 30 else 0) in
      Ret (p, rv, Some (CTL_ADD fd ev aux))
  end.

(** the index of the first entry of [fd], or the number of entries *)
Fixpoint find_fd {A} (f : A → Z) (l : list A) (fd : Z) : Z :=
  match l with
  | [] => 0
  | e :: l => if f e =? fd then 0 else 1 + find_fd f l fd
  end.

(** one of the two halves of dw_poll_mod for select() *)
Definition select_mod (l : list sel_fd) (fd flags aux : Z) (want : bool) : outcome (list sel_fd) :=
  let i := find_fd s_fd l fd in
  let n := Z.of_nat (length l) in
  if (i <? n) && negb want then Ret (del_pos l i)
  else if (i =? n) && want then select_add l fd flags aux
  else if (i <? n) && want then
    Ret (<[Z.to_nat i := SelFd fd aux (clear_oneshot flags)]> l)
  else Ret l.

Definition dw_poll_mod (p : dw_poll_t) (fd flags aux rv : Z)
    : outcome (dw_poll_t * Z * option epoll_ctl) :=
  match u p with
  | Select s =>
      r ← select_mod (rd s) fd flags aux (has flags DW_POLLIN);
      w ← select_mod (wr s) fd flags aux (has flags DW_POLLOUT);
      Ret (MkDwPoll (use_spinning p)
             (Select (MkSelect r w (rd_fds s) (wr_fds s) (sel_iter s))), 0, None)
  | Poll q =>
      let l := pollfds q in
      let i := find_fd p_fd l fd in
      let ev := in_out flags in
      let l' :=
        match l !! Z.to_nat i with
        | Some e =>
            if ev =? 0 then del_pos l i
            else <[Z.to_nat i := PollFd (p_fd e) ev (p_revents e) aux (clear_oneshot flags)]> l
        | None => l
        end in
      let p' := MkDwPoll (use_spinning p) (Poll (MkPoll l' (poll_iter q))) in
      if (i =? Z.of_nat (length l')) && negb (flags =? 0) then dw_poll_add p' fd flags aux rv
      else Ret (p', 0, None)
  | Epoll e =>
      Ret (p, rv, Some (if has flags (Z.lor DW_POLLIN DW_POLLOUT)
                        then CTL_MOD fd (in_out flags) aux else CTL_DEL fd))
  end.

Definition dw_poll_del (p : dw_poll_t) (fd rv : Z) : outcome (dw_poll_t * Z * option epoll_ctl) :=
  dw_poll_mod p fd 0 0 rv.

(** FD_SET, FD_ISSET: the set is a fixed array of bits *)
Definition FD_SET (fd : Z) (set : list Z) : outcome (list Z) :=
  if (0 <=? fd) && (fd <? FD_SETSIZE) then Ret (fd :: set) else Stop UB.
Definition FD_ISSET (fd : Z) (set : list Z) : outcome bool :=
  if (0 <=? fd) && (fd <? FD_SETSIZE) then Ret (bool_decide (fd ∈ set)) else Stop UB.

Fixpoint fd_set_of (l : list sel_fd) (set : list Z) : outcome (list Z) :=
  match l with
  | [] => Ret set
  | e :: l => set ← FD_SET (s_fd e) set; fd_set_of l set
  end.
(** the largest descriptor, 0 at least *)
Definition max_fd (l : list sel_fd) (m : Z) : Z :=
  foldl (fun m e => if m <? s_fd e then s_fd e else m) m l.

(** The kernel's answer to a wait: the value returned, and for select() the
    sets, for poll() the revents of the entries in order, for epoll the events. *)
Inductive wait_ret :=
  | SelectRet (rv : Z) (rd_set wr_set : list Z)
  | PollRet (rv : Z) (revents : list Z)
  | EpollRet (rv : Z) (evs : list epoll_ev).

Fixpoint set_revents (l : list poll_fd) (r : list Z) : list poll_fd :=
  match l, r with
  | e :: l, x :: r => PollFd (p_fd e) (p_events e) x (p_aux e) (p_flags e) :: set_revents l r
  | l, _ => l
  end.

(** The sets given to select() with the highest descriptor, then its answer.
    An answer of another kind of wait is no answer. *)
Definition dw_poll_wait (p : dw_poll_t) (answer : wait_ret) : outcome (dw_poll_t * Z) :=
  match u p, answer with
  | Select s, SelectRet rv rs ws =>
      _ ← fd_set_of (rd s) [];
      _ ← fd_set_of (wr s) [];
      let it := if 0 <? rv then 0 else Z.of_nat (length (rd s)) + Z.of_nat (length (wr s)) in
      Ret (MkDwPoll (use_spinning p) (Select (MkSelect (rd s) (wr s) rs ws it)), rv)
  | Poll q, PollRet rv revs =>
      let it := if 0 <? rv then 0 else Z.of_nat (length (pollfds q)) in
      Ret (MkDwPoll (use_spinning p) (Poll (MkPoll (set_revents (pollfds q) revs) it)), rv)
  | Epoll e, EpollRet rv evs =>
      let l := if 0 <=? rv then take (Z.to_nat rv) evs else events e in
      Ret (MkDwPoll (use_spinning p) (Epoll (MkEpoll (epollfd e) l 0)), rv)
  | _, _ => Stop OutOfFuel
  end.

(** the [while (iter < n && !FD_ISSET(...)) iter++] of dw_poll_next, over the
    entries [l] from index [i] on *)
Fixpoint skip_unset (fuel : nat) (l : list sel_fd) (set : list Z) (i : Z) : outcome Z :=
  match fuel with
  | O => Stop OutOfFuel
  | S fuel =>
      if i <? Z.of_nat (length l) then
        e ← arr_get l i;
        b ← FD_ISSET (s_fd e) set;
        if (b : bool) then Ret i else skip_unset fuel l set (i + 1)
      else Ret i
  end.
(** the same for poll(): [revents == 0] *)
Fixpoint skip_idle (fuel : nat) (l : list poll_fd) (i : Z) : outcome Z :=
  match fuel with
  | O => Stop OutOfFuel
  | S fuel =>
      if i <? Z.of_nat (length l) then
        e ← arr_get l i;
        if negb (p_revents e =? 0) then Ret i else skip_idle fuel l (i + 1)
      else Ret i
  end.

(** the DW_POLL flags of revents, bit by bit *)
Definition flags_of (ev : Z) : Z :=
  Z.lor (Z.lor (Z.lor (if has ev 1 then DW_POLLIN else 0) (if has ev 4 then DW_POLLOUT else 0))
    (if has ev 8 then DW_POLLERR else 0)) (if has ev 16 then DW_POLLHUP else 0).

(** the next ready descriptor: its flags and its data, or [None] (return 0) *)
Definition dw_poll_next (p : dw_poll_t) : outcome (dw_poll_t * option (Z * Z)) :=
  match u p with
  | Select s =>
      let put s := MkDwPoll (use_spinning p) (Select s) in
      i ← skip_unset (S (length (rd s))) (rd s) (rd_fds s) (sel_iter s);
      if i <? Z.of_nat (length (rd s)) then
        e ← arr_get (rd s) i;
        let '(l, i) := if has (s_flags e) DW_POLLONESHOT then (del_pos (rd s) i, i)
                       else (rd s, i + 1) in
        Ret (put (MkSelect l (wr s) (rd_fds s) (wr_fds s) i), Some (DW_POLLIN, s_aux e))
      else
        let n_rd := Z.of_nat (length (rd s)) in
        j ← skip_unset (S (length (wr s))) (wr s) (wr_fds s) (i - n_rd);
        if j <? Z.of_nat (length (wr s)) then
          e ← arr_get (wr s) j;
          let '(l, j) := if has (s_flags e) DW_POLLONESHOT then (del_pos (wr s) j, j)
                         else (wr s, j + 1) in
          Ret (put (MkSelect (rd s) l (rd_fds s) (wr_fds s) (n_rd + j)), Some (DW_POLLOUT, s_aux e))
        else Ret (put (MkSelect (rd s) (wr s) (rd_fds s) (wr_fds s) (n_rd + j)), None)
  | Poll q =>
      let put q := MkDwPoll (use_spinning p) (Poll q) in
      let l := pollfds q in
      i ← skip_idle (S (length l)) l (poll_iter q);
      if i <? Z.of_nat (length l) then
        e ← arr_get l i;
        let '(l, i) := if has (p_flags e) DW_POLLONESHOT then (del_pos l i, i) else (l, i + 1) in
        Ret (put (MkPoll l i), Some (flags_of (p_revents e), p_aux e))
      else Ret (put (MkPoll l i), None)
  | Epoll e =>
      match events e !! Z.to_nat (epoll_iter e) with
      | Some ev =>
          if negb (ev_events ev =? 0) then
            Ret (MkDwPoll (use_spinning p)
                   (Epoll (MkEpoll (epollfd e) (events e) (epoll_iter e + 1))),
                 Some (flags_of (ev_events ev), ev_data ev))
          else Ret (p, None)
      | None => Ret (p, None)
      end
  end.

End DwPoll.

Import DwPoll.

(** ** Specification: removal, search and iteration on lists *)

Section Lists.
Context {A : Type}.
Implicit Types (l : list A) (x e : A).

Lemma del_pos_take l i x : l !! i = Some x → take i (del_pos l (Z.of_nat i)) = take i l.
Proof.
  intros Hi. apply lookup_lt_Some in Hi. unfold del_pos.
  destruct (lookup_lt_is_Some_2 l (length l - 1)) as [y Hy]; [lia|]. rewrite Hy.
  destruct (Z.ltb_spec (Z.of_nat i) (Z.of_nat (length l - 1))); rewrite take_take, Nat.min_l by lia.
  - rewrite Nat2Z.id. by rewrite take_insert_ge by lia.
  - done.
Qed.

Lemma del_pos_perm l i x : l !! i = Some x → l ≡ₚ x :: del_pos l (Z.of_nat i).
Proof.
  intros Hi. pose proof (lookup_lt_Some _ _ _ Hi) as Hlt. unfold del_pos.
  destruct (lookup_lt_is_Some_2 l (length l - 1)) as [y Hy]; [lia|]. rewrite Hy.
  assert (El : l = take (length l - 1) l ++ [y]).
  { rewrite <- (take_drop (length l - 1) l) at 1. f_equal.
    rewrite (drop_S _ y) by done. f_equal. rewrite drop_ge by lia. done. }
  destruct (Z.ltb_spec (Z.of_nat i) (Z.of_nat (length l - 1))) as [H|H].
  - rewrite Nat2Z.id, take_insert_lt by lia. set (l0 := take (length l - 1) l) in *.
    assert (Hi0 : l0 !! i = Some x) by (unfold l0; rewrite lookup_take_lt by lia; done).
    rewrite El at 1. rewrite (insert_take_drop l0) by (eapply lookup_lt_Some; done).
    rewrite <- (take_drop_middle l0 i x Hi0) at 1. rewrite <- app_assoc. cbn [app]. solve_Permutation.
  - assert (i = (length l - 1)%nat) as -> by lia. rewrite Hi in Hy. injection Hy as <-.
    rewrite El at 1. by rewrite (comm (++)).
Qed.

Lemma del_pos_length l i x : l !! i = Some x → length l = S (length (del_pos l (Z.of_nat i))).
Proof. intros Hi. apply (Permutation_length (del_pos_perm l i x Hi)). Qed.

Lemma find_fd_spec (f : A → Z) l fd :
  let i := find_fd f l fd in
  0 ≤ i ≤ Z.of_nat (length l) ∧
  (i < Z.of_nat (length l) → ∃ e, l !! Z.to_nat i = Some e ∧ f e = fd) ∧
  (i = Z.of_nat (length l) → ∀ e, e ∈ l → f e ≠ fd).
Proof.
  induction l as [|x l IH]; cbn [find_fd length].
  - split_and!; [lia..|]. intros _ e He. set_solver.
  - destruct (Z.eqb_spec (f x) fd) as [E|E]; cbv zeta in *.
    + split_and!; [lia..| |lia]. intros _. by exists x.
    + destruct IH as (H1 & H2 & H3). split_and!; [lia..| |].
      * intros H. destruct H2 as (e & He & Ee); [lia|]. exists e.
        replace (Z.to_nat (1 + find_fd f l fd)) with (S (Z.to_nat (find_fd f l fd))) by lia. done.
      * intros H e [->|He]%elem_of_cons; [done|]. apply H3; [lia|done].
Qed.

(** the entry of a descriptor *)
Definition entry (f : A → Z) (l : list A) (fd : Z) : option A := l !! Z.to_nat (find_fd f l fd).

Lemma entry_spec (f : A → Z) l fd : NoDup (f <$> l) →
  ∀ e, entry f l fd = Some e ↔ e ∈ l ∧ f e = fd.
Proof.
  intros Hnd e. destruct (find_fd_spec f l fd) as (H1 & H2 & H3). unfold entry.
  destruct (decide (find_fd f l fd = Z.of_nat (length l))) as [E|E].
  - rewrite lookup_ge_None_2 by lia. split; [done|]. intros [He Ee]. by destruct (H3 E e He).
  - destruct H2 as (e' & He' & Ee'); [lia|]. rewrite He'. split.
    + intros [= <-]. split; [by eapply list_elem_of_lookup_2|done].
    + intros [He Ee]. apply list_elem_of_lookup in He as [j Hj]. f_equal.
      assert (Hj1 : (f <$> l) !! j = Some fd) by (rewrite list_lookup_fmap, Hj; cbn; by rewrite Ee).
      assert (Hj2 : (f <$> l) !! Z.to_nat (find_fd f l fd) = Some fd)
        by (rewrite list_lookup_fmap, He'; cbn; by rewrite Ee').
      rewrite (NoDup_lookup _ _ _ _ Hnd Hj1 Hj2) in Hj. congruence.
Qed.

Lemma entry_None (f : A → Z) l fd :
  entry f l fd = None ↔ find_fd f l fd = Z.of_nat (length l).
Proof.
  destruct (find_fd_spec f l fd) as (H1 & H2 & _). unfold entry. split.
  - intros E. destruct (decide (find_fd f l fd = Z.of_nat (length l))); [done|].
    destruct H2 as (e & He & _); [lia|]. congruence.
  - intros E. apply lookup_ge_None_2. lia.
Qed.

(** the entries still to be returned from index [i] on, and those that will
    remain *)
Variables (ready oneshot : A → bool).
Definition keep (e : A) : bool := negb (ready e && oneshot e).
Definition to_return (l : list A) (i : nat) : list A := filter (fun e => ready e = true) (drop i l).
Definition to_remain (l : list A) (i : nat) : list A :=
  take i l ++ filter (fun e => keep e = true) (drop i l).

Lemma idle_step l i e : l !! i = Some e → ready e = false →
  to_return l i = to_return l (S i) ∧ to_remain l i = to_remain l (S i).
Proof.
  intros Hi Hr. unfold to_return, to_remain. rewrite (drop_S l e i Hi), (take_S_r l i e Hi).
  rewrite !filter_cons, decide_False by (by rewrite Hr).
  rewrite decide_True by (unfold keep; by rewrite Hr). split; [done|].
  by rewrite <- app_assoc.
Qed.

Lemma stay_step l i e : l !! i = Some e → ready e = true → oneshot e = false →
  to_return l i = e :: to_return l (S i) ∧ to_remain l i = to_remain l (S i).
Proof.
  intros Hi Hr Ho. unfold to_return, to_remain. rewrite (drop_S l e i Hi), (take_S_r l i e Hi).
  rewrite !filter_cons, decide_True by done.
  rewrite decide_True by (unfold keep; by rewrite Hr, Ho). split; [done|].
  by rewrite <- app_assoc.
Qed.

Lemma oneshot_step l i e : l !! i = Some e → ready e = true → oneshot e = true →
  to_return l i ≡ₚ e :: to_return (del_pos l (Z.of_nat i)) i ∧
  to_remain l i ≡ₚ to_remain (del_pos l (Z.of_nat i)) i.
Proof.
  intros Hi Hr Ho. pose proof (del_pos_take l i e Hi) as Ht.
  pose proof (del_pos_perm l i e Hi) as Hp. set (l' := del_pos l (Z.of_nat i)) in *.
  assert (Hd : drop i l ≡ₚ e :: drop i l').
  { apply (Permutation_app_inv_l (take i l)). rewrite take_drop.
    rewrite Hp at 1. rewrite <- (take_drop i l') at 1. rewrite Ht.
    by rewrite Permutation_middle. }
  unfold to_return, to_remain. rewrite Ht. split.
  - rewrite Hd, filter_cons, decide_True by done. done.
  - rewrite Hd, filter_cons, decide_False; [done|]. unfold keep. by rewrite Hr, Ho.
Qed.

Lemma all_returned l i : (length l ≤ i)%nat → to_return l i = [] ∧ to_remain l i = l.
Proof.
  intros H. unfold to_return, to_remain. rewrite drop_ge, take_ge by lia.
  split; [done|]. by rewrite app_nil_r.
Qed.
End Lists.

(** ** Iteration over the ready descriptors *)

Definition poll_ready (e : poll_fd) : bool := negb (p_revents e =? 0).
Definition poll_oneshot (e : poll_fd) : bool := has (p_flags e) DW_POLLONESHOT.
Definition sel_ready (set : list Z) (e : sel_fd) : bool := bool_decide (s_fd e ∈ set).
Definition sel_oneshot (e : sel_fd) : bool := has (s_flags e) DW_POLLONESHOT.
Definition in_range (l : list sel_fd) : Prop := Forall (fun e => 0 ≤ s_fd e < FD_SETSIZE) l.

(** dw_poll_next called until it returns 0 *)
Fixpoint iterate_events (fuel : nat) (p : dw_poll_t) : outcome (list (Z * Z) * dw_poll_t) :=
  match fuel with
  | O => Stop OutOfFuel
  | S fuel =>
      '(p, o) ← dw_poll_next p;
      match o with
      | None => Ret ([], p)
      | Some ev => '(l, p) ← iterate_events fuel p; Ret (ev :: l, p)
      end
  end.

Section Iteration.
Implicit Types (l : list poll_fd) (r w : list sel_fd) (set : list Z).

Lemma skip_idle_spec fuel l i : (i ≤ length l)%nat → (length l - i < fuel)%nat →
  ∃ j, skip_idle fuel l (Z.of_nat i) = Ret (Z.of_nat j) ∧ (i ≤ j ≤ length l)%nat ∧
    to_return poll_ready l i = to_return poll_ready l j ∧
    to_remain poll_ready poll_oneshot l i = to_remain poll_ready poll_oneshot l j ∧
    ∀ e, l !! j = Some e → poll_ready e = true.
Proof.
  revert i. induction fuel as [|fuel IH]; intros i Hi Hf; [lia|]. cbn [skip_idle].
  destruct (Z.ltb_spec (Z.of_nat i) (Z.of_nat (length l))) as [H|H].
  - destruct (lookup_lt_is_Some_2 l i) as [e He]; [lia|].
    rewrite (arr_get_Some l _ e) by (lia || by rewrite Nat2Z.id). obind.
    destruct (p_revents e =? 0) eqn:E; cbn [negb].
    + destruct (idle_step poll_ready poll_oneshot l i e He) as [E1 E2]; [unfold poll_ready; by rewrite E|].
      replace (Z.of_nat i + 1) with (Z.of_nat (S i)) by lia.
      destruct (IH (S i)) as (j & -> & ? & ? & ? & ?); [lia..|]. exists j.
      split_and!; [done|lia|lia|congruence|congruence|done].
    + exists i. split_and!; try done. intros e' He'. assert (e' = e) as -> by congruence.
      unfold poll_ready. by rewrite E.
  - exists i. split_and!; try done. intros e He. apply lookup_lt_Some in He. lia.
Qed.

Lemma iterate_poll_spec fuel spin l i : (i ≤ length l)%nat → (length l - i < fuel)%nat →
  ∃ out l' i', iterate_events fuel (MkDwPoll spin (Poll (MkPoll l (Z.of_nat i)))) =
      Ret (out, MkDwPoll spin (Poll (MkPoll l' i'))) ∧
    out ≡ₚ (fun e => (flags_of (p_revents e), p_aux e)) <$> to_return poll_ready l i ∧
    l' ≡ₚ to_remain poll_ready poll_oneshot l i.
Proof.
  revert l i. induction fuel as [|fuel IH]; intros l i Hi Hf; [lia|].
  cbn [iterate_events]. unfold dw_poll_next. cbn [u pollfds poll_iter use_spinning].
  destruct (skip_idle_spec (S (length l)) l i) as (j & E & Hj & E1 & E2 & Hr); [lia..|].
  rewrite E. obind. rewrite E1, E2.
  destruct (Z.ltb_spec (Z.of_nat j) (Z.of_nat (length l))) as [H|H].
  - destruct (lookup_lt_is_Some_2 l j) as [e He]; [lia|].
    rewrite (arr_get_Some l _ e) by (lia || by rewrite Nat2Z.id). obind.
    specialize (Hr e He). destruct (has (p_flags e) DW_POLLONESHOT) eqn:Eo; cbv beta iota zeta; obind.
    + destruct (oneshot_step poll_ready poll_oneshot l j e He Hr Eo) as [P1 P2].
      pose proof (del_pos_length l j e He).
      destruct (IH (del_pos l (Z.of_nat j)) j) as (out & l' & i' & -> & Po & Pl); [lia..|].
      obind. eexists _, l', i'. split; [reflexivity|]. split.
      * rewrite P1, fmap_cons, Po. done.
      * by rewrite Pl, <- P2.
    + destruct (stay_step poll_ready poll_oneshot l j e He Hr Eo) as [P1 P2].
      replace (Z.of_nat j + 1) with (Z.of_nat (S j)) by lia.
      destruct (IH l (S j)) as (out & l' & i' & -> & Po & Pl); [lia..|].
      obind. eexists _, l', i'. split; [reflexivity|]. split.
      * rewrite P1, fmap_cons, Po. done.
      * by rewrite Pl, <- P2.
  - destruct (all_returned poll_ready poll_oneshot l j) as [-> ->]; [lia|].
    obind. by eexists [], l, _.
Qed.

Lemma skip_unset_spec fuel r set i : (i ≤ length r)%nat → (length r - i < fuel)%nat → in_range r →
  ∃ j, skip_unset fuel r set (Z.of_nat i) = Ret (Z.of_nat j) ∧ (i ≤ j ≤ length r)%nat ∧
    to_return (sel_ready set) r i = to_return (sel_ready set) r j ∧
    to_remain (sel_ready set) sel_oneshot r i = to_remain (sel_ready set) sel_oneshot r j ∧
    ∀ e, r !! j = Some e → sel_ready set e = true.
Proof.
  intros Hi Hf Hr. revert i Hi Hf. induction fuel as [|fuel IH]; intros i Hi Hf; [lia|].
  cbn [skip_unset].
  destruct (Z.ltb_spec (Z.of_nat i) (Z.of_nat (length r))) as [H|H].
  - destruct (lookup_lt_is_Some_2 r i) as [e He]; [lia|].
    rewrite (arr_get_Some r _ e) by (lia || by rewrite Nat2Z.id). obind.
    pose proof (Forall_lookup_1 _ _ _ _ Hr He) as Hfd. cbn beta in Hfd. unfold FD_ISSET.
    replace ((0 <=? s_fd e) && (s_fd e <? FD_SETSIZE)) with true by lia. obind.
    fold (sel_ready set e). destruct (sel_ready set e) eqn:E.
    + exists i. split_and!; try done. intros e' He'. by assert (e' = e) as -> by congruence.
    + destruct (idle_step (sel_ready set) sel_oneshot r i e He E) as [E1 E2].
      replace (Z.of_nat i + 1) with (Z.of_nat (S i)) by lia.
      destruct (IH (S i)) as (j & -> & ? & ? & ? & ?); [lia..|]. exists j.
      split_and!; [done|lia|lia|congruence|congruence|done].
  - exists i. split_and!; try done. intros e He. apply lookup_lt_Some in He. lia.
Qed.

Lemma in_range_del r i e : r !! i = Some e → in_range r → in_range (del_pos r (Z.of_nat i)).
Proof.
  intros He Hr. unfold in_range in *. rewrite (del_pos_perm r i e He) in Hr.
  by apply Forall_cons in Hr as [_ Hr].
Qed.

(** phase 2 of dw_poll_next: the writable descriptors *)
Lemma iterate_wr_spec fuel spin r w rs ws j : (j ≤ length w)%nat → (length w - j < fuel)%nat →
  in_range w →
  ∃ out w' i', iterate_events fuel (MkDwPoll spin
      (Select (MkSelect r w rs ws (Z.of_nat (length r) + Z.of_nat j)))) =
      Ret (out, MkDwPoll spin (Select (MkSelect r w' rs ws i'))) ∧
    out ≡ₚ (fun e => (DW_POLLOUT, s_aux e)) <$> to_return (sel_ready ws) w j ∧
    w' ≡ₚ to_remain (sel_ready ws) sel_oneshot w j.
Proof.
  revert w j. induction fuel as [|fuel IH]; intros w j Hj Hf Hw; [lia|].
  cbn [iterate_events]. unfold dw_poll_next. cbn [u rd wr rd_fds wr_fds sel_iter use_spinning].
  cbn [skip_unset]. replace (Z.of_nat (length r) + Z.of_nat j <? Z.of_nat (length r)) with false by lia.
  obind. replace (Z.of_nat (length r) + Z.of_nat j <? Z.of_nat (length r)) with false by lia.
  replace (Z.of_nat (length r) + Z.of_nat j - Z.of_nat (length r)) with (Z.of_nat j) by lia.
  change (match length w with | O => _ | S _ => _ end) with (skip_unset (length w) w ws).
  destruct (skip_unset_spec (S (length w)) w ws j) as (k & E & Hk & E1 & E2 & Hr); [lia..|done|].
  cbn [skip_unset] in E. rewrite E. obind. rewrite E1, E2.
  destruct (Z.ltb_spec (Z.of_nat k) (Z.of_nat (length w))) as [H|H].
  - destruct (lookup_lt_is_Some_2 w k) as [e He]; [lia|].
    rewrite (arr_get_Some w _ e) by (lia || by rewrite Nat2Z.id). obind.
    specialize (Hr e He). destruct (has (s_flags e) DW_POLLONESHOT) eqn:Eo; cbv beta iota zeta; obind.
    + destruct (oneshot_step (sel_ready ws) sel_oneshot w k e He Hr Eo) as [P1 P2].
      pose proof (del_pos_length w k e He).
      destruct (IH (del_pos w (Z.of_nat k)) k) as (out & w' & i' & -> & Po & Pl);
        [lia|lia|by eapply in_range_del|].
      obind. eexists _, w', i'. split; [reflexivity|]. split.
      * rewrite P1, fmap_cons, Po. done.
      * by rewrite Pl, <- P2.
    + destruct (stay_step (sel_ready ws) sel_oneshot w k e He Hr Eo) as [P1 P2].
      replace (Z.of_nat k + 1) with (Z.of_nat (S k)) by lia.
      destruct (IH w (S k)) as (out & w' & i' & -> & Po & Pl); [lia|lia|done|].
      obind. eexists _, w', i'. split; [reflexivity|]. split.
      * rewrite P1, fmap_cons, Po. done.
      * by rewrite Pl, <- P2.
  - destruct (all_returned (sel_ready ws) sel_oneshot w k) as [-> ->]; [lia|].
    obind. by eexists [], w, _.
Qed.

Lemma iterate_select_spec fuel spin r w rs ws i : (i ≤ length r)%nat →
  (length r - i + length w < fuel)%nat → in_range r → in_range w →
  ∃ out r' w' i', iterate_events fuel (MkDwPoll spin (Select (MkSelect r w rs ws (Z.of_nat i)))) =
      Ret (out, MkDwPoll spin (Select (MkSelect r' w' rs ws i'))) ∧
    out ≡ₚ ((fun e => (DW_POLLIN, s_aux e)) <$> to_return (sel_ready rs) r i) ++
           ((fun e => (DW_POLLOUT, s_aux e)) <$> to_return (sel_ready ws) w 0) ∧
    r' ≡ₚ to_remain (sel_ready rs) sel_oneshot r i ∧
    w' ≡ₚ to_remain (sel_ready ws) sel_oneshot w 0.
Proof.
  revert r i. induction fuel as [|fuel IH]; intros r i Hi Hf Hr Hw; [lia|].
  destruct (skip_unset_spec (S (length r)) r rs i) as (k & E & Hk & E1 & E2 & Hrd); [lia..|done|].
  rewrite E1, E2.
  destruct (Z.ltb_spec (Z.of_nat k) (Z.of_nat (length r))) as [H|H].
  - cbn [iterate_events]. unfold dw_poll_next. cbn [u rd wr rd_fds wr_fds sel_iter use_spinning].
    rewrite E. obind. rewrite (proj2 (Z.ltb_lt _ _) H).
    destruct (lookup_lt_is_Some_2 r k) as [e He]; [lia|].
    rewrite (arr_get_Some r _ e) by (lia || by rewrite Nat2Z.id). obind.
    specialize (Hrd e He). destruct (has (s_flags e) DW_POLLONESHOT) eqn:Eo; cbv beta iota zeta; obind.
    + destruct (oneshot_step (sel_ready rs) sel_oneshot r k e He Hrd Eo) as [P1 P2].
      pose proof (del_pos_length r k e He).
      destruct (IH (del_pos r (Z.of_nat k)) k) as (out & r' & w' & i' & -> & Po & Pr & Pw);
        [lia|lia|by eapply in_range_del|done|].
      obind. eexists _, r', w', i'. split; [reflexivity|]. split; [|split; [|done]].
      * by rewrite P1, fmap_cons, Po.
      * by rewrite Pr, <- P2.
    + destruct (stay_step (sel_ready rs) sel_oneshot r k e He Hrd Eo) as [P1 P2].
      replace (Z.of_nat k + 1) with (Z.of_nat (S k)) by lia.
      destruct (IH r (S k)) as (out & r' & w' & i' & -> & Po & Pr & Pw); [lia|lia|done|done|].
      obind. eexists _, r', w', i'. split; [reflexivity|]. split; [|split; [|done]].
      * by rewrite P1, fmap_cons, Po.
      * by rewrite Pr, <- P2.
  - destruct (all_returned (sel_ready rs) sel_oneshot r k) as [-> ->]; [lia|].
    destruct (iterate_wr_spec (S fuel) spin r w rs ws 0) as (out & w' & i' & Ew & Po & Pw); [lia|lia|done|].
    exists out, r, w', i'. split; [|by split_and!]. rewrite <- Ew.
    cbn [iterate_events]. f_equal.
    unfold dw_poll_next. cbn [u rd wr rd_fds wr_fds sel_iter use_spinning]. rewrite E. obind.
    assert (k = length r) as -> by lia. rewrite Z.add_0_r.
    cbn [skip_unset]. rewrite Z.ltb_irrefl. obind. by rewrite Z.ltb_irrefl.
Qed.
End Iteration.

(** ** Monitored descriptors: a map from descriptors to data, for reading and
    for writing, whatever the backend *)

Section Entries.
Context {A : Type} (f : A → Z).
Implicit Types (l : list A) (x e : A) (fd : Z).

Lemma entry_ext l l' fd : NoDup (f <$> l) → NoDup (f <$> l') →
  (∀ e, f e = fd → e ∈ l' ↔ e ∈ l) → entry f l' fd = entry f l fd.
Proof.
  intros H1 H2 H. apply option_eq. intros e. rewrite !entry_spec by done. naive_solver.
Qed.

Lemma entry_del l i e : NoDup (f <$> l) → l !! i = Some e →
  let l' := del_pos l (Z.of_nat i) in
  NoDup (f <$> l') ∧ entry f l' (f e) = None ∧ ∀ fd, fd ≠ f e → entry f l' fd = entry f l fd.
Proof.
  intros Hnd Hi l'. pose proof (del_pos_perm l i e Hi) as P. fold l' in P.
  pose proof Hnd as Hnd'. rewrite P, fmap_cons in Hnd'. apply NoDup_cons in Hnd' as [Hni Hnd'].
  split; [done|]. split.
  - destruct (entry f l' (f e)) as [e'|] eqn:E; [|done].
    apply entry_spec in E as [E1 E2]; [|done]. destruct Hni. rewrite <- E2.
    by apply list_elem_of_fmap_2.
  - intros fd Hfd. apply entry_ext; [done..|]. intros e' <-. rewrite P, elem_of_cons. naive_solver.
Qed.

Lemma entry_snoc l x : NoDup (f <$> l) → entry f l (f x) = None →
  NoDup (f <$> l ++ [x]) ∧ entry f (l ++ [x]) (f x) = Some x ∧
  ∀ fd, fd ≠ f x → entry f (l ++ [x]) fd = entry f l fd.
Proof.
  intros Hnd Hx. rewrite entry_None in Hx.
  destruct (find_fd_spec f l (f x)) as (_ & _ & H3). specialize (H3 Hx).
  assert (Hnd' : NoDup (f <$> l ++ [x])).
  { rewrite fmap_app. apply NoDup_app. split_and!; [done| |apply NoDup_singleton].
    intros y (e & -> & He)%list_elem_of_fmap. cbn. rewrite list_elem_of_singleton. by apply H3. }
  split; [done|]. split.
  - apply entry_spec; [done|]. set_solver.
  - intros fd Hfd. apply entry_ext; [done..|]. intros e <-. set_solver.
Qed.

Lemma entry_update l i e x : NoDup (f <$> l) → l !! i = Some e → f x = f e →
  NoDup (f <$> <[i := x]> l) ∧ entry f (<[i := x]> l) (f e) = Some x ∧
  ∀ fd, fd ≠ f e → entry f (<[i := x]> l) fd = entry f l fd.
Proof.
  intros Hnd Hi Hx. pose proof (lookup_lt_Some _ _ _ Hi) as Hlt.
  assert (Hnd' : NoDup (f <$> <[i := x]> l)).
  { rewrite list_fmap_insert, list_insert_id; [done|]. by rewrite list_lookup_fmap, Hi, Hx. }
  split; [done|]. split.
  - apply entry_spec; [done|]. split; [|done]. by apply list_elem_of_insert.
  - intros fd Hfd. apply entry_ext; [done..|]. intros e' <-. split.
    + intros [j Hj]%list_elem_of_lookup. apply list_lookup_insert_Some in Hj.
      destruct Hj as [(<- & <- & _)|[_ Hj]]; [congruence|by eapply list_elem_of_lookup_2].
    + intros [j Hj]%list_elem_of_lookup. apply (list_elem_of_lookup_2 _ j).
      rewrite list_lookup_insert_ne; [done|]. intros ->. congruence.
Qed.
End Entries.

Definition rd_interest (p : dw_poll_t) (fd : Z) : option Z :=
  match u p with
  | Select s => s_aux <$> entry s_fd (rd s) fd
  | Poll q => e ← entry p_fd (pollfds q) fd; if has (p_events e) 1 then Some (p_aux e) else None
  | Epoll _ => None
  end.
Definition wr_interest (p : dw_poll_t) (fd : Z) : option Z :=
  match u p with
  | Select s => s_aux <$> entry s_fd (wr s) fd
  | Poll q => e ← entry p_fd (pollfds q) fd; if has (p_events e) 4 then Some (p_aux e) else None
  | Epoll _ => None
  end.

(** each descriptor at most once, and room for one more *)
Definition poll_wf (p : dw_poll_t) : Prop :=
  match u p with
  | Select s => NoDup (s_fd <$> rd s) ∧ NoDup (s_fd <$> wr s)
  | Poll q => NoDup (p_fd <$> pollfds q)
  | Epoll _ => False
  end.
Definition poll_room (p : dw_poll_t) : Prop :=
  match u p with
  | Select s => Z.of_nat (length (rd s)) < MAX_POLLFD ∧ Z.of_nat (length (wr s)) < MAX_POLLFD
  | Poll q => Z.of_nat (length (pollfds q)) < MAX_POLLFD
  | Epoll _ => False
  end.

Lemma select_mod_spec l fd flags aux want : NoDup (s_fd <$> l) →
  Z.of_nat (length l) < MAX_POLLFD →
  ∃ l', select_mod l fd flags aux want = Ret l' ∧ NoDup (s_fd <$> l') ∧
    s_aux <$> entry s_fd l' fd = (if want then Some aux else None) ∧
    ∀ fd', fd' ≠ fd → entry s_fd l' fd' = entry s_fd l fd'.
Proof.
  intros Hnd Hroom. unfold select_mod.
  destruct (find_fd_spec s_fd l fd) as (H1 & H2 & H3). set (i := find_fd s_fd l fd) in *.
  destruct (Z.ltb_spec i (Z.of_nat (length l))) as [Hi|Hi].
  - destruct H2 as (e & He & Ee); [done|]. rewrite <- Ee.
    rewrite (proj2 (Z.eqb_neq _ _)) by lia. destruct want; cbn [andb negb].
    + eexists. split; [reflexivity|].
      destruct (entry_update s_fd l (Z.to_nat i) e (SelFd (s_fd e) aux (clear_oneshot flags)) Hnd He eq_refl)
        as (Hn & E1 & E2). split; [done|]. rewrite E1. done.
    + eexists. split; [reflexivity|].
      destruct (entry_del s_fd l (Z.to_nat i) e Hnd He) as (Hn & E1 & E2).
      rewrite Z2Nat.id in * by lia. split; [done|]. by rewrite E1.
  - rewrite (proj2 (Z.eqb_eq _ _)) by lia.
    assert (Hnone : entry s_fd l fd = None) by (apply entry_None; unfold i in *; lia).
    destruct want; cbn [andb negb].
    + unfold select_add. rewrite (proj2 (Z.ltb_lt _ _)) by done.
      eexists. split; [reflexivity|].
      destruct (entry_snoc s_fd l (SelFd fd aux flags) Hnd Hnone) as (Hn & E1 & E2).
      split; [done|]. cbn [s_fd] in *. by rewrite E1.
    + exists l. split_and!; try done. by rewrite Hnone.
Qed.

Lemma in_out_has flags : has (in_out flags) 1 = has flags DW_POLLIN ∧
  has (in_out flags) 4 = has flags DW_POLLOUT ∧
  (in_out flags = 0 ↔ has flags DW_POLLIN = false ∧ has flags DW_POLLOUT = false).
Proof.
  unfold in_out. destruct (has flags DW_POLLIN), (has flags DW_POLLOUT); cbv; naive_solver.
Qed.

Lemma poll_mod_interest spin q fd flags aux rv : NoDup (p_fd <$> pollfds q) →
  Z.of_nat (length (pollfds q)) < MAX_POLLFD →
  ∃ l', dw_poll_mod (MkDwPoll spin (Poll q)) fd flags aux rv =
      Ret (MkDwPoll spin (Poll (MkPoll l' (poll_iter q))), 0, None) ∧ NoDup (p_fd <$> l') ∧
    (∀ e, entry p_fd l' fd = Some e → p_events e = in_out flags ∧ p_aux e = aux) ∧
    (entry p_fd l' fd = None → in_out flags = 0) ∧
    ∀ fd', fd' ≠ fd → entry p_fd l' fd' = entry p_fd (pollfds q) fd'.
Proof.
  intros Hnd Hroom. unfold dw_poll_mod. cbn [u use_spinning].
  set (l := pollfds q) in *.
  destruct (find_fd_spec p_fd l fd) as (H1 & H2 & H3).
  set (i := find_fd p_fd l fd) in *.
  assert (Hadd : ∀ l', NoDup (p_fd <$> l') → entry p_fd l' fd = None →
    Z.of_nat (length l') < MAX_POLLFD →
    (∀ fd', fd' ≠ fd → entry p_fd l' fd' = entry p_fd l fd') →
    ∃ l'', dw_poll_add (MkDwPoll spin (Poll (MkPoll l' (poll_iter q)))) fd flags aux rv =
      Ret (MkDwPoll spin (Poll (MkPoll l'' (poll_iter q))), 0, None) ∧ NoDup (p_fd <$> l'') ∧
    (∀ e, entry p_fd l'' fd = Some e → p_events e = in_out flags ∧ p_aux e = aux) ∧
    (entry p_fd l'' fd = None → in_out flags = 0) ∧
    ∀ fd', fd' ≠ fd → entry p_fd l'' fd' = entry p_fd l fd').
  { intros l' Hn' E' Hr' Ho. unfold dw_poll_add. cbn [u use_spinning pollfds poll_iter].
    rewrite (proj2 (Z.eqb_neq _ _)) by lia. eexists. split; [reflexivity|].
    destruct (entry_snoc p_fd l' (PollFd fd (in_out flags) 0 aux flags) Hn' E') as (Hn & E1 & E2).
    cbn [p_fd] in *. split; [done|]. split; [|split].
    - intros e He. rewrite E1 in He. by injection He as <-.
    - by rewrite E1.
    - intros fd' Hfd. by rewrite E2, Ho. }
  destruct (decide (i < Z.of_nat (length l))) as [Hi|Hi].
  - destruct H2 as (e & He & Ee); [done|]. rewrite He.
    destruct (Z.eqb_spec (in_out flags) 0) as [E0|E0].
    + pose proof (entry_del p_fd l (Z.to_nat i) e Hnd He) as (Hn & E1 & E2).
      pose proof (del_pos_length l (Z.to_nat i) e He). rewrite Z2Nat.id in * by lia. rewrite Ee in *.
      destruct (_ && _); [apply Hadd; (done || lia)|].
      eexists. split; [reflexivity|]. split; [done|]. split; [|done].
      intros e' He'. congruence.
    + rewrite length_insert. rewrite (proj2 (Z.eqb_neq _ _)) by lia. cbn [andb].
      eexists. split; [reflexivity|].
      destruct (entry_update p_fd l (Z.to_nat i) e
        (PollFd (p_fd e) (in_out flags) (p_revents e) aux (clear_oneshot flags)) Hnd He eq_refl)
        as (Hn & E1 & E2). rewrite Ee in *.
      split; [done|]. split; [|split; [congruence|done]].
      intros e' He'. rewrite E1 in He'. by injection He' as <-.
  - rewrite lookup_ge_None_2 by lia. rewrite (proj2 (Z.eqb_eq i _)) by lia. cbn [andb].
    assert (Hnone : entry p_fd l fd = None) by (apply entry_None; unfold i in *; lia).
    destruct (Z.eqb_spec flags 0) as [->|Hf]; cbn [negb]; [|by apply Hadd].
    exists l. split_and!; try done. congruence.
Qed.

(** under epoll the events are returned in order, from the position on *)
Lemma iterate_epoll_spec fuel spin fd evs i : Forall (fun ev => ev_events ev ≠ 0) evs →
  (i ≤ length evs)%nat → (length evs - i < fuel)%nat →
  iterate_events fuel (MkDwPoll spin (Epoll (MkEpoll fd evs (Z.of_nat i)))) =
    Ret ((fun ev => (flags_of (ev_events ev), ev_data ev)) <$> drop i evs,
         MkDwPoll spin (Epoll (MkEpoll fd evs (Z.of_nat (length evs))))).
Proof.
  intros Hev. revert i. induction fuel as [|fuel IH]; intros i Hi Hf; [lia|].
  cbn [iterate_events]. unfold dw_poll_next. cbn [u use_spinning events epoll_iter epollfd].
  rewrite Nat2Z.id. destruct (evs !! i) as [ev|] eqn:He.
  - pose proof (Forall_lookup_1 _ _ _ _ Hev He) as Hz. rewrite (proj2 (Z.eqb_neq _ _) Hz). cbn [negb].
    obind. apply lookup_lt_Some in He as Hlt.
    replace (Z.of_nat i + 1) with (Z.of_nat (S i)) by lia.
    rewrite IH by lia. obind. by rewrite (drop_S _ _ _ He).
  - apply lookup_ge_None_1 in He. assert (i = length evs) as -> by lia. obind. by rewrite drop_ge.
Qed.

(** A failed epoll_wait (a signal) rewinds the position but keeps the events:
    those of the wait before are returned again. *)
Lemma epoll_interrupted_repeats spin fd evs i rv answer : Forall (fun ev => ev_events ev ≠ 0) evs → rv < 0 →
  ∃ p', dw_poll_wait (MkDwPoll spin (Epoll (MkEpoll fd evs i))) (EpollRet rv answer) = Ret (p', rv) ∧
    iterate_events (S (length evs)) p' =
      Ret ((fun ev => (flags_of (ev_events ev), ev_data ev)) <$> evs,
           MkDwPoll spin (Epoll (MkEpoll fd evs (Z.of_nat (length evs))))).
Proof.
  intros Hev Hrv. eexists. unfold dw_poll_wait. cbn [u]. rewrite (proj2 (Z.leb_gt _ _)) by done.
  split; [reflexivity|]. apply (iterate_epoll_spec (S (length evs)) spin fd evs 0); [done|lia|lia].
Qed.

(** ** Properties *)

(** [C34] After a wait that reported n ready descriptors, calling
    dw_poll_next until it returns 0 terminates, returns every ready descriptor
    exactly once with its own data (under select() once for reading and once
    for writing), and leaves monitored exactly those that were not ready or not
    ONESHOT, although entries are removed under the iteration. Under epoll,
    where the kernel keeps the descriptors, the calls after a dw_poll_wait
    return exactly the events epoll_wait gave, once each and in its order, with
    their flags and data, and then 0; an event that epoll_wait gives has a bit
    set. *)
Theorem dw_poll_next_complete (p : dw_poll_t) :
  match u p with
  | Poll q => poll_iter q = 0 → ∃ out l' i',
      iterate_events (S (length (pollfds q))) p =
        Ret (out, MkDwPoll (use_spinning p) (Poll (MkPoll l' i'))) ∧
      out ≡ₚ (fun e => (flags_of (p_revents e), p_aux e)) <$>
        filter (fun e => poll_ready e = true) (pollfds q) ∧
      l' ≡ₚ filter (fun e => keep poll_ready poll_oneshot e = true) (pollfds q)
  | Select s => sel_iter s = 0 → in_range (rd s) → in_range (wr s) → ∃ out r' w' i',
      iterate_events (S (length (rd s) + length (wr s))) p =
        Ret (out, MkDwPoll (use_spinning p) (Select (MkSelect r' w' (rd_fds s) (wr_fds s) i'))) ∧
      out ≡ₚ ((fun e => (DW_POLLIN, s_aux e)) <$>
                filter (fun e => sel_ready (rd_fds s) e = true) (rd s)) ++
             ((fun e => (DW_POLLOUT, s_aux e)) <$>
                filter (fun e => sel_ready (wr_fds s) e = true) (wr s)) ∧
      r' ≡ₚ filter (fun e => keep (sel_ready (rd_fds s)) sel_oneshot e = true) (rd s) ∧
      w' ≡ₚ filter (fun e => keep (sel_ready (wr_fds s)) sel_oneshot e = true) (wr s)
  | Epoll e => ∀ evs, Forall (fun ev => ev_events ev ≠ 0) evs → ∃ p',
      dw_poll_wait p (EpollRet (Z.of_nat (length evs)) evs) = Ret (p', Z.of_nat (length evs)) ∧
      iterate_events (S (length evs)) p' =
        Ret ((fun ev => (flags_of (ev_events ev), ev_data ev)) <$> evs,
             MkDwPoll (use_spinning p)
               (Epoll (MkEpoll (epollfd e) evs (Z.of_nat (length evs)))))
  end.
Proof.
  destruct p as [spin [[r w rs ws it]|[l it]|e]]; cbn [u use_spinning pollfds poll_iter rd wr rd_fds wr_fds sel_iter].
  - intros -> Hr Hw.
    destruct (iterate_select_spec (S (length r + length w)) spin r w rs ws 0)
      as (out & r' & w' & i' & E & Po & Pr & Pw); [lia|lia|done|done|].
    exists out, r', w', i'. by split_and!.
  - intros ->. destruct (iterate_poll_spec (S (length l)) spin l 0) as (out & l' & i' & E & Po & Pl);
      [lia|lia|]. exists out, l', i'. by split_and!.
  - intros evs Hev. eexists. unfold dw_poll_wait. cbn [u].
    rewrite (proj2 (Z.leb_le _ _)), Nat2Z.id, firstn_all by lia. split; [reflexivity|].
    apply (iterate_epoll_spec (S (length evs)) spin (epollfd e) evs 0); [done|lia|lia].
Qed.

(** three descriptors, the first ready and ONESHOT, the last ready *)
Definition poll3 : dw_poll_t := MkDwPoll 0 (Poll (MkPoll
  [PollFd 5 1 1 50 (DW_POLLIN + DW_POLLONESHOT); PollFd 6 1 0 60 DW_POLLIN;
   PollFd 7 4 20 70 DW_POLLOUT] 0)).

(** a node polling with epoll, its last two events consumed *)
Definition epoll2 : dw_poll_t := MkDwPoll 0 (Epoll (MkEpoll 3 [EpollEv 1 8; EpollEv 4 9] 2)).

Lemma dw_poll_next_complete_witness :
  (∃ out l' i', iterate_events 4 poll3 = Ret (out, MkDwPoll 0 (Poll (MkPoll l' i'))) ∧
    out ≡ₚ [(DW_POLLIN, 50); (DW_POLLOUT + DW_POLLHUP, 70)]) ∧
  ∃ p' e', dw_poll_wait epoll2 (EpollRet 3 [EpollEv 1 7; EpollEv 5 8; EpollEv 16 7]) = Ret (p', 3) ∧
    iterate_events 4 p' =
      Ret ([(DW_POLLIN, 7); (DW_POLLIN + DW_POLLOUT, 8); (DW_POLLHUP, 7)], e').
Proof.
  split.
  - destruct (dw_poll_next_complete poll3 eq_refl) as (out & l' & i' & E & P & _).
    exists out, l', i'. split; [exact E|exact P].
  - destruct (dw_poll_next_complete epoll2 [EpollEv 1 7; EpollEv 5 8; EpollEv 16 7]) as (p' & W & E).
    { repeat constructor; discriminate. }
    eexists p', _. split; [exact W|exact E].
Defined.

(** [C35] dw_poll_mod makes select() and poll() keep the same map: afterwards
    the descriptor is monitored for reading, and for writing, exactly as the
    flags say and with the new data, whether it was monitored before or not,
    and no other descriptor is affected. *)
Theorem dw_poll_mod_interest (p : dw_poll_t) (fd flags aux rv : Z) :
  poll_wf p → poll_room p →
  ∃ p', dw_poll_mod p fd flags aux rv = Ret (p', 0, None) ∧ poll_wf p' ∧
    rd_interest p' fd = (if has flags DW_POLLIN then Some aux else None) ∧
    wr_interest p' fd = (if has flags DW_POLLOUT then Some aux else None) ∧
    ∀ fd', fd' ≠ fd → rd_interest p' fd' = rd_interest p fd' ∧ wr_interest p' fd' = wr_interest p fd'.
Proof.
  destruct p as [spin [s|q|e]]; cbn [poll_wf poll_room u]; [| |done].
  - intros [Hr Hw] [Rr Rw]. unfold dw_poll_mod. cbn [u use_spinning].
    destruct (select_mod_spec (rd s) fd flags aux (has flags DW_POLLIN) Hr Rr) as (r' & -> & Hr' & E1 & E2).
    obind.
    destruct (select_mod_spec (wr s) fd flags aux (has flags DW_POLLOUT) Hw Rw) as (w' & -> & Hw' & E3 & E4).
    obind. eexists. split; [reflexivity|]. unfold rd_interest, wr_interest.
    cbn [u rd wr poll_wf]. split; [done|]. split; [done|]. split; [done|].
    intros fd' Hfd. by rewrite E2, E4.
  - intros Hq Rq.
    destruct (poll_mod_interest spin q fd flags aux rv Hq Rq) as (l' & -> & Hn & E1 & E2 & E3).
    eexists. split; [reflexivity|]. unfold rd_interest, wr_interest. cbn [u pollfds poll_wf].
    split; [done|]. destruct (in_out_has flags) as (I1 & I2 & I3).
    destruct (entry p_fd l' fd) as [e|] eqn:Ee; cbn [mbind option_bind].
    + destruct (E1 e eq_refl) as [-> ->]. rewrite I1, I2. split; [done|]. split; [done|].
      intros fd' Hfd. by rewrite E3.
    + destruct (proj1 I3 (E2 eq_refl)) as [-> ->]. split; [done|]. split; [done|].
      intros fd' Hfd. by rewrite E3.
Qed.

Lemma dw_poll_mod_interest_witness :
  ∃ p', dw_poll_mod poll3 6 DW_POLLOUT 61 0 = Ret (p', 0, None) ∧
    rd_interest p' 6 = None ∧ wr_interest p' 6 = Some 61 ∧ rd_interest p' 5 = Some 50.
Proof.
  destruct (dw_poll_mod_interest poll3 6 DW_POLLOUT 61 0) as (p' & E & _ & E1 & E2 & E3).
  - cbn. repeat constructor; set_solver.
  - vm_compute. reflexivity.
  - exists p'. split; [exact E|]. split; [exact E1|]. split; [exact E2|].
    destruct (E3 5 ltac:(discriminate)) as [-> _]. reflexivity.
Defined.

(** Under select() the table of descriptors is larger than what select()
    can monitor: waiting with a descriptor of 1024 or more writes outside the
    fd_set, and monitoring one more descriptor through dw_poll_mod when the
    table is full writes outside the table (dw_poll_add refuses). *)
Theorem select_limits (spin it fd aux : Z) (r : list sel_fd) (rs ws : list Z) (rv : Z) :
  let p := MkDwPoll spin (Select (MkSelect r [] rs ws it)) in
  ((∃ e, e ∈ r ∧ FD_SETSIZE ≤ s_fd e) → dw_poll_wait p (SelectRet rv rs ws) = Stop UB) ∧
  (Z.of_nat (length r) = MAX_POLLFD → entry s_fd r fd = None →
     dw_poll_mod p fd DW_POLLIN aux 0 = Stop UB ∧ dw_poll_add p fd DW_POLLIN aux 0 = Ret (p, -1, None)).
Proof.
  intros p. split.
  - intros (e & He & Hfd). unfold dw_poll_wait, p. cbn [u rd].
    assert (H : ∀ set, fd_set_of r set = Stop UB).
    { induction r as [|x l IH]; intros set; [set_solver|]. cbn [fd_set_of].
      unfold FD_SET. destruct ((0 <=? s_fd x) && (s_fd x <? FD_SETSIZE)) eqn:E; [|done].
      obind. apply elem_of_cons in He as [->|He]; [lia|]. by apply IH. }
    by rewrite H.
  - intros Hl Hn. split.
    + unfold dw_poll_mod, p. cbn [u rd wr]. unfold select_mod. cbv zeta.
      apply entry_None in Hn. rewrite Hn, Z.ltb_irrefl, Z.eqb_refl. cbn [andb negb].
      change (has DW_POLLIN DW_POLLIN) with true. cbn [andb].
      unfold select_add. by rewrite Hl, Z.ltb_irrefl.
    + unfold dw_poll_add, p. cbn [u rd wr]. rewrite Hl, Z.eqb_refl. done.
Qed.

Lemma select_limits_witness :
  dw_poll_wait (MkDwPoll 0 (Select (MkSelect [SelFd 2000 1 DW_POLLIN] [] [] [] 0)))
    (SelectRet 1 [] []) = Stop UB.
Proof.
  apply (select_limits 0 0 0 0 [SelFd 2000 1 DW_POLLIN] [] [] 1).
  exists (SelFd 2000 1 DW_POLLIN). split; [by apply list_elem_of_singleton|vm_compute; discriminate].
Defined.
