(* ===== verification/Ccmd.v ===== *)
(** * The client's chain of commands (src/src/ccmd.h, ccmd.c)

    The commands given on the command line are nodes allocated one by one,
    linked by [next] and also queued in a bounded queue. A [ccmd_node_t *] is
    the number of the node in the store [nodes]. The distributions the sizes
    and times are drawn from are used through the interface [Sampler]: a sample
    is the value truncated as the conversion to an integer does, with the new
    state of the specification (sequences and traces advance) and of the
    generator. *)

From S2P Require Import Prelude Message Queue.

Local Open Scope Z_scope.

(** what ccmd.c needs of distrib.c ([pd_spec_t] and pd_sample) and of
    drand48_r: [coin p r] is whether the number drawn is at most [p->val] *)
Class Sampler (Spec Rng : Type) := {
  pd_sample : Spec → Rng → outcome (Z * Spec * Rng);
  coin : Spec → Rng → bool * Rng;
  pd_zero : Spec
}.

Record ccmd_node_t {Spec : Type} := MkCcmd {
  cmd : command_type_t;
  pd_val : Spec;
  pd_val2 : Spec;
  store : store_opts_t;
  load : load_opts_t;
  fwd : fwd_opts_t;
  resp : reply_opts_t;
  n_skip : Z;
  n_every : Z;
  next : option nat
}.
Arguments ccmd_node_t : clear implicits.
Arguments MkCcmd {Spec}.

(** the options of a command in a message *)
Inductive cmd_opts :=
  | O_store (s : store_opts_t)
  | O_comp (c : comp_opts_t)
  | O_load (l : load_opts_t)
  | O_reply (r : reply_opts_t)
  | O_fwd (f : fwd_opts_t).

Module Ccmd.
Section Ccmd.
Context {Spec Rng : Type} `{Sampler Spec Rng}.
Abbreviation node := (ccmd_node_t Spec).

Record ccmd_t := MkChain { cq : Queue.queue_t; nodes : gmap nat node; fresh : nat }.

Definition node_at (s : ccmd_t) (i : nat) : outcome node := deref (nodes s !! i).
Definition set_node (s : ccmd_t) (i : nat) (n : node) : ccmd_t :=
  MkChain (cq s) (<[i := n]> (nodes s)) (fresh s).
Definition with_next (n : node) (x : option nat) : node :=
  MkCcmd (cmd n) (pd_val n) (pd_val2 n) (store n) (load n) (fwd n) (resp n) (n_skip n) (n_every n) x.
Definition with_specs (n : node) (a b : Spec) : node :=
  MkCcmd (cmd n) a b (store n) (load n) (fwd n) (resp n) (n_skip n) (n_every n) (next n).

(** [queue_node_data(p).ptr] *)
Definition data_ptr (s : ccmd_t) (p : option Z) : outcome (option nat) :=
  n ← Queue.node_of (cq s) p;
  match data n with d_ptr x => Ret x | _ => Stop UB end.
Definition ccmd_first (s : ccmd_t) : outcome (option nat) :=
  if Queue.size (cq s) =? 0 then Ret None else data_ptr s (Queue.queue_head (cq s)).
Definition ccmd_last (s : ccmd_t) : outcome (option nat) :=
  if Queue.size (cq s) =? 0 then Ret None else data_ptr s (Queue.queue_tail (cq s)).

(** calloc, then the fields set; resp.mode and resp.dev_id are 0 already *)
Definition new_ccmd (c : command_type_t) (spec : Spec) : node :=
  MkCcmd c spec pd_zero (MkStore 0 0 0 0) (MkLoad 0 0 0) (MkFwd 0 0 0 0 0 0 0 0 0)
  (MkReply 0 REPLY_MODE_NORMAL 0) 0 0 None.

(** the result of queue_enqueue is not looked at *)
Definition ccmd_add (s : ccmd_t) (c : command_type_t) (spec : Spec) : outcome ccmd_t :=
  let i := fresh s in
  let s := MkChain (cq s) (<[i := new_ccmd c spec]> (nodes s)) (S i) in
  s ← (if 1 <=? Queue.queue_size (cq s) then
       last ← ccmd_last s;
       l ← deref last;
       n ← node_at s l;
       Ret (set_node s l (with_next n (Some i)))
     else Ret s);
  '(q, _) ← Queue.queue_enqueue (cq s) (type_to_Z c) (d_ptr (Some i));
  Ret (MkChain q (nodes s) (fresh s)).

(** the [do ... while] of ccmd_skip; the outer [None] is its [return NULL] *)
Fixpoint skip_context (fuel : nat) (s : ccmd_t) (itr : nat) (nested : Z)
  : outcome (option (option nat)) :=
  match fuel with
  | O => Stop OutOfFuel
  | S fuel =>
    n ← node_at s itr;
    step ←
      match cmd n with
      | FORWARD_BEGIN => k ← int_ (nested + 1); Ret (Some k)
      | FORWARD_CONTINUE => Ret (Some nested)
      | REPLY =>
          if 0 <? nested then
            match next n with
            | Some x =>
                nx ← node_at s x;
                if bool_decide (cmd nx ≠ FORWARD_CONTINUE)
                then k ← int_ (nested - 1); Ret (Some k) else Ret (Some nested)
            | None => Ret (Some nested)
            end
          else Ret None
      | _ => Ret (Some nested)
      end;
    match step with
    | None => Ret None
    | Some nested =>
        match next n with
        | Some itr => if 0 <? nested then skip_context fuel s itr nested else Ret (Some (Some itr))
        | None => Ret (Some None)
        end
    end
  end.
Fixpoint skip_loop (fuel : nat) (s : ccmd_t) (itr : option nat) (to_skip : Z) : outcome (option nat) :=
  match fuel with
  | O => Stop OutOfFuel
  | S fuel =>
    match itr with
    | None => Ret None
    | Some i =>
        if 0 <? to_skip then
          r ← skip_context (S (fresh s)) s i 0;
          match r with
          | None => Ret None
          | Some itr => skip_loop fuel s itr (to_skip - 1)
          end
        else Ret itr
    end
  end.
(** a chain has at most [fresh] nodes *)
Definition ccmd_skip (s : ccmd_t) (i : option nat) (to_skip : Z) : outcome (option nat) :=
  skip_loop (S (fresh s)) s i to_skip.

(** The conversion of a double to an unsigned integer of [n] bytes. Of a
    negative number C leaves it undefined, but the code relies on it: the default
    offset of a STORE or LOAD is -1. Compilers for x86-64 convert to a signed
    64-bit integer and keep the low [n] bytes, so that -1 gives all ones; the
    model does the same. A number too large for the type stays undefined. *)
Definition to_uint (n : nat) (v : Z) : outcome Z :=
  if (- 2 ^ 63 <=? v) && (v <? 256 ^ Z.of_nat n) then Ret (v mod 256 ^ Z.of_nat n) else Stop UB.

(** what a node gives for a message: the copy of its options with the sampled
fields, in the order they are sampled *)
Definition sample_opts (n : node) (r : Rng) : outcome (cmd_opts * node * Rng) :=
  match cmd n with
  | STORE =>
    '(off, s2, r) ← pd_sample (pd_val2 n) r;
    off ← to_uint 8 off;
    '(nb, s1, r) ← pd_sample (pd_val n) r;
    nb ← to_uint 8 nb;
    Ret (O_store (MkStore off nb (wait_sync (store n)) (store_dev_id (store n))),
         with_specs n s1 s2, r)
  | COMPUTE =>
    '(t, s1, r) ← pd_sample (pd_val n) r;
    t ← to_uint 4 t;
    Ret (O_comp (MkComp t), with_specs n s1 (pd_val2 n), r)
  | LOAD =>
    '(off, s2, r) ← pd_sample (pd_val2 n) r;
    off ← to_uint 8 off;
    '(nb, s1, r) ← pd_sample (pd_val n) r;
    nb ← to_uint 8 nb;
    Ret (O_load (MkLoad off nb (load_dev_id (load n))), with_specs n s1 s2, r)
  | REPLY =>
    '(sz, s1, r) ← pd_sample (pd_val n) r;
    sz ← to_uint 4 sz;
    Ret (O_reply (MkReply sz (mode (resp n)) (reply_dev_id (resp n))),
         with_specs n s1 (pd_val2 n), r)
  | FORWARD_BEGIN | FORWARD_CONTINUE =>
    '(sz, s1, r) ← pd_sample (pd_val n) r;
    sz ← to_uint 4 sz;
    let f := fwd n in
    Ret (O_fwd (MkFwd sz (fwd_host f) (fwd_port f) (timeout f) (retries f) (n_ack f)
                  (on_fail_skip f) (branched f) (proto f)),
         with_specs n s1 (pd_val2 n), r)
  | _ => Stop CheckFailed
  end.

Definition write_opts (b : block) (o : Z) (v : cmd_opts) : outcome block :=
  match v with
  | O_store s => set_store_opts b o s
  | O_comp c => set_comp_opts b o c
  | O_load l => set_load_opts b o l
  | O_reply r => set_reply_opts b o r
  | O_fwd f => set_fwd_opts b o f
  end.

(** the [while] of ccmd_dump: [None] is its [return 0] *)
Fixpoint dump_loop (fuel : nat) (s : ccmd_t) (itr : option nat) (r : Rng) (b : block)
  (m o avail : Z) : outcome (ccmd_t * Rng * block * option (Z * Z)) :=
  match fuel with
  | O => Stop OutOfFuel
  | S fuel =>
    match itr with
    | None => Ret (s, r, b, Some (o, avail))
    | Some i =>
        n ← node_at s i;
        b ← set_cmd b o (cmd n);
        if avail <? Message.cmd_type_size (cmd n) then Ret (s, r, b, None)
        else
          let avail := avail - Message.cmd_type_size (cmd n) in
          if bool_decide (cmd n = PSKIP) then
            let '(heads, r) := coin (pd_val n) r in
            id ← get_msg_req_id b m;
            _ ← (if n_every n =? 0 then Stop UB else Ret tt);
            itr ← (if (id mod u32 (n_every n) =? 0) && heads
                   then ccmd_skip s (next n) (n_skip n) else Ret (next n));
            dump_loop fuel s itr r b m o avail
          else
            '(v, n, r) ← sample_opts n r;
            b ← write_opts b o v;
            let s := set_node s i n in
            e ← Message.message_end b m;
            nx ← Message.cmd_bounded_next b o e;
            match nx with
            | None => Ret (s, r, b, None)
            | Some o => dump_loop fuel s (next n) r b m o avail
            end
    end
  end.

(** [b] holds the message [m]; returns 1, or 0 when there is not enough space *)
Definition ccmd_dump (s : ccmd_t) (r : Rng) (b : block) (m : Z)
  : outcome (ccmd_t * Rng * block * Z) :=
  itr ← data_ptr s (Queue.queue_head (cq s));
  avail ← get_msg_req_size b m;
  '(s, r, b, res) ← dump_loop (S (fresh s)) s itr r b m (Message.message_first_cmd m) avail;
  match res with
  | None => Ret (s, r, b, 0)
  | Some (o, avail) =>
    if avail <? Message.cmd_type_size EOM then Ret (s, r, b, 0)
    else b ← set_cmd b o EOM; Ret (s, r, b, 1)
  end.

(** the nodes are freed along the chain *)
Fixpoint destroy_loop (fuel : nat) (ns : gmap nat node) (curr : option nat) : outcome (gmap nat node) :=
  match fuel with
  | O => Stop OutOfFuel
  | S fuel =>
    match curr with
    | None => Ret ns
    | Some i => n ← deref (ns !! i); destroy_loop fuel (delete i ns) (next n)
    end
  end.
Definition ccmd_destroy (s : ccmd_t) : outcome (gmap nat node) :=
  first ← ccmd_first s;
  destroy_loop (S (fresh s)) (nodes s) first.

End Ccmd.
Arguments ccmd_t : clear implicits.

(** ** The chain *)

Section Chain.
Context {Spec Rng : Type} `{Sampler Spec Rng}.
Implicit Types (s : ccmd_t Spec) (l : list nat) (i : nat).

(** [l] is the list of the nodes of the chain: the queue holds them in order,
  and each one points to the one after it. *)
Record chain s l : Prop := {
  ch_queue : Queue.queue_wf (cq s);
  ch_contents : snd <$> Queue.contents (cq s) = d_ptr ∘ Some <$> l;
  ch_linked : ∀ k i, l !! k = Some i → ∃ n, nodes s !! i = Some n ∧ next n = l !! S k;
  ch_nodup : NoDup l;
  ch_fresh : ∀ i, i ∈ l → (i < fresh s)%nat
  }.

(** the commands of the chain *)
Definition commands s l : list (option command_type_t) := (fun i => cmd <$> nodes s !! i) <$> l.

Lemma chain_size s l : chain s l → Queue.size (cq s) = Z.of_nat (length l).
Proof.
  intros Hc. rewrite <- Queue.contents_length by apply Hc.
  pose proof (f_equal length (ch_contents _ _ Hc)) as E. rewrite !length_fmap in E. lia.
Qed.

Lemma data_ptr_at s l k : chain s l → 0 ≤ k < Queue.size (cq s) →
  (n ← Ret (Queue.nodes (cq s) !!! Z.to_nat (Queue.slot (cq s) k));
   match data n with d_ptr x => Ret x | _ => Stop UB end) = Ret (l !! Z.to_nat k).
Proof.
  intros Hc Hk. pose proof (chain_size _ _ Hc).
  destruct (lookup_lt_is_Some_2 l (Z.to_nat k)) as [i Hi]; [lia|].
  pose proof (f_equal (lookup (Z.to_nat k)) (ch_contents _ _ Hc)) as E.
  unfold Queue.contents in E. rewrite !list_lookup_fmap, lookup_seqZ_lt, Hi in E by lia.
  replace (0 + Z.of_nat (Z.to_nat k)) with k in E by lia. injection E as E.
  obind. rewrite Hi, E. done.
Qed.

Lemma ccmd_first_chain s l : chain s l → ccmd_first s = Ret (l !! 0%nat).
Proof.
  intros Hc. pose proof (chain_size _ _ Hc). pose proof (ch_queue _ _ Hc) as Hq.
  unfold ccmd_first. case (Z.eqb_spec (Queue.size (cq s)) 0) as [E|E].
  { destruct l; [done|cbn in *; lia]. }
  pose proof (Queue.wf_head _ Hq). pose proof (Queue.wf_nodes _ Hq).
  change (l !! 0%nat) with (l !! Z.to_nat 0).
  rewrite <- (data_ptr_at s l 0 Hc) by lia. unfold data_ptr, Queue.node_of, Queue.queue_head.
  rewrite (proj2 (Z.eqb_neq _ _)) by done. obind. rewrite arr_get_total by lia.
  unfold Queue.slot. by rewrite Z.add_0_r, Z.mod_small by lia.
Qed.

Lemma ccmd_last_chain s l : chain s l → ccmd_last s = Ret (last l).
Proof.
  intros Hc. pose proof (chain_size _ _ Hc). pose proof (ch_queue _ _ Hc) as Hq.
  unfold ccmd_last. case (Z.eqb_spec (Queue.size (cq s)) 0) as [E|E].
  { destruct l; [done|cbn in *; lia]. }
  rewrite last_lookup. replace (Init.Nat.pred (length l)) with (Z.to_nat (Queue.size (cq s) - 1)) by lia.
  rewrite <- (data_ptr_at s l _ Hc) by lia. unfold data_ptr.
  by rewrite Queue.node_of_tail by (done || lia).
Qed.

(** linking the last node to a new one *)
Definition link_last s l (c : command_type_t) (spec : Spec) : gmap nat (ccmd_node_t Spec) :=
  let ns := <[fresh s := new_ccmd c spec]> (nodes s) in
  match last l with
  | Some i => match ns !! i with Some n => <[i := with_next n (Some (fresh s))]> ns | None => ns end
  | None => ns
  end.

Lemma ccmd_add_eq s l c spec : chain s l →
  ccmd_add s c spec =
  '(q, _) ← Queue.queue_enqueue (cq s) (type_to_Z c) (d_ptr (Some (fresh s)));
  Ret (MkChain q (link_last s l c spec) (S (fresh s))).
Proof.
  intros Hc. pose proof (chain_size _ _ Hc) as Hs. unfold ccmd_add. cbn [cq nodes fresh].
  assert (Hl : ccmd_last (MkChain (cq s) (<[fresh s:=new_ccmd c spec]> (nodes s)) (S (fresh s)))
    = Ret (last l)) by exact (ccmd_last_chain s l Hc).
  rewrite Hl. clear Hl. unfold Queue.queue_size, link_last. destruct (last l) as [i|] eqn:El.
  - assert (Hk : l !! pred (length l) = Some i) by (by rewrite <- last_lookup).
    pose proof (lookup_lt_Some _ _ _ Hk).
    rewrite (proj2 (Z.leb_le _ _)) by lia. obind. unfold node_at; cbn [nodes].
    destruct (ch_linked _ _ Hc _ _ Hk) as (n & En & _).
    pose proof (ch_fresh _ _ Hc i) as Hf.
    rewrite lookup_insert_ne, En by (intros <-; apply (Nat.lt_irrefl (fresh s)), Hf; by eapply list_elem_of_lookup_2).
    obind. done.
  - apply last_None in El as ->. cbn in Hs. rewrite (proj2 (Z.leb_gt _ _)) by lia. obind. done.
Qed.

Lemma link_last_lookup s l c spec i : chain s l → i ∈ l →
  ∃ n, nodes s !! i = Some n ∧
    link_last s l c spec !! i = Some (if bool_decide (last l = Some i)
                                      then with_next n (Some (fresh s)) else n).
Proof.
  intros Hc Hi. destruct (proj1 (list_elem_of_lookup _ _) Hi) as [k Hk].
  destruct (ch_linked _ _ Hc _ _ Hk) as (n & En & _). exists n. split; [done|].
  pose proof (ch_fresh _ _ Hc) as Hf. unfold link_last.
  destruct (last l) as [j|] eqn:El.
  2: { apply last_None in El as ->. by apply elem_of_nil in Hi. }
  assert (Hj : j ∈ l) by (apply last_Some in El as [l' ->]; set_solver).
  destruct (proj1 (list_elem_of_lookup _ _) Hj) as [k' Hk'].
  destruct (ch_linked _ _ Hc _ _ Hk') as (nj & Enj & _).
  rewrite lookup_insert_ne, Enj by (intros <-; apply Hf in Hj; lia).
  case_bool_decide as E.
  - injection E as ->. rewrite lookup_insert_eq. by simplify_eq.
  - rewrite !lookup_insert_ne; [done|intros <-; apply Hf in Hi; lia|congruence].
Qed.

Lemma link_last_fresh s l c spec : chain s l → link_last s l c spec !! fresh s = Some (new_ccmd c spec).
Proof.
  intros Hc. unfold link_last. destruct (last l) as [j|] eqn:El; [|by rewrite lookup_insert_eq].
  assert (Hj : j ∈ l) by (apply last_Some in El as [l' ->]; set_solver).
  pose proof (ch_fresh _ _ Hc j Hj).
  rewrite lookup_insert_ne by lia. destruct (nodes s !! j); [|by rewrite lookup_insert_eq].
  by rewrite lookup_insert_ne, lookup_insert_eq by lia.
Qed.

Lemma chain_snoc s l c spec q : chain s l → Queue.queue_wf q →
  snd <$> Queue.contents q = d_ptr ∘ Some <$> l ++ [fresh s] →
  chain (MkChain q (link_last s l c spec) (S (fresh s))) (l ++ [fresh s]).
Proof.
  intros Hc Hq Eq. pose proof (ch_fresh _ _ Hc) as Hf.
  split; cbn [cq nodes fresh]; [done|done| | |].
  - intros k i [Hk|[Hk [E <-]%list_lookup_singleton_Some]]%lookup_app_Some; cycle 1.
    {
      rewrite link_last_fresh by done. eexists. split; [done|]. cbn.
      symmetry. apply lookup_ge_None_2. rewrite length_app. cbn. lia. }
    pose proof (lookup_lt_Some _ _ _ Hk).
    destruct (link_last_lookup s l c spec i Hc) as (n & En & Hn); [by eapply list_elem_of_lookup_2|].
    rewrite Hn. eexists. split; [done|].
    destruct (ch_linked _ _ Hc _ _ Hk) as (n' & En' & Hx). simplify_eq.
    case_bool_decide as E.
    + cbn. symmetry. apply lookup_app_Some. right.
      assert (S k = length l) as ->; [|rewrite Nat.sub_diag; split; [lia|done]].
      rewrite last_lookup in E.
      pose proof (NoDup_lookup _ _ _ _ (ch_nodup _ _ Hc) Hk E). lia.
    + rewrite Hx. destruct (decide (S k < length l)%nat); [by rewrite lookup_app_l|].
      destruct E. rewrite last_lookup. rewrite <- Hk. f_equal. lia.
  - apply NoDup_app. split; [apply Hc|]. split; [|apply NoDup_singleton].
    intros i Hi ->%list_elem_of_singleton. apply Hf in Hi. lia.
  - intros i [Hi| ->%list_elem_of_singleton]%elem_of_app; [apply Hf in Hi|]; lia.
Qed.

(** adding to a queue with room *)
Lemma ccmd_add_room s l c spec : chain s l → Queue.size (cq s) < Queue.capacity (cq s) →
  ∃ s', ccmd_add s c spec = Ret s' ∧ chain s' (l ++ [fresh s]) ∧
    Queue.capacity (cq s') = Queue.capacity (cq s) ∧ fresh s' = S (fresh s) ∧
    nodes s' = link_last s l c spec.
Proof.
  intros Hc Hs. rewrite (ccmd_add_eq s l) by done.
  destruct (Queue.enqueue_ok (cq s) (type_to_Z c) (d_ptr (Some (fresh s))) (ch_queue _ _ Hc) Hs)
    as (q & -> & Hq' & Ec & Ecap & _). obind. eexists. split; [done|].
  split; [|done]. apply chain_snoc; [done..|]. by rewrite Ec, !fmap_app, (ch_contents _ _ Hc).
Qed.

Lemma link_last_commands s l c spec : chain s l → ∀ X (f : ccmd_node_t Spec → X),
  (∀ n p, f (with_next n p) = f n) →
  (fun i => f <$> link_last s l c spec !! i) <$> (l ++ [fresh s]) =
  ((fun i => f <$> nodes s !! i) <$> l) ++ [Some (f (new_ccmd c spec))].
Proof.
  intros Hc X f Hf. rewrite fmap_app. cbn [fmap list_fmap]. rewrite link_last_fresh by done.
  f_equal. apply list_fmap_ext. intros k i Hi%list_elem_of_lookup_2.
  destruct (link_last_lookup s l c spec i Hc Hi) as (n & -> & ->). cbn. by case_bool_decide; rewrite ?Hf.
Qed.

(** Adding a command to a chain whose queue has room allocates a fresh
  node, which becomes the last one both in the queue and along the [next]
  pointers, without touching the commands already there; ccmd_first and
  ccmd_last give the ends of the chain. When the queue is full the command
  is still linked after the last node (so ccmd_dump sends it) but ccmd_last
  goes on returning the previous node. *)
Theorem ccmd_add_chain s l c spec : chain s l →
  (Queue.size (cq s) < Queue.capacity (cq s) → ∃ s',
   ccmd_add s c spec = Ret s' ∧ chain s' (l ++ [fresh s]) ∧
   commands s' (l ++ [fresh s]) = commands s l ++ [Some c] ∧
   nodes s' !! fresh s = Some (new_ccmd c spec) ∧
   ccmd_first s' = Ret ((l ++ [fresh s]) !! 0%nat) ∧ ccmd_last s' = Ret (Some (fresh s))) ∧
  (Queue.size (cq s) = Queue.capacity (cq s) → ∃ s' i n,
   ccmd_add s c spec = Ret s' ∧ cq s' = cq s ∧ ccmd_last s' = Ret (Some i) ∧ last l = Some i ∧
   nodes s' !! i = Some n ∧ next n = Some (fresh s)).
Proof.
  intros Hc. pose proof (ch_queue _ _ Hc) as Hq. split; intros Hs.
  - destruct (ccmd_add_room s l c spec Hc Hs) as (s' & E & Hc' & _ & _ & En).
    exists s'. split; [done|]. split; [done|].
    unfold commands. rewrite En. split; [by apply (link_last_commands s l c spec Hc _ cmd)|].
    split; [by apply link_last_fresh|]. split; [by apply ccmd_first_chain|].
    rewrite (ccmd_last_chain _ _ Hc'). by rewrite last_snoc.
  - rewrite (ccmd_add_eq s l), Queue.enqueue_full by done. obind. pose proof (Queue.wf_cap _ Hq).
    pose proof (chain_size _ _ Hc) as Hl.
    destruct (last l) as [i|] eqn:El; [|apply last_None in El as ->; cbn in *; lia].
    destruct (link_last_lookup s l c spec i Hc) as (n & _ & Hn).
    { apply last_Some in El as [l' ->]. set_solver. }
    rewrite bool_decide_true in Hn by done.
    do 3 eexists. split_and!; [done|done| |done|exact Hn|done].
    rewrite <- El. exact (ccmd_last_chain s l Hc).
Qed.
End Chain.

(** constant distributions: a sample is the constant itself *)
Definition constant_sampler : Sampler Z unit :=
  {| pd_sample v r := Ret (v, v, r); coin p r := (1 <=? p, r); pd_zero := 0 |}.

(** a chain of one COMPUTE whose queue is full *)
Definition full_chain : ccmd_t Z :=
  MkChain (Queue.MkQueue [Node 0 2 (d_ptr (Some 0%nat))] 0 0 1 1)
    {[ 0%nat := new_ccmd (H := constant_sampler) COMPUTE 10 ]} 1.

Lemma full_chain_ok : chain full_chain [0%nat].
Proof.
  split; [split; cbn; lia || reflexivity|reflexivity| |apply NoDup_singleton|].
  - intros k i [-> <-]%list_lookup_singleton_Some. eexists. split; reflexivity.
  - intros i ->%list_elem_of_singleton. cbn. lia.
Qed.

Lemma ccmd_add_chain_witness : chain full_chain [0%nat] ∧
  ∃ s' i n, ccmd_add (H := constant_sampler) full_chain STORE 5 = Ret s' ∧
    cq s' = cq full_chain ∧ ccmd_last s' = Ret (Some i) ∧ last [0%nat] = Some i ∧
    nodes s' !! i = Some n ∧ next n = Some 1%nat.
Proof.
  split; [exact full_chain_ok|].
  apply (ccmd_add_chain (H := constant_sampler) full_chain [0%nat] STORE 5 full_chain_ok).
  reflexivity.
Defined.

(** ** The message dumped from a chain *)

(** the options of a command of type [t] read back *)
Definition get_opts (b : block) (o : Z) (t : command_type_t) : outcome cmd_opts :=
  match t with
  | STORE => O_store <$> get_store_opts b o
  | COMPUTE => O_comp <$> get_comp_opts b o
  | LOAD => O_load <$> get_load_opts b o
  | REPLY => O_reply <$> get_reply_opts b o
  | FORWARD_BEGIN | FORWARD_CONTINUE => O_fwd <$> get_fwd_opts b o
  | _ => Stop UB
  end.

(** the commands [cs] follow one another from offset [o] *)
Fixpoint reads (b : block) (o : Z) (cs : list (command_type_t * cmd_opts)) : Prop :=
  match cs with
  | [] => True
  | (t, v) :: cs =>
      get_cmd b o = Ret t ∧ get_opts b o t = Ret v ∧ reads b (o + Message.cmd_type_size t) cs
  end.

Definition opts_ok (t : command_type_t) (v : cmd_opts) : Prop :=
  match t, v with
  | STORE, O_store s => store_ok s
  | COMPUTE, O_comp c => comp_ok c
  | LOAD, O_load l => load_ok l
  | REPLY, O_reply r => reply_ok r
  | FORWARD_BEGIN, O_fwd f | FORWARD_CONTINUE, O_fwd f => fwd_ok f
  | _, _ => False
  end.

(** the fields of a node fit their C types *)
Definition node_ok {Spec} (n : ccmd_node_t Spec) : Prop :=
  store_ok (store n) ∧ load_ok (load n) ∧ fwd_ok (fwd n) ∧ reply_ok (resp n).

Definition same_outside (b b' : block) (lo hi : Z) : Prop :=
  blk_size b' = blk_size b ∧
  ∀ x, x < lo ∨ hi ≤ x → byte_at (blk_data b') x = byte_at (blk_data b) x.

Lemma same_outside_trans b1 b2 b3 lo mid hi : lo ≤ mid → mid ≤ hi →
  same_outside b1 b2 lo mid → same_outside b2 b3 mid hi → same_outside b1 b3 lo hi.
Proof.
  intros H1 H2 [E1 D1] [E2 D2]. split; [congruence|]. intros x Hx.
  rewrite D2, D1 by lia. done.
Qed.

Lemma same_outside_weaken b b' lo hi lo' hi' : lo' ≤ lo → hi ≤ hi' →
  same_outside b b' lo hi → same_outside b b' lo' hi'.
Proof. intros H1 H2 [E D]. split; [done|]. intros x Hx. apply D. lia. Qed.

Lemma blk_load_same n b b' o lo hi : same_outside b b' lo hi →
  o + Z.of_nat n ≤ lo ∨ hi ≤ o → blk_load n b' o = blk_load n b o.
Proof.
  intros [E D] Ho. unfold blk_load, in_block. rewrite E. destruct (_ && _); [|done].
  f_equal. apply load_le_ext. intros x Hx. apply D. lia.
Qed.

Lemma get_cmd_same b b' o lo hi : same_outside b b' lo hi → o + 4 ≤ lo ∨ hi ≤ o →
  get_cmd b' o = get_cmd b o.
Proof. intros. unfold get_cmd. by rewrite (blk_load_same 4 b b' o lo hi) by (done || lia). Qed.

Lemma get_opts_same b b' o t lo hi : same_outside b b' lo hi →
  o + Message.cmd_type_size t ≤ lo → get_opts b' o t = get_opts b o t.
Proof.
  intros H Ho.
  assert (Hl : ∀ n x, x + Z.of_nat n ≤ lo → blk_load n b' x = blk_load n b x).
  { intros n x Hx. apply (blk_load_same n b b' x lo hi H). by left. }
  destruct t; cbn in Ho |- *; try done;
    unfold get_store_opts, get_comp_opts, get_load_opts, get_reply_opts, get_fwd_opts,
      sizeof_command_t; rewrite !Hl by (sizes; lia); done.
Qed.

Lemma reads_same b b' o cs lo hi : same_outside b b' lo hi →
  o + tsize cs.*1 ≤ lo → reads b o cs → reads b' o cs.
Proof.
  intros H. revert o. induction cs as [|[t v] cs IH]; intros o Ho; [done|].
  rewrite fmap_cons in Ho; cbn [fst] in Ho. rewrite tsize_cons in Ho.
  pose proof (cmd_type_size_range t). pose proof (tsize_nonneg cs.*1).
  cbn [reads]. intros (E1 & E2 & E3). split_and!.
  - by rewrite (get_cmd_same b b' o lo hi) by (done || lia).
  - by rewrite (get_opts_same b b' o t lo hi) by (done || lia).
  - apply IH; [lia|done].
Qed.

Lemma only_same b o b' n t : only b o n b' → 4 + n = Message.cmd_type_size t →
  same_outside b b' (o + 4) (o + Message.cmd_type_size t).
Proof. intros [E D] Hn. split; [done|]. intros x Hx. apply D. lia. Qed.

Lemma write_opts_ok b o t v : 0 ≤ o → o + 28 ≤ blk_size b → opts_ok t v →
  ∃ b', write_opts b o v = Ret b' ∧ get_opts b' o t = Ret v ∧
    same_outside b b' (o + 4) (o + Message.cmd_type_size t).
Proof.
  intros Ho Hb Hv.
  assert (Hx : ∀ n (w : outcome block) (g : block → outcome cmd_opts),
    4 + n = Message.cmd_type_size t → (∃ b', w = Ret b' ∧ g b' = Ret v ∧ only b o n b') →
    ∃ b', w = Ret b' ∧ g b' = Ret v ∧ same_outside b b' (o + 4) (o + Message.cmd_type_size t)).
  { intros n w g Hn (b' & E1 & E2 & E3). exists b'. split_and!; [done|done|].
    by eapply only_same. }
  destruct t, v; try done; cbn [write_opts get_opts]; cbn [opts_ok] in Hv.
  - destruct (comp_roundtrip b o Ho Hb c Hv) as (b' & E1 & E2 & E3).
    apply (Hx sizeof_comp_opts_t); [done|]. exists b'. by rewrite E1, E2.
  - destruct (store_roundtrip b o Ho Hb s Hv) as (b' & E1 & E2 & E3).
    apply (Hx sizeof_store_opts_t); [done|]. exists b'. by rewrite E1, E2.
  - destruct (load_roundtrip b o Ho Hb l Hv) as (b' & E1 & E2 & E3).
    apply (Hx sizeof_load_opts_t); [done|]. exists b'. by rewrite E1, E2.
  - destruct (fwd_roundtrip b o Ho Hb f Hv) as (b' & E1 & E2 & E3).
    apply (Hx sizeof_fwd_opts_t); [done|]. exists b'. by rewrite E1, E2.
  - destruct (fwd_roundtrip b o Ho Hb f Hv) as (b' & E1 & E2 & E3).
    apply (Hx sizeof_fwd_opts_t); [done|]. exists b'. by rewrite E1, E2.
  - destruct (reply_roundtrip b o Ho Hb r Hv) as (b' & E1 & E2 & E3).
    apply (Hx sizeof_reply_opts_t); [done|]. exists b'. by rewrite E1, E2.
Qed.

Lemma set_cmd_ok b o t : 0 ≤ o → o + 4 ≤ blk_size b → (∀ v, t ≠ UNKNOWN v) →
  ∃ b', set_cmd b o t = Ret b' ∧ get_cmd b' o = Ret t ∧ same_outside b b' o (o + 4).
Proof.
  intros Ho Hb Ht. unfold set_cmd, get_cmd. rewrite blk_store_ok by lia.
  eexists. split; [done|]. rewrite blk_load_ok by (cbn; lia). obind.
  cbn [blk_data]. rewrite load_store_le. split.
  - destruct t; try done. by destruct (Ht v).
  - split; [done|]. intros x Hx. cbn [blk_data]. by rewrite byte_at_store_le, decide_False by lia.
Qed.

(** one command written at [o]: its type, then its options *)
Lemma write_cmd_ok b o t v : 0 ≤ o → o + 28 ≤ blk_size b → opts_ok t v →
  ∃ b1 b2, set_cmd b o t = Ret b1 ∧ write_opts b1 o v = Ret b2 ∧ get_cmd b2 o = Ret t ∧
    get_opts b2 o t = Ret v ∧ same_outside b b2 o (o + Message.cmd_type_size t).
Proof.
  intros Ho Hb Hv. pose proof (cmd_type_size_range t).
  destruct (set_cmd_ok b o t) as (b1 & E1 & E2 & E3); [lia|lia|by intros ? ->|].
  destruct (write_opts_ok b1 o t v) as (b2 & E4 & E5 & E6); [lia|destruct E3; lia|done|].
  exists b1, b2. split_and!; [done|done| |done|].
  - rewrite (get_cmd_same b1 b2 o _ _ E6) by lia. done.
  - eapply same_outside_trans; [..|exact E3|exact E6]; lia.
Qed.

Section Dump.
Context {Spec Rng : Type} `{Sampler Spec Rng}.
Implicit Types (s : ccmd_t Spec) (l : list nat) (r : Rng).

(** [l] is the list of nodes from [p] along the [next] pointers *)
Fixpoint path s (p : option nat) l : Prop :=
  match l with
  | [] => p = None
  | i :: l => p = Some i ∧ ∃ n, nodes s !! i = Some n ∧ path s (next n) l
  end.

(** the commands sampled from the nodes of [l] in order *)
Fixpoint sample_chain s l r : outcome (list (command_type_t * cmd_opts) * ccmd_t Spec * Rng) :=
  match l with
  | [] => Ret ([], s, r)
  | i :: l =>
      n ← node_at s i;
      '(v, n', r) ← sample_opts n r;
      '(cs, s, r) ← sample_chain (set_node s i n') l r;
      Ret ((cmd n, v) :: cs, s, r)
  end.

Lemma to_uint_fits n v w : to_uint n v = Ret w → fits n w.
Proof. unfold to_uint, fits. destruct (_ && _) eqn:E; [|done]. intros [= <-]. apply Z.mod_pos_bound. lia. Qed.

Lemma sample_opts_inv n r v n' r' : sample_opts n r = Ret (v, n', r') → node_ok n →
  opts_ok (cmd n) v ∧ next n' = next n ∧ node_ok n' ∧ cmd n ≠ PSKIP.
Proof.
  intros E Hn. destruct Hn as (Hs & Hl & Hf & Hr). unfold sample_opts in E.
  destruct (cmd n) eqn:Ec; try discriminate;
    repeat match goal with
    | E : _ ≫= _ = Ret _ |- _ => apply bind_Ret_inv in E as (? & ? & E)
    | E : (let '(_, _) := ?x in _) = Ret _ |- _ => destruct x; cbn beta iota in E
    | E : to_uint _ _ = Ret _ |- _ => apply to_uint_fits in E
    end; injection E as <- <- <-; unfold node_ok; cbn;
    unfold store_ok, load_ok, fwd_ok, reply_ok, comp_ok in *; cbn; split_and!; first [tauto | done].
Qed.

Definition nodes_ok s : Prop := ∀ i n, nodes s !! i = Some n → node_ok n.

Lemma set_node_path s p l i n n' : nodes s !! i = Some n → next n' = next n →
  path s p l → path (set_node s i n') p l.
Proof.
  intros En Ex. revert p. induction l as [|j l IH]; intros p; [done|].
  intros (-> & m & Em & Hp). split; [done|]. unfold set_node at 1; cbn [nodes].
  destruct (decide (i = j)) as [->|Hj].
  - rewrite lookup_insert_eq. eexists. split; [done|]. rewrite Ex. apply IH. by simplify_eq.
  - rewrite lookup_insert_ne by done. eauto.
Qed.

Lemma set_node_ok s i n' : nodes_ok s → node_ok n' → nodes_ok (set_node s i n').
Proof.
  intros Hs Hn j m. unfold set_node; cbn [nodes]. intros [[-> <-]|[_ E]]%lookup_insert_Some;
    [done|by eapply Hs].
Qed.

Lemma chain_path s l k : chain s l → path s (l !! k) (drop k l).
Proof.
  intros Hc. remember (drop k l) as l' eqn:El. revert k El.
  induction l' as [|i l' IH]; intros k El; cbn.
  - apply lookup_ge_None_2. apply (f_equal length) in El. rewrite length_drop in El. cbn in El. lia.
  - assert (Hk : l !! k = Some i).
    { replace k with (k + 0)%nat by lia. by rewrite <- lookup_drop, <- El. }
    split; [done|]. destruct (ch_linked _ _ Hc _ _ Hk) as (n & En & Hx).
    exists n. split; [done|]. rewrite Hx. apply IH.
    pose proof (drop_S l i k Hk) as Ed. congruence.
Qed.

Lemma dump_loop_ok fuel s p l r cs s' r' b m o avail e :
  (length l < fuel)%nat → path s p l → nodes_ok s → sample_chain s l r = Ret (cs, s', r') →
  0 ≤ m → m + 12 ≤ o → Message.message_end b m = Ret e → e ≤ blk_size b →
  o + tsize cs.*1 + 28 ≤ e → tsize cs.*1 ≤ avail →
  ∃ b', dump_loop fuel s p r b m o avail
        = Ret (s', r', b', Some (o + tsize cs.*1, avail - tsize cs.*1)) ∧
    reads b' o cs ∧ same_outside b b' o (o + tsize cs.*1).
Proof.
  revert fuel s p r cs b o avail. induction l as [|i l IH];
    intros [|fuel] s p r cs b o avail Hf Hp Hok Ec Hm Ho He Hb Hfit Hav; cbn in Hf; try lia.
  { cbn in Hp, Ec. subst p. injection Ec as <- <- <-. cbn in *. exists b.
    rewrite Z.add_0_r, Z.sub_0_r. by split. }
  destruct Hp as (-> & n & En & Hp). cbn [sample_chain] in Ec.
  unfold node_at in Ec at 1. rewrite En in Ec. cbn [mbind outcome_bind deref] in Ec.
  apply bind_Ret_inv in Ec as ([[v n'] r1] & Es & Ec).
  apply bind_Ret_inv in Ec as ([[cs' s1] r2] & Ec' & Ec). injection Ec as <- <- <-.
  rewrite fmap_cons in *; cbn [fst] in *. rewrite tsize_cons in *.
  destruct (sample_opts_inv _ _ _ _ _ Es) as (Hv & Hx & Hn' & Hns); [by eapply Hok|].
  pose proof (cmd_type_size_range (cmd n)). pose proof (tsize_nonneg cs'.*1).
  destruct (write_cmd_ok b o (cmd n) v) as (b1 & b2 & E1 & E2 & E3 & E4 & E5); [lia|lia|done|].
  cbn [dump_loop]. unfold node_at at 1. rewrite En. obind. rewrite E1. obind.
  rewrite (proj2 (Z.ltb_ge _ _)) by lia. rewrite bool_decide_false by done.
  rewrite Es. obind. rewrite E2. obind.
  assert (He2 : Message.message_end b2 m = Ret e).
  { rewrite <- He. unfold Message.message_end, get_msg_req_size.
    by rewrite (blk_load_same 4 b b2 _ _ _ E5) by (cbn; lia). }
  rewrite He2. obind.
  assert (Hi : Message.cmd_bounded_next b2 o e = Ret (Some (o + Message.cmd_type_size (cmd n)))).
  { unfold Message.cmd_bounded_next. rewrite E3. obind.
    unfold Message.cmd_in_bounds. rewrite (proj2 (Z.ltb_ge _ _)) by (sizes; lia).
    unfold get_cmd. rewrite blk_load_ok by (destruct E5; cbn; lia). obind.
    pose proof (cmd_type_size_range (ctype b2 (o + Message.cmd_type_size (cmd n)))) as Hc.
    unfold ctype in Hc. rewrite (proj2 (Z.leb_le _ _)) by lia. done. }
  rewrite Hi. obind.
  destruct (IH fuel (set_node s i n') (next n) r1 cs' b2 (o + Message.cmd_type_size (cmd n))
    (avail - Message.cmd_type_size (cmd n))) as (b' & Ed & Hr & Hsame);
    [lia|by eapply set_node_path|by apply set_node_ok|done|lia|lia|done|destruct E5; lia|lia|lia|].
  exists b'. rewrite Hx, Ed. 
  rewrite (Z.add_assoc o), (Z.sub_add_distr avail). split; [done|]. split.
  - cbn [reads]. split_and!; [| |done].
    + by rewrite (get_cmd_same b2 b' o _ _ Hsame) by lia.
    + by rewrite (get_opts_same b2 b' o _ _ _ Hsame) by lia.
  - eapply same_outside_trans; [| |exact E5|exact Hsame]; lia.
Qed.

Lemma dump_ok s l r b m e cs s' r' :
  chain s l → l ≠ [] → nodes_ok s → sample_chain s l r = Ret (cs, s', r') →
  0 ≤ m → Message.message_end b m = Ret e → e ≤ blk_size b → m + 12 + tsize cs.*1 + 28 ≤ e →
  ∃ b', ccmd_dump s r b m = Ret (s', r', b', 1) ∧
  reads b' (m + 12) cs ∧ get_cmd b' (m + 12 + tsize cs.*1) = Ret EOM ∧
  same_outside b b' (m + 12) (m + 12 + tsize cs.*1 + 4).
Proof.
  intros Hc Hne Hok Ec Hm He Hb Hfit. unfold ccmd_dump.
  pose proof (ccmd_first_chain s l Hc) as Hf. pose proof (chain_size _ _ Hc) as Hs.
  unfold ccmd_first in Hf. rewrite (proj2 (Z.eqb_neq _ _)) in Hf by (destruct l; [done|cbn in *; lia]).
  rewrite Hf. obind. pose proof He as He'. unfold Message.message_end in He'.
  apply bind_Ret_inv in He' as (sz & Esz & Hsz). injection Hsz as Hsz.
  rewrite Esz. obind. pose proof (tsize_nonneg cs.*1).
  destruct (dump_loop_ok (S (fresh s)) s (l !! 0%nat) l r cs s' r' b m (m + 12) sz e)
    as (b1 & Ed & Hr & Hsame); [|exact (chain_path s l 0 Hc)|done|done|lia|lia|done|done|lia|lia|].
  { apply Nat.lt_succ_r. rewrite <- (length_seq (fresh s) 0).
    apply submseteq_length, NoDup_submseteq; [apply Hc|]. intros i Hi%(ch_fresh _ _ Hc).
    apply elem_of_seq. lia. }
  change (Message.message_first_cmd m) with (m + 12). rewrite Ed. obind.
  rewrite (proj2 (Z.ltb_ge _ _)) by (sizes; lia).
  destruct (set_cmd_ok b1 (m + 12 + tsize cs.*1) EOM) as (b2 & E1 & E2 & E3);
    [lia|destruct Hsame; lia|done|].
  rewrite E1. obind. exists b2. split_and!; [done| |done|].
  - eapply reads_same; [exact E3|lia|done].
  - eapply same_outside_trans; [..|exact Hsame|exact E3]; lia.
Qed.

(** [C36] Writing a chain without PSKIP into a message with enough room
  succeeds: reading the message back gives, in order, the type of every
  command of the chain with its options, the sampled values in place (the
  default offset -1 as all ones), then EOM; the header and everything else in the buffer are unchanged. Room for
  the largest command is needed beyond the last one, since the bounds check
  of the next position looks at the stale bytes there. *)
Theorem ccmd_dump_roundtrip s l r b m e cs s' r' :
  chain s l → l ≠ [] → nodes_ok s → sample_chain s l r = Ret (cs, s', r') →
  0 ≤ m → Message.message_end b m = Ret e → e ≤ blk_size b → m + 12 + tsize cs.*1 + 28 ≤ e →
  ∃ b', ccmd_dump s r b m = Ret (s', r', b', 1) ∧
  reads b' (m + 12) cs ∧ get_cmd b' (m + 12 + tsize cs.*1) = Ret EOM ∧
  same_outside b b' (m + 12) (m + 12 + tsize cs.*1 + 4).
Proof. exact (dump_ok s l r b m e cs s' r'). Qed.
End Dump.

(** a message of 92 bytes, and the chain of a COMPUTE, a STORE of 100 bytes at
    the default offset and a REPLY of 64 bytes *)
Definition empty_msg : block := put (calloc_block 92) [(4%nat, 4, 92)].
Definition default_chain : ccmd_t Z :=
  let new c a (b : Z) x := with_next (with_specs (new_ccmd (H := constant_sampler) c a) a b) x in
  MkChain
    (Queue.MkQueue [Queue.Node 0 0 (d_ptr (Some 0%nat)); Queue.Node 1 1 (d_ptr (Some 1%nat));
       Queue.Node 2 6 (d_ptr (Some 2%nat))] 0 2 3 3)
    {[ 0%nat := new COMPUTE 10 0 (Some 1%nat); 1%nat := new STORE 100 (-1) (Some 2%nat);
       2%nat := new REPLY 64 0 None ]} 3.

Lemma default_chain_ok : chain default_chain [0; 1; 2]%nat.
Proof.
  split; [split; cbn; lia || reflexivity|reflexivity| |repeat constructor; set_solver|].
  - intros [|[|[|k]]] i E; cbn in E; try (injection E as <-; eexists; split; reflexivity). done.
  - intros i Hi. cbn. set_unfold in Hi. lia.
Qed.

Definition default_cmds : list (command_type_t * cmd_opts) :=
  [(COMPUTE, O_comp (MkComp 10)); (STORE, O_store (MkStore (2 ^ 64 - 1) 100 0 0));
   (REPLY, O_reply (MkReply 64 REPLY_MODE_NORMAL 0))].

Lemma ccmd_dump_roundtrip_witness :
  ∃ b', ccmd_dump (H := constant_sampler) default_chain tt empty_msg 0 = Ret (default_chain, tt, b', 1) ∧
    reads b' 12 default_cmds ∧ get_cmd b' 64 = Ret EOM ∧ same_outside empty_msg b' 12 68.
Proof.
  apply (ccmd_dump_roundtrip (H := constant_sampler) default_chain [0; 1; 2]%nat tt empty_msg 0 92
    default_cmds default_chain tt default_chain_ok).
  - discriminate.
  - intros i n Hn. unfold default_chain in Hn. cbn [nodes] in Hn.
    rewrite !lookup_insert_Some, lookup_singleton_Some in Hn.
    destruct Hn as [[_ <-]|[_ [[_ <-]|[_ [_ <-]]]]];
      unfold node_ok, store_ok, load_ok, fwd_ok, reply_ok, fits; cbn; unfold REPLY_MODE_NORMAL; lia.
  - vm_compute. reflexivity.
  - lia.
  - vm_compute. reflexivity.
  - vm_compute. discriminate.
  - vm_compute. discriminate.
Defined.

End Ccmd.
