(* ===== verification/Timeout.v ===== *)
(** * Timeouts of the forwards (src/src/dw_node.c: insert_timeout, remove_timeout)

    A worker keeps the timeouts of its requests in a priority queue and arms
    one timerfd for the first of them. The keys are instants in microseconds
    since the queue was last empty; [time_elapsed] is the instant of the last
    time the first timeout was removed. What timerfd_gettime answers ([None]: it
    fails) is an argument, the last value given to timerfd_settime is part of
    the state. *)

From S2P Require Import Prelude Timespec Queue PQueue Memory Request.

Local Open Scope Z_scope.

(** the fields of [conn_worker_info_t] the functions use *)
Record timeouts := MkTimeouts {
  timeout_queue : PQueue.pqueue_t;
  time_elapsed : Z;
  timerfd : itimerspec
}.

(** [sys_check] of a system call *)
Definition sys_check {A} (a : option A) : outcome A :=
  match a with Some x => Ret x | None => Stop CheckFailed end.

(** timerfd_settime refuses a value that is not normalised or negative *)
Definition timerfd_settime (t : timeouts) (v : itimerspec) : outcome timeouts :=
  _ ← check ((0 <=? tv_sec (it_value v)) && (0 <=? tv_nsec (it_value v))
             && (tv_nsec (it_value v) <? 1000000000));
  Ret (MkTimeouts (timeout_queue t) (time_elapsed t) v).

(** [pqueue_node_key(pqueue_top(q))] *)
Definition top_key (q : PQueue.pqueue_t) : outcome Z :=
  top ← PQueue.pqueue_top q; n ← deref top; PQueue.pqueue_node_key q n.

(** [timer]: the answer of timerfd_gettime *)
Definition insert_timeout (t : timeouts) (st : reqs_t) (id micros : Z) (timer : option itimerspec)
    : outcome (timeouts * reqs_t) :=
  match Request.req_get_by_id st id with
  | None => Ret (t, st)
  | Some r =>
      match timeout_node (Request.req_at st r) with
      | Some _ => Ret (t, st)
      | None =>
          let q := timeout_queue t in
          '(new_micros, elapsed) ←
            (if 0 <? PQueue.pqueue_size q then
               timerspec ← sys_check timer;
               n ← int_ (micros + time_elapsed t);
               k ← top_key q;
               n ← int_ (n + k);
               us ← its_to_us timerspec;
               n ← int_ (n - us);
               Ret (n, time_elapsed t)
             else Ret (micros, 0));
          '(q, p) ← PQueue.pqueue_insert q new_micros (d_value id);
          let st := Request.upd st r (fun q => set_timeout_node q (Some p)) in
          let t := MkTimeouts q elapsed (timerfd t) in
          top ← PQueue.pqueue_top q;
          t ← (if bool_decide (top = Some p) then timerfd_settime t (us_to_its micros) else Ret t);
          Ret (t, st)
      end
  end.

(** returns the time that remained; the second timerfd_gettime of the code is
    checked, and what it gives is overwritten *)
Definition remove_timeout (t : timeouts) (st : reqs_t) (id : Z) (timer timer2 : option itimerspec)
    : outcome (timeouts * reqs_t * Z) :=
  match Request.req_get_by_id st id with
  | None => Ret (t, st, -1)
  | Some r =>
      match timeout_node (Request.req_at st r) with
      | None => Ret (t, st, -1)
      | Some p =>
          let q := timeout_queue t in
          top ← PQueue.pqueue_top q;
          let is_top := bool_decide (top = Some p) in
          req_timeout ← PQueue.pqueue_node_key q p;
          timerspec ← sys_check timer;
          k ← top_key q;
          us ← its_to_us timerspec;
          elapsed ← int_ (k - us);
          q ← PQueue.pqueue_remove q p;
          let st := Request.upd st r (fun q => set_timeout_node q None) in
          rest ← int_ (req_timeout - elapsed);
          if negb is_top then Ret (MkTimeouts q (time_elapsed t) (timerfd t), st, rest)
          else if 0 <? PQueue.pqueue_size q then
            next_timeout ← top_key q;
            _ ← sys_check timer2;
            d ← int_ (next_timeout - elapsed);
            t ← timerfd_settime (MkTimeouts q elapsed (timerfd t)) (us_to_its d);
            Ret (t, st, rest)
          else
            t ← timerfd_settime (MkTimeouts q 0 (timerfd t)) (us_to_its 0);
            Ret (t, st, rest)
      end
  end.

(** ** Specification *)

Import PQueue.

Section Spec.
Implicit Types (q : pqueue_t) (t : timeouts) (st : reqs_t).

Lemma node_key_live q n k d : wf q → live q !! n = Some (k, d) → pqueue_node_key q n = Ret k.
Proof.
  intros W (i & Hi & <- & E)%live_lookup; [|apply W]. unfold pqueue_node_key.
  rewrite key_at by (apply W || done). obind. by injection E as <- _.
Qed.

(** the first entry of the queue *)
Definition first_entry q (n k : Z) : Prop :=
  pqueue_top q = Ret (Some n) ∧ (∃ d, live q !! n = Some (k, d)) ∧
  ∀ n' k' d', live q !! n' = Some (k', d') → k ≤ k'.

Lemma first_exists q : wf q → 0 < size q → ∃ n k, first_entry q n k.
Proof.
  intros W Hs. destruct (top_spec q W Hs) as [Et El].
  exists (hget q 0), (kpos q 0). split_and!; [done|by eexists|].
  intros n' k' d' (i & Hi & <- & E)%live_lookup; [|apply W]. injection E as <- <-.
  fold (kpos q i). apply (root_min q (wf_ordered q W) (Z.to_nat i)); lia.
Qed.

Lemma first_unique q n k n' k' : first_entry q n k → first_entry q n' k' → n = n' ∧ k = k'.
Proof. intros (E & (d & L) & _) (E' & (d' & L') & _). rewrite E in E'. by simplify_eq. Qed.

Lemma first_top_key q n k : wf q → first_entry q n k → top_key q = Ret k.
Proof.
  intros W (E & (d & L) & _). unfold top_key. rewrite E. obind. by eapply node_key_live.
Qed.

Lemma settime_ok t d : 0 ≤ d → timerfd_settime t (us_to_its d) =
  Ret (MkTimeouts (timeout_queue t) (time_elapsed t) (us_to_its d)).
Proof.
  intros Hd. unfold timerfd_settime, us_to_its; cbn [it_value tv_sec tv_nsec].
  pose proof (Z.quot_pos d 1000000). pose proof (Z.rem_bound_pos d 1000000).
  replace (_ && _) with true; [done|]. symmetry. lia.
Qed.

(** At the instant [now] the queue holds its timeouts as instants after now and
    the timer, with [left] microseconds to go, expires at the first of them. *)
Definition synced t (now left : Z) : Prop :=
  wf (timeout_queue t) ∧ 0 ≤ now ∧ 0 ≤ left ∧
  (0 < size (timeout_queue t) → ∃ n, first_entry (timeout_queue t) n (now + left)).

(** the instant the next timeout counts from: an empty queue starts over *)
Definition epoch t (now : Z) : Z := if 0 <? size (timeout_queue t) then now else 0.
End Spec.

(** ** Properties *)

(** the key of a new timeout *)
Lemma insert_key t now left timer micros : synced t now left → its_to_us timer = Ret left →
  0 ≤ micros → 0 ≤ time_elapsed t → now + left + micros + time_elapsed t < 2 ^ 31 →
  let late := if 0 <? size (timeout_queue t) then time_elapsed t else 0 in
  (if 0 <? size (timeout_queue t)
   then timerspec ← sys_check (Some timer); n ← int_ (micros + time_elapsed t);
        k ← top_key (timeout_queue t); n ← int_ (n + k); us ← its_to_us timerspec; n ← int_ (n - us);
        Ret (n, time_elapsed t)
   else Ret (micros, 0)) = Ret (epoch t now + micros + late, late).
Proof.
  intros (W & Hnow & Hleft & Hfirst) El Hm Hte Hsum late. unfold late, epoch.
  destruct (Z.ltb_spec 0 (size (timeout_queue t))) as [H|H]; [|by rewrite Z.add_0_r].
  destruct (Hfirst H) as [n Hf]. cbn [sys_check]. obind.
  rewrite int_ok by (unfold is_int; lia). obind.
  rewrite (first_top_key _ n _ W Hf). obind. rewrite int_ok by (unfold is_int; lia). obind.
  rewrite El. obind. rewrite int_ok by (unfold is_int; lia). obind. do 2 f_equal. lia.
Qed.

(** [C9] Inserting a timeout of a request that has none, when the timer agrees
    with the queue, adds one entry for that request whose instant is the
    present one plus the microseconds asked for plus time_elapsed (0 unless a
    first timeout was removed since the queue was empty), and leaves the other
    entries and requests alone; the timer is set to the microseconds asked for
    if the new entry comes first and left alone otherwise. So the timer agrees
    with the queue again exactly when time_elapsed is 0: otherwise the new
    timeout is late by time_elapsed. *)
Theorem insert_timeout_schedules (t : timeouts) (st : reqs_t) (id micros now left r : Z)
    (timer : itimerspec) :
  synced t now left → size (timeout_queue t) < capacity (timeout_queue t) →
  Request.req_get_by_id st id = Some r → timeout_node (Request.req_at st r) = None →
  its_to_us timer = Ret left →
  0 ≤ micros → 0 ≤ time_elapsed t → now + left + micros + time_elapsed t < 2 ^ 31 →
  let late := if 0 <? size (timeout_queue t) then time_elapsed t else 0 in
  let key := epoch t now + micros + late in
  ∃ t' p, insert_timeout t st id micros (Some timer) =
      Ret (t', Request.upd st r (fun q => set_timeout_node q (Some p))) ∧
    live (timeout_queue t') = <[p := (key, d_value id)]> (live (timeout_queue t)) ∧
    live (timeout_queue t) !! p = None ∧
    ((first_entry (timeout_queue t') p key ∧ timerfd t' = us_to_its micros ∧
      (late = 0 → synced t' (epoch t now) micros)) ∨
     (0 < size (timeout_queue t) ∧ timerfd t' = timerfd t ∧ synced t' now left)).
Proof.
  intros Hsync Hroom Er Hn El Hm Hte Hsum late key.
  pose proof (insert_key t now left timer micros Hsync El Hm Hte Hsum) as Ekey.
  cbv zeta in Ekey. fold late key in Ekey. destruct Hsync as (W & Hnow & Hleft & Hfirst).
  unfold insert_timeout. rewrite Er, Hn. unfold pqueue_size.
  set (q := timeout_queue t) in *. unfold epoch in key. fold q in key.
  assert (Hs : 0 ≤ size q) by apply W.
  rewrite Ekey. obind.
  destruct (insert_spec q key (d_value id) W Hroom) as (q' & p & E & W' & Lp & L' & Es & Ec).
  rewrite E. obind. destruct (first_exists q' W') as (n & k & Hf); [lia|].
  pose proof Hf as (Et & (d & Ln) & Hmin). rewrite Et. obind.
  assert (Hkey : n = p → k = key).
  { intros ->. rewrite L', lookup_insert_eq in Ln. congruence. }
  case_bool_decide as Ep.
  - rewrite settime_ok by done. obind. eexists _, p. split; [done|]. cbn [timeout_queue timerfd].
    split; [done|]. split; [done|]. left. injection Ep as ->. rewrite (Hkey eq_refl) in *.
    split; [done|]. split; [done|]. intros Hl.
    assert (key = epoch t now + micros) by (unfold key, epoch; fold q; lia).
    split_and!; [done|unfold epoch; destruct (0 <? _); lia|done|].
    intros _. exists p. by replace (epoch t now + micros) with key.
  - obind. eexists _, p. split; [done|]. cbn [timeout_queue timerfd].
    split; [done|]. split; [done|]. right.
    assert (Hnp : n ≠ p) by congruence.
    assert (Hlive : live q !! n = Some (k, d)).
    { rewrite L', lookup_insert_ne in Ln; congruence. }
    assert (0 < size q).
    { apply live_lookup in Hlive as (i & Hi & _); [lia|apply W]. }
    split; [done|]. split; [done|]. split_and!; [done|done|done|]. intros _.
    destruct (Hfirst ltac:(done)) as (n0 & _ & (d0 & L0) & Hmin0).
    pose proof (Hmin0 n k d Hlive).
    assert (Hn0 : live q' !! n0 = Some (now + left, d0)).
    { rewrite L', lookup_insert_ne; [done|]. intros ->. congruence. }
    pose proof (Hmin n0 _ _ Hn0). assert (k = now + left) as -> by lia. by exists n.
Qed.

(** [C10] Removing the timeout of a request, when the timer agrees with the
    queue, takes out exactly that entry, forgets its handle in the request and
    returns the time that remained. Unless it came first the timer is left
    alone; if it did, the timer is set to what remains until the next one and
    time_elapsed to the present instant, or both to 0 if the queue is empty
    now, so that the timer agrees with the queue again. (A next timeout due
    at this very instant sets the timer to 0, which disarms it.) *)
Theorem remove_timeout_resyncs (t : timeouts) (st : reqs_t) (id now left r p k : Z) (d : data_t)
    (timer timer2 : itimerspec) :
  synced t now left → Request.req_get_by_id st id = Some r →
  timeout_node (Request.req_at st r) = Some p → live (timeout_queue t) !! p = Some (k, d) →
  its_to_us timer = Ret left → now + left < 2 ^ 31 →
  (∀ n k d, live (timeout_queue t) !! n = Some (k, d) → k < 2 ^ 31) →
  ∃ t', remove_timeout t st id (Some timer) (Some timer2) =
      Ret (t', Request.upd st r (fun q => set_timeout_node q None), k - now) ∧
    live (timeout_queue t') = delete p (live (timeout_queue t)) ∧
    ((¬ first_entry (timeout_queue t) p k ∧ synced t' now left ∧
      timerfd t' = timerfd t ∧ time_elapsed t' = time_elapsed t) ∨
     (first_entry (timeout_queue t) p k ∧ ∃ next, 0 ≤ next ∧ timerfd t' = us_to_its next ∧
      if 0 <? size (timeout_queue t') then synced t' now next ∧ time_elapsed t' = now
      else next = 0 ∧ time_elapsed t' = 0)).
Proof.
  intros (W & Hnow & Hleft & Hfirst) Er Hn Lp El Hsum Hbound. unfold remove_timeout.
  rewrite Er, Hn. set (q := timeout_queue t) in *.
  assert (Hs : 0 < size q).
  { pose proof Lp as (i & Hi & _)%live_lookup; [lia|apply W]. }
  destruct (Hfirst Hs) as (n0 & Hf). pose proof Hf as (Et & (d0 & L0) & Hmin).
  rewrite Et. obind. rewrite (node_key_live q p k d W Lp). cbn [sys_check]. obind.
  rewrite (first_top_key q n0 _ W Hf). obind. rewrite El. obind.
  rewrite int_ok by (unfold is_int; lia). obind.
  replace (now + left - left) with now by lia.
  destruct (remove_spec q p _ W Lp) as (q' & E & W' & L' & Es & Ec). rewrite E. obind.
  pose proof (Hmin p k d Lp). pose proof (Hbound p k d Lp).
  rewrite int_ok by (unfold is_int; lia). obind. unfold pqueue_size.
  case_bool_decide as Ep; cbn [negb].
  - injection Ep as ->. assert (k = now + left) as -> by congruence.
    destruct (Z.ltb_spec 0 (size q')) as [Hs'|Hs'].
    + destruct (first_exists q' W' Hs') as (n & k' & Hf').
      rewrite (first_top_key q' n k' W' Hf'). obind.
      pose proof Hf' as (_ & (d' & Ln) & _). rewrite L' in Ln.
      apply lookup_delete_Some in Ln as [_ Ln].
      pose proof (Hmin n k' d' Ln). pose proof (Hbound n k' d' Ln).
      rewrite int_ok by (unfold is_int; lia). obind. rewrite settime_ok by lia. obind.
      eexists. split; [done|]. cbn [timeout_queue timerfd time_elapsed]. split; [done|].
      right. split; [done|]. exists (k' - now). split; [lia|]. split; [done|].
      rewrite (proj2 (Z.ltb_lt _ _)) by done. split; [|done]. split_and!; [done|lia|lia|].
      intros _. exists n. by replace (now + (k' - now)) with k' by lia.
    + rewrite settime_ok by lia. obind. eexists. split; [done|].
      cbn [timeout_queue timerfd time_elapsed]. split; [done|]. right. split; [done|].
      exists 0. split; [done|]. split; [done|]. by rewrite (proj2 (Z.ltb_ge _ _)).
  - eexists. split; [done|]. cbn [timeout_queue timerfd time_elapsed]. split; [done|]. left.
    split; [|split; [|by split]].
    { intros Hp. apply Ep. f_equal. by apply (first_unique q n0 (now + left) p k). }
    split; [done|]. split; [done|]. split; [done|]. cbn [timeout_queue].
    intros Hs'. destruct (first_exists q' W' Hs') as (n & k' & Hf').
    pose proof Hf' as (_ & (d' & Ln) & Hmin'). rewrite L' in Ln.
    apply lookup_delete_Some in Ln as [_ Ln]. pose proof (Hmin n k' d' Ln).
    assert (Ln0 : live q' !! n0 = Some (now + left, d0)).
    { rewrite L', lookup_delete_ne; [done|]. congruence. }
    pose proof (Hmin' n0 _ _ Ln0). assert (k' = now + left) as -> by lia. by exists n.
Qed.

(** three timeouts at 30, 10 and 20, seen at the instant 4 *)
Definition three_timeouts : timeouts := MkTimeouts three_q 0 (us_to_its 10).
Definition timed_reqs : reqs_t :=
  Request.upd three_linked 1 (fun q => set_timeout_node q (Some 2)).

Lemma three_first : first_entry three_q 2 10.
Proof.
  destruct (first_exists three_q three_wf) as (n & k & H); [reflexivity|].
  pose proof H as (Et & (d & L) & _). vm_compute in Et. injection Et as <-.
  vm_compute in L. by injection L as <- _.
Qed.

Lemma three_synced : synced three_timeouts 4 6.
Proof.
  split; [exact three_wf|]. split; [lia|]. split; [lia|]. intros _. exists 2. exact three_first.
Qed.

Lemma insert_timeout_schedules_witness :
  ∃ t' p, insert_timeout three_timeouts three_linked 0 3 (Some (us_to_its 6)) =
      Ret (t', Request.upd three_linked 0 (fun q => set_timeout_node q (Some p))) ∧
    live (timeout_queue t') = <[p := (7, d_value 0)]> (live three_q) ∧
    live three_q !! p = None ∧
    ((first_entry (timeout_queue t') p 7 ∧ timerfd t' = us_to_its 3 ∧
      (0 = 0 → synced t' 4 3)) ∨
     (0 < 3 ∧ timerfd t' = us_to_its 10 ∧ synced t' 4 6)).
Proof.
  apply (insert_timeout_schedules three_timeouts three_linked 0 3 4 6 0 (us_to_its 6) three_synced);
    try reflexivity; cbn; lia.
Defined.

Lemma remove_timeout_resyncs_witness :
  ∃ t', remove_timeout three_timeouts timed_reqs 1 (Some (us_to_its 6)) (Some (us_to_its 6)) =
      Ret (t', Request.upd timed_reqs 1 (fun q => set_timeout_node q None), 6) ∧
    live (timeout_queue t') = delete 2 (live three_q) ∧
    ((¬ first_entry three_q 2 10 ∧ synced t' 4 6 ∧
      timerfd t' = us_to_its 10 ∧ time_elapsed t' = 0) ∨
     (first_entry three_q 2 10 ∧ ∃ next, 0 ≤ next ∧ timerfd t' = us_to_its next ∧
      if 0 <? size (timeout_queue t') then synced t' 4 next ∧ time_elapsed t' = 4
      else next = 0 ∧ time_elapsed t' = 0)).
Proof.
  apply (remove_timeout_resyncs three_timeouts timed_reqs 1 4 6 1 2 10 (d_value 100)
    (us_to_its 6) (us_to_its 6) three_synced); try reflexivity.
  intros n k d (i & Hi & <- & E)%live_lookup; [|apply three_wf].
  assert (i = 0 ∨ i = 1 ∨ i = 2) as [->|[->| ->]] by (cbn in Hi; lia);
    vm_compute in E; injection E as <- _; reflexivity.
Defined.
