(* ===== verification/Invariant.v ===== *)
(** * The invariant of the shared tables

    What every operation on the requests, the connections and the heap keeps:
    an id designates one entry of the table of requests, a live request belongs
    to an entry of the table of connections, entries of that table are within
    it, and blocks of the heap are never handed out twice. One lemma per
    operation, in the database [wf]. *)

From S2P Require Import Prelude Timespec Memory Message Request Connection Timeout.

Local Open Scope Z_scope.

Import Request Connection.

(** ** Requests *)

Definition owned (st : reqs_t) : Prop :=
  ∀ i, req_id (req_at st i) ≠ -1 → 0 ≤ r_conn_id (req_at st i) < MAX_CONNS.
Definition reqs_wf (st : reqs_t) : Prop := ids_wf st ∧ owned st.

(** an update of the other fields *)
Definition keeps_owner (f : req_info_t → req_info_t) : Prop :=
  ∀ q, req_id (f q) = req_id q ∧ r_conn_id (f q) = r_conn_id q.

#[export] Hint Extern 1 (keeps_owner _) => (intros ?; done) : wf.

Lemma reqs_wf_upd st r f : reqs_wf st → keeps_owner f → reqs_wf (upd st r f).
Proof.
  intros [W O] K. split; intros i; rewrite req_at_upd; case_decide as E; subst.
  - destruct (K (req_at st i)) as [-> _]. apply W.
  - apply W.
  - destruct (K (req_at st i)) as [-> ->]. apply O.
  - apply O.
Qed.
#[export] Hint Resolve reqs_wf_upd : wf.

Lemma reqs_wf_release st r f : reqs_wf st → req_id (f (req_at st r)) = -1 → reqs_wf (upd st r f).
Proof.
  intros [W O] K. split; intros i; rewrite req_at_upd; case_decide as E; subst.
  - by left.
  - apply W.
  - by rewrite K.
  - apply O.
Qed.

Lemma reqs_wf_unlink st r : reqs_wf st → reqs_wf (req_unlink st r).1.
Proof.
  intros W. unfold req_unlink. cbn [fst]. apply reqs_wf_release; [|done].
  repeat case_match; eauto with wf nocore.
Qed.
#[export] Hint Resolve reqs_wf_unlink : wf.

Lemma reqs_wf_refuse st : reqs_wf st → (req_alloc st).2 = None → reqs_wf (req_alloc st).1.
Proof. unfold req_alloc. intros W. by case_match. Qed.

Lemma reqs_wf_alloc st r f c : reqs_wf st → (req_alloc st).2 = Some r → 0 ≤ c < MAX_CONNS →
  (∀ q, req_id (f q) = req_id q ∧ r_conn_id (f q) = c) → reqs_wf (upd (req_alloc st).1 r f).
Proof.
  intros [W O] E Hc K. pose proof (alloc_spec st W) as [A _].
  destruct (req_alloc st) as [st' [r'|]]; [|done]. injection E as ->. cbn [fst].
  destruct A as (_ & _ & W' & _ & _ & _ & _ & _ & Ho). split; intros i; rewrite req_at_upd.
  - case_decide as E; subst; [destruct (K (req_at st' i)) as [-> _]|]; apply W'.
  - case_decide as E; subst; [by destruct (K (req_at st' i)) as [_ ->]|].
    rewrite Ho by done. apply O.
Qed.

(** ** The world *)

Record world_wf (w : world) : Prop := WorldWf {
  wf_reqs : reqs_wf (w_reqs w);
  wf_mem : mem_wf (w_mem w);
  wf_conns : ∀ c, is_Some (w_conns w !! c) → 0 ≤ c < MAX_CONNS
}.
#[export] Hint Resolve conj wf_reqs wf_mem : wf.

Lemma wf_set_conn w c x : world_wf w → 0 ≤ c < MAX_CONNS → world_wf (set_conn w c x).
Proof.
  intros [R M C] Hc. split; [done|done|]. intros i. cbn [set_conn w_conns].
  rewrite lookup_insert. case_decide; [by subst|apply C].
Qed.
Lemma wf_set_mem w h : world_wf w → mem_wf h → world_wf (set_mem w h).
Proof. by intros [R M C]. Qed.
Lemma wf_set_reqs w st : world_wf w → reqs_wf st → world_wf (set_reqs w st).
Proof. by intros [R M C]. Qed.
#[export] Hint Resolve wf_set_conn wf_set_mem wf_set_reqs : wf.

Lemma get_conn_wf w c : ensures (get_conn w c) (fun _ => 0 ≤ c < MAX_CONNS).
Proof. unfold get_conn. destruct (_ && _) eqn:E; [|done]. cbn. lia. Qed.
#[export] Hint Resolve get_conn_wf : wf.

(** ** The heap *)

Lemma mem_block_wf h p : ensures (mem_block h p) (fun x => is_Some (blocks h !! x.1.1)).
Proof. destruct p as [|b o]; cbn; [done|]. destruct (blocks h !! b) eqn:E; cbn; [by rewrite E|done]. Qed.
#[export] Hint Resolve mem_block_wf mem_wf_put : wf.

Lemma mem_store_wf n h p v : mem_wf h → ensures (mem_store n h p v) mem_wf.
Proof. unfold mem_store. ens. Qed.
Lemma mem_move_wf h d s n : mem_wf h → ensures (mem_move h d s n) mem_wf.
Proof. unfold mem_move. ens. Qed.
Lemma mem_write_wf h p data : mem_wf h → ensures (mem_write h p data) mem_wf.
Proof. unfold mem_write. ens. Qed.
Lemma mem_free_wf h p : mem_wf h → ensures (mem_free h p) mem_wf.
Proof.
  unfold mem_free. intros W. repeat ens_step; [done|]. intros i Hi. cbn [blocks next_block] in *.
  rewrite lookup_delete. case_decide; [done|]. by apply W.
Qed.
Lemma mem_calloc_wf h n : mem_wf h → mem_wf (mem_calloc h n).1.
Proof. intros W. pose proof (mem_calloc_spec h n W) as H. destruct (mem_calloc h n). naive_solver. Qed.
#[export] Hint Resolve mem_store_wf mem_move_wf mem_write_wf mem_free_wf mem_calloc_wf : wf.

(** ** Connections *)

Lemma conn_set_status_wf w c s : world_wf w →
  ensures (conn_set_status w c s) (fun r => world_wf r.1).
Proof. unfold conn_set_status. ens. Qed.
Lemma conn_req_add_wf w c : world_wf w → ensures (conn_req_add w c) (fun r => world_wf r.1).
Proof.
  intros W. unfold conn_req_add. destruct (req_alloc (w_reqs w)) as [st [r|]] eqn:E.
  - repeat ens_step. cbn [fst]. apply wf_set_conn; [|done]. apply wf_set_reqs; [done|].
    assert (A : reqs_wf (upd st r (fun q => set_links (set_owner q c (target a)) (prev q) (req_list a)))).
    { change st with ((st, Some r).1). rewrite <- E. apply (reqs_wf_alloc _ _ _ c); [by apply wf_reqs| |done|done].
      by rewrite E. }
    case_match; eauto with wf nocore.
  - cbn. apply wf_set_reqs; [done|]. change st with ((st, @None Z).1). rewrite <- E.
    apply reqs_wf_refuse; [by apply wf_reqs|by rewrite E].
Qed.

Lemma unlink_all_wf fuel st t : reqs_wf st → ensures (unlink_all fuel st t) reqs_wf.
Proof.
  revert st t. induction fuel as [|fuel IH]; intros st [r|] W; cbn [unlink_all]; [done..| |done].
  pose proof (reqs_wf_unlink st r W). destruct (req_unlink st r). by apply IH.
Qed.
#[export] Hint Resolve unlink_all_wf : wf.

Lemma conn_reset_wf w c : world_wf w → ensures (conn_reset w c) world_wf.
Proof. unfold conn_reset. ens. Qed.
#[export] Hint Resolve conn_set_status_wf conn_req_add_wf conn_reset_wf : wf.

Lemma shift_newer_wf fuel st t n : reqs_wf st → ensures (shift_newer fuel st t n) reqs_wf.
Proof.
  revert st t. induction fuel as [|fuel IH]; intros st [i|] W; cbn [shift_newer]; [done..| |done].
  ens.
Qed.
#[export] Hint Resolve shift_newer_wf : wf.

Lemma defragment_wf w c r : world_wf w → ensures (defragment w c r) world_wf.
Proof. unfold defragment. ens. Qed.
#[export] Hint Resolve defragment_wf : wf.

Lemma conn_req_remove_wf w c r : world_wf w → ensures (conn_req_remove w c r) (fun x => world_wf x.1).
Proof.
  unfold conn_req_remove. intros W. ens_step. ens_step. apply ensures_bind.
  apply ensures_any. intros inside. apply ensures_bind.
  assert (A : ensures (if inside then defragment w c r else Ret w) world_wf)
    by (destruct inside; [by apply defragment_wf|done]).
  eapply ensures_mono; [exact A|]. clear A. intros w' W'. repeat ens_step.
  pose proof (reqs_wf_unlink (w_reqs w') r (wf_reqs _ W')) as U.
  destruct (req_unlink _ _). injection E as <- <-. eauto with wf nocore.
Qed.

Lemma find_conn_range p w : find_conn p w ≠ -1 → 0 ≤ find_conn p w < MAX_CONNS.
Proof. destruct (find_conn_spec p w) as [(H & _)|[H _]]; [done|congruence]. Qed.

Lemma conn_del_id_wf w c : world_wf w → ensures (conn_del_id w c) world_wf.
Proof. unfold conn_del_id. ens. Qed.
#[export] Hint Resolve conn_req_remove_wf conn_del_id_wf : wf.
Lemma conn_del_sock_wf w s : world_wf w → ensures (conn_del_sock w s) (fun r => world_wf r.1).
Proof. unfold conn_del_sock. ens. Qed.
Lemma conn_free_wf w c : world_wf w → ensures (conn_free w c) world_wf.
Proof. unfold conn_free. ens. Qed.

Lemma conn_alloc_wf w self b1 b2 s t p : world_wf w →
  ensures (conn_alloc w self b1 b2 s t p) (fun r => world_wf r.1 ∧ (r.2 ≠ -1 → 0 ≤ r.2 < MAX_CONNS)).
Proof.
  intros W. unfold conn_alloc, first_free. pose proof (find_conn_range (fun c => busy c =? 0) w) as Hr.
  destruct (Z.eqb_spec (find_conn (fun c => busy c =? 0) w) (-1)) as [E|E]; [done|].
  specialize (Hr E). clear E. revert Hr. generalize (find_conn (fun c => busy c =? 0) w). intros id Hr.
  destruct (negb _); [split; [eauto with wf nocore|done]|].
  set (w1 := set_conn w id _). assert (W1 : world_wf w1) by (unfold w1; eauto with wf nocore).
  pose proof (mem_calloc_wf (w_mem w1) BUF_SIZE (wf_mem _ W1)) as M1.
  destruct (mem_calloc (w_mem w1) BUF_SIZE) as [h1 rb]. cbn [fst] in M1.
  pose proof (mem_calloc_wf h1 BUF_SIZE M1) as M2. destruct (mem_calloc h1 BUF_SIZE) as [h2 sb].
  cbn [fst] in M2. repeat ens_step. split; [|done]. eauto with wf nocore.
Qed.
#[export] Hint Resolve conn_del_sock_wf conn_free_wf conn_alloc_wf : wf.

(** ** Sending and receiving *)

Lemma conn_prepare_send_message_wf w c : world_wf w →
  ensures (conn_prepare_send_message w c) (fun r => world_wf r.1 ∧ 0 ≤ c < MAX_CONNS).
Proof. unfold conn_prepare_send_message. ens. Qed.
Lemma conn_prepare_recv_message_wf w c : world_wf w →
  ensures (conn_prepare_recv_message w c) (fun r => world_wf r.1).
Proof. unfold conn_prepare_recv_message. ens. Qed.
#[export] Hint Resolve conn_prepare_send_message_wf conn_prepare_recv_message_wf : wf.

Lemma conn_send_wf w c a la : world_wf w → ensures (conn_send w c a la) (fun r => world_wf r.1).
Proof. unfold conn_send, conn_ssl_send. ens. Qed.
#[export] Hint Resolve conn_send_wf : wf.
Lemma conn_start_send_wf w c t a la : world_wf w →
  ensures (conn_start_send w c t a la) (fun r => world_wf r.1).
Proof. unfold conn_start_send. ens. Qed.
Lemma conn_send_v2_wf w c l fa : world_wf w → ensures (conn_send_v2 w c l fa) (fun r => world_wf r.1).
Proof. unfold conn_send_v2. ens. Qed.
#[export] Hint Resolve conn_start_send_wf conn_send_v2_wf : wf.
Lemma conn_start_sendfile_wf w c t fd o n l fa : world_wf w →
  ensures (conn_start_sendfile w c t fd o n l fa) (fun r => world_wf r.1).
Proof. unfold conn_start_sendfile. ens. Qed.
Lemma conn_flush_wf w c a la l fa : world_wf w →
  ensures (conn_flush w c a la l fa) (fun r => world_wf r.1).
Proof. unfold conn_flush. ens. Qed.

Lemma receive_wf w c conn data : world_wf w → 0 ≤ c < MAX_CONNS →
  ensures (receive w c conn data) world_wf.
Proof. unfold receive. ens. Qed.
#[export] Hint Resolve receive_wf : wf.
Lemma conn_recv_wf w c a la : world_wf w → ensures (conn_recv w c a la) (fun r => world_wf r.1).
Proof. unfold conn_recv, conn_ssl_recv. ens. Qed.
Lemma conn_do_ssl_handshake_wf w c a : world_wf w →
  ensures (conn_do_ssl_handshake w c a) (fun r => world_wf r.1).
Proof. unfold conn_do_ssl_handshake. ens. Qed.
Lemma conn_enable_ssl_wf w c new fd s : world_wf w →
  ensures (conn_enable_ssl w c new fd s) (fun r => world_wf r.1).
Proof. unfold conn_enable_ssl. ens. Qed.
#[export] Hint Resolve conn_start_sendfile_wf conn_flush_wf conn_recv_wf : wf.
#[export] Hint Resolve conn_do_ssl_handshake_wf conn_enable_ssl_wf : wf.

(** ** Timeouts *)

Lemma insert_timeout_wf t st id us timer : reqs_wf st →
  ensures (insert_timeout t st id us timer) (fun r => reqs_wf r.2).
Proof. unfold insert_timeout. ens. Qed.
Lemma remove_timeout_wf t st id timer timer2 : reqs_wf st →
  ensures (remove_timeout t st id timer timer2) (fun r => reqs_wf r.1.2).
Proof. unfold remove_timeout. ens. Qed.
#[export] Hint Resolve insert_timeout_wf remove_timeout_wf : wf.
