(* ===== verification/Storage.v ===== *)
(** * Storage workers (src/src/dw_node.c: safe_write, safe_read, store, load,
    storage_worker)

    A storage worker executes the STORE and LOAD commands sent by the workers
    of the connections. The answers of write() and read() are arguments: the
    lists of the values returned by the successive calls, of which a function
    gives back what it did not use; a list that runs out is a loop that still
    waits. What the functions do to the file and to the pipes is the list of
    calls they return, in order. *)

From Stdlib Require Import Sorted.
From S2P Require Import Prelude Message Queue PQueue.

Local Open Scope Z_scope.

(** the calls on the file and on the reply pipes *)
Inductive io :=
  | Seek (offset : Z)
  | Wrote (n : Z)
  | DidRead (n : Z)
  | Fsync
  | Reply (worker_id req_id : Z).

Record storage_info_t := MkStorage {
  use_odirect : Z;
  max_storage_size : Z;
  storage_offset : Z
}.
Definition at_offset (i : storage_info_t) (o : Z) : storage_info_t :=
  MkStorage (use_odirect i) (max_storage_size i) o.

(** [storage_req_t]: the command with its options *)
Inductive storage_cmd :=
  | C_store (s : store_opts_t)
  | C_load (l : load_opts_t)
  | C_other.
Record storage_req_t := MkStorageReq { worker_id : Z; sr_req_id : Z; sr_cmd : storage_cmd }.

Record storage_worker_info_t := MkWorker {
  periodic_sync_msec : Z;
  sync_waiting_queue : PQueue.pqueue_t;
  storage_info : storage_info_t
}.

Module Storage.

(** returns 0, or -1 when a write fails *)
Fixpoint safe_write (answers : list Z) (len : Z) : outcome (Z * list Z) :=
  if 0 <? len then
    match answers with
    | [] => Stop OutOfFuel
    | written :: answers =>
        if written <? 0 then Ret (-1, answers) else safe_write answers (u64 (len - written))
    end
  else Ret (0, answers).

(** [last]: len_on_last_seek; with the calls on the file *)
Fixpoint read_loop (answers : list Z) (len last : Z) : outcome (Z * list Z * list io) :=
  if 0 <? len then
    match answers with
    | [] => Stop OutOfFuel
    | received :: answers =>
        if received <? 0 then Ret (-1, answers, [])
        else if received =? 0 then
          if (0 <? last) && (last =? len) then Ret (0, answers, [])
          else
            '(rv, answers, tr) ← read_loop answers len len;
            Ret (rv, answers, Seek 0 :: tr)
        else
          '(rv, answers, tr) ← read_loop answers (u64 (len - received)) last;
          Ret (rv, answers, DidRead received :: tr)
    end
  else Ret (0, answers, []).
Definition safe_read (answers : list Z) (len : Z) : outcome (Z * list Z * list io) :=
  read_loop answers len 0.

(** the [while (stored_bytes < total_bytes)] of store: every turn but the last
    writes BUF_SIZE bytes *)
Fixpoint store_loop (fuel : nat) (answers : list Z) (stored total : Z) : outcome (list Z * list io) :=
  match fuel with
  | O => Stop OutOfFuel
  | S fuel =>
      if stored <? total then
        let bytes := if BUF_SIZE <? u64 (total - stored) then BUF_SIZE else u64 (total - stored) in
        '(rv, answers) ← safe_write answers bytes;
        _ ← check (negb (rv =? -1));
        '(answers, tr) ← store_loop fuel answers (u64 (stored + bytes)) total;
        Ret (answers, Wrote bytes :: tr)
      else Ret (answers, [])
  end.

(** up to a multiple of blk_size, in 64 bits; blk_size 0 divides by zero *)
Definition round_up (blk n : Z) : outcome Z :=
  if blk =? 0 then Stop UB else Ret (u64 (u64 (n + blk - 1) / blk * blk)).

(** [offset] and the -1 it is compared with are 32-bit; [seek_ok]: lseek does
    not fail *)
Definition no_offset : Z := 2 ^ 32 - 1.

Definition store (blk_size : Z) (msec : Z) (info : storage_info_t) (opts : store_opts_t)
    (seek_ok : bool) (answers : list Z) : outcome (storage_info_t * list Z * list io) :=
  let total := store_nbytes opts in
  let offset := u32 (store_offset opts) in
  '(total, offset) ←
    (if use_odirect info =? 0 then Ret (total, offset)
     else t ← round_up blk_size total; o ← round_up blk_size offset; Ret (t, u32 o));
  let '(info, tr, failed) :=
    if negb (offset =? no_offset) then
      if seek_ok then (at_offset info offset, [Seek offset], false) else (info, [Seek offset], true)
    else if max_storage_size info <? u64 (storage_offset info + total)
    then (at_offset info 0, [Seek 0], false)
    else (info, [], false) in
  if (failed : bool) then Ret (info, answers, tr)
  else
    '(answers, tw) ← store_loop (S (Z.to_nat (total / BUF_SIZE + 1))) answers 0 total;
    let info := at_offset info (u64 (storage_offset info + total)) in
    let sync := if negb (wait_sync opts =? 0) && (msec <=? 0) then [Fsync] else [] in
    Ret (info, answers, tr ++ tw ++ sync).

Fixpoint load_loop (fuel : nat) (answers : list Z) (done total : Z) : outcome (list Z * list io) :=
  match fuel with
  | O => Stop OutOfFuel
  | S fuel =>
      if done <? total then
        let bytes := if BUF_SIZE <? u64 (total - done) then BUF_SIZE else u64 (total - done) in
        '(rv, answers, tr) ← safe_read answers bytes;
        _ ← check (negb (rv =? -1));
        if bytes =? 0 then Ret (answers, tr)
        else
          '(answers, tr') ← load_loop fuel answers (u64 (done + bytes)) total;
          Ret (answers, tr ++ tr')
      else Ret (answers, [])
  end.

Definition load (info : storage_info_t) (opts : load_opts_t) (seek_ok : bool) (answers : list Z)
    : outcome (storage_info_t * list Z * list io) :=
  let total := load_nbytes opts in
  let offset := u32 (load_offset opts) in
  let '(info, tr, failed) :=
    if negb (offset =? no_offset) then
      if seek_ok then (at_offset info offset, [Seek offset], false) else (info, [Seek offset], true)
    else (info, [], false) in
  if (failed : bool) then Ret (info, answers, tr)
  else
    '(answers, tl) ← load_loop (S (Z.to_nat (total / BUF_SIZE + 1))) answers 0 total;
    Ret (at_offset info (u64 (storage_offset info + total)), answers, tr ++ tl).

(** ** The worker *)

(** what dw_poll_next gives the worker, with what is read from the descriptor *)
Inductive event :=
  | E_termination
  | E_timer (read_ok : bool)
  | E_storage (req : option storage_req_t) (seek_ok : bool) (answers : list Z)
  | E_unknown.

(** the loop that empties the queue of the requests waiting for the periodic
    sync; the result of the write on the reply pipe is not looked at *)
Fixpoint sync_loop (fuel : nat) (q : PQueue.pqueue_t) : outcome (PQueue.pqueue_t * list io) :=
  match fuel with
  | O => Stop OutOfFuel
  | S fuel =>
      if 0 <? PQueue.pqueue_size q then
        top ← PQueue.pqueue_top q;
        n ← deref top;
        worker ← PQueue.pqueue_node_key q n;
        d ← PQueue.pqueue_node_data q n;
        req ← match d with d_value v => Ret v | _ => Stop UB end;
        q ← PQueue.pqueue_pop q;
        '(q, tr) ← sync_loop fuel q;
        Ret (q, Reply worker req :: tr)
      else Ret (q, [])
  end.

(** one turn of the inner loop of storage_worker: the state, the calls, and
    whether the worker goes on *)
Definition handle_event (blk_size : Z) (w : storage_worker_info_t) (e : event)
    : outcome (storage_worker_info_t * list io * bool) :=
  let with_info i := MkWorker (periodic_sync_msec w) (sync_waiting_queue w) i in
  match e with
  | E_termination => Ret (w, [], false)
  | E_timer false => Ret (w, [], false)
  | E_timer true =>
      '(q, tr) ← sync_loop (S (Z.to_nat (PQueue.pqueue_size (sync_waiting_queue w))))
                   (sync_waiting_queue w);
      Ret (MkWorker (periodic_sync_msec w) q (storage_info w), Fsync :: tr, true)
  | E_storage None _ _ => Ret (w, [], false)
  | E_storage (Some r) seek_ok answers =>
      match sr_cmd r with
      | C_store opts =>
          '(i, _, tr) ← store blk_size (periodic_sync_msec w) (storage_info w) opts seek_ok answers;
          if negb (wait_sync opts =? 0) then
            if periodic_sync_msec w <=? 0
            then Ret (with_info i, tr ++ [Reply (worker_id r) (sr_req_id r)], true)
            else
              '(q, _) ← PQueue.pqueue_insert (sync_waiting_queue w) (worker_id r)
                          (d_value (sr_req_id r));
              Ret (MkWorker (periodic_sync_msec w) q i, tr, true)
          else Ret (with_info i, tr, true)
      | C_load opts =>
          '(i, _, tr) ← load (storage_info w) opts seek_ok answers;
          Ret (with_info i, tr ++ [Reply (worker_id r) (sr_req_id r)], true)
      | C_other => Ret (w, [], true)
      end
  | E_unknown => Ret (w, [], true)
  end.

(** the events in the order they are handled, up to one that ends the worker *)
Fixpoint run (blk_size : Z) (w : storage_worker_info_t) (es : list event)
    : outcome (storage_worker_info_t * list io) :=
  match es with
  | [] => Ret (w, [])
  | e :: es =>
      '(w, tr, go) ← handle_event blk_size w e;
      if (go : bool) then
        '(w, tr') ← run blk_size w es;
        Ret (w, tr ++ tr')
      else Ret (w, tr)
  end.

End Storage.

(** ** Specification: the acknowledgements *)

Import PQueue Storage.

(** the requests acknowledged by the calls, those waiting for the sync, and
    those a worker of connections waits for *)
Definition acks (tr : list io) : list (Z * data_t) :=
  omap (fun c => match c with Reply w r => Some (w, d_value r) | _ => None end) tr.
Definition waiting (q : pqueue_t) : list (Z * data_t) := (map_to_list (live q)).*2.
Definition asked (es : list event) : list (Z * data_t) :=
  omap (fun e =>
    match e with
    | E_storage (Some r) _ _ =>
        match sr_cmd r with
        | C_store o => if wait_sync o =? 0 then None else Some (worker_id r, d_value (sr_req_id r))
        | C_load _ => Some (worker_id r, d_value (sr_req_id r))
        | C_other => None
        end
    | _ => None
    end) es.

(** the two kinds of requests asked: the LOADs, and the STOREs with wait_sync *)
Definition loads (es : list event) : list (Z * data_t) :=
  omap (fun e =>
    match e with
    | E_storage (Some (MkStorageReq w id (C_load _))) _ _ => Some (w, d_value id)
    | _ => None
    end) es.
Definition synced_stores (es : list event) : list (Z * data_t) :=
  omap (fun e =>
    match e with
    | E_storage (Some (MkStorageReq w id (C_store o))) _ _ =>
        if wait_sync o =? 0 then None else Some (w, d_value id)
    | _ => None
    end) es.
Definition is_tick (e : event) : bool := match e with E_timer _ => true | _ => false end.

(** the events that end the worker *)
Definition ends (e : event) : bool :=
  match e with E_termination | E_timer false | E_storage None _ _ => true | _ => false end.

Definition key_le (a b : Z * data_t) : Prop := a.1 ≤ b.1.

(** the queue of a worker: well-formed, request ids as data *)
Definition sync_wf (q : pqueue_t) : Prop :=
  wf q ∧ ∀ n k d, live q !! n = Some (k, d) → ∃ v, d = d_value v.

Section Acks.
Implicit Types (q : pqueue_t) (tr : list io).

Lemma acks_app tr tr' : acks (tr ++ tr') = acks tr ++ acks tr'.
Proof. apply omap_app. Qed.

Lemma acks_seek o tr : acks (Seek o :: tr) = acks tr.
Proof. done. Qed.

(** calls that acknowledge nothing *)
Definition silent tr : Prop := acks tr = [].

Lemma waiting_delete q q' n e : live q !! n = Some e → live q' = delete n (live q) →
  waiting q ≡ₚ e :: waiting q'.
Proof.
  intros L L'. unfold waiting. rewrite L', <- (map_to_list_delete (live q) _ _ L). done.
Qed.

Lemma waiting_insert q q' n e : live q !! n = None → live q' = <[n := e]> (live q) →
  waiting q' ≡ₚ e :: waiting q.
Proof. intros L L'. unfold waiting. by rewrite L', map_to_list_insert. Qed.

Lemma waiting_elem q e : e ∈ waiting q → ∃ n, live q !! n = Some e.
Proof.
  intros ([n e'] & -> & Hin)%list_elem_of_fmap. exists n. by apply elem_of_map_to_list in Hin.
Qed.

Lemma sync_wf_insert q q' p k v : sync_wf q → wf q' → live q' = <[p := (k, d_value v)]> (live q) →
  sync_wf q'.
Proof.
  intros [_ V] W' L'. split; [done|]. intros n k' d. rewrite L'.
  intros [[_ [= _ <-]]|[_ L]]%lookup_insert_Some; [by eexists|by eapply V].
Qed.

Lemma sync_loop_spec fuel q : sync_wf q → size q < Z.of_nat fuel →
  ∃ q' tr, sync_loop fuel q = Ret (q', tr) ∧ wf q' ∧ live q' = ∅ ∧
    acks tr ≡ₚ waiting q ∧ StronglySorted key_le (acks tr) ∧ length (acks tr) = length tr.
Proof.
  revert q. induction fuel as [|fuel IH]; intros q [W V] Hf; pose proof (b_size q W); [lia|].
  cbn [sync_loop]. unfold pqueue_size. destruct (Z.ltb_spec 0 (size q)) as [Hs|Hs].
  2: { exists q, []. pose proof (live_empty q Hs) as L.
       split_and!; [done|done|done| |constructor|done]. unfold waiting. by rewrite L. }
  destruct (top_spec q W Hs) as [Et El]. destruct (pop_spec q W Hs) as (q' & Ep & W' & L' & Es & _).
  rewrite Et. obind. unfold pqueue_node_key, pqueue_node_data.
  rewrite !key_at by (apply W || lia). obind.
  set (n := nget q (hget q 0)) in *. destruct (V _ (key n) (data n) El) as [v Ev]. rewrite Ev. obind.
  rewrite Ep. obind.
  destruct (IH q') as (q2 & tr & E & W2 & L2 & P & S & Hl).
  { split; [done|]. intros m k d Hm. rewrite L' in Hm. apply lookup_delete_Some in Hm as [_ Hm].
    by eapply V. }
  { lia. }
  rewrite E. obind. eexists q2, _. split_and!; [done..| | |].
  - cbn. rewrite P. rewrite (waiting_delete q q' _ _ El L'). unfold entry. by rewrite Ev.
  - cbn. constructor; [done|]. apply Forall_forall. intros [k d] Hin%list_elem_of_In.
    apply list_elem_of_In in Hin. rewrite P in Hin. apply waiting_elem in Hin as [m Hm].
    rewrite L' in Hm. apply lookup_delete_Some in Hm as [_ Hm]. by apply (top_min q m k d).
  - cbn. f_equal. exact Hl.
Qed.

Lemma store_loop_silent fuel ans a b ans' tr : store_loop fuel ans a b = Ret (ans', tr) → silent tr.
Proof.
  revert ans a ans' tr. induction fuel as [|fuel IH]; intros ans a ans' tr; cbn [store_loop]; [done|].
  destruct (_ <? _); [|by intros [= _ <-]]. intros E.
  apply bind_Ret_inv in E as ([rv an] & _ & E). apply bind_Ret_inv in E as ([] & _ & E).
  apply bind_Ret_inv in E as ([an2 tr2] & E2 & E). injection E as _ <-.
  unfold silent. cbn. by eapply IH.
Qed.

Lemma read_loop_silent ans len last rv ans' tr : read_loop ans len last = Ret (rv, ans', tr) → silent tr.
Proof.
  revert len last rv ans' tr. induction ans as [|a ans IH]; intros len last rv ans' tr; cbn [read_loop];
    (destruct (0 <? len); [|by intros [= _ _ <-]]); [done|].
  destruct (a <? 0); [by intros [= _ _ <-]|]. destruct (a =? 0).
  - destruct (_ && _); [by intros [= _ _ <-]|]. intros E.
    apply bind_Ret_inv in E as ([[rv2 an2] tr2] & E2 & E). injection E as _ _ <-.
    unfold silent; cbn. by eapply IH.
  - intros E. apply bind_Ret_inv in E as ([[rv2 an2] tr2] & E2 & E). injection E as _ _ <-.
    unfold silent; cbn. by eapply IH.
Qed.

Lemma load_loop_silent fuel ans a b ans' tr : load_loop fuel ans a b = Ret (ans', tr) → silent tr.
Proof.
  revert ans a ans' tr. induction fuel as [|fuel IH]; intros ans a ans' tr; cbn [load_loop]; [done|].
  destruct (_ <? _); [|by intros [= _ <-]]. intros E.
  apply bind_Ret_inv in E as ([[rv an] tr1] & E1 & E). apply bind_Ret_inv in E as ([] & _ & E).
  unfold safe_read in E1. apply read_loop_silent in E1.
  destruct (_ =? 0); [by injection E as _ <-|].
  apply bind_Ret_inv in E as ([an2 tr2] & E2 & E). injection E as _ <-.
  apply IH in E2. unfold silent in *. by rewrite acks_app, E1, E2.
Qed.

Lemma store_silent blk msec i o ok ans i' ans' tr :
  store blk msec i o ok ans = Ret (i', ans', tr) → silent tr.
Proof.
  unfold store, silent. intros E. apply bind_Ret_inv in E as ([t off] & _ & E).
  destruct (negb (off =? no_offset)); [destruct ok|destruct (_ <? _)]; cbn beta iota zeta in E;
    try (by injection E as _ _ <-);
    apply bind_Ret_inv in E as ([an2 tr2] & E2%store_loop_silent & E);
    injection E as _ _ <-; cbn [app]; rewrite ?acks_seek, ?acks_app, E2; destruct (_ && _); done.
Qed.

Lemma load_silent i o ok ans i' ans' tr : load i o ok ans = Ret (i', ans', tr) → silent tr.
Proof.
  unfold load, silent. intros E.
  destruct (negb (_ =? no_offset)); [destruct ok|]; cbn beta iota zeta in E;
    try (by injection E as _ _ <-);
    apply bind_Ret_inv in E as ([an2 tr2] & E2%load_loop_silent & E);
    injection E as _ _ <-; cbn [app]; rewrite ?acks_seek, ?acks_app, E2; done.
Qed.
End Acks.

Section Worker.
Implicit Types (w : storage_worker_info_t) (e : event).

Lemma sync_all q : sync_wf q →
  ∃ q' tr, sync_loop (S (Z.to_nat (pqueue_size q))) q = Ret (q', tr) ∧ wf q' ∧ live q' = ∅ ∧
    acks tr ≡ₚ waiting q ∧ StronglySorted key_le (acks tr) ∧ length (acks tr) = length tr.
Proof.
  intros V. pose proof (b_size q (wf_base q (proj1 V))).
  apply sync_loop_spec; [done|]. unfold pqueue_size. lia.
Qed.

(** An event that does not end the worker acknowledges or keeps waiting what
    was waiting and what it asks for, nothing else. *)
Lemma handle_event_acks blk w e w' tr go : sync_wf (sync_waiting_queue w) → ends e = false →
  handle_event blk w e = Ret (w', tr, go) →
  go = true ∧ sync_wf (sync_waiting_queue w') ∧
  acks tr ++ waiting (sync_waiting_queue w') ≡ₚ waiting (sync_waiting_queue w) ++ asked [e].
Proof.
  intros V He E. pose proof V as [W _].
  destruct e as [|[]|[r|] ok ans|]; try discriminate; cbn [handle_event] in E.
  - destruct (sync_all _ V) as (q' & tr' & E' & W' & L' & P & _).
    rewrite E' in E. injection E as <- <- <-. cbn [sync_waiting_queue]. split; [done|].
    split; [split; [done|]; intros n k d; by rewrite L'|].
    cbn. unfold waiting at 1. rewrite L', map_to_list_empty, !app_nil_r. exact P.
  - destruct r as [wk id [o|o|]]; cbn [sr_cmd worker_id sr_req_id] in *.
    + apply bind_Ret_inv in E as ([[i an] tr'] & E1%store_silent & E). unfold silent in E1.
      cbn [asked omap list_omap sr_cmd worker_id sr_req_id].
      destruct (Z.eqb_spec (wait_sync o) 0) as [Es|Es]; cbn [negb] in E.
      { injection E as <- <- <-. cbn [sync_waiting_queue]. split_and!; [done..|].
        by rewrite E1, app_nil_r. }
      destruct (_ <=? 0).
      { injection E as <- <- <-. cbn [sync_waiting_queue]. split_and!; [done..|].
        rewrite acks_app, E1. cbn. solve_Permutation. }
      apply bind_Ret_inv in E as ([q' p] & Ei & E). injection E as <- <- <-.
      destruct (decide (size (sync_waiting_queue w) < capacity (sync_waiting_queue w))) as [Hr|Hr].
      * destruct (insert_spec _ wk (d_value id) W Hr) as (q2 & p2 & Ei' & W' & Lp & L' & _).
        rewrite Ei in Ei'. injection Ei' as <- <-. cbn [sync_waiting_queue]. split; [done|].
        split; [by eapply sync_wf_insert|]. rewrite E1. cbn [app].
        rewrite (waiting_insert _ _ _ _ Lp L'). solve_Permutation.
      * exfalso. pose proof (b_size _ (wf_base _ W)). unfold pqueue_insert, arr_get in Ei.
        rewrite decide_False in Ei by lia. done.
    + apply bind_Ret_inv in E as ([[i an] tr'] & E1%load_silent & E). unfold silent in E1.
      injection E as <- <- <-. cbn [sync_waiting_queue]. split_and!; [done..|].
      rewrite acks_app, E1. cbn. solve_Permutation.
    + injection E as <- <- <-. cbn. split_and!; [done..|]. by rewrite app_nil_r.
  - injection E as <- <- <-. cbn. split_and!; [done..|]. by rewrite app_nil_r.
Qed.

Lemma asked_cons e es : asked (e :: es) = asked [e] ++ asked es.
Proof. apply (omap_app _ [e] es). Qed.

Lemma asked_split es : asked es ≡ₚ loads es ++ synced_stores es.
Proof.
  induction es as [|e es IH]; [done|]. rewrite asked_cons, IH.
  destruct e as [| |[[wk id [o|o|]]|] ok ans|]; cbn [asked loads synced_stores omap list_omap];
    cbn [sr_cmd worker_id sr_req_id]; try done.
  destruct (wait_sync o =? 0); [done|]. solve_Permutation.
Qed.

(** An event acknowledges a LOAD at once, and a STORE that waits for the sync
    at once exactly when there is no periodic sync; a tick with nothing waiting
    acknowledges nothing. *)
Lemma handle_event_now blk w e w' tr go : ends e = false → is_tick e = false →
  handle_event blk w e = Ret (w', tr, go) →
  acks tr = if periodic_sync_msec w <=? 0 then asked [e] else loads [e].
Proof.
  intros He Ht E.
  destruct e as [| |[[wk id [o|o|]]|] ok ans|]; try discriminate;
    cbn [handle_event sr_cmd worker_id sr_req_id] in E;
    cbn [asked loads omap list_omap sr_cmd worker_id sr_req_id].
  - apply bind_Ret_inv in E as ([[i an] tr'] & E1%store_silent & E). unfold silent in E1.
    destruct (wait_sync o =? 0); cbn [negb] in E.
    { injection E as _ <- _. rewrite E1. by destruct (_ <=? 0). }
    destruct (_ <=? 0).
    + injection E as _ <- _. by rewrite acks_app, E1.
    + apply bind_Ret_inv in E as ([q' p] & _ & E). by injection E as _ <- _.
  - apply bind_Ret_inv in E as ([[i an] tr'] & E1%load_silent & E). unfold silent in E1.
    injection E as _ <- _. rewrite acks_app, E1. by destruct (_ <=? 0).
  - injection E as _ <- _. by destruct (_ <=? 0).
  - injection E as _ <- _. by destruct (_ <=? 0).
Qed.

Lemma handle_event_msec blk w e w' tr go : handle_event blk w e = Ret (w', tr, go) →
  periodic_sync_msec w' = periodic_sync_msec w.
Proof.
  intros E. destruct e as [|[]|[[wk id [o|o|]]|] ok ans|]; cbn [handle_event sr_cmd] in E;
    try (by injection E as <- _ _).
  - apply bind_Ret_inv in E as ([q tr'] & _ & E). by injection E as <- _ _.
  - apply bind_Ret_inv in E as ([[i an] tr'] & _ & E).
    destruct (negb _); [|by injection E as <- _ _].
    destruct (_ <=? 0); [by injection E as <- _ _|].
    apply bind_Ret_inv in E as ([q p] & _ & E). by injection E as <- _ _.
  - apply bind_Ret_inv in E as ([[i an] tr'] & _ & E). by injection E as <- _ _.
Qed.

(** without a periodic sync nothing waits and all is acknowledged in order *)
Lemma run_at_once blk w es w' tr : sync_wf (sync_waiting_queue w) → Forall (fun e => ends e = false) es →
  run blk w es = Ret (w', tr) → periodic_sync_msec w ≤ 0 → waiting (sync_waiting_queue w) = [] →
  acks tr = asked es ∧ waiting (sync_waiting_queue w') = [].
Proof.
  intros V Hes. revert w tr V. induction Hes as [|e es He Hes IH]; intros w tr V E Hm Hw; cbn [run] in E.
  { by injection E as <- <-. }
  apply bind_Ret_inv in E as ([[w1 tr1] go] & E1 & E).
  destruct (handle_event_acks _ _ _ _ _ _ V He E1) as (-> & V1 & P1).
  apply bind_Ret_inv in E as ([w2 tr2] & E2 & E). injection E as <- <-.
  assert (A1 : acks tr1 = asked [e]).
  { destruct (is_tick e) eqn:Ht.
    - destruct e; try discriminate. rewrite Hw in P1. cbn in P1 |- *.
      apply Permutation_nil_r, app_eq_nil in P1 as [-> _]. done.
    - rewrite (handle_event_now _ _ _ _ _ _ He Ht E1). by rewrite (proj2 (Z.leb_le _ _) Hm). }
  rewrite A1, Hw in P1. cbn [app] in P1. rewrite <- (app_nil_r (asked [e])) in P1 at 2.
  apply Permutation_app_inv_l, Permutation_nil_r in P1.
  destruct (IH w1 tr2 V1 E2) as [A2 W2]; [by rewrite (handle_event_msec _ _ _ _ _ _ E1)|done|].
  split; [|done]. by rewrite acks_app, asked_cons, A1, A2.
Qed.

(** with one, between two ticks the LOADs are acknowledged, in order *)
Lemma run_deferred blk w es w' tr : Forall (fun e => ends e = false) es →
  Forall (fun e => is_tick e = false) es → run blk w es = Ret (w', tr) → 0 < periodic_sync_msec w →
  acks tr = loads es.
Proof.
  intros Hes. revert w tr. induction Hes as [|e es He Hes IH]; intros w tr Ht E Hm; cbn [run] in E.
  { by injection E as <- <-. }
  apply Forall_cons in Ht as [Ht Hts].
  apply bind_Ret_inv in E as ([[w1 tr1] go] & E1 & E).
  pose proof (handle_event_now _ _ _ _ _ _ He Ht E1) as A1.
  rewrite (proj2 (Z.leb_gt _ _) Hm) in A1. pose proof (handle_event_msec _ _ _ _ _ _ E1) as M1.
  destruct go.
  - apply bind_Ret_inv in E as ([w2 tr2] & E2 & E). injection E as <- <-.
    rewrite acks_app, A1, (IH w1 tr2 Hts E2) by lia. symmetry. apply (omap_app _ [e] es).
  - destruct e as [| |[[wk id [o|o|]]|] ok ans|]; discriminate He || discriminate Ht || idtac;
      cbn [handle_event sr_cmd] in E1.
    + apply bind_Ret_inv in E1 as ([[? ?] ?] & _ & E1). destruct (negb _); [|discriminate].
      destruct (_ <=? 0); [discriminate|]. by apply bind_Ret_inv in E1 as ([? ?] & _ & ?).
    + by apply bind_Ret_inv in E1 as ([[? ?] ?] & _ & ?).
    + discriminate.
    + discriminate.
Qed.

Lemma run_acks blk w es w' tr : sync_wf (sync_waiting_queue w) → Forall (fun e => ends e = false) es →
  run blk w es = Ret (w', tr) →
  sync_wf (sync_waiting_queue w') ∧
  acks tr ++ waiting (sync_waiting_queue w') ≡ₚ waiting (sync_waiting_queue w) ++ asked es.
Proof.
  intros V Hes. revert w tr V. induction Hes as [|e es He Hes IH]; intros w tr V E; cbn [run] in E.
  { injection E as <- <-. split; [done|]. cbn. by rewrite app_nil_r. }
  apply bind_Ret_inv in E as ([[w1 tr1] go] & E1 & E).
  destruct (handle_event_acks _ _ _ _ _ _ V He E1) as (-> & V1 & P1).
  apply bind_Ret_inv in E as ([w2 tr2] & E2 & E). injection E as <- <-.
  destruct (IH _ _ V1 E2) as [V2 P2]. split; [done|].
  rewrite acks_app, asked_cons, <- app_assoc, P2, app_assoc, P1, app_assoc. done.
Qed.
End Worker.

(** ** Properties *)

(** [C7] No acknowledgement is lost or made up: whatever sequence of events
    a storage worker handles, the requests it acknowledged and those waiting
    for the periodic sync are together those that were waiting and those that
    were asked (every LOAD, every STORE with wait_sync), each as often as it was
    asked. Without a periodic sync each is acknowledged at once: nothing waits,
    and the acknowledgements are those asked for, in their order. With one,
    between two ticks exactly the LOADs are acknowledged, in their order, and
    the STOREs with wait_sync are kept. And none waits forever: at each tick of
    the sync timer, after the fsync, every waiting request is acknowledged once,
    in the order of the workers, and none is left. *)
Theorem storage_acks (blk : Z) (w : storage_worker_info_t) (es : list event)
    (w' : storage_worker_info_t) (tr : list io) :
  sync_wf (sync_waiting_queue w) → Forall (fun e => ends e = false) es →
  run blk w es = Ret (w', tr) →
  sync_wf (sync_waiting_queue w') ∧
  acks tr ++ waiting (sync_waiting_queue w') ≡ₚ waiting (sync_waiting_queue w) ++ asked es ∧
  (periodic_sync_msec w ≤ 0 → waiting (sync_waiting_queue w) = [] →
     acks tr = asked es ∧ waiting (sync_waiting_queue w') = []) ∧
  (0 < periodic_sync_msec w → Forall (fun e => is_tick e = false) es →
     acks tr = loads es ∧
     waiting (sync_waiting_queue w') ≡ₚ waiting (sync_waiting_queue w) ++ synced_stores es) ∧
  ∃ q replies, handle_event blk w' (E_timer true) =
      Ret (MkWorker (periodic_sync_msec w') q (storage_info w'), Fsync :: replies, true) ∧
    acks replies ≡ₚ waiting (sync_waiting_queue w') ∧ StronglySorted key_le (acks replies) ∧
    length (acks replies) = length replies ∧ waiting q = [] ∧ wf q.
Proof.
  intros V Hes E. destruct (run_acks _ _ _ _ _ V Hes E) as [V' P]. split; [done|]. split; [done|].
  split; [intros Hm Hw; exact (run_at_once _ _ _ _ _ V Hes E Hm Hw)|]. split.
  { intros Hm Ht. pose proof (run_deferred _ _ _ _ _ Hes Ht E Hm) as A. split; [done|].
    rewrite A, asked_split, app_assoc, (comm (++) _ (loads es)), <- app_assoc in P.
    by apply Permutation_app_inv_l in P. }
  destruct (sync_all _ V') as (q & replies & Es & W & L & Pr & S & Hl).
  exists q, replies. cbn [handle_event]. rewrite Es. obind. split_and!; try done.
  unfold waiting. by rewrite L, map_to_list_empty.
Qed.

(** a worker that has STOREs of the requests 7 and 8 waiting, with a sync
    period of 10 ms *)
Definition two_waiting : storage_worker_info_t :=
  MkWorker 10
    (MkPQueue [Node 0 0 (d_value 0); Node 0 0 (d_value 0); Node 1 2 (d_value 8);
               Node 0 1 (d_value 7)] [3; 2; 0; 0] [0; 1; 2; 3] 2 4)
    (MkStorage 0 1000 0).
Definition two_events : list event :=
  [E_storage (Some (MkStorageReq 0 9 (C_store (MkStore no_offset 100 1 0)))) true [60; 40];
   E_storage (Some (MkStorageReq 3 5 (C_load (MkLoad 50 20 0)))) true [20]].

Lemma two_waiting_wf : sync_wf (sync_waiting_queue two_waiting).
Proof.
  set (z := Node 0 0 (d_value 0)).
  pose (one := MkPQueue [z; z; z; Node 0 1 (d_value 7)] [3; 0; 0; 0] [0; 1; 2; 3] 1 4).
  assert (W1 : wf one) by (apply (insert_wf empty4 1 (d_value 7) one 3 empty4_wf); reflexivity).
  split; [apply (insert_wf one 2 (d_value 8) _ 2 W1); reflexivity|].
  intros n k d (i & Hi & <- & E)%live_lookup.
  - assert (i = 0 ∨ i = 1) as [->| ->] by (cbn in Hi; lia);
      vm_compute in E; injection E as _ <-; by eexists.
  - apply (insert_wf one 2 (d_value 8) _ 2 W1); reflexivity.
Qed.

(** the same events for a worker without a periodic sync *)
Definition no_sync : storage_worker_info_t := MkWorker 0 empty4 (MkStorage 0 1000 0).

Lemma storage_acks_witness :
  (∃ w' tr, run 512 two_waiting two_events = Ret (w', tr) ∧ acks tr = [(3, d_value 5)] ∧
    waiting (sync_waiting_queue w') ≡ₚ
      waiting (sync_waiting_queue two_waiting) ++ [(0, d_value 9)]) ∧
  ∃ w' tr, run 512 no_sync two_events = Ret (w', tr) ∧
    acks tr = [(0, d_value 9); (3, d_value 5)] ∧ waiting (sync_waiting_queue w') = [].
Proof.
  split.
  - destruct (run 512 two_waiting two_events) as [[w' tr]|] eqn:E; [|vm_compute in E; discriminate].
    exists w', tr.
    destruct (storage_acks 512 two_waiting two_events w' tr two_waiting_wf) as (_ & _ & _ & H & _);
      [repeat constructor|exact E|].
    split; [reflexivity|]. apply H; [reflexivity|repeat constructor].
  - assert (V : sync_wf (sync_waiting_queue no_sync)).
    { split; [exact empty4_wf|]. intros n k d (i & Hi & _)%live_lookup; [cbn in Hi; lia|exact empty4_wf]. }
    destruct (run 512 no_sync two_events) as [[w' tr]|] eqn:E; [|vm_compute in E; discriminate].
    exists w', tr.
    destruct (storage_acks 512 no_sync two_events w' tr V) as (_ & _ & H & _);
      [repeat constructor|exact E|].
    split; [reflexivity|]. apply H; [discriminate|reflexivity].
Defined.

(** ** The data written *)

(** the kernel takes [n] bytes over the first answers, and [rest] remain; a
    STORE of [n] bytes writes chunks of at most BUF_SIZE bytes *)
Inductive takes : list Z → Z → list Z → Prop :=
  | takes_done a : takes a 0 a
  | takes_some w a n rest : 1 ≤ w ≤ n → takes a (n - w) rest → takes (w :: a) n rest.
Inductive serves : list Z → Z → list Z → Prop :=
  | serves_done a : serves a 0 a
  | serves_chunk a n a1 rest : 0 < n → takes a (Z.min n BUF_SIZE) a1 →
      serves a1 (n - Z.min n BUF_SIZE) rest → serves a n rest.

Definition chunks (n : Z) : list Z :=
  replicate (Z.to_nat (n / BUF_SIZE)) BUF_SIZE ++
  (if n mod BUF_SIZE =? 0 then [] else [n mod BUF_SIZE]).
Definition ceil (blk n : Z) : Z := (n + blk - 1) / blk * blk.

Lemma chunks_last n : 0 < n ≤ BUF_SIZE → chunks n = [n].
Proof.
  intros H. unfold chunks. destruct (decide (n = BUF_SIZE)) as [->|Hn]; [done|].
  rewrite Z.div_small, Z.mod_small by lia. by rewrite (proj2 (Z.eqb_neq n 0)) by lia.
Qed.

Lemma chunks_more n : BUF_SIZE < n → chunks n = BUF_SIZE :: chunks (n - BUF_SIZE).
Proof.
  intros H. assert (Hb : 0 < BUF_SIZE) by done. unfold chunks.
  assert (Hd : n / BUF_SIZE = (n - BUF_SIZE) / BUF_SIZE + 1).
  { rewrite <- Z.div_add by lia. f_equal. lia. }
  assert (Hm : n mod BUF_SIZE = (n - BUF_SIZE) mod BUF_SIZE).
  { replace n with (n - BUF_SIZE + 1 * BUF_SIZE) at 1 by lia. by rewrite Z.mod_add by lia. }
  rewrite Hd, Hm. pose proof (Z.div_pos (n - BUF_SIZE) BUF_SIZE).
  replace (Z.to_nat ((n - BUF_SIZE) / BUF_SIZE + 1)) with (S (Z.to_nat ((n - BUF_SIZE) / BUF_SIZE)))
    by lia. done.
Qed.

Lemma takes_nonneg a n rest : takes a n rest → 0 ≤ n.
Proof. induction 1; lia. Qed.

Lemma safe_write_all a n rest : takes a n rest → n < 2 ^ 64 → safe_write a n = Ret (0, rest).
Proof.
  induction 1 as [a|w a n rest Hw Ht IH]; intros Hn.
  - destruct a; done.
  - cbn [safe_write]. rewrite (proj2 (Z.ltb_lt 0 n)), (proj2 (Z.ltb_ge w 0)) by lia.
    rewrite u64_small by lia. apply IH. lia.
Qed.

Lemma store_loop_all fuel a n rest done total : serves a n rest → n = total - done →
  0 ≤ done → total < 2 ^ 63 → n + BUF_SIZE ≤ Z.of_nat fuel * BUF_SIZE →
  store_loop fuel a done total = Ret (rest, Wrote <$> chunks n).
Proof.
  assert (Hb : BUF_SIZE = 16777216) by done.
  intros H. revert fuel done. induction H as [a|a n a1 rest Hpos Ht Hs IH];
    intros fuel done Hn Hd Htot Hf; (destruct fuel as [|fuel]; [lia|]); cbn [store_loop].
  { by rewrite (proj2 (Z.ltb_ge _ _)) by lia. }
  rewrite (proj2 (Z.ltb_lt _ _)), u64_small by lia. rewrite <- Hn.
  assert (Hm : (if BUF_SIZE <? n then BUF_SIZE else n) = Z.min n BUF_SIZE).
  { destruct (Z.ltb_spec BUF_SIZE n); lia. }
  rewrite Hm, (safe_write_all a _ a1 Ht) by lia. obind. cbn [check negb Z.eqb]. obind.
  rewrite u64_small by lia. rewrite (IH fuel) by lia. obind.
  destruct (decide (n ≤ BUF_SIZE)).
  - rewrite (chunks_last n) by lia. by rewrite !Z.min_l, Z.sub_diag by lia.
  - rewrite (chunks_more n) by lia. by rewrite !Z.min_r by lia.
Qed.

Lemma round_up_ceil blk n : 0 < blk → 0 ≤ n → n + blk < 2 ^ 64 →
  round_up blk n = Ret (ceil blk n).
Proof.
  intros Hb Hn Hs. unfold round_up, ceil. rewrite (proj2 (Z.eqb_neq _ _)) by lia.
  rewrite (u64_small (n + blk - 1)) by lia. f_equal. apply u64_small.
  pose proof (Z.mul_div_le (n + blk - 1) blk Hb). pose proof (Z.div_pos (n + blk - 1) blk). nia.
Qed.

(** [C8] A STORE whose bytes the kernel takes, in however many pieces,
    writes exactly the bytes asked for (with O_DIRECT rounded up to blocks), in
    chunks of at most BUF_SIZE, at the offset asked for, or, without one (-1 in
    32 bits), where the last command stopped, or at 0 if the file would grow
    past its limit; the next position is recorded, and when the command waits
    and there is no periodic sync the data is synced last. With O_DIRECT the
    rounding makes -1 the offset 0, so that every STORE without an offset goes
    to the start of the file. *)
Theorem store_writes (blk msec : Z) (info : storage_info_t) (opts : store_opts_t)
    (answers rest : list Z) :
  let direct := negb (use_odirect info =? 0) in
  let total := if direct then ceil blk (store_nbytes opts) else store_nbytes opts in
  let asked := u32 (store_offset opts) in
  let offset := if direct then u32 (ceil blk asked) else asked in
  let rewinds := (max_storage_size info <? storage_offset info + total) in
  let start := if negb (offset =? no_offset) then offset else if rewinds then 0
               else storage_offset info in
  0 < blk < 2 ^ 32 → 0 ≤ store_nbytes opts → total < 2 ^ 62 → 0 ≤ storage_offset info < 2 ^ 62 →
  serves answers total rest →
  store blk msec info opts true answers = Ret (at_offset info (start + total), rest,
    (if negb (offset =? no_offset) then [Seek offset] else if rewinds then [Seek 0] else []) ++
    (Wrote <$> chunks total) ++
    (if negb (wait_sync opts =? 0) && (msec <=? 0) then [Fsync] else [])) ∧
  (direct = true → (blk | 2 ^ 32) → 1 < blk → asked = no_offset → start = 0).
Proof.
  intros direct total asked offset rewinds start Hblk Hnb Ht Hoff Hs. split.
  2: { intros Hd [c Hc] H1 Ha. unfold start, offset. rewrite Hd, Ha.
       assert (Ec : ceil blk no_offset = 2 ^ 32).
       { unfold ceil, no_offset. rewrite Hc.
         replace (c * blk - 1 + blk - 1) with (blk - 2 + c * blk) by lia.
         rewrite Z.div_add, Z.div_small by lia. lia. }
       rewrite Ec. reflexivity. }
  assert (Hask : 0 ≤ asked < 2 ^ 32) by apply u32_range.
  assert (Hn : 0 ≤ store_nbytes opts ≤ total ∧ store_nbytes opts < 2 ^ 63).
  { unfold total, ceil in *. destruct direct; [|lia].
    pose proof (Z.mod_pos_bound (store_nbytes opts + blk - 1) blk).
    pose proof (Z.div_mod (store_nbytes opts + blk - 1) blk). lia. }
  unfold store. fold asked.
  assert (Epre : (if use_odirect info =? 0 then Ret (store_nbytes opts, asked)
     else t ← round_up blk (store_nbytes opts); o ← round_up blk asked; Ret (t, u32 o))
     = Ret (total, offset)).
  { unfold total, offset, direct. destruct (use_odirect info =? 0); cbn [negb]; [done|].
    rewrite !round_up_ceil by lia. done. }
  rewrite Epre. obind. rewrite (u64_small (storage_offset info + total)) by lia. fold rewinds.
  assert (Hbuf : BUF_SIZE = 16777216) by done.
  assert (Hl : store_loop (S (Z.to_nat (total / BUF_SIZE + 1))) answers 0 total
               = Ret (rest, Wrote <$> chunks total)).
  { apply store_loop_all; try done; try lia.
    pose proof (Z.mul_div_le total BUF_SIZE). pose proof (Z.mul_succ_div_gt total BUF_SIZE).
    pose proof (Z.div_pos total BUF_SIZE). lia. }
  assert (Hstart : 0 ≤ start < 2 ^ 63).
  { assert (0 ≤ offset < 2 ^ 32) by (unfold offset; destruct direct; [apply u32_range|done]).
    unfold start. destruct (negb (offset =? no_offset)); [lia|]. destruct rewinds; lia. }
  unfold start. destruct (negb (offset =? no_offset)) eqn:Eo; [|destruct rewinds eqn:Er];
    cbn beta iota zeta; rewrite Hl; obind; unfold start in Hstart; rewrite ?Eo, ?Er in Hstart; cbn beta iota in Hstart;
    cbn [storage_offset at_offset]; rewrite u64_small by lia; reflexivity.
Qed.

(** a file with 4096 bytes at most, of which 4000 are used: 200 more go to the
    start *)
Lemma store_writes_witness :
  store 512 0 (MkStorage 0 4096 4000) (MkStore (2 ^ 64 - 1) 200 1 0) true [150; 50] =
    Ret (MkStorage 0 4096 200, [], [Seek 0; Wrote 200; Fsync]).
Proof.
  apply (store_writes 512 0 (MkStorage 0 4096 4000) (MkStore (2 ^ 64 - 1) 200 1 0) [150; 50] []);
    cbn; try lia.
  apply (serves_chunk _ 200 []); [lia| |apply serves_done].
  apply takes_some; [vm_compute; split; discriminate|].
  apply takes_some; [vm_compute; split; discriminate|]. apply takes_done.
Defined.
