(* ===== verification/Forward.v ===== *)
(** * Forwarding (src/src/dw_node.c: single_start_forward, start_forward,
    find_forward_reply_id)

    The state of a worker of connections: the shared tables and buffers
    ([world]), its timeouts, its poll object and its counters, with the list of
    the effects that leave the process. What the system calls answer is given
    by a [kernel]: for each call a function of the number of the turn, which
    the functions that make calls advance. *)

From Stdlib Require Import Sorted.
From S2P Require Import Prelude Timespec Memory Message Request Connection Poll Storage Timeout.

Local Open Scope Z_scope.

(** [event_t], the tag of a poll entry *)
Inductive event_t :=
  | LISTEN | STORAGE | TIMER | CONNECT | SOCKET | DISPATCH | STATS | TERMINATION | EVENT_NUMBER.
Definition event_to_Z (e : event_t) : Z :=
  match e with
  | LISTEN => 0 | STORAGE => 1 | TIMER => 2 | CONNECT => 3 | SOCKET => 4 | DISPATCH => 5
  | STATS => 6 | TERMINATION => 7 | EVENT_NUMBER => 8
  end.

Definition i2l (ln rn : Z) : Z := Z.lor (Z.shiftl (u32 ln) 32) (u32 rn).
Definition l2i (n : Z) : Z * Z := (u32 (Z.shiftr (u64 n) 32), u32 n).

(** connect(): connected, pending (EAGAIN, EINPROGRESS), or another error *)
Inductive connect_ret := Connected | InProgress | ConnectFail.

Record kernel := Kernel {
  k_self : Z;
  k_timer : nat → option itimerspec;
  k_timer2 : nat → option itimerspec;
  k_send : nat → sys_ret;
  k_ssl_write : nat → ssl_ret;
  k_headers : nat → list sys_ret;
  k_sendfile : nat → sys_ret;
  k_socket : nat → Z;
  k_setsockopt : nat → Z;
  k_getfl : nat → Z;
  k_setfl : nat → Z;
  k_calloc : nat → bool * bool;
  k_epoll : nat → Z;
  k_ssl_new : nat → option Z;
  k_ssl_fd : nat → bool;
  k_connect : nat → connect_ret;
  k_write : nat → list Z;
  k_so_error : nat → option Z;
  k_handshake : nat → ssl_ret;
  k_recv : nat → recv_ret;
  k_ssl_recv : nat → ssl_recv_ret;
  k_accept : nat → Z * sockaddr_in
}.

(** the globals and the fields of [conn_worker_info_t] that do not change *)
Record config := Config {
  enable_defrag_opt : Z;
  storage_devices : Z;
  storage_fds : Z → Z;
  this_worker : Z
}.

(** what a worker does outside its own state; the last two in the mode
    AM_PARENT: a connection it accepted is added to the epoll instance of another
    worker, or its id written to the socket of a worker *)
Inductive effect :=
  | CloseFd (fd : Z)
  | EpollCtl (c : epoll_ctl)
  | Computed (usecs : Z)
  | ToStorage (device : Z) (r : storage_req_t)
  | OtherPoll (worker : Z) (c : epoll_ctl)
  | Dispatch (worker conn_id : Z).

Record node := Node {
  nd_world : world;
  nd_timeouts : timeouts;
  dw_poll : dw_poll_t;
  active_conns : Z;
  active_reqs : Z;
  turn : nat;
  effects : list effect;
  next_thread_cnt : Z
}.

Definition set_world (nd : node) (w : world) : node :=
  Node w (nd_timeouts nd) (dw_poll nd) (active_conns nd) (active_reqs nd) (turn nd) (effects nd)
    (next_thread_cnt nd).
Definition set_timeouts (nd : node) (t : timeouts) : node :=
  Node (nd_world nd) t (dw_poll nd) (active_conns nd) (active_reqs nd) (turn nd) (effects nd)
    (next_thread_cnt nd).
Definition set_poll (nd : node) (p : dw_poll_t) : node :=
  Node (nd_world nd) (nd_timeouts nd) p (active_conns nd) (active_reqs nd) (turn nd) (effects nd)
    (next_thread_cnt nd).
(** the counters are atomic ints *)
Definition count_conns (nd : node) (d : Z) : node :=
  Node (nd_world nd) (nd_timeouts nd) (dw_poll nd) (s32 (active_conns nd + d)) (active_reqs nd)
    (turn nd) (effects nd) (next_thread_cnt nd).
Definition count_reqs (nd : node) (d : Z) : node :=
  Node (nd_world nd) (nd_timeouts nd) (dw_poll nd) (active_conns nd) (s32 (active_reqs nd + d))
    (turn nd) (effects nd) (next_thread_cnt nd).
Definition next_turn (nd : node) : node :=
  Node (nd_world nd) (nd_timeouts nd) (dw_poll nd) (active_conns nd) (active_reqs nd)
    (S (turn nd)) (effects nd) (next_thread_cnt nd).
Definition emit (nd : node) (e : effect) : node :=
  Node (nd_world nd) (nd_timeouts nd) (dw_poll nd) (active_conns nd) (active_reqs nd)
    (turn nd) (effects nd ++ [e]) (next_thread_cnt nd).
(** [next_thread_cnt], a global that only the worker that accepts touches in
    the mode AM_PARENT; atomic, so it wraps around *)
Definition next_thread (nd : node) : node :=
  Node (nd_world nd) (nd_timeouts nd) (dw_poll nd) (active_conns nd) (active_reqs nd)
    (turn nd) (effects nd) (s32 (next_thread_cnt nd + 1)).

Definition req_of (nd : node) (r : Z) : req_info_t := Request.req_at (w_reqs (nd_world nd)) r.
Definition upd_req (nd : node) (r : Z) (f : req_info_t → req_info_t) : node :=
  set_world nd (Connection.set_reqs (nd_world nd) (Request.upd (w_reqs (nd_world nd)) r f)).
Definition upd_conn (nd : node) (c : Z) (f : conn_info_t → conn_info_t) : outcome node :=
  conn ← Connection.get_conn (nd_world nd) c;
  Ret (set_world nd (Connection.set_conn (nd_world nd) c (f conn))).
Definition with_defrag (c : conn_info_t) (d : Z) : conn_info_t :=
  MkConn (c_proto c) (sock c) (status c) (target c) (rx c) (tx c) (file c) (req_list c)
    (serialize_request c) (parent_thread c) (busy c) d (is_listen c) (c_ssl c).

(** the request the poll object made to epoll, if any *)
Definition told (nd : node) (ctl : option epoll_ctl) : node :=
  match ctl with Some c => emit nd (EpollCtl c) | None => nd end.

Module Forward.

(** the block of the message a pointer designates, and the offset in it *)
Definition message_at (nd : node) (m : ptr) : outcome (block * Z) :=
  '(_, o, b) ← mem_block (w_mem (nd_world nd)) m; Ret (b, o).
(** a command of the message at [m] as an offset in its block, and back *)
Definition cmd_offset (m c : ptr) : outcome (option Z) :=
  match m, c with
  | _, NULL => Ret None
  | Ptr k _, Ptr k' o => if k =? k' then Ret (Some o) else Stop UB
  | NULL, _ => Stop UB
  end.
Definition cmd_ptr (m : ptr) (c : option Z) : ptr :=
  match m, c with Ptr k _, Some o => Ptr k o | _, _ => NULL end.

(** the 6 bytes compared: fwd_host and fwd_port, or the bytes at [fwd_addr] *)
Definition addr6 (host port : Z) : Z := u32 host + 2 ^ 32 * u16 port.
Definition fwd_addr (b : block) (cmd : Z) : outcome Z :=
  blk_load 6 b (cmd + sizeof_command_t + 4).

Fixpoint find_reply_loop (fuel : nat) (b : block) (cmd : option Z) (id match_addr msg_end : Z)
    : outcome Z :=
  match fuel with
  | O => Stop OutOfFuel
  | S fuel =>
      match cmd with
      | None => Ret (-1)
      | Some c =>
          a ← fwd_addr b c;
          if a =? match_addr then Ret id
          else
            next ← Message.cmd_bounded_next_forward b cmd msg_end;
            id ← int_ (id + 1);
            find_reply_loop fuel b next id match_addr msg_end
      end
  end.
(** each forward is behind the one before it; there is none behind the end of
    the message, which the last step sees *)
Definition find_forward_reply_id (b : block) (cmd : option Z) (match_addr msg_end : Z) : outcome Z :=
  find_reply_loop (S (S (Z.to_nat (msg_end - default 0 cmd)))) b cmd 0 match_addr msg_end.

(** [1 << n] on an int *)
Definition shl1 (n : Z) : outcome Z := if (0 <=? n) && (n <? 31) then Ret (2 ^ n) else Stop UB.

(** [c = cmd_bounded_next(cmd); while (c && c->cmd == FORWARD_CONTINUE) c = cmd_bounded_next(c)] *)
Fixpoint skip_continues (fuel : nat) (b : block) (c : option Z) (msg_end : Z) : outcome (option Z) :=
  match fuel with
  | O => Stop OutOfFuel
  | S fuel =>
      match c with
      | None => Ret None
      | Some i =>
          t ← get_cmd b i;
          if bool_decide (t = FORWARD_CONTINUE) then
            c ← Message.cmd_bounded_next b i msg_end; skip_continues fuel b c msg_end
          else Ret c
      end
  end.

(** [message_copy_tail] from the buffer of [m] into that of [m_dst]; on a NULL
    command it only writes the id *)
Definition copy_tail (h : mem) (m m_dst : ptr) (c : option Z) : outcome (mem * option Z) :=
  '(_, o, b) ← mem_block h m;
  '(k, od, bd) ← mem_block h m_dst;
  '(bd, r) ←
    match c with
    | Some c => Message.message_copy_tail b o bd od c
    | None =>
        id ← get_msg_req_id b o;
        bd ← set_msg_req_id bd od id;
        _ ← Message.message_end b o;
        Ret (bd, None)
    end;
  Ret (mem_put h k bd, r).

Definition setnonblocking (k : kernel) (nd : node) : outcome unit :=
  _ ← assert_ (0 <=? k_getfl k (turn nd)); check (0 <=? k_setfl k (turn nd)).

Definition is_stream (proto : Z) : bool := (proto =? TCP) || (proto =? TLS).

(** connecting to the target of a forward: the connection, or [None] when the
    code returns NULL *)
Definition open_forward (k : kernel) (g : config) (nd : node) (addr : sockaddr_in) (proto : Z)
    : outcome (node * option Z) :=
  let t := turn nd in
  let clientSocket := k_socket k t in
  _ ← check (0 <=? clientSocket);
  _ ← (if is_stream proto then check (0 <=? k_setsockopt k t) else Ret tt);
  _ ← setnonblocking k nd;
  '(w, id) ← Connection.conn_alloc (nd_world nd) (k_self k) (k_calloc k t).1 (k_calloc k t).2
               clientSocket addr proto;
  let nd := next_turn (set_world nd w) in
  if id =? -1 then Ret (emit nd (CloseFd clientSocket), None)
  else
    nd ← upd_conn nd id (fun c => with_defrag c (enable_defrag_opt g));
    if negb (is_stream proto) then Ret (nd, Some id)
    else
      '(p, rv, ctl) ← DwPoll.dw_poll_add (dw_poll nd) clientSocket (Z.lor DW_POLLOUT DW_POLLIN)
                        (i2l (event_to_Z CONNECT) id) (k_epoll k t);
      _ ← check (rv =? 0);
      let nd := told (set_poll nd p) ctl in
      '(nd, tls_ok) ←
        (if proto =? TLS then
           '(w, rv) ← Connection.conn_enable_ssl (nd_world nd) id (k_ssl_new k t) (k_ssl_fd k t) 0;
           let nd := set_world nd w in
           if rv <? 0 then
             w ← Connection.conn_free (nd_world nd) id;
             Ret (set_world (emit nd (CloseFd clientSocket)) w, false)
           else Ret (nd, true)
         else Ret (nd, true));
      if negb tls_ok then Ret (nd, None)
      else
        match k_connect k t with
        | ConnectFail => Ret (nd, None)
        | InProgress =>
            '(w, _) ← Connection.conn_set_status (nd_world nd) id
                        (if proto =? TLS then SSL_HANDSHAKE else CONNECTING);
            Ret (set_world nd w, Some id)
        | Connected =>
            '(w, _) ← Connection.conn_set_status (nd_world nd) id
                        (if proto =? TLS then SSL_HANDSHAKE else READY);
            let nd := set_world nd w in
            Ret (if proto =? TLS then nd else count_conns nd 1, Some id)
        end.

(** the message for the next hop, written at the end of the send buffer of
    connection [c]; [false] when there is no space or no REPLY *)
Definition build_forward (nd : node) (r : Z) (m : ptr) (cmd c : Z) (fwd : fwd_opts_t)
    : outcome (node * bool) :=
  '(w, m_dst) ← Connection.conn_prepare_send_message (nd_world nd) c;
  let nd := set_world nd w in
  '(bd, od) ← message_at nd m_dst;
  avail ← get_msg_req_size bd od;
  _ ← assert_ (pkt_size fwd <=? avail);
  '(b, o) ← message_at nd m;
  e ← Message.message_end b o;
  next ← Message.cmd_bounded_next b cmd e;
  from ← skip_continues (S (Z.to_nat (e - cmd))) b next e;
  '(h, reply_cmd) ← copy_tail (w_mem (nd_world nd)) m m_dst from;
  match reply_cmd with
  | None => Ret (set_world nd (Connection.set_mem (nd_world nd) h), false)
  | Some _ =>
      h ← mem_store 4 h m_dst (u32 (req_id (req_of nd r)));
      p_size ← ptr_add m_dst 4;
      h ← mem_store 4 h p_size (pkt_size fwd);
      Ret (set_world nd (Connection.set_mem (nd_world nd) h), true)
  end.

Definition send_forward (k : kernel) (nd : node) (r : Z) (m : ptr) (cmd c : Z) (fwd : fwd_opts_t)
    (addr : sockaddr_in) : outcome (node * option Z) :=
  conn ← Connection.get_conn (nd_world nd) c;
  _ ← assert_ (negb (sock conn =? -1));
  '(nd, built) ← build_forward nd r m cmd c fwd;
  if negb built then Ret (nd, None)
  else
    '(w, rv) ← Connection.conn_start_send (nd_world nd) c addr (k_send k (turn nd))
                 (k_ssl_write k (turn nd));
    let nd := set_world nd w in
    if rv <? 0 then Ret (next_turn nd, None)
    else if negb (fwd_timeout (req_of nd r) =? 0) then
      '(t, st) ← insert_timeout (nd_timeouts nd) (w_reqs (nd_world nd))
                   (req_id (req_of nd r)) (fwd_timeout (req_of nd r)) (k_timer k (turn nd));
      Ret (next_turn (set_timeouts (set_world nd (Connection.set_reqs (nd_world nd) st)) t),
           Some cmd)
    else Ret (next_turn nd, Some cmd).

(** [cmd_log], which also exits on a command it does not know *)
Definition log_from (b : block) (c : option Z) (msg_end : Z) : outcome unit :=
  match c with
  | Some c => _ ← Message.cmd_log b c msg_end; Ret tt
  | None => Ret tt
  end.

Definition single_start_forward (k : kernel) (g : config) (nd : node) (r : Z) (m : ptr) (cmd : Z)
    : outcome (node * option Z) :=
  '(b, o) ← message_at nd m;
  fwd ← get_fwd_opts b cmd;
  let addr := SockAddr (fwd_port fwd) (fwd_host fwd) in
  msg_end ← Message.message_end b o;
  let q := req_of nd r in
  curr ← cmd_offset m (curr_cmd q);
  id ← find_forward_reply_id b curr (addr6 (fwd_host fwd) (fwd_port fwd)) msg_end;
  if id =? -1 then Ret (nd, None)
  else
    acked ← (if fwd_replies_left q =? -1 then Ret false
             else bit ← shl1 id; Ret (negb (Z.land (fwd_replies_mask q) bit =? 0)));
    if (acked : bool) then
      next ← Message.cmd_bounded_next_forward b (Some cmd) msg_end;
      rest ← match next with
             | None => Message.cmd_bounded_skip b curr 1 msg_end
             | Some _ => Ret next
             end;
      _ ← log_from b rest msg_end;
      Ret (nd, rest)
    else
      let fwd_conn_id := Connection.conn_find_existing (nd_world nd) (k_self k) addr (proto fwd) in
      '(nd, c) ← (if fwd_conn_id =? -1 then open_forward k g nd addr (proto fwd)
                  else Ret (nd, Some fwd_conn_id));
      match c with
      | None => Ret (nd, None)
      | Some c => send_forward k nd r m cmd c fwd addr
      end.

(** the [while (itr)] of start_forward: whether all forwards started *)
Fixpoint start_loop (fuel : nat) (k : kernel) (g : config) (nd : node) (r : Z) (m : ptr)
    (itr : option Z) (msg_end : Z) : outcome (node * bool) :=
  match fuel with
  | O => Stop OutOfFuel
  | S fuel =>
      match itr with
      | None => Ret (nd, true)
      | Some i =>
          '(nd, res) ← single_start_forward k g nd r m i;
          match res with
          | None => Ret (nd, false)
          | Some _ =>
              '(b, _) ← message_at nd m;
              itr ← Message.cmd_bounded_next_forward b itr msg_end;
              start_loop fuel k g nd r m itr msg_end
          end
      end
  end.

(** the options that open the context of a forward *)
Definition open_context (q : req_info_t) (f : fwd_opts_t) : req_info_t :=
  if fwd_replies_left q =? -1
  then set_fwd q (n_ack f) 0 (retries f) (s32 (timeout f)) (on_fail_skip f)
  else q.

Definition start_forward (k : kernel) (g : config) (nd : node) (r : Z) (m : ptr) (cmd : Z)
    : outcome (node * bool) :=
  '(b, o) ← message_at nd m;
  t ← get_cmd b cmd;
  _ ← assert_ (Message.is_forward t);
  f ← get_fwd_opts b cmd;
  let nd := upd_req nd r (fun q => open_context q f) in
  msg_end ← Message.message_end b o;
  start_loop (S (S (Z.to_nat (msg_end - cmd)))) k g nd r m (Some cmd) msg_end.

End Forward.

Import Forward.

(** ** Specification: the forwards of a group *)

Section Group.
Context (b : block) (e : Z) (Hfit : e ≤ blk_size b) (Hmax : e < 2 ^ 31).

(** [l] lists the forwards of a group from the command [o] on *)
Inductive group : option Z → list Z → Prop :=
  | group_end : group None []
  | group_next o o' l : Message.cmd_bounded_next_forward b (Some o) e = Ret o' → group o' l →
      group (Some o) (o :: l).

(** a forward of the message *)
Definition forward_at (o : Z) : Prop :=
  0 ≤ o ∧ inb b o e = true ∧ Message.is_forward (ctype b o) = true.

Lemma group_exists n o : forward_at o → e - o < Z.of_nat n →
  ∃ l, group (Some o) l ∧ Forall (fun x => o ≤ x ∧ forward_at x) l ∧
    StronglySorted Z.lt l ∧ Z.of_nat (length l) ≤ e - o.
Proof.
  revert o. induction n as [|n IH]; intros o (Ho & Hi & Hf) Hn.
  { pose proof (cmd_type_size_range (ctype b o)). apply inb_spec in Hi. lia. }
  destruct (next_forward_safe b o e Hfit Hmax Ho Hi Hf) as (r & E & Hr).
  assert (Hpos : 1 ≤ e - o).
  { pose proof (cmd_type_size_range (ctype b o)). apply inb_spec in Hi. lia. }
  destruct r as [o'|].
  - destruct (Hr o' eq_refl) as (Hlt & Hi' & Ht').
    destruct (IH o') as (l & G & F & S & Hl).
    { split_and!; [lia|done|by rewrite Ht']. }
    { lia. }
    exists (o :: l). split_and!.
    + by eapply group_next.
    + constructor; [done|]. eapply Forall_impl; [done|]. cbn. intros x [? ?]. split; [lia|done].
    + constructor; [done|]. eapply Forall_impl; [done|]. cbn. intros x [? _]. lia.
    + cbn [length]. lia.
  - exists [o]. split_and!; [by eapply group_next, group_end|by repeat constructor|
      by repeat constructor|cbn; lia].
Qed.

Lemma group_unique p l l' : group p l → group p l' → l = l'.
Proof.
  intros G. revert l'. induction G as [|o o' l E G IH]; intros l' G'; inversion G'; subst; [done|].
  f_equal. apply IH. congruence.
Qed.

Lemma group_length o l : group (Some o) l → Forall forward_at l →
  0 ≤ o ∧ Z.of_nat (length l) ≤ e - o.
Proof.
  intros G F. inversion G; subst. apply Forall_cons in F as [Fo _].
  destruct (group_exists (S (Z.to_nat (e - o))) o Fo) as (l' & G' & _ & _ & Hl); [lia|].
  rewrite (group_unique _ _ _ G G'). split; [apply Fo|done].
Qed.

Definition addr_at (o : Z) : Z := load_le 6 (blk_data b) (o + 8).

(** the position in [l] of the first forward to [a], -1 if there is none *)
Fixpoint position (a : Z) (l : list Z) : Z :=
  match l with
  | [] => -1
  | o :: l => if addr_at o =? a then 0 else
      let p := position a l in if p =? -1 then -1 else 1 + p
  end.

Lemma position_range a l : -1 ≤ position a l < Z.of_nat (length l).
Proof.
  induction l as [|o l IH]; cbn [position length]; [lia|].
  destruct (_ =? a); [lia|]. destruct (_ =? -1); lia.
Qed.

Lemma fwd_addr_ok o : forward_at o → fwd_addr b o = Ret (addr_at o).
Proof.
  intros (Ho & Hi%inb_spec & Hf). unfold fwd_addr, addr_at, sizeof_command_t.
  assert (Hs : Message.cmd_type_size (ctype b o) = 28) by (destruct (ctype b o); done).
  rewrite blk_load_ok by (cbn; lia). do 2 f_equal. lia.
Qed.

Lemma find_loop_spec fuel p l a id : group p l → Forall forward_at l →
  (length l < fuel)%nat → 0 ≤ id → id + Z.of_nat (length l) < 2 ^ 31 →
  find_reply_loop fuel b p id a e =
  Ret (if position a l =? -1 then -1 else id + position a l).
Proof.
  intros G. revert fuel id. induction G as [|o o' l E G IH]; intros [|fuel] id F Hl Hid Hmx;
    cbn [length] in *; try lia; cbn [find_reply_loop]; [done|].
  apply Forall_cons in F as [Fo F]. rewrite fwd_addr_ok by done. obind. cbn [position].
  destruct (addr_at o =? a); [by rewrite Z.add_0_r|].
  rewrite E. obind. rewrite int_ok by (unfold is_int; lia). obind.
  rewrite IH by (done || lia). f_equal. pose proof (position_range a l).
  destruct (Z.eqb_spec (position a l) (-1)); [done|]. rewrite (proj2 (Z.eqb_neq _ _)) by lia. lia.
Qed.

(** a command behind the end of the message is compared, and the search ends *)
Lemma find_forward_past o a x : 0 ≤ o → inb b o e = false → fwd_addr b o = Ret x →
  find_forward_reply_id b (Some o) a e = Ret (if x =? a then 0 else -1).
Proof.
  intros Ho Hi Ex. unfold find_forward_reply_id. change (default 0 (Some o)) with o.
  cbn [find_reply_loop]. rewrite Ex. obind. destruct (x =? a); [done|].
  by rewrite (next_forward_none b e Hfit) by done.
Qed.

Lemma position_found o l a : group (Some o) l → Forall forward_at l →
  find_forward_reply_id b (Some o) a e = Ret (position a l).
Proof.
  intros G F. unfold find_forward_reply_id. change (default 0 (Some o)) with o.
  destruct (group_length o l G F). rewrite (find_loop_spec _ _ l a 0 G F) by lia.
  destruct (Z.eqb_spec (position a l) (-1)); f_equal; lia.
Qed.

(** the forward whose index is the position does have the address *)
Lemma position_spec a l : 0 ≤ position a l →
  ∃ o, l !! Z.to_nat (position a l) = Some o ∧ addr_at o = a.
Proof.
  induction l as [|o l IH]; cbn [position]; [lia|]. destruct (Z.eqb_spec (addr_at o) a) as [E|E].
  - intros _. by exists o.
  - pose proof (position_range a l). destruct (Z.eqb_spec (position a l) (-1)); [lia|].
    intros _. destruct IH as (o' & Ho' & Ea); [lia|]. exists o'.
    replace (Z.to_nat (1 + position a l)) with (S (Z.to_nat (position a l))) by lia. done.
Qed.
End Group.

(** Whatever the contents of the message, looking up the endpoint of a
    reply among the forwards of a group terminates, reads only the commands of
    the group, and gives the index of the first forward of the group with that
    address, -1 if there is none. *)
Theorem find_forward_reply_id_index (b : block) (o e a : Z) :
  e ≤ blk_size b → e < 2 ^ 31 → forward_at b e o →
  ∃ l, group b e (Some o) l ∧ Forall (forward_at b e) l ∧ StronglySorted Z.lt l ∧
    find_forward_reply_id b (Some o) a e = Ret (position b a l) ∧
    (0 ≤ position b a l → ∃ x, l !! Z.to_nat (position b a l) = Some x ∧ addr_at b x = a) ∧
    (position b a l = -1 → Forall (fun x => addr_at b x ≠ a) l).
Proof.
  intros Hfit Hmax Ho.
  destruct (group_exists b e Hfit Hmax (S (Z.to_nat (e - o))) o Ho) as (l & G & F & S & Hl); [lia|].
  assert (F' : Forall (forward_at b e) l) by (eapply Forall_impl; [done|]; by intros x [_ ?]).
  exists l. split; [done|]. split; [done|]. split; [done|]. split; [|split].
  - by apply position_found.
  - apply position_spec.
  - clear. induction l as [|x l IH]; [done|]. cbn [position].
    destruct (Z.eqb_spec (addr_at b x) a); [lia|]. pose proof (position_range b a l).
    destruct (Z.eqb_spec (position b a l) (-1)); [|lia]. intros _. constructor; auto.
Qed.

(** the branch of the group of [example_msg] whose endpoint is [a] *)
Definition example_group : block := put example_msg [(6%nat, 20, 7); (6%nat, 72, 9)].

Lemma find_forward_reply_id_index_witness :
  find_forward_reply_id example_group (Some 12) 9 132 = Ret 1 ∧
  find_forward_reply_id example_group (Some 12) 8 132 = Ret (-1).
Proof.
  assert (Ho : forward_at example_group 132 12)
    by (split; [lia|split; [vm_compute; reflexivity|vm_compute; reflexivity]]).
  assert (G : group example_group 132 (Some 12) [12; 64]).
  { eapply group_next; [vm_compute; reflexivity|].
    eapply group_next; [vm_compute; reflexivity|]. apply group_end. }
  split.
  - destruct (find_forward_reply_id_index example_group 12 132 9) as (l & Gl & _ & _ & E & _);
      [vm_compute; discriminate|lia|exact Ho|].
    rewrite E, (group_unique _ _ _ l [12; 64] Gl G). vm_compute. reflexivity.
  - destruct (find_forward_reply_id_index example_group 12 132 8) as (l & Gl & _ & _ & E & _);
      [vm_compute; discriminate|lia|exact Ho|].
    rewrite E, (group_unique _ _ _ l [12; 64] Gl G). vm_compute. reflexivity.
Defined.

(** ** The message for the next hop *)

Section Branch.
Context (b : block) (e : Z) (Hfit : e ≤ blk_size b).

Lemma skip_continues_spec n fuel o t rest : 0 ≤ o → t ≠ FORWARD_CONTINUE →
  tokens b o e = replicate n FORWARD_CONTINUE ++ t :: rest → (n < fuel)%nat →
  skip_continues fuel b (Some o) e = Ret (Some (o + 28 * Z.of_nat n)).
Proof.
  intros Ho Ht. revert fuel o Ho. induction n as [|n IH]; intros [|fuel] o Ho E Hn;
    cbn [replicate app skip_continues] in *; try lia;
    apply tokens_cons_inv in E as (Hi & Et & E); rewrite (inb_get_cmd b e Hfit) by done; obind;
    rewrite <- Et.
  - rewrite bool_decide_eq_false_2 by done. do 2 f_equal. lia.
  - rewrite bool_decide_eq_true_2 by done.
    rewrite decide_False in E by done. change (Message.cmd_type_size FORWARD_CONTINUE) with 28 in E.
    rewrite (bounded_next_eq b e Hfit) by done. obind. rewrite <- Et.
    change (Message.cmd_type_size FORWARD_CONTINUE) with 28.
    assert (Hi' : inb b (o + 28) e = true).
    { destruct (inb b (o + 28) e) eqn:X; [done|]. rewrite tokens_nil in E by done.
      by destruct n. }
    rewrite Hi', IH by (done || lia). do 2 f_equal. lia.
Qed.

(** from the command after a forward, the further targets of the same branch
    are skipped *)
Lemma branch_start cmd fwd n t rest : 0 ≤ cmd → Message.is_forward fwd = true → t ≠ FORWARD_CONTINUE →
  tokens b cmd e = fwd :: replicate n FORWARD_CONTINUE ++ t :: rest →
  let o := cmd + 28 * (1 + Z.of_nat n) in
  ∃ next, Message.cmd_bounded_next b cmd e = Ret next ∧
    skip_continues (S (Z.to_nat (e - cmd))) b next e = Ret (Some o) ∧ tokens b o e = t :: rest.
Proof.
  intros Hc Hf Ht E o.
  assert (Hn : Z.of_nat n < e - cmd).
  { pose proof (tokens_fit b e cmd _ E ltac:(done)) as H1.
    pose proof (tokens_length b e cmd _ E) as H2. cbn [length] in H2.
    rewrite length_app, length_replicate in H2. lia. }
  apply tokens_cons_inv in E as (Hi & Et & E).
  assert (Hs : Message.cmd_type_size fwd = 28) by (by destruct fwd).
  rewrite decide_False in E by (by destruct fwd). rewrite Hs in E.
  exists (Some (cmd + 28)). split_and!.
  - rewrite (bounded_next_eq b e Hfit) by done. rewrite <- Et, Hs.
    destruct (inb b (cmd + 28) e) eqn:X; [done|]. rewrite tokens_nil in E by done. by destruct n.
  - rewrite (skip_continues_spec n _ (cmd + 28) t rest) by (done || lia).
    do 2 f_equal. unfold o. lia.
  - unfold o. clear -E. symmetry in E.
    replace (cmd + 28 * (1 + Z.of_nat n)) with (cmd + 28 + 28 * Z.of_nat n) by lia.
    revert E. generalize (cmd + 28). induction n as [|n IH]; intros p E; cbn [replicate app] in E.
    + by rewrite Z.add_0_r.
    + apply tokens_cons_inv in E as (_ & _ & E). rewrite decide_False in E by done.
      change (Message.cmd_type_size FORWARD_CONTINUE) with 28 in E. symmetry in E.
      rewrite <- (IH (p + 28)); [f_equal; lia|done].
Qed.
End Branch.

(** the node once the block [sb] holds [d] *)
Definition with_buf (nd : node) (sb : Z) (d : bytes) : node :=
  set_world nd (Connection.set_mem (nd_world nd)
    (mem_put (w_mem (nd_world nd)) sb (Block BUF_SIZE d))).

Lemma message_at_ok nd k o b : blocks (w_mem (nd_world nd)) !! k = Some b →
  message_at nd (Ptr k o) = Ret (b, o).
Proof. intros E. unfold message_at. by rewrite (mem_block_ok _ _ _ _ E). Qed.

Lemma with_buf_at nd sb d : blocks (w_mem (nd_world (with_buf nd sb d))) !! sb = Some (Block BUF_SIZE d).
Proof. cbn. by rewrite lookup_insert, decide_True. Qed.

Lemma with_buf_other nd sb d k b : blocks (w_mem (nd_world nd)) !! k = Some b → k ≠ sb →
  blocks (w_mem (nd_world (with_buf nd sb d))) !! k = Some b.
Proof. intros E Hne. cbn. by rewrite lookup_insert_ne. Qed.

Lemma with_buf_buf nd sb d d' : with_buf (with_buf nd sb d) sb d' = with_buf nd sb d'.
Proof.
  unfold with_buf, set_world, Connection.set_mem, mem_put. cbn.
  by rewrite insert_insert, decide_True.
Qed.

Lemma with_buf_put nd sb d d' :
  mem_put (w_mem (nd_world (with_buf nd sb d))) sb (Block BUF_SIZE d') =
  w_mem (nd_world (with_buf nd sb d')).
Proof. rewrite <- (with_buf_buf nd sb d d'). done. Qed.

Lemma store_in_buf n nd sb d o v : 0 ≤ o → o + Z.of_nat n ≤ BUF_SIZE →
  mem_store n (w_mem (nd_world (with_buf nd sb d))) (Ptr sb o) v =
  Ret (w_mem (nd_world (with_buf nd sb (store_le n d o v)))).
Proof.
  intros. rewrite (mem_store_ok _ _ _ _ _ _ (with_buf_at nd sb d)) by done.
  cbn [blk_size blk_data]. by rewrite with_buf_put.
Qed.

Lemma with_buf_mem nd sb d d' :
  set_world (with_buf nd sb d)
    (Connection.set_mem (nd_world (with_buf nd sb d)) (w_mem (nd_world (with_buf nd sb d')))) =
  with_buf nd sb d'.
Proof. done. Qed.

(** the copy, between two buffers, followed by the two fields of the header *)
Lemma copy_into nd mb mo b sb so d o d' r v1 v2 :
  blocks (w_mem (nd_world nd)) !! mb = Some b → mb ≠ sb → 0 ≤ so → so + 8 ≤ BUF_SIZE →
  Message.message_copy_tail b mo (Block BUF_SIZE d) so o = Ret (Block BUF_SIZE d', Some r) →
  ('(h, reply_cmd) ← copy_tail (w_mem (nd_world (with_buf nd sb d))) (Ptr mb mo) (Ptr sb so) (Some o);
   match reply_cmd with
   | None => Ret (set_world (with_buf nd sb d) (Connection.set_mem (nd_world (with_buf nd sb d)) h), false)
   | Some _ =>
       h ← mem_store 4 h (Ptr sb so) v1;
       p_size ← ptr_add (Ptr sb so) 4;
       h ← mem_store 4 h p_size v2;
       Ret (set_world (with_buf nd sb d) (Connection.set_mem (nd_world (with_buf nd sb d)) h), true)
   end) = Ret (with_buf nd sb (store_le 4 (store_le 4 d' so v1) (so + 4) v2), true).
Proof.
  intros Hm Hne Hso Hfit E. unfold copy_tail.
  rewrite (mem_block_ok _ _ _ _ (with_buf_other nd sb d mb b Hm Hne)). obind.
  rewrite (mem_block_ok _ _ _ _ (with_buf_at nd sb d)). obind. rewrite E. obind.
  rewrite with_buf_put, (store_in_buf 4) by (cbn; lia). obind. cbn [ptr_add]. obind.
  rewrite (store_in_buf 4) by (cbn; lia). obind. by rewrite with_buf_mem.
Qed.

(** [C5] Forwarding a branch: at the end of the send buffer of the next
    hop's connection the message gets the id of the request and the packet
    size of the forward, and the commands of the branch, the further targets
    skipped, up to its REPLY and then EOM, options included; the status field
    is whatever the buffer held, and no other byte of the heap changes. *)
Theorem build_forward_branch (nd : node) (r mb mo : Z) (b : block) (cmd c sb : Z) (d : bytes)
    (S N : Z) (fwd : fwd_opts_t) (t : command_type_t) (n : nat)
    (cs : list (list command_type_t)) (rest : list command_type_t) :
  let e := mo + load_le 4 (blk_data b) (mo + 4) in
  let o := cmd + 28 * (1 + Z.of_nat n) in
  let len := tsize (concat cs ++ [REPLY]) in
  0 ≤ c < MAX_CONNS → Connection.tx_ok (nd_world nd) c sb d S N →
  blocks (w_mem (nd_world nd)) !! mb = Some b → mb ≠ sb →
  0 ≤ mo → mo + 12 ≤ blk_size b → e ≤ blk_size b → e < 2 ^ 31 → 0 ≤ cmd →
  Message.is_forward t = true → Forall context_of cs →
  tokens b cmd e = t :: replicate n FORWARD_CONTINUE ++ concat cs ++ REPLY :: rest →
  0 ≤ pkt_size fwd ≤ BUF_SIZE - (S + N) → len + 4 ≤ BUF_SIZE - (S + N) → N + 16 + len ≤ BUF_SIZE →
  ∃ d', build_forward nd r (Ptr mb mo) cmd c fwd = Ret (with_buf nd sb d', true) ∧
    load_le 4 d' N = u32 (req_id (req_of nd r)) ∧
    load_le 4 d' (N + 4) = pkt_size fwd ∧
    (16 + len ≤ pkt_size fwd →
      tokens (Block BUF_SIZE d') (N + 12) (N + pkt_size fwd) = concat cs ++ [REPLY; EOM]) ∧
    (∀ x, 0 ≤ x < len → byte_at d' (N + 12 + x) = byte_at (blk_data b) (o + x)) ∧
    (∀ x, x < N ∨ N + 8 ≤ x < N + 12 ∨ N + 16 + len ≤ x → byte_at d' x = byte_at d x).
Proof.
  intros e o len Hc Htx Hm Hne Hmo Hmh He Hmax Hcmd Hf Hcs Htok Hp Hl Hroom.
  pose proof Htx as (Hb & _ & HS & HN & Hfit).
  assert (Hlen : 0 ≤ len) by apply tsize_nonneg.
  destruct (concat_head cs REPLY rest Hcs ltac:(done)) as (t1 & r1 & E1 & Ht1).
  rewrite E1 in Htok. destruct (branch_start b e He cmd t n t1 r1 Hcmd Hf Ht1 Htok) as (nx & En & Efrom & Eo).
  rewrite <- E1 in Eo. fold o in Efrom, Eo.
  unfold build_forward. rewrite (Connection.prepare_send_ok _ c sb d S N Hc Htx) by lia. obind.
  set (d0 := store_le 4 d (N + 4) _). fold (with_buf nd sb d0).
  assert (Ha : load_le 4 d0 (N + 4) = BUF_SIZE - (S + N)).
  { unfold d0. rewrite load_store_le. apply Z.mod_small. unfold BUF_SIZE in *. cbn. lia. }
  rewrite (message_at_ok _ _ _ _ (with_buf_at nd sb d0)). obind.
  unfold get_msg_req_size. rewrite blk_load_ok by (cbn [blk_size]; lia). obind. cbn [blk_data].
  rewrite Ha. replace (pkt_size fwd <=? _) with true by lia. obind.
  rewrite (message_at_ok _ _ _ _ (with_buf_other nd sb d0 mb b Hm Hne)). obind.
  unfold Message.message_end, get_msg_req_size. rewrite blk_load_ok by lia. obind. fold e.
  cbn [assert_]. obind. rewrite En. obind. rewrite Efrom. obind.
  destruct (copy_tail_ok b mo o (Block BUF_SIZE d0) N cs rest) as (d1 & E & _ & _ & Hc1 & Hc2 & Hc3);
    try done; try (cbn [blk_size blk_data]; unfold sizeof_message_t; fold len; fold e;
      rewrite ?Ha; unfold BUF_SIZE in *; lia).
  rewrite (copy_into nd mb mo b sb N d0 o d1 _ _ _ Hm Hne HN) by (done || lia).
  cbn [blk_data] in Hc3. fold len in Hc1, Hc2, Hc3.
  eexists. split; [reflexivity|]. split_and!.
  - rewrite load_store_le_disjoint, load_store_le by lia. apply Z.mod_small.
    change (256 ^ Z.of_nat 4) with (2 ^ 32). apply u32_range.
  - rewrite load_store_le. apply Z.mod_small. unfold BUF_SIZE in *. cbn. lia.
  - intros Hs. apply (copied_tokens b o e _ _ N _ cs rest); [done..| | |fold len; lia]; fold len.
    + intros x Hx. rewrite !byte_at_store_le, !decide_False by lia. by apply Hc1.
    + by rewrite !load_store_le_disjoint by lia.
  - intros x Hx. rewrite !byte_at_store_le, !decide_False by lia. by apply Hc1.
  - intros x Hx. rewrite !byte_at_store_le, !decide_False, Hc3 by lia.
    unfold d0. rewrite byte_at_store_le, decide_False by lia. done.
Qed.

(** a node with one connection, in whose receive buffer is [example_group] *)
Definition node_of (w : world) : node :=
  Node w (MkTimeouts PQueue.PQueue.empty4 0 (us_to_its 0)) poll3 1 0 0 [] 0.
Definition world_msg : world :=
  Connection.set_mem Connection.world1
    (mem_put (w_mem Connection.world1) 0 example_group).

Lemma build_forward_branch_witness :
  let fwd := MkFwd 100 7 0 0 0 2 0 1 TCP in
  ∃ d', build_forward (node_of world_msg) 0 (Ptr 0 0) 12 0 fwd =
      Ret (with_buf (node_of world_msg) 1 d', true) ∧
    tokens (Block BUF_SIZE d') 12 100 = [COMPUTE; REPLY; EOM].
Proof.
  intros fwd.
  destruct (build_forward_branch (node_of world_msg) 0 0 0 example_group 12 0 1
    Connection.fresh_buf 0 0 fwd FORWARD_BEGIN 0 [[COMPUTE]] [FORWARD_CONTINUE; REPLY; REPLY; EOM])
    as (d' & E & _ & _ & Ht & _).
  - unfold MAX_CONNS. lia.
  - exact (proj2 Connection.world1_ok).
  - vm_compute. reflexivity.
  - lia.
  - lia.
  - vm_compute. discriminate.
  - vm_compute. discriminate.
  - vm_compute. reflexivity.
  - lia.
  - reflexivity.
  - repeat constructor.
  - vm_compute. reflexivity.
  - vm_compute. split; discriminate.
  - vm_compute. discriminate.
  - vm_compute. discriminate.
  - exists d'. split; [exact E|]. apply Ht. vm_compute. discriminate.
Defined.
