(* ===== verification/Node.v ===== *)
(** * Processing of messages (src/src/dw_node.c: reply, process_single_message,
    process_messages, obtain_messages, handle_forward_reply, handle_timeout,
    exec_request)

    The recursion of the code, obtain_messages taking a reply that makes
    process_messages go on with the request it answers, which may take further
    messages, is bounded by a fuel: every message taken is gone from the receive
    buffers. *)

From S2P Require Import Prelude Timespec Memory Message Request Connection Poll Storage Timeout Forward.

Local Open Scope Z_scope.

Definition MAX_STORAGE_DEVICES : Z := 16.
(** x86-64 *)
Definition sizeof_storage_req_t : Z := 40.

Module Node.

Definition conn_of (nd : node) (c : Z) : conn_info_t := Connection.conn_at (nd_world nd) c.
Definition with_mem (nd : node) (h : mem) : node :=
  set_world nd (Connection.set_mem (nd_world nd) h).
(** a store of 4 bytes in a message *)
Definition store_at (nd : node) (m : ptr) (field v : Z) : outcome node :=
  p ← ptr_add m field;
  h ← mem_store 4 (w_mem (nd_world nd)) p v;
  Ret (with_mem nd h).

Definition poll_mod (k : kernel) (nd : node) (fd flags aux : Z) : outcome (node * Z) :=
  '(p, rv, ctl) ← DwPoll.dw_poll_mod (dw_poll nd) fd flags aux (k_epoll k (turn nd));
  Ret (told (next_turn (set_poll nd p)) ctl, rv).

(** a failure of dw_poll_del is only reported *)
Definition close_and_forget (k : kernel) (nd : node) (s : Z) : outcome node :=
  '(nd, _) ← poll_mod k nd s 0 0;
  '(w, _) ← Connection.conn_del_sock (nd_world nd) s;
  Ret (emit (set_world nd w) (CloseFd s)).

(** the mode of the reply of the connection *)
Definition with_reply_mode (c : conn_info_t) (mode : Z) : conn_info_t :=
  with_file c (MkFile (file_fd (file c)) (file_offset (file c)) (file_remaining (file c)) mode).

(** returns what conn_start_send or conn_start_sendfile returns *)
Definition reply (k : kernel) (g : config) (nd : node) (r : Z) (m : ptr) (cmd : Z)
    : outcome (node * Z) :=
  let c := r_conn_id (req_of nd r) in
  '(b, o) ← Forward.message_at nd m;
  opts ← get_reply_opts b cmd;
  '(w, m_dst) ← Connection.conn_prepare_send_message (nd_world nd) c;
  let nd := set_world nd w in
  '(bd, od) ← Forward.message_at nd m_dst;
  avail ← get_msg_req_size bd od;
  _ ← assert_ (resp_size opts <=? avail);
  '(b, o) ← Forward.message_at nd m;
  id ← get_msg_req_id b o;
  status ← get_msg_status b o;
  nd ← store_at nd m_dst 0 id;
  nd ← store_at nd m_dst 4 (resp_size opts);
  nd ← store_at nd m_dst sizeof_message_t (type_to_Z EOM);
  nd ← store_at nd m_dst 8 status;
  nd ← upd_conn nd c (fun x => with_reply_mode x (mode opts));
  '(nd, rv) ←
    (if mode opts =? REPLY_MODE_SENDFILE then
       if MAX_STORAGE_DEVICES <=? reply_dev_id opts then Stop UB
       else
         let fd := storage_fds g (reply_dev_id opts) in
         let nd := upd_req nd r (fun q => set_sendfile q fd 0 (resp_size opts)) in
         '(w, rv) ← Connection.conn_start_sendfile (nd_world nd) c (r_target (req_of nd r)) fd 0
                      (resp_size opts) (k_headers k (turn nd)) (k_sendfile k (turn nd));
         Ret (next_turn (set_world nd w), rv)
     else
       '(w, rv) ← Connection.conn_start_send (nd_world nd) c (r_target (req_of nd r))
                    (k_send k (turn nd)) (k_ssl_write k (turn nd));
       Ret (next_turn (set_world nd w), rv));
  '(w, _) ← Connection.conn_req_remove (nd_world nd) c r;
  Ret (count_reqs (set_world nd w) (-1), rv).

(** what follows a REPLY: 1, or -1 when the connection was closed *)
Definition after_reply (k : kernel) (nd : node) (r conn_id reply_result : Z)
    : outcome (node * Z) :=
  let st := status (conn_of nd (r_conn_id (req_of nd r))) in
  if negb (bool_decide (st = CLOSE)) && (reply_result =? 0) then
    if bool_decide (st = SENDING) then
      '(nd, rv) ← poll_mod k nd (sock (conn_of nd (r_conn_id (req_of nd r))))
                    (Z.lor DW_POLLOUT DW_POLLONESHOT) (i2l (event_to_Z SOCKET) conn_id);
      _ ← check (0 <=? rv);
      Ret (nd, 1)
    else
      nd ← close_and_forget k nd (sock (conn_of nd conn_id));
      Ret (nd, -1)
  else if bool_decide (st = SENDING) then
    '(nd, rv) ← poll_mod k nd (sock (conn_of nd conn_id))
                  (Z.lor DW_POLLOUT DW_POLLONESHOT) (i2l (event_to_Z SOCKET) conn_id);
    _ ← check (0 <=? rv);
    Ret (nd, 1)
  else Ret (nd, 1).

(** a STORE or a LOAD: the request is written to the pipe of its device *)
Definition to_storage (k : kernel) (g : config) (nd : node) (r : Z) (c : storage_cmd) (dev : Z)
    : outcome (node * bool) :=
  if (dev <? 0) || (storage_devices g <=? dev) then Ret (nd, false)
  else
    '(rv, _) ← Storage.safe_write (k_write k (turn nd)) sizeof_storage_req_t;
    let nd := next_turn nd in
    if rv <? 0 then Ret (nd, false)
    else Ret (emit nd (ToStorage dev (MkStorageReq (this_worker g) (req_id (req_of nd r)) c)), true).

Definition set_curr_cmd (nd : node) (r : Z) (c : ptr) : node :=
  upd_req nd r (fun q => set_message q (message_ptr q) c).

(** the [for] of process_single_message *)
Fixpoint process_loop (fuel : nat) (k : kernel) (g : config) (nd : node) (r : Z) (m : ptr)
    (conn_id : Z) (cmd : option Z) (msg_end : Z) : outcome (node * Z) :=
  match fuel with
  | O => Stop OutOfFuel
  | S fuel =>
      match cmd with
      | None => Ret (nd, 1)
      | Some c =>
          '(b, _) ← Forward.message_at nd m;
          let continue nd :=
            next ← Message.cmd_bounded_skip b cmd 1 msg_end;
            process_loop fuel k g nd r m conn_id next msg_end in
          let wait nd :=
            next ← Message.cmd_bounded_next b c msg_end;
            Ret (set_curr_cmd nd r (Forward.cmd_ptr m next), 0) in
          t ← get_cmd b c;
          match t with
          | EOM => Ret (nd, 1)
          | COMPUTE => us ← get_comp_opts b c; continue (emit nd (Computed (comp_time_us us)))
          | FORWARD_BEGIN | FORWARD_CONTINUE =>
              let nd := if bool_decide (t = FORWARD_BEGIN)
                        then set_curr_cmd nd r (Forward.cmd_ptr m cmd) else nd in
              '(nd, ok) ← Forward.start_forward k g nd r m c;
              Ret (nd, if (ok : bool) then 0 else -1)
          | REPLY =>
              '(nd, reply_result) ← reply k g nd r m c;
              after_reply k nd r conn_id reply_result
          | STORE =>
              s ← get_store_opts b c;
              '(nd, ok) ← to_storage k g nd r (C_store s) (store_dev_id s);
              if negb ok then Ret (nd, -1)
              else if wait_sync s =? 0 then continue nd else wait nd
          | LOAD =>
              l ← get_load_opts b c;
              '(nd, ok) ← to_storage k g nd r (C_load l) (load_dev_id l);
              if negb ok then Ret (nd, -1) else wait nd
          | PSKIP | UNKNOWN _ => Ret (nd, 0)
          end
      end
  end.

(** 1: executed to the end, 0: waits, -1: error *)
Definition process_single_message (k : kernel) (g : config) (nd : node) (r : Z)
    : outcome (node * Z) :=
  let m := message_ptr (req_of nd r) in
  '(b, o) ← Forward.message_at nd m;
  msg_end ← Message.message_end b o;
  cmd ← Forward.cmd_offset m (curr_cmd (req_of nd r));
  process_loop (S (S (Z.to_nat (msg_end - default 0 cmd)))) k g nd r m (r_conn_id (req_of nd r))
    cmd msg_end.

Section Recursion.
(** obtain_messages *)
Context (obtain : node → Z → outcome (node * Z)).

Definition process_messages (k : kernel) (g : config) (nd : node) (r : Z) : outcome (node * Z) :=
  let conn_id := r_conn_id (req_of nd r) in
  '(nd, executed) ← process_single_message k g nd r;
  if negb (executed =? 0) && negb (serialize_request (conn_of nd conn_id) =? 0)
  then obtain nd conn_id
  else Ret (nd, executed).

(** the last reply a forward waited for: the request goes on behind the
    context of the forward *)
Definition finish_forward (k : kernel) (g : config) (nd : node) (r id fwd_m_status : Z)
    : outcome (node * Z) :=
  let m := message_ptr (req_of nd r) in
  nd ← store_at nd m 8 fwd_m_status;
  '(b, o) ← Forward.message_at nd m;
  msg_end ← Message.message_end b o;
  curr ← Forward.cmd_offset m (curr_cmd (req_of nd r));
  next ← Message.cmd_bounded_skip b curr 1 msg_end;
  let nd := set_curr_cmd nd r (Forward.cmd_ptr m next) in
  let nd := upd_req nd r (fun q => set_fwd q (-1) 0 0 0 (fwd_on_fail_skip q)) in
  '(t, st, _) ← remove_timeout (nd_timeouts nd) (w_reqs (nd_world nd)) id
                  (k_timer k (turn nd)) (k_timer2 k (turn nd));
  let nd := next_turn (set_timeouts (set_world nd (Connection.set_reqs (nd_world nd) st)) t) in
  process_messages k g nd r.

Definition handle_forward_reply (k : kernel) (g : config) (nd : node)
    (id fwd_m_status match_addr : Z) : outcome (node * Z) :=
  match Request.req_get_by_id (w_reqs (nd_world nd)) id with
  | None => Ret (nd, -1)
  | Some r =>
      let m := message_ptr (req_of nd r) in
      '(b, o) ← Forward.message_at nd m;
      msg_end ← Message.message_end b o;
      curr ← Forward.cmd_offset m (curr_cmd (req_of nd r));
      reply_id ← Forward.find_forward_reply_id b curr match_addr msg_end;
      if reply_id =? -1 then Ret (nd, -1)
      else
        bit ← Forward.shl1 reply_id;
        if negb (Z.land (fwd_replies_mask (req_of nd r)) bit =? 0) then Ret (nd, -1)
        else
          left ← int_ (fwd_replies_left (req_of nd r) - 1);
          let nd := upd_req nd r (fun q =>
            set_fwd q left (Z.lor (fwd_replies_mask q) bit) (fwd_retries q) (fwd_timeout q)
              (fwd_on_fail_skip q)) in
          if left <=? 0 then finish_forward k g nd r id fwd_m_status
          else Ret (nd, -1)
  end.
End Recursion.

Fixpoint obtain_messages (fuel : nat) (k : kernel) (g : config) (nd : node) (c : Z)
    : outcome (node * Z) :=
  match fuel with
  | O => Stop OutOfFuel
  | S fuel =>
      conn ← Connection.get_conn (nd_world nd) c;
      if negb (serialize_request conn =? 0) && bool_decide (req_list conn ≠ None)
      then Ret (nd, 1)
      else obtain_loop fuel k g nd c
  end
with obtain_loop (fuel : nat) (k : kernel) (g : config) (nd : node) (c : Z)
    : outcome (node * Z) :=
  match fuel with
  | O => Stop OutOfFuel
  | S fuel =>
      '(w, next) ← Connection.conn_prepare_recv_message (nd_world nd) c;
      let nd := set_world nd w in
      match next with
      | None => Ret (nd, 1)
      | Some m =>
          '(b, o) ← Forward.message_at nd m;
          first ← get_cmd b (Message.message_first_cmd o);
          if bool_decide (first = EOM) then
            id ← get_msg_req_id b o;
            status ← get_msg_status b o;
            let t := target (conn_of nd c) in
            '(nd, rv) ← handle_forward_reply (obtain_messages fuel k g) k g nd (s32 id) status
                          (Forward.addr6 (s_addr t) (sin_port t));
            if rv =? 0 then Ret (nd, 0) else obtain_loop fuel k g nd c
          else
            '(w, new) ← Connection.conn_req_add (nd_world nd) c;
            let nd := set_world nd w in
            match new with
            | None => Ret (nd, 0)
            | Some r =>
                let nd := count_reqs nd 1 in
                let nd := upd_req nd r (fun q =>
                  set_message q m (Forward.cmd_ptr m (Some (Message.message_first_cmd o)))) in
                req_size ← get_msg_req_size b o;
                '(nd, executed) ← process_single_message k g nd r;
                if executed <? 0 then Ret (nd, 0)
                else if (executed =? 0) && negb (serialize_request (conn_of nd c) =? 0) then
                  p ← ptr_add (curr_proc_buf (rx (conn_of nd c))) (s32 req_size);
                  nd ← upd_conn nd c (fun x => with_rx x
                         (MkRx (recv_buf (rx x)) (curr_recv_buf (rx x)) (curr_recv_size (rx x)) p));
                  Ret (nd, 1)
                else obtain_loop fuel k g nd c
            end
      end
  end.
End Node.

(** ** Specification: the replies of a forward

    A request that forwarded waits for the replies of the targets of its group:
    the abstract state is the set of the targets that replied. *)

(** request [r] of id [id] is live, and waits in front of the group [l] of its
    message: the block [b], in which the message is at [mo] and ends at [e] *)
Record waits (nd : node) (id r mb mo e o : Z) (b : block) (l : list Z) : Prop := Waits {
  w_live : Request.req_get_by_id (w_reqs (nd_world nd)) id = Some r;
  w_msg : message_ptr (req_of nd r) = Ptr mb mo;
  w_curr : curr_cmd (req_of nd r) = Ptr mb o;
  w_block : blocks (w_mem (nd_world nd)) !! mb = Some b;
  w_hdr : 0 ≤ mo ∧ mo + sizeof_message_t ≤ blk_size b;
  w_end : e = mo + load_le 4 (blk_data b) (mo + 4) ∧ e ≤ blk_size b ∧ e < 2 ^ 31;
  w_group : group b e (Some o) l;
  w_forwards : Forall (forward_at b e) l
}.

(** of [n] replies asked for, the targets in [acked] gave theirs *)
Definition acked_inv (q : req_info_t) (n : Z) (acked : gset Z) : Prop :=
  fwd_replies_left q = n - Z.of_nat (size acked) ∧
  ∀ i, 0 ≤ i → Z.testbit (fwd_replies_mask q) i = bool_decide (i ∈ acked).

(** one more target replied *)
Definition ack (q : req_info_t) (p : Z) : req_info_t :=
  set_fwd q (fwd_replies_left q - 1) (Z.lor (fwd_replies_mask q) (2 ^ p)) (fwd_retries q)
    (fwd_timeout q) (fwd_on_fail_skip q).

Section Replies.
Context (obtain : node → Z → outcome (node * Z)) (k : kernel) (g : config).
Context (id r mb mo e o : Z) (b : block) (l : list Z).
Implicit Types (nd : node) (a n p : Z) (acked : gset Z).

Lemma land_bit m p : 0 ≤ p → (Z.land m (2 ^ p) =? 0) = negb (Z.testbit m p).
Proof.
  intros Hp. destruct (Z.testbit m p) eqn:T; cbn [negb].
  - apply Z.eqb_neq. intros E. apply (f_equal (fun x => Z.testbit x p)) in E.
    rewrite Z.land_spec, T, Z.pow2_bits_true, Z.bits_0 in E by done. done.
  - apply Z.eqb_eq. apply Z.bits_inj'. intros i Hi. rewrite Z.land_spec, Z.bits_0.
    destruct (decide (i = p)) as [->|Hne]; [by rewrite T|].
    by rewrite Z.pow2_bits_false, andb_false_r by done.
Qed.

Lemma ack_inv q n acked p : 0 ≤ p → p ∉ acked → acked_inv q n acked →
  acked_inv (ack q p) n ({[p]} ∪ acked).
Proof.
  intros Hp Hn [Hl Hm]. split.
  - cbn [ack set_fwd fwd_replies_left]. rewrite size_union, size_singleton by set_solver. lia.
  - intros i Hi. cbn [ack set_fwd fwd_replies_mask]. rewrite Z.lor_spec, Hm by done.
    destruct (decide (i = p)) as [->|Hne].
    + rewrite Z.pow2_bits_true, orb_true_r by done. symmetry. apply bool_decide_eq_true. set_solver.
    + rewrite Z.pow2_bits_false, orb_false_r by done. apply bool_decide_ext. set_solver.
Qed.

Lemma req_of_upd nd f : req_of (upd_req nd r f) r = f (req_of nd r).
Proof. unfold req_of, upd_req. cbn. by rewrite req_at_upd, decide_True. Qed.

Lemma upd_req_ext nd f f' : f (req_of nd r) = f' (req_of nd r) → upd_req nd r f = upd_req nd r f'.
Proof. unfold req_of, upd_req, Request.upd. intros ->. done. Qed.

Lemma waits_ack nd p : waits nd id r mb mo e o b l → waits (upd_req nd r (fun q => ack q p)) id r mb mo e o b l.
Proof.
  intros [H1 H2 H3 H4 H5 H6 H7 H8]. constructor; try done; try (by rewrite req_of_upd).
  unfold Request.req_get_by_id in *. cbn. rewrite req_at_upd.
  destruct (_ =? id) eqn:E in H1; [|done]. injection H1 as Hr. rewrite Hr in *.
  rewrite decide_True by done. cbn [ack set_fwd req_id]. by rewrite E.
Qed.

(** one reply *)
Lemma handle_reply_step nd n acked status a : waits nd id r mb mo e o b l →
  acked_inv (req_of nd r) n acked → Z.of_nat (size acked) < n < 2 ^ 31 → 
  let p := position b a l in p < 31 →
  Node.handle_forward_reply obtain k g nd id status a =
    if bool_decide (p = -1 ∨ p ∈ acked) then Ret (nd, -1)
    else
      let nd' := upd_req nd r (fun q => ack q p) in
      if Z.of_nat (size acked) + 1 <? n then Ret (nd', -1)
      else Node.finish_forward obtain k g nd' r id status.
Proof.
  intros [H1 H2 H3 H4 [H5 H5'] (He & H6 & H6') H7 H8] [Hl Hm] Hn p Hp.
  unfold Node.handle_forward_reply. rewrite H1, H2, (message_at_ok _ _ _ _ H4). obind.
  unfold Message.message_end, get_msg_req_size, sizeof_message_t in *.
  rewrite blk_load_ok by lia. obind. rewrite <- He, H3. unfold Forward.cmd_offset.
  rewrite Z.eqb_refl. obind. rewrite (position_found b e H6 H6' o l a H7 H8). obind. fold p.
  pose proof (position_range b a l). destruct (Z.eqb_spec p (-1)) as [Ep|Ep].
  { by rewrite bool_decide_eq_true_2 by (by left). }
  unfold Forward.shl1. replace ((0 <=? p) && (p <? 31)) with true by lia. obind.
  rewrite land_bit, negb_involutive, Hm by lia. destruct (decide (p ∈ acked)) as [Hin|Hin].
  { by rewrite !bool_decide_eq_true_2 by tauto. }
  rewrite !bool_decide_eq_false_2 by tauto. rewrite int_ok by (unfold is_int; lia). obind.
  assert (E : upd_req nd r (fun q => set_fwd q (fwd_replies_left (req_of nd r) - 1)
      (Z.lor (fwd_replies_mask q) (2 ^ p)) (fwd_retries q) (fwd_timeout q) (fwd_on_fail_skip q)) =
    upd_req nd r (fun q => ack q p)) by (by apply upd_req_ext).
  rewrite E, Hl. destruct (Z.ltb_spec (Z.of_nat (size acked) + 1) n).
  - by rewrite (proj2 (Z.leb_gt _ _)) by lia.
  - by rewrite (proj2 (Z.leb_le _ _)) by lia.
Qed.

(** replies one after the other: status and address of each *)
Fixpoint handle_replies (nd : node) (replies : list (Z * Z)) : outcome node :=
  match replies with
  | [] => Ret nd
  | (status, a) :: replies =>
      '(nd, _) ← Node.handle_forward_reply obtain k g nd id status a; handle_replies nd replies
  end.

(** the targets of the group that are among the senders *)
Definition replied (replies : list (Z * Z)) : gset Z :=
  list_to_set (filter (fun p => 0 ≤ p) ((fun x => position b x.2 l) <$> replies)).

(** only request [r] differs *)
Definition only_req (nd nd' : node) : Prop :=
  nd' = set_world nd (Connection.set_reqs (nd_world nd) (w_reqs (nd_world nd'))) ∧
  ∀ j, j ≠ r → req_of nd' j = req_of nd j.

Lemma only_req_refl nd : only_req nd nd.
Proof. split; [|done]. by destruct nd as [[]]. Qed.

Lemma only_req_upd nd nd' f : only_req nd nd' → only_req nd (upd_req nd' r f).
Proof.
  intros [E H]. split.
  - rewrite E. by destruct nd as [[]].
  - intros j Hj. rewrite <- (H j Hj). unfold req_of, upd_req. cbn.
    by rewrite req_at_upd, decide_False.
Qed.

Lemma replied_cons x replies : replied (x :: replies) =
  (if bool_decide (position b x.2 l = -1) then ∅ else {[position b x.2 l]}) ∪ replied replies.
Proof.
  unfold replied. rewrite fmap_cons, filter_cons. pose proof (position_range b x.2 l).
  case_bool_decide; [rewrite decide_False by lia|rewrite decide_True by lia]; set_solver.
Qed.

Lemma handle_replies_acks nd n acked replies : waits nd id r mb mo e o b l →
  acked_inv (req_of nd r) n acked → n < 2 ^ 31 → Z.of_nat (length l) ≤ 31 →
  Z.of_nat (size (acked ∪ replied replies)) < n →
  ∃ nd', handle_replies nd replies = Ret nd' ∧ waits nd' id r mb mo e o b l ∧
    acked_inv (req_of nd' r) n (acked ∪ replied replies) ∧ only_req nd nd'.
Proof.
  intros W I Hn Hl. revert nd acked W I.
  induction replies as [|[status a] replies IH]; intros nd acked W I Hs; cbn [handle_replies].
  { exists nd. split_and!; [done..| |apply only_req_refl].
    replace (acked ∪ replied []) with acked by (unfold replied; set_solver). done. }
  rewrite replied_cons in *. cbn [snd] in *. set (p := position b a l) in *.
  pose proof (position_range b a l) as Hp. fold p in Hp.
  assert (Hle : (size acked ≤ size (acked ∪ ((if bool_decide (p = (-1)%Z) then ∅ else {[p]}) ∪ replied replies)))%nat)
    by (apply subseteq_size; set_solver).
  rewrite (handle_reply_step nd n acked status a W I) by lia. fold p.
  destruct (decide (p = -1 ∨ p ∈ acked)) as [Hd|Hd].
  - rewrite bool_decide_eq_true_2 by done. obind.
    assert (Es : acked ∪ ((if bool_decide (p = -1) then ∅ else {[p]}) ∪ replied replies) = acked ∪ replied replies)
      by (case_bool_decide; set_solver).
    rewrite Es in *. by apply IH.
  - rewrite (bool_decide_eq_false_2 (p = -1)) in * by tauto.
    rewrite bool_decide_eq_false_2 by done. cbn zeta.
    assert (Es : acked ∪ ({[p]} ∪ replied replies) = ({[p]} ∪ acked) ∪ replied replies) by set_solver.
    rewrite Es in *.
    assert (Hlt : (size ({[p]} ∪ acked) ≤ size (({[p]} ∪ acked) ∪ replied replies))%nat)
      by (apply subseteq_size; set_solver).
    rewrite size_union, size_singleton in Hlt by set_solver.
    rewrite (proj2 (Z.ltb_lt _ _)) by lia. obind.
    destruct (IH (upd_req nd r (fun q => ack q p)) ({[p]} ∪ acked)) as (nd' & E & W' & I' & F).
    + by apply waits_ack.
    + rewrite req_of_upd. apply ack_inv; [lia|tauto|done].
    + done.
    + exists nd'. split; [done|]. split; [done|]. split; [done|]. split.
      * destruct F as [F _]. rewrite F. by destruct nd as [[]].
      * intros j Hj. rewrite (proj2 F j Hj).
        by apply (only_req_upd nd nd _ (only_req_refl nd)).
Qed.
End Replies.

(** [C4] A forward to a group of at most 31 targets, waiting for [n]
    replies: whatever replies arrive in whatever order, repeated or from
    strangers, as long as fewer than [n] of the targets are among the senders
    nothing happens but the count in the request (nothing is sent, no timer
    touched), and the next reply ends the forward exactly when it is the [n]th
    target's first. *)
Theorem forward_waits_for_acks (obtain : node → Z → outcome (node * Z)) (k : kernel) (g : config)
    (id r mb mo e o : Z) (b : block) (l : list Z) (nd : node) (n : Z) (replies : list (Z * Z)) :
  let acked := replied b l replies in
  waits nd id r mb mo e o b l → acked_inv (req_of nd r) n ∅ → n < 2 ^ 31 →
  Z.of_nat (length l) ≤ 31 → Z.of_nat (size acked) < n →
  ∃ nd', handle_replies obtain k g id nd replies = Ret nd' ∧
    acked_inv (req_of nd' r) n acked ∧ only_req r nd nd' ∧
    ∀ status a, let p := position b a l in
      Node.handle_forward_reply obtain k g nd' id status a =
        if bool_decide (p = -1 ∨ p ∈ acked) then Ret (nd', -1)
        else
          let nd'' := upd_req nd' r (fun q => ack q p) in
          if Z.of_nat (size acked) + 1 <? n then Ret (nd'', -1)
          else Node.finish_forward obtain k g nd'' r id status.
Proof.
  intros acked W I Hn Hl Hs.
  destruct (handle_replies_acks obtain k g id r mb mo e o b l nd n ∅ replies) as (nd' & E & W' & I' & F);
    try done; rewrite (union_empty_l_L (replied b l replies)) in *; [done|].
  exists nd'. split; [done|]. split; [done|]. split; [done|]. intros status a p.
  pose proof (position_range b a l).
  apply (handle_reply_step obtain k g id r mb mo e o b l nd' n _ status a W' I'); [done|].
  fold p. unfold p. lia.
Qed.

(** [example_group] waits for both its targets, 7 and 9 *)
Definition waiting : node :=
  upd_req (node_of world_msg) 0 (fun _ =>
    MkReq 0 0 Connection.addr1 2 0 0 0 0 (Ptr 0 0) (Ptr 0 12) None None None 0 0 0).

Lemma waiting_waits : waits waiting 0 0 0 0 132 12 example_group [12; 64].
Proof.
  constructor.
  - vm_compute. reflexivity.
  - vm_compute. reflexivity.
  - vm_compute. reflexivity.
  - vm_compute. reflexivity.
  - split; [lia|vm_compute; discriminate].
  - split; [vm_compute; reflexivity|split; [vm_compute; discriminate|lia]].
  - eapply group_next; [vm_compute; reflexivity|].
    eapply group_next; [vm_compute; reflexivity|]. apply group_end.
  - by constructor; [|constructor; [|constructor]]; (split; [lia|]; split; vm_compute).
Qed.

(** a kernel that refuses everything *)
Definition dead_kernel : kernel :=
  Kernel 1 (fun _ => None) (fun _ => None) (fun _ => SysRet (-1) EAGAIN)
    (fun _ => SslRet 0 SSL_ERROR_OTHER) (fun _ => []) (fun _ => SysRet (-1) EAGAIN)
    (fun _ => -1) (fun _ => -1) (fun _ => -1) (fun _ => -1) (fun _ => (false, false))
    (fun _ => -1) (fun _ => None) (fun _ => false) (fun _ => ConnectFail) (fun _ => [])
    (fun _ => None) (fun _ => SslRet 0 SSL_ERROR_OTHER) (fun _ => RecvFail EAGAIN)
    (fun _ => SslReceived []) (fun _ => (-1, Connection.addr1)).
Definition config1 : config := Config 1 1 (fun _ => 9) 0.

Lemma forward_waits_for_acks_witness :
  ∃ nd', handle_replies (fun nd _ => Ret (nd, 1)) dead_kernel config1 0 waiting
      [(0, 5); (0, 7); (0, 7)] = Ret nd' ∧
    fwd_replies_left (req_of nd' 0) = 1 ∧
    Node.handle_forward_reply (fun nd _ => Ret (nd, 1)) dead_kernel config1 nd' 0 0 7 = Ret (nd', -1) ∧
    Node.handle_forward_reply (fun nd _ => Ret (nd, 1)) dead_kernel config1 nd' 0 0 9 =
      Node.finish_forward (fun nd _ => Ret (nd, 1)) dead_kernel config1
        (upd_req nd' 0 (fun q => ack q 1)) 0 0 0.
Proof.
  assert (Er : replied example_group [12; 64] [(0, 5); (0, 7); (0, 7)] = {[0]}).
  { vm_compute. reflexivity. }
  destruct (forward_waits_for_acks (fun nd _ => Ret (nd, 1)) dead_kernel config1 0 0 0 0 132 12
    example_group [12; 64] waiting 2 [(0, 5); (0, 7); (0, 7)]) as (nd' & E & [Hl _] & _ & H).
  - exact waiting_waits.
  - split; [reflexivity|]. intros i _. cbn. by rewrite Z.bits_0.
  - lia.
  - cbn. lia.
  - rewrite Er, size_singleton. lia.
  - exists nd'. split; [exact E|]. rewrite Er in *. rewrite size_singleton in *.
    split; [exact Hl|]. split.
    + rewrite H. rewrite bool_decide_eq_true_2; [reflexivity|]. right. vm_compute. reflexivity.
    + rewrite H. rewrite bool_decide_eq_false_2; [reflexivity|].
      intros [E1|E1%elem_of_singleton]; vm_compute in E1; discriminate E1.
Defined.

(** A reply for a request that is not in front of a forward any more
    (the forward went on with fewer replies than it has targets, and the
    request now waits for its storage): unless the bytes compared happen to be
    the sender's address, the walk to the next forward finds a command that is
    none, and its check ends the whole process. *)
Theorem stray_reply_exits (obtain : node → Z → outcome (node * Z)) (k : kernel) (g : config)
    (nd : node) (id r mb mo o status a : Z) (b : block) :
  let e := mo + load_le 4 (blk_data b) (mo + 4) in
  Request.req_get_by_id (w_reqs (nd_world nd)) id = Some r →
  message_ptr (req_of nd r) = Ptr mb mo → curr_cmd (req_of nd r) = Ptr mb o →
  blocks (w_mem (nd_world nd)) !! mb = Some b → 0 ≤ mo → mo + 8 ≤ blk_size b → e ≤ blk_size b →
  0 ≤ o → inb b o e = true → Message.is_forward (ctype b o) = false →
  o + 14 ≤ blk_size b → addr_at b o ≠ a →
  Node.handle_forward_reply obtain k g nd id status a = Stop CheckFailed.
Proof.
  intros e Hr Hm Hc Hb Hmo Hh He Ho Hi Hf H14 Ha.
  unfold Node.handle_forward_reply. rewrite Hr, Hm, (message_at_ok _ _ _ _ Hb). obind.
  unfold Message.message_end, get_msg_req_size. rewrite blk_load_ok by lia. obind. fold e.
  rewrite Hc. unfold Forward.cmd_offset. rewrite Z.eqb_refl. obind.
  unfold Forward.find_forward_reply_id. change (default 0 (Some o)) with o.
  cbn [Forward.find_reply_loop]. unfold Forward.fwd_addr, sizeof_command_t.
  rewrite blk_load_ok by (cbn; lia). obind. replace (o + 4 + 4) with (o + 8) by lia.
  fold (addr_at b o). rewrite (proj2 (Z.eqb_neq _ _) Ha).
  by rewrite (next_forward_check b o e He Ho Hi Hf).
Qed.

(** the request of [waiting], gone on to the COMPUTE at 40 *)
Lemma stray_reply_exits_witness :
  Node.handle_forward_reply (fun nd _ => Ret (nd, 1)) dead_kernel config1
    (Node.set_curr_cmd waiting 0 (Ptr 0 40)) 0 0 9 = Stop CheckFailed.
Proof.
  apply (stray_reply_exits (fun nd _ => Ret (nd, 1)) dead_kernel config1
    (Node.set_curr_cmd waiting 0 (Ptr 0 40)) 0 0 0 0 40 0 9 example_group);
    solve [lia | vm_compute; reflexivity | vm_compute; discriminate].
Defined.
