(* ===== verification/Execute.v ===== *)
(** * Executing a program (src/src/dw_node.c: process_single_message, reply)

    The commands of a message as a list ([Ccmd.reads]) and their execution on
    that list; what an answer leaves in the send buffer of its connection; and
    the two ends put together: the program a client writes into a message is
    the one the node executes. *)

From S2P Require Import Prelude Timespec Memory Message Ccmd Request Connection Poll Storage Timeout Forward Node.

Local Open Scope Z_scope.

(** ** Specification: execution of a list of commands *)

Section Exec.
Context (g : config).

(** how the execution of a message leaves off: at the end, on a device there is
    not, behind the command it waits for, on a REPLY or on a forward *)
Inductive ending :=
  | Ended | Refused | Waits (o : Z) | Replies (o : Z) | Forwards (t : command_type_t) (o : Z).

(** the request that reaches the storage worker, if there is such a device *)
Definition handed (id dev : Z) (c : storage_cmd) : option effect :=
  if (dev <? 0) || (storage_devices g <=? dev) then None
  else Some (ToStorage dev (MkStorageReq (this_worker g) id c)).

(** the effects in order, for the request [id], of the commands from [o] on *)
Fixpoint exec (id o : Z) (cs : list (command_type_t * cmd_opts)) : list effect * ending :=
  match cs with
  | [] => ([], Ended)
  | (t, v) :: cs =>
      let next := o + Message.cmd_type_size t in
      let go e := let '(es, f) := exec id next cs in (e :: es, f) in
      match v with
      | O_comp c => go (Computed (comp_time_us c))
      | O_store s =>
          match handed id (store_dev_id s) (C_store s) with
          | None => ([], Refused)
          | Some e => if wait_sync s =? 0 then go e else ([e], Waits next)
          end
      | O_load l =>
          match handed id (load_dev_id l) (C_load l) with
          | None => ([], Refused)
          | Some e => ([e], Waits next)
          end
      | O_reply _ => ([], Replies o)
      | O_fwd _ => ([], Forwards t o)
      end
  end.
End Exec.

Definition to_pipe (e : effect) : bool := match e with ToStorage _ _ => true | _ => false end.
(** the node after the effects [es]; a write to a pipe is a turn *)
Definition after (nd : node) (es : list effect) : node :=
  Node (nd_world nd) (nd_timeouts nd) (dw_poll nd) (active_conns nd) (active_reqs nd)
    (turn nd + length (filter to_pipe es)) (effects nd ++ es) (next_thread_cnt nd).

(** a command that is executed at once: its effect *)
Definition local_effect (g : config) (id : Z) (cv : command_type_t * cmd_opts) : option effect :=
  match cv.2 with
  | O_comp c => Some (Computed (comp_time_us c))
  | O_store s => if wait_sync s =? 0 then handed g id (store_dev_id s) (C_store s) else None
  | _ => None
  end.

Lemma exec_local g id o pre es v post : mapM (local_effect g id) pre = Some es →
  exec g id o (pre ++ (REPLY, O_reply v) :: post) = (es, Replies (o + tsize pre.*1)).
Proof.
  revert o es. induction pre as [|[t x] pre IH]; intros o es E.
  { injection E as <-. cbn. by rewrite Z.add_0_r. }
  cbn [mapM] in E. apply bind_Some in E as (ef & Ef & E). apply bind_Some in E as (es' & E' & E).
  injection E as <-. cbn [app exec]. rewrite (IH _ es') by done.
  rewrite fmap_cons; cbn [fst]. rewrite tsize_cons, Z.add_assoc.
  unfold local_effect in Ef. cbn [snd] in Ef. destruct x as [s|c|l|re|f]; try done.
  - destruct (wait_sync s =? 0); [|done]. by rewrite Ef.
  - by injection Ef as <-.
Qed.

Lemma reads_app b o pre post : Ccmd.reads b o (pre ++ post) →
  Ccmd.reads b (o + tsize pre.*1) post.
Proof.
  revert o. induction pre as [|[t x] pre IH]; intros o.
  - cbn. by rewrite Z.add_0_r.
  - cbn [app Ccmd.reads]. rewrite fmap_cons; cbn [fst]. rewrite tsize_cons, Z.add_assoc.
    intros (_ & _ & Hr). by apply IH.
Qed.

(** the pipes to the storage workers take what is written *)
Definition pipes_take (k : kernel) : Prop :=
  ∀ t, ∃ rest, takes (k_write k t) sizeof_storage_req_t rest.

Lemma fmap_Ret_inv {A B} (f : A → B) (o : outcome A) b : f <$> o = Ret b → ∃ a, o = Ret a ∧ f a = b.
Proof. destruct o; cbn; naive_solver. Qed.

Lemma tsize_length ts : 4 * Z.of_nat (length ts) ≤ tsize ts.
Proof.
  induction ts as [|t ts IH]; [done|]. cbn [length]. rewrite tsize_cons.
  pose proof (cmd_type_size_range t). lia.
Qed.

Section Run.
Context (k : kernel) (g : config) (r mb mo e conn_id : Z) (b : block).
Context (Hk : pipes_take k) (Hfit : e ≤ blk_size b) (Hmax : e < 2 ^ 31).
Implicit Types (nd : node) (o : Z) (es : list effect) (cs : list (command_type_t * cmd_opts)).

Lemma after_nil nd : after nd [] = nd.
Proof. unfold after. destruct nd; cbn. by rewrite Nat.add_0_r, app_nil_r. Qed.

Lemma after_computed nd us es : after (emit nd (Computed us)) es = after nd (Computed us :: es).
Proof. unfold after, emit. cbn. by rewrite <- app_assoc. Qed.

Lemma after_handed nd d q es :
  after (emit (next_turn nd) (ToStorage d q)) es = after nd (ToStorage d q :: es).
Proof.
  unfold after, emit, next_turn. cbn [nd_world nd_timeouts dw_poll active_conns active_reqs turn effects].
  rewrite filter_cons, decide_True by exact I. cbn [length].
  by rewrite <- app_assoc, Nat.add_succ_r.
Qed.

Lemma message_at_after nd es m : Forward.message_at (after nd es) m = Forward.message_at nd m.
Proof. done. Qed.

(** handing a command to a storage worker *)
Lemma to_storage_handed nd c dev :
  Node.to_storage k g nd r c dev =
  Ret match handed g (req_id (req_of nd r)) dev c with
      | None => (nd, false)
      | Some e => (emit (next_turn nd) e, true)
      end.
Proof.
  unfold Node.to_storage, handed. destruct (_ || _); [done|].
  destruct (Hk (turn nd)) as [rest Ht].
  rewrite (safe_write_all _ _ _ Ht) by done. done.
Qed.

Lemma handed_inv id dev c ef : handed g id dev c = Some ef → ∃ d q, ef = ToStorage d q.
Proof. unfold handed. destruct (_ || _); [done|]. intros [= <-]. eauto. Qed.

(** a step over a command that has no context: to the command behind it *)
Lemma skip_simple o t : 0 ≤ o → inb b o e = true → ctype b o = t → simple t = true →
  inb b (o + Message.cmd_type_size t) e = true →
  Message.cmd_bounded_skip b (Some o) 1 e = Ret (Some (o + Message.cmd_type_size t)).
Proof.
  intros Ho Hi Et Hs Hn. pose proof (skip_walked b e Hfit Hmax o 1 Ho) as W.
  assert (Ht : t ≠ EOM) by (by intros ->).
  rewrite (tokens_step b e) in W by (done || congruence). rewrite Et in W.
  destruct (tokens_head b e _ Hn) as [ts Ets]. rewrite Ets in W.
  change (Z.to_nat 1) with 1%nat in W. cbn [Walk.skip] in W. rewrite decide_False in W by done.
  assert (Ec : Walk.context (t :: ctype b (o + Message.cmd_type_size t) :: ts) 0 =
    Some (ctype b (o + Message.cmd_type_size t) :: ts)).
  { rewrite Walk.context_cons. cbv zeta.
    replace (Walk.depth_step t _ 0) with 0 by (by destruct t). by rewrite andb_false_r. }
  rewrite Ec in W. cbn [mbind option_bind Walk.skip walked] in W.
  destruct W as (o' & -> & _ & _ & _ & ->). do 2 f_equal. unfold at_rest.
  rewrite (tokens_step b e) by (done || congruence). rewrite Et, Ets, tsize_cons. lia.
Qed.

(** the commands [cs] from [o] to the EOM behind them, inside the message *)
Definition program (o : Z) (cs : list (command_type_t * cmd_opts)) : Prop :=
  0 ≤ o ∧ Ccmd.reads b o cs ∧ get_cmd b (o + tsize cs.*1) = Ret EOM ∧
  o + tsize cs.*1 + 4 ≤ e.

Lemma program_head o cs : program o cs →
  inb b o e = true ∧ ctype b o = match cs with [] => EOM | (t, _) :: _ => t end.
Proof.
  intros (Ho & Hr & Ee & Hs). pose proof (tsize_nonneg cs.*1). destruct cs as [|[t v] cs].
  - change (tsize ([] : list (command_type_t * cmd_opts)).*1) with 0 in *. rewrite Z.add_0_r in *.
    rewrite (get_cmd_eq b e Hfit) in Ee by lia. injection Ee as Ee. split; [|done].
    apply inb_spec. rewrite Ee. change (Message.cmd_type_size EOM) with 4. lia.
  - rewrite fmap_cons in *; cbn [fst] in *. rewrite tsize_cons in *. destruct Hr as (Et & _).
    pose proof (tsize_nonneg cs.*1). pose proof (cmd_type_size_range t).
    rewrite (get_cmd_eq b e Hfit) in Et by lia. injection Et as Et. split; [|done].
    apply inb_spec. rewrite Et. lia.
Qed.

Lemma program_tail o t v cs : program o ((t, v) :: cs) → program (o + Message.cmd_type_size t) cs.
Proof.
  unfold program. rewrite fmap_cons; cbn [fst]. rewrite tsize_cons.
  intros (Ho & (_ & _ & Hr) & Ee & Hs). pose proof (cmd_type_size_range t).
  rewrite Z.add_assoc in Ee. split_and!; [lia|done|done|lia].
Qed.

Lemma program_cons o t v cs : program o ((t, v) :: cs) →
  inb b o e = true ∧ ctype b o = t ∧ inb b (o + Message.cmd_type_size t) e = true ∧
  get_cmd b o = Ret t ∧ Ccmd.get_opts b o t = Ret v.
Proof.
  intros Hp. destruct (program_head o _ Hp) as [Hi Ht].
  destruct (program_head _ cs (program_tail _ _ _ _ Hp)) as [Hn _].
  destruct Hp as (_ & (Et & Ev & _) & _). done.
Qed.

Lemma program_length o cs : program o cs → 4 * Z.of_nat (length cs) + 4 ≤ e - o.
Proof.
  intros (_ & _ & _ & Hs). pose proof (tsize_length cs.*1) as Hl. rewrite length_fmap in Hl. lia.
Qed.

(** where the execution leaves off, in the code *)
Definition finish (nd : node) (f : ending) : outcome (node * Z) :=
  match f with
  | Ended => Ret (nd, 1)
  | Refused => Ret (nd, -1)
  | Waits o => Ret (Node.set_curr_cmd nd r (Ptr mb o), 0)
  | Replies o =>
      '(nd, reply_result) ← Node.reply k g nd r (Ptr mb mo) o;
      Node.after_reply k nd r conn_id reply_result
  | Forwards t o =>
      let nd := if bool_decide (t = FORWARD_BEGIN) then Node.set_curr_cmd nd r (Ptr mb o) else nd in
      '(nd, ok) ← Forward.start_forward k g nd r (Ptr mb mo) o;
      Ret (nd, if (ok : bool) then 0 else -1)
  end.

Lemma process_loop_exec fuel nd o cs : blocks (w_mem (nd_world nd)) !! mb = Some b →
  program o cs → (length cs < fuel)%nat →
  Node.process_loop fuel k g nd r (Ptr mb mo) conn_id (Some o) e =
  let '(es, f) := exec g (req_id (req_of nd r)) o cs in finish (after nd es) f.
Proof.
  revert fuel nd o. induction cs as [|[t v] cs IH]; intros fuel nd o Hb Hp Hf;
    (destruct fuel as [|fuel]; [cbn in Hf; lia|]); cbn [Node.process_loop exec];
    rewrite (message_at_ok _ _ _ _ Hb); obind.
  { destruct Hp as (_ & _ & Ee & _). unfold tsize in Ee. cbn [foldr fmap list_fmap] in Ee.
    rewrite Z.add_0_r in Ee. rewrite Ee. obind. by rewrite after_nil. }
  destruct (program_cons o t v cs Hp) as (Hi & Ect & Hn & Et & Ev).
  pose proof (program_tail _ _ _ _ Hp) as Hp'.
  cbn [length] in Hf. rewrite Et. obind.
  assert (Hgo : ∀ nd', nd_world nd' = nd_world nd → simple t = true →
    (next ← Message.cmd_bounded_skip b (Some o) 1 e;
     Node.process_loop fuel k g nd' r (Ptr mb mo) conn_id next e) =
    let '(es, f) := exec g (req_id (req_of nd r)) (o + Message.cmd_type_size t) cs in
    finish (after nd' es) f).
  { intros nd' Ew Hs. destruct Hp as [Ho _]. rewrite (skip_simple o t) by done. obind.
    rewrite IH by (rewrite ?Ew; done || lia). unfold req_of. by rewrite Ew. }
  assert (Hwait : Message.cmd_bounded_next b o e = Ret (Some (o + Message.cmd_type_size t))).
  { rewrite (bounded_next_eq b e Hfit) by (apply Hp || done). by rewrite Ect, Hn. }
  clear IH Hp Hp' Hi Hn Ect Et. destruct t; try discriminate Ev; cbn [Ccmd.get_opts] in Ev;
    apply fmap_Ret_inv in Ev as (x & Ex & <-); rewrite ?Ex; obind; cbn [exec].
  - rewrite Hgo by done. destruct (exec _ _ _ cs) as [es f]. by rewrite after_computed.
  - rewrite to_storage_handed. obind. destruct (handed _ _ _ _) as [ef|] eqn:E; cbn [negb].
    2: { by rewrite after_nil. }
    destruct (handed_inv _ _ _ _ E) as (d & q & ->). destruct (wait_sync x =? 0).
    + rewrite Hgo by done. destruct (exec _ _ _ cs) as [es f]. by rewrite after_handed.
    + rewrite Hwait. obind. by rewrite <- after_handed, after_nil.
  - rewrite to_storage_handed. obind. destruct (handed _ _ _ _) as [ef|] eqn:E; cbn [negb].
    2: { by rewrite after_nil. }
    destruct (handed_inv _ _ _ _ E) as (d & q & ->).
    rewrite Hwait. obind. by rewrite <- after_handed, after_nil.
  - by rewrite after_nil.
  - by rewrite after_nil.
  - by rewrite after_nil.
Qed.
Lemma process_single_run nd o cs : message_ptr (req_of nd r) = Ptr mb mo → curr_cmd (req_of nd r) = Ptr mb o →
  blocks (w_mem (nd_world nd)) !! mb = Some b → 0 ≤ mo → mo + 8 ≤ blk_size b →
  e = mo + load_le 4 (blk_data b) (mo + 4) → r_conn_id (req_of nd r) = conn_id → program o cs →
  Node.process_single_message k g nd r =
  let '(es, f) := exec g (req_id (req_of nd r)) o cs in finish (after nd es) f.
Proof.
  intros Hm Hc Hb Hmo Hh He Hr Hp. unfold Node.process_single_message.
  rewrite Hm, Hc, (message_at_ok _ _ _ _ Hb). obind.
  unfold Message.message_end, get_msg_req_size. rewrite blk_load_ok by lia. obind. rewrite <- He, Hr.
  unfold Forward.cmd_offset. rewrite Z.eqb_refl. obind. cbn [default].
  apply process_loop_exec; [done..|]. pose proof (program_length o cs Hp). cbn. lia.
Qed.
End Run.

(** [C3] A program in a message, executed from any of its commands on: the
    node does exactly what the list of its commands asks for, in order, each
    once. COMPUTE computes its time; STORE and LOAD hand their options, with
    the worker and the id of the request, to the storage worker of their
    device; STORE without a wait goes on, STORE with one and LOAD leave the
    request at the command behind them; a device there is not ends it with an
    error; the first REPLY or forward is answered or started there, and the end
    of the program ends it. Nothing else of the node changes before that. *)
Theorem process_single_message_exec (k : kernel) (g : config) (nd : node) (r mb mo o : Z) (b : block)
    (cs : list (command_type_t * cmd_opts)) :
  let e := mo + load_le 4 (blk_data b) (mo + 4) in
  pipes_take k → message_ptr (req_of nd r) = Ptr mb mo → curr_cmd (req_of nd r) = Ptr mb o →
  blocks (w_mem (nd_world nd)) !! mb = Some b → 0 ≤ mo → mo + 8 ≤ blk_size b →
  e ≤ blk_size b → e < 2 ^ 31 → program e b o cs →
  Node.process_single_message k g nd r =
  let '(es, f) := exec g (req_id (req_of nd r)) o cs in
  finish k g r mb mo (r_conn_id (req_of nd r)) (after nd es) f.
Proof.
  intros e Hk Hm Hc Hb Hmo Hh He Hmax Hp.
  by apply (process_single_run k g r mb mo e _ b Hk He Hmax nd o cs).
Qed.

(** ** The answer *)

Lemma send_ready w c sb d S N a la : 0 ≤ c < MAX_CONNS → Connection.tx_ok w c sb d S N →
  use_ssl (c_ssl (Connection.conn_at w c)) = 0 → status (Connection.conn_at w c) = READY →
  0 < s_ret a ≤ N →
  ∃ y S', let w' := Connection.set_conn w c (with_tx (Connection.conn_at w c) y) in
    Connection.conn_send w c a la = Ret (w', s_ret a) ∧ Connection.tx_ok w' c sb d S' (N - s_ret a) ∧
    Connection.pending d S N = segment d S (s_ret a) ++ Connection.pending d S' (N - s_ret a).
Proof.
  intros Hc Htx Hssl Hst Ha. pose proof Htx as (Hb & Hx & HS & HN & Hf).
  unfold Connection.conn_send. rewrite Connection.get_conn_ok by done. obind. rewrite Hssl. cbn [Z.eqb negb].
  rewrite (proj2 (Z.eqb_neq (s_ret a) 0)), (proj2 (Z.eqb_neq (s_ret a) (-1))) by lia.
  rewrite Hx, Connection.advance_tx_ok by (unfold BUF_SIZE in *; lia). obind.
  rewrite (s32_small (s_ret a)) by (unfold is_int, BUF_SIZE in *; lia).
  set (y := Connection.rewind_tx _). cbn [with_tx status].
  rewrite Hst, bool_decide_false, andb_false_r by done.
  destruct (Connection.rewind_tx_ok w c sb d S N (s_ret a) (with_tx (Connection.conn_at w c) y) Htx)
    as (S' & Htx' & Ep & _); [lia|done|].
  exists y, S'. split_and!; done.
Qed.

Lemma store_at_buf nd sb d o f v : 0 ≤ o + f → o + f + 4 ≤ BUF_SIZE →
  Node.store_at (with_buf nd sb d) (Ptr sb o) f v = Ret (with_buf nd sb (store_le 4 d (o + f) v)).
Proof.
  intros. unfold Node.store_at. cbn [ptr_add]. obind. rewrite (store_in_buf 4) by (cbn; lia).
  obind. by rewrite <- (with_buf_mem nd sb d).
Qed.

(** what reply writes at [o] of a send buffer *)
Definition answer (d : bytes) (o avail id n st : Z) : bytes :=
  store_le 4 (store_le 4 (store_le 4 (store_le 4 (store_le 4 d (o + 4) avail) o id)
    (o + 4) n) (o + 12) (type_to_Z EOM)) (o + 8) st.

Lemma answer_spec d o avail id n st : fits 4 id → fits 4 n → fits 4 st →
  let d' := answer d o avail id n st in
  load_le 4 d' o = id ∧ load_le 4 d' (o + 4) = n ∧ load_le 4 d' (o + 8) = st ∧
  load_le 4 d' (o + 12) = type_to_Z EOM ∧ ∀ x, x < o ∨ o + 16 ≤ x → byte_at d' x = byte_at d x.
Proof.
  intros Hi Hn Hs d'. unfold fits in *. unfold d', answer. split_and!.
  - rewrite !load_store_le_disjoint, load_store_le by lia. by apply Z.mod_small.
  - rewrite !load_store_le_disjoint, load_store_le by lia. by apply Z.mod_small.
  - rewrite load_store_le. by apply Z.mod_small.
  - rewrite load_store_le_disjoint, load_store_le by lia. done.
  - intros x Hx. rewrite !byte_at_store_le, !decide_False by lia. done.
Qed.

(** the connection once [reply] wrote to it *)
Definition answered (q : req_info_t) (m : Z) (c : conn_info_t) (y : tx_t) : conn_info_t :=
  with_tx (with_target (Node.with_reply_mode c m) (r_target q)) y.

Lemma set_conn_twice w c x x' :
  Connection.set_conn (Connection.set_conn w c x) c x' = Connection.set_conn w c x'.
Proof. unfold Connection.set_conn. cbn. by rewrite insert_insert, decide_True. Qed.

Section Reply.
Context (k : kernel) (g : config) (nd : node) (r mb mo cmd c sb : Z) (b : block) (d : bytes) (S N : Z).
Context (opts : reply_opts_t).
Context (Ec : r_conn_id (req_of nd r) = c) (Hc : 0 ≤ c < MAX_CONNS).
Context (Htx : Connection.tx_ok (nd_world nd) c sb d S N) (H0 : S = 0 ∨ N = 0).
Context (Hm : blocks (w_mem (nd_world nd)) !! mb = Some b) (Hne : mb ≠ sb).
Context (Hmo : 0 ≤ mo) (Hmh : mo + 12 ≤ blk_size b).
Context (Eopts : get_reply_opts b cmd = Ret opts) (Hmode : mode opts ≠ REPLY_MODE_SENDFILE).
Context (Hn : 16 ≤ resp_size opts) (Hroom : S + N + resp_size opts ≤ BUF_SIZE).

Let d1 : bytes := answer d N (BUF_SIZE - (S + N)) (load_le 4 (blk_data b) mo) (resp_size opts)
  (load_le 4 (blk_data b) (mo + 8)).
Let nd1 : node := with_buf nd sb d1.
Let nd2 : node := set_world nd1 (Connection.set_conn (nd_world nd1) c
  (Node.with_reply_mode (Node.conn_of nd c) (mode opts))).

Lemma reply_written : Node.reply k g nd r (Ptr mb mo) cmd =
  ('(w, rv) ← Connection.conn_start_send (nd_world nd2) c (r_target (req_of nd r))
                (k_send k (turn nd)) (k_ssl_write k (turn nd));
   let nd := next_turn (set_world nd2 w) in
   '(w, _) ← Connection.conn_req_remove (nd_world nd) c r;
   Ret (count_reqs (set_world nd w) (-1), rv)).
Proof using All.
  pose proof Htx as (Hb & _ & HS & HN & Hfit). unfold Node.reply. rewrite Ec.
  rewrite (message_at_ok _ _ _ _ Hm). obind. rewrite Eopts. obind.
  rewrite (Connection.prepare_send_ok _ c sb d S N Hc Htx) by lia. obind.
  set (d0 := store_le 4 d (N + 4) _). fold (with_buf nd sb d0).
  rewrite (message_at_ok _ _ _ _ (with_buf_at nd sb d0)). obind.
  unfold get_msg_req_size, get_msg_req_id, get_msg_status.
  rewrite blk_load_ok by (cbn [blk_size]; lia). obind. cbn [blk_data].
  assert (Ea : load_le 4 d0 (N + 4) = BUF_SIZE - (S + N)).
  { unfold d0. rewrite load_store_le. apply Z.mod_small. unfold BUF_SIZE in *. cbn. lia. }
  rewrite Ea. replace (resp_size opts <=? _) with true by lia. cbn [assert_]. obind.
  rewrite (message_at_ok _ _ _ _ (with_buf_other nd sb d0 mb b Hm Hne)). obind.
  rewrite !blk_load_ok by lia. obind. unfold sizeof_message_t.
  rewrite store_at_buf by lia. obind. rewrite store_at_buf by lia. obind.
  rewrite store_at_buf by lia. obind. rewrite store_at_buf by lia. obind.
  rewrite Z.add_0_r. unfold upd_conn.
  change (Connection.get_conn _ c) with (Connection.get_conn (nd_world nd) c).
  rewrite Connection.get_conn_ok by done. obind.
  rewrite (proj2 (Z.eqb_neq _ _) Hmode). fold (answer d N (BUF_SIZE - (S + N))
    (load_le 4 (blk_data b) mo) (resp_size opts) (load_le 4 (blk_data b) (mo + 8))).
  change (with_buf nd sb _) with nd1. change (set_world nd1 _) with nd2.
  change (req_of nd2 r) with (req_of nd r). change (turn nd2) with (turn nd).
  by destruct (Connection.conn_start_send _ _ _ _ _) as [[w rv]|].
Qed.

(** the node before the request is released *)
Let nd3 (y : tx_t) : node := next_turn (set_world nd1 (Connection.set_conn (nd_world nd1) c
  (answered (req_of nd r) (mode opts) (Node.conn_of nd c) y))).

Lemma reply_sent : use_ssl (c_ssl (Node.conn_of nd c)) = 0 → status (Node.conn_of nd c) = READY →
  let n := resp_size opts in let a := s_ret (k_send k (turn nd)) in 0 < a ≤ N + n →
  ∃ y S',
    Node.reply k g nd r (Ptr mb mo) cmd =
      ('(w, _) ← Connection.conn_req_remove (nd_world (nd3 y)) c r;
       Ret (count_reqs (set_world (nd3 y) w) (-1), a)) ∧
    Connection.tx_ok (nd_world (nd3 y)) c sb d1 S' (N + n - a) ∧
    segment d1 0 a ++ Connection.pending d1 S' (N + n - a) =
      Connection.pending d S N ++ segment d1 N n.
Proof using All.
  intros Hssl Hst n a Ha. pose proof Htx as (Hb & Hx & HS & HN & Hfit).
  destruct (answer_spec d N (BUF_SIZE - (S + N)) (load_le 4 (blk_data b) mo) (resp_size opts)
    (load_le 4 (blk_data b) (mo + 8))) as (_ & En & _ & _ & Hd); [apply load_le_range| |apply load_le_range|].
  { unfold fits, BUF_SIZE in *. cbn. lia. }
  assert (Htx2 : Connection.tx_ok (nd_world nd2) c sb d1 S N).
  { split_and!; [apply with_buf_at| |lia..]. unfold nd2. cbn [nd_world set_world].
    by rewrite Connection.conn_at_set, decide_True. }
  rewrite reply_written. fold d1 in En, Hd.
  destruct (Connection.start_send_ok (nd_world nd2) c sb d1 S N (r_target (req_of nd r))
    (k_send k (turn nd)) (k_ssl_write k (turn nd)) Hc Htx2 H0) as [Htx3 ->]; [lia|rewrite En; lia|].
  rewrite En in *. fold n in Htx3 |- *. set (w3 := Connection.set_conn (nd_world nd2) c _) in *.
  assert (E2 : Connection.conn_at (nd_world nd2) c = Node.with_reply_mode (Node.conn_of nd c) (mode opts)).
  { unfold nd2. cbn [nd_world set_world]. by rewrite Connection.conn_at_set, decide_True. }
  rewrite E2. cbn [Node.with_reply_mode with_file status]. rewrite Hst. cbn [Connection.not_connected].
  destruct (send_ready w3 c sb d1 0 (N + n) (k_send k (turn nd)) (k_ssl_write k (turn nd)) Hc Htx3)
    as (y & S' & E & Htx4 & Ep); [| |lia|].
  { unfold w3. rewrite Connection.conn_at_set, decide_True, E2 by done. done. }
  { unfold w3. rewrite Connection.conn_at_set, decide_True, E2 by done. done. }
  assert (Ew : Connection.set_conn w3 c (with_tx (Connection.conn_at w3 c) y) = nd_world (nd3 y)).
  { unfold w3. rewrite Connection.conn_at_set, decide_True, E2, set_conn_twice by done.
    unfold nd2. cbn [nd_world set_world]. rewrite set_conn_twice. done. }
  rewrite Ew in *. exists y, S'. rewrite E. obind. split; [done|]. split; [done|].
  fold a in Ep. rewrite <- Ep. unfold Connection.pending.
  rewrite (segment_app d1 0 N n) by lia. rewrite Z.add_0_l. f_equal.
  destruct H0 as [->| ->]; [|done]. apply segment_ext. intros x Hx'. apply Hd. lia.
Qed.
End Reply.

(** ** Serving a request *)

(** the node once the message at [P] was taken and has its request [r] *)
Record taken (nd nd' : node) (c rb P R n r : Z) (l : list Z) : Prop := Taken {
  tk_conn : Node.conn_of nd' c = with_req_list (with_rx (Node.conn_of nd c)
    (MkRx (Ptr rb 0) (Ptr rb R) (BUF_SIZE - R) (Ptr rb (P + n)))) (Some r);
  tk_mem : w_mem (nd_world nd') = w_mem (nd_world nd);
  tk_linked : linked (w_reqs (nd_world nd')) (r :: l);
  tk_ids : ids_wf (w_reqs (nd_world nd'));
  tk_msg : message_ptr (req_of nd' r) = Ptr rb P;
  tk_curr : curr_cmd (req_of nd' r) = Ptr rb (P + 12);
  tk_owner : r_conn_id (req_of nd' r) = c;
  tk_id : req_id (req_of nd' r) = last_reqs (w_reqs (nd_world nd));
  tk_others : ∀ i, i ≠ r → same_but_links (req_of nd i) (req_of nd' i);
  tk_effects : effects nd' = effects nd;
  tk_turn : turn nd' = turn nd;
  tk_active : active_reqs nd' = s32 (active_reqs nd + 1)
}.

(** what holds of connection [c] between two events: requests [l], the buffers *)
Record between (nd : node) (c rb sb : Z) (d ds : bytes) (R P S N : Z) (l : list Z) : Prop := Between {
  bt_conn : 0 ≤ c < MAX_CONNS;
  bt_rx : Connection.rx_ok (nd_world nd) c rb d R P;
  bt_tx : Connection.tx_ok (nd_world nd) c sb ds S N;
  bt_bufs : rb ≠ sb;
  bt_defrag : enable_defrag (Node.conn_of nd c) ≠ 0;
  bt_ids : ids_wf (w_reqs (nd_world nd));
  bt_linked : linked (w_reqs (nd_world nd)) l;
  bt_head : req_list (Node.conn_of nd c) = l !! 0%nat;
  bt_used : ∀ i, i ∈ l → req_id (req_of nd i) ≠ -1;
  bt_laid : Connection.laid (w_reqs (nd_world nd)) rb d P l;
  bt_length : Z.of_nat (length l) < MAX_REQS
}.

(** the request for the message at [P] was served: [es] done, an answer of [size]
    bytes with the id and the status of the message behind what waited to be
    sent, of which [a] bytes went out; the rest of the connection is as before *)
Record served (nd nd' : node) (c rb sb : Z) (d ds : bytes) (R P S N : Z) (l : list Z) (es : list effect)
    (size a : Z) : Prop := Served {
  sv_state : ∃ d' ds' R' P' S', between nd' c rb sb d' ds' R' P' S' (N + size - a) l ∧
    Connection.unprocessed d' R' P' = Connection.unprocessed d R (P + load_le 4 d (P + 4)) ∧
    (∀ i, i ∈ l → Connection.req_view (w_reqs (nd_world nd')) d' i =
      Connection.req_view (w_reqs (nd_world nd)) d i) ∧
    segment ds' 0 a ++ Connection.pending ds' S' (N + size - a) =
      Connection.pending ds S N ++ segment ds' N size ∧
    load_le 4 ds' N = load_le 4 d P ∧ load_le 4 ds' (N + 4) = size ∧
    load_le 4 ds' (N + 8) = load_le 4 d (P + 8) ∧ load_le 4 ds' (N + 12) = type_to_Z EOM;
  sv_released : req_id (req_of nd' (Request.slot (last_reqs (w_reqs (nd_world nd))))) = -1;
  sv_status : status (Node.conn_of nd' c) = READY;
  sv_effects : effects nd' = effects nd ++ es;
  sv_active : active_reqs nd' = s32 (active_reqs nd)
}.

Section Serve.
Context (k : kernel) (g : config) (nd : node) (c rb sb : Z) (d ds : bytes) (R P S N : Z) (l : list Z).
Context (Hbt : between nd c rb sb d ds R P S N l).
Context (m rest : list Z) (Hframe : Connection.take_frame (Connection.unprocessed d R P) = Connection.Complete m rest).
Context (Hfree : req_id (req_of nd (Request.slot (last_reqs (w_reqs (nd_world nd))))) = -1).

Let n : Z := load_le 4 d (P + 4).
Let b : block := Block BUF_SIZE d.
Let r : Z := Request.slot (last_reqs (w_reqs (nd_world nd))).

Lemma frame_bounds : 12 ≤ n ∧ P + n ≤ R ∧ Z.of_nat (length m) = n ∧
  rest = Connection.unprocessed d R (P + n).
Proof using All.
  destruct Hbt as [_ (_ & _ & HP & HR) _ _ _ _ _ _ _ _ _]. pose proof Hframe as E.
  unfold Connection.unprocessed in E. rewrite Connection.take_frame_segment in E by (unfold BUF_SIZE in *; lia).
  fold n in E. destruct (Z.ltb_spec (R - P) sizeof_message_t); [done|].
  destruct (Z.ltb_spec (R - P) n); [done|]. destruct (_ && _) eqn:Es; [|done].
  injection E as <- <-. unfold sizeof_message_t in *. split_and!; [lia|lia| |].
  - by rewrite segment_length by lia.
  - unfold Connection.unprocessed. f_equal. lia.
Qed.

(** the message gets a request and is executed *)
Lemma obtain_taken fuel t ts : tokens b (P + 12) (P + n) = t :: ts → t ≠ EOM → ∃ nd', taken nd nd' c rb P R n r l ∧
  Node.obtain_loop (Datatypes.S fuel) k g nd c =
    '(nd, executed) ← Node.process_single_message k g nd' r;
    if executed <? 0 then Ret (nd, 0)
    else if (executed =? 0) && negb (serialize_request (Node.conn_of nd c) =? 0) then
      p ← ptr_add (curr_proc_buf (rx (Node.conn_of nd c))) (s32 n);
      nd ← upd_conn nd c (fun x => with_rx x
             (MkRx (recv_buf (rx x)) (curr_recv_buf (rx x)) (curr_recv_size (rx x)) p));
      Ret (nd, 1)
    else Node.obtain_loop fuel k g nd c.
Proof using All.
  intros Htok Ht. destruct frame_bounds as (Hn & HnR & Hlen & _).
  destruct Hbt as [Hc Hrx Htx Hbufs Hdef Hids Hlk Hhead Hused Hlaid Hl].
  pose proof Hrx as (Hb & Hx & HP & HR).
  pose proof (Connection.prepare_recv_spec (nd_world nd) c rb d R P Hc Hrx) as Hpr.
  rewrite Hframe in Hpr. destruct Hpr as (w1 & E1 & _ & _ & _ & Er1 & Em1 & Ew1).
  rewrite Hlen in Ew1.
  assert (Ec1 : Connection.conn_at w1 c = with_rx (Node.conn_of nd c)
    (MkRx (Ptr rb 0) (Ptr rb R) (BUF_SIZE - R) (Ptr rb (P + n)))).
  { by rewrite Ew1, Connection.conn_at_set, decide_True. }
  cbn [Node.obtain_loop]. rewrite E1. obind.
  assert (Hb1 : blocks (w_mem (nd_world (set_world nd w1))) !! rb = Some b) by (cbn; by rewrite Em1).
  rewrite (message_at_ok _ _ _ _ Hb1). obind. unfold Message.message_first_cmd, sizeof_message_t.
  apply tokens_cons_inv in Htok as (Hi & -> & _). assert (He : P + n ≤ blk_size b) by (change (blk_size b) with BUF_SIZE; lia).
  rewrite (inb_get_cmd b (P + n) He) by (lia || done). obind. rewrite bool_decide_false by done.
  pose proof (Connection.req_add_spec w1 c l Hc) as Ha. rewrite Er1, Ec1 in Ha.
  specialize (Ha Hids Hlk Hhead Hused). cbn [nd_world set_world].
  destruct (Connection.conn_req_add w1 c) as [[w2 [r'|]]|]; [| |done].
  2: { destruct Ha as (_ & _ & _ & Hx'). by destruct Hx'. }
  destruct Ha as (Hlk2 & _ & Hids2 & Er & Hown & _ & _ & Em2 & Hsame & Hrl & Hid & Ew2).
  fold r in Er. subst r'.
  obind. unfold get_msg_req_size. rewrite blk_load_ok by (cbn [blk_size b]; lia). obind.
  cbn [blk_data b]. fold n.
  set (nd' := upd_req _ r _). exists nd'. split; [|reflexivity].
  assert (Hat : ∀ i, Request.req_at (w_reqs (nd_world nd')) i =
    if decide (r = i) then set_message (Request.req_at (w_reqs w2) r) (Ptr rb P) (Ptr rb (P + 12))
    else Request.req_at (w_reqs w2) i).
  { intros. unfold nd', upd_req. cbn [nd_world count_reqs set_world w_reqs Connection.set_reqs].
    by rewrite req_at_upd. }
  assert (Hr : Request.req_at (w_reqs (nd_world nd')) r =
    set_message (Request.req_at (w_reqs w2) r) (Ptr rb P) (Ptr rb (P + 12))) by (by rewrite Hat, decide_True).
  constructor; try done; unfold req_of; rewrite ?Hr; try done.
  - unfold Node.conn_of, nd', upd_req. cbn [nd_world count_reqs set_world].
    rewrite Connection.conn_at_set_reqs, Ew2, Connection.conn_at_set, decide_True by done. done.
  - cbn. congruence.
  - apply (linked_ext (w_reqs w2)); [done|]. intros i Hin. rewrite Hat. case_decide; by subst.
  - intros i. rewrite Hat. case_decide; [subst; apply Hids2|apply Hids2].
  - intros i Hir. rewrite Hat, decide_False by congruence. by apply Hsame.
Qed.

(** releasing the request once the answer is in the send buffer *)
Lemma taken_released nd1 nd3 q md y : taken nd nd1 c rb P R n r l →
  w_reqs (nd_world nd3) = w_reqs (nd_world nd1) →
  Node.conn_of nd3 c = answered q md (Node.conn_of nd1 c) y →
  blocks (w_mem (nd_world nd3)) !! rb = Some b →
  ∃ w' d' s x, Connection.conn_req_remove (nd_world nd3) c r = Ret (w', l !! 0%nat) ∧
    Connection.rx_ok w' c rb d' (R - s) (P + n - s) ∧
    Connection.unprocessed d' (R - s) (P + n - s) = Connection.unprocessed d R (P + n) ∧
    linked (w_reqs w') l ∧ Connection.laid (w_reqs w') rb d' (P + n - s) l ∧
    (∀ i, i ∈ l → Connection.req_view (w_reqs w') d' i = Connection.req_view (w_reqs (nd_world nd)) d i) ∧
    req_id (Request.req_at (w_reqs w') r) = -1 ∧ r_conn_id (Request.req_at (w_reqs w') r) = c ∧
    Connection.conn_at w' c = with_req_list (with_rx (Node.conn_of nd3 c) x) (l !! 0%nat) ∧
    (∀ j, j ≠ rb → blocks (w_mem w') !! j = blocks (w_mem (nd_world nd3)) !! j) ∧
    (∀ i, i ∈ l → req_id (Request.req_at (w_reqs w') i) = req_id (req_of nd i)) ∧
    ids_wf (w_reqs w').
Proof using All.
  intros [Kc Km Kl Ki Kmsg Kcur Kown Kid Ko _ _ _] Er Ec3 Hb3.
  destruct frame_bounds as (Hn & HnR & _ & _).
  destruct Hbt as [Hc (Hb & Hx & HP & HR) _ Hbufs Hdef Hids Hlk Hhead Hused Hlaid Hl].
  pose proof (proj1 Kl) as [Hrl _]%NoDup_cons. rewrite Kc in Ec3. rewrite <- Er in Kl, Ki.
  assert (Hin : ∀ i, i ∈ l → same_but_links (req_of nd i) (Request.req_at (w_reqs (nd_world nd3)) i)).
  { intros i Hi. rewrite Er. apply (Ko i). by intros ->. }
  assert (Hl3 : Connection.laid (w_reqs (nd_world nd3)) rb d (P + n) (r :: l)).
  { exists P. unfold Connection.msz, sizeof_message_t. fold n. rewrite Er.
    split_and!; [exact Kmsg|lia|lia|lia|right; by exists (P + 12)|].
    apply (Connection.laid_ext (w_reqs (nd_world nd)) _ rb d d P l Hlaid); [|done].
    intros i Hi. rewrite <- Er. by destruct (Hin i Hi) as (_ & _ & _ & ? & ? & _). }
  destruct (Connection.req_remove_spec (nd_world nd3) c rb d R (P + n) (r :: l) 0 r) as
    (w' & d' & s & E & _ & _ & Hrx' & Hun & Hlk' & Hhd' & Hlaid' & Hview & Hid & Hown & (cx & ch & Ecn) &
     _ & Hblk & Hids3 & Hids'); try done; try (fold (Node.conn_of nd3 c); rewrite Ec3; done).
  { split_and!; [done| |lia..]. fold (Node.conn_of nd3 c). by rewrite Ec3. }
  { cbn [length]. lia. }
  change (delete 0%nat (r :: l)) with l in *.
  exists w', d', s, cx. split_and!; try done.
  - intros i Hi. rewrite Hview by done. destruct (Hin i Hi) as (_ & _ & _ & Em & Ecu & _).
    unfold Connection.req_view. by rewrite Em, Ecu.
  - rewrite Hown, Er. exact Kown.
  - rewrite Ecn. f_equal. rewrite Ecn in Hhd'. done.
  - intros i Hi. rewrite Hids3 by (by intros ->). by destruct (Hin i Hi) as (? & _).
  - by apply Hids'.
Qed.

Section Answer.
Context (nd1 : node) (es : list effect) (x : Z) (opts : reply_opts_t).
Context (Htk : taken nd nd1 c rb P R n r l) (Eo : get_reply_opts b x = Ret opts).
Context (Hmode : mode opts ≠ REPLY_MODE_SENDFILE) (Hsize : 16 ≤ resp_size opts).
Context (Hroom : S + N + resp_size opts ≤ BUF_SIZE) (H0 : S = 0 ∨ N = 0).
Context (Hssl : use_ssl (c_ssl (Node.conn_of nd c)) = 0) (Hst : status (Node.conn_of nd c) = READY).
Let a : Z := s_ret (k_send k (turn (after nd1 es))).
Context (Ha : 0 < a ≤ N + resp_size opts).

Lemma reply_released : ∃ nd', finish k g r rb P c (after nd1 es) (Replies x) = Ret (nd', 1) ∧
  served nd nd' c rb sb d ds R P S N l es (resp_size opts) a.
Proof using All.
  destruct frame_bounds as (Hn & HnR & _ & _). pose proof Htk as [Kc Km _ _ _ _ _ _ _ Ke _ Ka].
  destruct Hbt as [Hc (Hb & Hx & HP & HR) (Hsb & Htx & HS & HN & Hfit) Hbufs Hdef _ _ _ Hused _ Hl].
  assert (Htx1 : Connection.tx_ok (nd_world (after nd1 es)) c sb ds S N).
  { split_and!; [cbn; by rewrite Km| |lia..]. cbn [nd_world after].
    fold (Node.conn_of nd1 c). rewrite Kc. exact Htx. }
  assert (Hb1 : blocks (w_mem (nd_world (after nd1 es))) !! rb = Some b) by (cbn; by rewrite Km).
  destruct (reply_sent k g (after nd1 es) r rb P x c sb b ds S N opts) as (y & S' & E & Htx2 & Ep);
    try done; try lia; try (change (Node.conn_of (after nd1 es) c) with (Node.conn_of nd1 c); by rewrite Kc);
    [apply Htk|unfold b; cbn [blk_size]; lia|].
  set (ds1 := answer _ _ _ _ _ _) in *. set (nd3 := next_turn _) in *. fold a in E, Htx2, Ep.
  assert (E3 : Node.conn_of nd3 c = answered (req_of (after nd1 es) r) (mode opts) (Node.conn_of nd1 c) y).
  { unfold nd3, Node.conn_of. cbn [nd_world next_turn set_world].
    by rewrite Connection.conn_at_set, decide_True. }
  destruct (taken_released nd1 nd3 _ _ y Htk eq_refl E3) as
    (w' & d' & s & cx & E' & Hrx' & Hun & Hlk' & Hlaid' & Hview & Hid & Hown & Ecn & Hblk & Hids & Hwf).
  { cbn. by rewrite lookup_insert_ne by done. }
  cbn [finish]. rewrite E. obind. rewrite E'. obind. unfold Node.after_reply.
  set (nd' := count_reqs _ _). change (req_of nd' r) with (Request.req_at (w_reqs w') r). rewrite Hown.
  change (Node.conn_of nd' c) with (Connection.conn_at w' c). rewrite Ecn, E3, Kc.
  cbn [with_req_list with_rx answered with_tx with_target Node.with_reply_mode with_file status].
  rewrite Hst, (proj2 (Z.eqb_neq a 0)), andb_false_r by lia. 
  exists nd'. split; [done|].
  assert (Ecn' : Node.conn_of nd' c = with_req_list (with_rx (answered (req_of (after nd1 es) r) (mode opts)
    (Node.conn_of nd1 c) y) cx) (l !! 0%nat)) by exact (eq_trans Ecn (f_equal (fun z => with_req_list (with_rx z cx) _) E3)).
  rewrite Kc in Ecn'. destruct (answer_spec ds N (BUF_SIZE - (S + N)) (load_le 4 d P) (resp_size opts)
    (load_le 4 d (P + 8))) as (A1 & A2 & A3 & A4 & _); [apply load_le_range| |apply load_le_range|].
  { unfold fits, BUF_SIZE in *. cbn. lia. }
  destruct Htx2 as (T1 & T2 & T3). constructor.
  - exists d', ds1, (R - s), (P + n - s), S'. split_and!; try done.
    constructor; try done; rewrite ?Ecn'; try done.
    + split; [rewrite <- T1; by apply Hblk|split; [|exact T3]].
      fold (Node.conn_of nd' c). rewrite Ecn'. fold (Node.conn_of nd3 c) in T2. rewrite E3, Kc in T2. done.
    + intros i Hi. unfold req_of. cbn. rewrite Hids by done. by apply Hused.
  - exact Hid.
  - by rewrite Ecn'.
  - cbn. by rewrite Ke.
  - cbn [active_reqs nd' count_reqs set_world nd3 next_turn with_buf after]. rewrite Ka. unfold s32.
    dlia.
Qed.
End Answer.
End Serve.

Lemma obtain_loop_serves (k : kernel) (g : config) (nd : node) (c rb sb : Z) (d ds : bytes)
    (R P S N : Z) (l m rest : list Z) (pre post : list (command_type_t * cmd_opts)) (opts : reply_opts_t)
    (es : list effect) (fuel : nat) :
  let id := last_reqs (w_reqs (nd_world nd)) in
  between nd c rb sb d ds R P S N l → pipes_take k →
  Connection.take_frame (Connection.unprocessed d R P) = Connection.Complete m rest →
  req_id (req_of nd (Request.slot id)) = -1 →
  program (P + load_le 4 d (P + 4)) (Block BUF_SIZE d) (P + 12) (pre ++ (REPLY, O_reply opts) :: post) →
  mapM (local_effect g id) pre = Some es →
  mode opts ≠ REPLY_MODE_SENDFILE → 16 ≤ resp_size opts → S + N + resp_size opts ≤ BUF_SIZE →
  S = 0 ∨ N = 0 → use_ssl (c_ssl (Node.conn_of nd c)) = 0 → status (Node.conn_of nd c) = READY →
  let a := s_ret (k_send k (turn nd + length (filter to_pipe es))) in 0 < a ≤ N + resp_size opts →
  ∃ nd', Node.obtain_loop (Datatypes.S fuel) k g nd c = Node.obtain_loop fuel k g nd' c ∧
    served nd nd' c rb sb d ds R P S N l es (resp_size opts) a.
Proof.
  intros id Hbt Hk Hf Hfree Hp Hes Hmode Hsize Hroom H0 Hssl Hst a Ha.
  pose proof (frame_bounds k g nd c rb sb d ds R P S N l Hbt m rest Hf Hfree) as (Hn & HnR & _ & _).
  pose proof Hbt as [_ (Hb & _ & HP & HR) _ _ _ _ _ _ _ _ _].
  set (e := P + load_le 4 d (P + 4)) in *. set (b := Block BUF_SIZE d) in *.
  assert (He : e ≤ blk_size b) by (change (blk_size b) with BUF_SIZE; unfold e; lia).
  assert (Hmax : e < 2 ^ 31) by (unfold e, BUF_SIZE in *; lia).
  assert (Htok : ∃ t ts, tokens b (P + 12) e = t :: ts ∧ t ≠ EOM).
  { destruct pre as [|[t v] pre]; cbn [app] in Hp;
      destruct (program_cons e b He _ _ _ _ Hp) as (Hi & Ect & _ & _ & Ev);
      destruct (tokens_head b e _ Hi) as [ts Ets]; rewrite Ect in Ets; eexists _, ts; (split; [exact Ets|]);
      intros Heq; first [discriminate Heq | rewrite Heq in Ev; discriminate Ev]. }
  destruct Htok as (t & ts & Htok & Ht).
  destruct (obtain_taken k g nd c rb sb d ds R P S N l Hbt m rest Hf Hfree fuel t ts Htok Ht)
    as (nd1 & Htk & E). rewrite E. clear E.
  assert (Eo : get_reply_opts b (P + 12 + tsize pre.*1) = Ret opts).
  { destruct Hp as (_ & Hr & _). apply reads_app in Hr as (_ & Ev & _).
    cbn [Ccmd.get_opts] in Ev. apply fmap_Ret_inv in Ev as (v & Ev & [= ->]). done. }
  assert (Et' : turn (after nd1 es) = (turn nd + length (filter to_pipe es))%nat).
  { cbn. by rewrite (tk_turn _ _ _ _ _ _ _ _ _ Htk). }
  assert (Ha' : 0 < s_ret (k_send k (turn (after nd1 es))) ≤ N + resp_size opts) by (by rewrite Et').
  set (r := Request.slot (last_reqs (w_reqs (nd_world nd)))) in *.
  destruct (reply_released k g nd c rb sb d ds R P S N l Hbt m rest Hf Hfree nd1 es _ opts Htk Eo
    Hmode Hsize Hroom H0 Hssl Hst) as (nd' & Ef & Hsv); [exact Ha'|].
  unfold a in Hsv |- *. rewrite Et' in Hsv. exists nd'. split; [|exact Hsv].
  assert (Hb1 : blocks (w_mem (nd_world nd1)) !! rb = Some b) by (by rewrite (tk_mem _ _ _ _ _ _ _ _ _ Htk)).
  pose proof Htk as [_ _ _ _ Kmsg Kcur Kown Kid _ _ _ _].
  rewrite (process_single_run k g r rb P e c b Hk He Hmax nd1 (P + 12)
    (pre ++ (REPLY, O_reply opts) :: post)); try done; try lia.
  rewrite Kid, (exec_local g id _ pre es) by done.
  cbn beta iota. fold r in Ef. rewrite Ef. done.
Qed.

Lemma obtain_loop_done (k : kernel) (g : config) (nd : node) (c rb : Z) (d : bytes) (R P : Z) (fuel : nat) :
  0 ≤ c < MAX_CONNS → Connection.rx_ok (nd_world nd) c rb d R P →
  Connection.take_frame (Connection.unprocessed d R P) = Connection.Incomplete →
  Node.obtain_loop (Datatypes.S fuel) k g nd c = Ret (nd, 1).
Proof.
  intros Hc Hrx Hf. pose proof (Connection.prepare_recv_spec (nd_world nd) c rb d R P Hc Hrx) as H.
  rewrite Hf in H. cbn [Node.obtain_loop]. rewrite H. obind. by destruct nd.
Qed.

(** one complete message, and maybe the start of another *)
Lemma obtain_messages_served (k : kernel) (g : config) (nd : node) (c rb sb : Z) (d ds : bytes)
    (R P S N : Z) (l m rest : list Z) (pre post : list (command_type_t * cmd_opts)) (opts : reply_opts_t)
    (es : list effect) (fuel : nat) :
  let id := last_reqs (w_reqs (nd_world nd)) in
  between nd c rb sb d ds R P S N l → pipes_take k →
  serialize_request (Node.conn_of nd c) = 0 ∨ l = [] →
  Connection.take_frame (Connection.unprocessed d R P) = Connection.Complete m rest →
  Connection.take_frame rest = Connection.Incomplete →
  req_id (req_of nd (Request.slot id)) = -1 →
  program (P + load_le 4 d (P + 4)) (Block BUF_SIZE d) (P + 12) (pre ++ (REPLY, O_reply opts) :: post) →
  mapM (local_effect g id) pre = Some es →
  mode opts ≠ REPLY_MODE_SENDFILE → 16 ≤ resp_size opts → S + N + resp_size opts ≤ BUF_SIZE →
  S = 0 ∨ N = 0 → use_ssl (c_ssl (Node.conn_of nd c)) = 0 → status (Node.conn_of nd c) = READY →
  let a := s_ret (k_send k (turn nd + length (filter to_pipe es))) in 0 < a ≤ N + resp_size opts →
  ∃ nd', Node.obtain_messages (3 + fuel) k g nd c = Ret (nd', 1) ∧
    served nd nd' c rb sb d ds R P S N l es (resp_size opts) a.
Proof.
  intros id Hbt Hk Hser Hf Hrest Hfree Hp Hes Hmode Hsize Hroom H0 Hssl Hst a Ha.
  destruct (obtain_loop_serves k g nd c rb sb d ds R P S N l m rest pre post opts es (Datatypes.S fuel))
    as (nd' & E & Hsv); try done.
  pose proof (frame_bounds k g nd c rb sb d ds R P S N l Hbt m rest Hf Hfree) as (_ & _ & _ & Hr).
  exists nd'. split; [|done]. change (3 + fuel)%nat with (Datatypes.S (Datatypes.S (Datatypes.S fuel))).
  cbn [Node.obtain_messages]. rewrite Connection.get_conn_ok by apply Hbt. obind.
  assert (Eg : negb (serialize_request (Connection.conn_at (nd_world nd) c) =? 0)
    && bool_decide (req_list (Connection.conn_at (nd_world nd) c) ≠ None) = false).
  { destruct Hser as [Hser| ->].
    - unfold Node.conn_of in Hser. by rewrite Hser.
    - pose proof (bt_head _ _ _ _ _ _ _ _ _ _ _ Hbt) as Hh. unfold Node.conn_of in Hh. rewrite Hh.
      by rewrite andb_false_r. }
  rewrite Eg, E. destruct (sv_state _ _ _ _ _ _ _ _ _ _ _ _ _ _ _ Hsv)
    as (d' & ds' & R' & P' & S' & Hbt' & Hun & _).
  apply (obtain_loop_done k g nd' c rb d' R' P'); [apply Hbt'|apply Hbt'|].
  by rewrite Hun, <- Hr.
Qed.

(** ** From the client to the node *)

Section Moved.
Context (b b2 : block).

(** the [len] bytes at [o] of [b] are at [o2] of [b2] *)
Definition moved (o o2 len : Z) : Prop :=
  0 ≤ o ∧ 0 ≤ o2 ∧ o + len ≤ blk_size b ∧ o2 + len ≤ blk_size b2 ∧
  ∀ x, 0 ≤ x < len → byte_at (blk_data b2) (o2 + x) = byte_at (blk_data b) (o + x).

Lemma moved_sub o o2 len k len' : moved o o2 len → 0 ≤ k → k + len' ≤ len →
  moved (o + k) (o2 + k) len'.
Proof.
  intros (H1 & H2 & H3 & H4 & H5) ??. split_and!; [lia..|]. intros x Hx.
  rewrite <- !Z.add_assoc. apply H5. lia.
Qed.

Lemma moved_load n o o2 len k : moved o o2 len → 0 ≤ k → k + Z.of_nat n ≤ len →
  blk_load n b2 (o2 + k) = blk_load n b (o + k).
Proof.
  intros (H1 & H2 & H3 & H4 & H5) ??. rewrite !blk_load_ok by lia. f_equal.
  apply load_le_ext. intros x Hx. rewrite <- !Z.add_assoc. apply H5. lia.
Qed.

Lemma moved_cmd o o2 len : moved o o2 len → 4 ≤ len → get_cmd b2 o2 = get_cmd b o.
Proof.
  intros H ?. unfold get_cmd. pose proof (moved_load 4 o o2 len 0 H) as E.
  rewrite !Z.add_0_r in E. by rewrite E by (cbn; lia).
Qed.

Lemma moved_opts o o2 len t : moved o o2 len → Message.cmd_type_size t ≤ len →
  Ccmd.get_opts b2 o2 t = Ccmd.get_opts b o t.
Proof.
  intros H Hl. pose proof (fun n k => moved_load n o o2 len k H) as E.
  destruct t; sizes; cbn [Ccmd.get_opts]; try done;
    unfold get_store_opts, get_comp_opts, get_load_opts, get_reply_opts, get_fwd_opts, sizeof_command_t;
    rewrite <- ?Z.add_assoc; rewrite !E by (sizes; lia); done.
Qed.

Lemma moved_reads cs : ∀ o o2 len, moved o o2 len → tsize cs.*1 ≤ len →
  Ccmd.reads b o cs → Ccmd.reads b2 o2 cs.
Proof.
  induction cs as [|[t v] cs IH]; intros o o2 len H Hl; [done|].
  rewrite fmap_cons in Hl; cbn [fst] in Hl. rewrite tsize_cons in Hl.
  pose proof (cmd_type_size_range t). pose proof (tsize_nonneg cs.*1).
  intros (Et & Ev & Hr). split_and!.
  - by rewrite (moved_cmd o o2 len) by (done || lia).
  - by rewrite (moved_opts o o2 len) by (done || lia).
  - apply (IH (o + Message.cmd_type_size t) _ (len - Message.cmd_type_size t)); [|lia|done].
    apply (moved_sub o o2 len); [done|lia|lia].
Qed.
End Moved.

(** the bytes received are those of the message at [m], and then [rest] *)
Lemma segment_moved b m d P n rest R : 0 ≤ m → m + n ≤ blk_size b → 0 ≤ P → 0 ≤ n → R ≤ BUF_SIZE → P ≤ R →
  Connection.unprocessed d R P = segment (blk_data b) m n ++ rest →
  P + n ≤ R ∧ moved b (Block BUF_SIZE d) m P n ∧ rest = Connection.unprocessed d R (P + n).
Proof.
  intros Hm Hb HP Hn HR HPR E. unfold Connection.unprocessed in *.
  assert (Hlen : n ≤ R - P).
  { apply (f_equal length) in E. rewrite length_app in E.
    pose proof (segment_length d P (R - P) ltac:(lia)). pose proof (segment_length (blk_data b) m n Hn). lia. }
  replace (R - P) with (n + (R - (P + n))) in E by lia. rewrite segment_app in E by lia.
  apply app_inj_1 in E as [E ->].
  2: { apply Nat2Z.inj. by rewrite !segment_length by lia. }
  split; [lia|]. split; [|done]. split_and!; [done|done|done|cbn; lia|].
  intros x Hx. by apply (segment_inv _ _ _ _ _ E).
Qed.

(** a message that arrived is the program that was written *)
Lemma received_program b m n cs d R P rest :
  0 ≤ m → m + n ≤ blk_size b → load_le 4 (blk_data b) (m + 4) = n → 0 ≤ P → P ≤ R → R ≤ BUF_SIZE →
  Ccmd.reads b (m + 12) cs → get_cmd b (m + 12 + tsize cs.*1) = Ret EOM → 12 + tsize cs.*1 + 4 ≤ n →
  Connection.unprocessed d R P = segment (blk_data b) m n ++ rest →
  load_le 4 d (P + 4) = n ∧ program (P + n) (Block BUF_SIZE d) (P + 12) cs ∧
  Connection.take_frame (Connection.unprocessed d R P) = Connection.Complete (segment d P n) rest ∧
  load_le 4 d P = load_le 4 (blk_data b) m.
Proof.
  intros Hm Hb En HP HPR HR Hr He Hs E. pose proof (tsize_nonneg cs.*1).
  destruct (segment_moved b m d P n rest R) as (HnR & Hmv & ->); try done; [lia|].
  assert (En' : load_le 4 d (P + 4) = n).
  { rewrite <- En. apply load_le_ext. intros x Hx. rewrite <- !Z.add_assoc. apply Hmv. lia. }
  split_and!; [done| | |].
  - split_and!; [lia| | |lia].
    + apply (moved_reads b _ cs (m + 12) _ (n - 12)); [by apply (moved_sub b _ m P n); (lia || done)|lia|done].
    + rewrite <- He, <- !Z.add_assoc. apply (moved_cmd b _ _ _ 4); [|lia].
      by apply (moved_sub b _ m P n); (lia || done).
  - unfold Connection.unprocessed at 1. rewrite Connection.take_frame_segment by (unfold BUF_SIZE in *; lia).
    rewrite En'. unfold sizeof_message_t. rewrite (proj2 (Z.ltb_ge _ _)), (proj2 (Z.ltb_ge _ _)) by lia.
    rewrite (proj2 (Z.leb_le 12 n)), (proj2 (Z.leb_le n BUF_SIZE)) by lia. cbn [andb].
    f_equal. unfold Connection.unprocessed. f_equal. lia.
  - apply load_le_ext. intros x Hx. apply Hmv. lia.
Qed.

(** [C2] The two ends together. The chain a client built from its options,
    with commands of local work before its REPLY, is dumped into a message; when
    the bytes of that message reach a connection of a node, behind whatever was
    processed before and in whatever buffer, the node does exactly the work the
    client sampled for this message, in the order of the chain, and answers with
    the sampled size and the id the client gave the message. *)
Theorem client_program_served {Spec Rng : Type} `{Sampler Spec Rng} (s s' : Ccmd.ccmd_t Spec)
    (cl : list nat) (rng rng' : Rng) (bc : block) (mc ec : Z)
    (pre post : list (command_type_t * cmd_opts)) (opts : reply_opts_t) :
  let cs := pre ++ (REPLY, O_reply opts) :: post in
  Ccmd.chain s cl → cl ≠ [] → Ccmd.nodes_ok s → Ccmd.sample_chain s cl rng = Ret (cs, s', rng') →
  0 ≤ mc → Message.message_end bc mc = Ret ec → ec ≤ blk_size bc → mc + 12 + tsize cs.*1 + 28 ≤ ec →
  ∃ b', Ccmd.ccmd_dump s rng bc mc = Ret (s', rng', b', 1) ∧
  ∀ (k : kernel) (g : config) (nd : node) (c rb sb : Z) (d ds : bytes) (R P S N : Z) (l rest : list Z)
    (es : list effect) (fuel : nat),
  let id := last_reqs (w_reqs (nd_world nd)) in
  between nd c rb sb d ds R P S N l → pipes_take k →
  serialize_request (Node.conn_of nd c) = 0 ∨ l = [] →
  Connection.unprocessed d R P = segment (blk_data b') mc (ec - mc) ++ rest →
  Connection.take_frame rest = Connection.Incomplete →
  req_id (req_of nd (Request.slot id)) = -1 → mapM (local_effect g id) pre = Some es →
  mode opts ≠ REPLY_MODE_SENDFILE → 16 ≤ resp_size opts → S + N + resp_size opts ≤ BUF_SIZE →
  S = 0 ∨ N = 0 → use_ssl (c_ssl (Node.conn_of nd c)) = 0 → status (Node.conn_of nd c) = READY →
  let a := s_ret (k_send k (turn nd + length (filter to_pipe es))) in 0 < a ≤ N + resp_size opts →
  ∃ nd', Node.obtain_messages (3 + fuel) k g nd c = Ret (nd', 1) ∧
    served nd nd' c rb sb d ds R P S N l es (resp_size opts) a ∧
    load_le 4 d P = load_le 4 (blk_data bc) mc.
Proof.
  intros cs Hc Hne Hok Ec Hm He Hb Hfit. pose proof (tsize_nonneg cs.*1) as Hts.
  destruct (Ccmd.dump_ok s cl rng bc mc ec cs s' rng' Hc Hne Hok Ec Hm He Hb Hfit)
    as (b' & Ed & Hr & Ee & Hsz & Hsame).
  exists b'. split; [done|]. intros k g nd c rb sb d ds R P S N l rest es fuel id Hbt Hk Hser Hun.
  intros Hrest Hfree Hes Hmode Hsize Hroom H0 Hssl Hst a Ha.
  pose proof (bt_rx _ _ _ _ _ _ _ _ _ _ _ Hbt) as (_ & _ & HP & HR).
  assert (En : load_le 4 (blk_data b') (mc + 4) = ec - mc).
  { unfold Message.message_end, get_msg_req_size in He. rewrite blk_load_ok in He by lia.
    cbn [mbind outcome_bind] in He. assert (Hec : mc + load_le 4 (blk_data bc) (mc + 4) = ec) by congruence.
    rewrite <- Hec, Z.add_simpl_l. apply load_le_ext. intros x Hx. apply Hsame. lia. }
  destruct (received_program b' mc (ec - mc) cs d R P rest) as (Esz & Hp & Hf & Hid);
    try done; try lia.
  destruct (obtain_messages_served k g nd c rb sb d ds R P S N l (segment d P (ec - mc)) rest pre post opts es fuel)
    as (nd' & E & Hsv); try done; [by rewrite Esz|].
  exists nd'. split_and!; [done|done|]. rewrite Hid. apply load_le_ext. intros x Hx. apply Hsame. lia.
Qed.

(** ** Examples *)

(** COMPUTE for 10, STORE of 100 bytes at 8, REPLY of 64 bytes *)
Definition local_chain : Ccmd.ccmd_t Z :=
  let new c a (b : Z) x := Ccmd.with_next (Ccmd.with_specs (Ccmd.new_ccmd (H := Ccmd.constant_sampler) c a) a b) x in
  Ccmd.MkChain
    (Queue.Queue.MkQueue [Queue.Node 0 0 (Queue.d_ptr (Some 0%nat)); Queue.Node 1 1 (Queue.d_ptr (Some 1%nat));
       Queue.Node 2 6 (Queue.d_ptr (Some 2%nat))] 0 2 3 3)
    {[ 0%nat := new COMPUTE 10 0 (Some 1%nat); 1%nat := new STORE 100 8 (Some 2%nat);
       2%nat := new REPLY 64 0 None ]} 3.

Lemma local_chain_ok : Ccmd.chain local_chain [0; 1; 2]%nat.
Proof.
  split; [split; cbn; lia || reflexivity|reflexivity| |repeat constructor; set_solver|].
  - intros [|[|[|k]]] i E; cbn in E; try (injection E as <-; eexists; split; reflexivity). done.
  - intros i Hi. cbn. set_unfold in Hi. lia.
Qed.

Definition local_work : list (command_type_t * cmd_opts) :=
  [(COMPUTE, O_comp (MkComp 10)); (STORE, O_store (MkStore 8 100 0 0))].
Definition local_effects : list effect :=
  [Computed 10; ToStorage 0 (MkStorageReq 0 0 (C_store (MkStore 8 100 0 0)))].

(** a connection that received 128 bytes *)
Definition serving_node (d : bytes) : node :=
  node_of (World Request.req_init
    (<[0 := MkConn TCP 5 READY Connection.addr1 (MkRx (Ptr 0 0) (Ptr 0 128) (BUF_SIZE - 128) (Ptr 0 0))
         (MkTx (Ptr 1 0) (Ptr 1 0) 0) (MkFile 0 0 0 0) None 0 1 1 1 0 (MkSsl 0 None 0 0)]> ∅)
    (Mem (<[0 := Block BUF_SIZE d]> (<[1 := calloc_block BUF_SIZE]> ∅)) 2)).

(** a kernel that takes whole answers *)
Definition serving_kernel : kernel :=
  Kernel 1 (fun _ => None) (fun _ => None) (fun _ => SysRet 64 EAGAIN)
    (fun _ => SslRet 0 SSL_ERROR_OTHER) (fun _ => []) (fun _ => SysRet (-1) EAGAIN)
    (fun _ => -1) (fun _ => -1) (fun _ => -1) (fun _ => -1) (fun _ => (false, false))
    (fun _ => -1) (fun _ => None) (fun _ => false) (fun _ => ConnectFail) (fun _ => [40])
    (fun _ => None) (fun _ => SslRet 0 SSL_ERROR_OTHER) (fun _ => RecvFail EAGAIN)
    (fun _ => SslReceived []) (fun _ => (-1, Connection.addr1)).

Lemma serving_pipes : pipes_take serving_kernel.
Proof. intros t. exists []. apply takes_some; [unfold sizeof_storage_req_t; lia|]. apply takes_done. Qed.

Lemma serving_between d : between (serving_node d) 0 0 1 d (blk_data (calloc_block BUF_SIZE)) 128 0 0 0 [].
Proof.
  constructor; try done.
  - intros i. by left.
  - apply linked_nil.
  - intros i Hi. by apply elem_of_nil in Hi.
Qed.

Definition client_msg : block := put (calloc_block 128) [(4%nat, 0, 42); (4%nat, 4, 128)].

Lemma client_program_served_witness :
  ∃ b', Ccmd.ccmd_dump (H := Ccmd.constant_sampler) local_chain tt client_msg 0
        = Ret (local_chain, tt, b', 1) ∧
    ∃ nd', Node.obtain_messages 3 serving_kernel config1
        (serving_node (copy_bytes (Z.to_nat 128) (blk_data b') 0 ∅ 0)) 0 = Ret (nd', 1) ∧
      effects nd' = local_effects.
Proof.
  destruct (client_program_served (H := Ccmd.constant_sampler) local_chain local_chain [0; 1; 2]%nat tt tt
    client_msg 0 128 local_work [] (MkReply 64 0 0) local_chain_ok) as (b' & E & Hs).
  - discriminate.
  - intros i n Hn. unfold local_chain in Hn. cbn [Ccmd.nodes] in Hn.
    rewrite !lookup_insert_Some, lookup_singleton_Some in Hn.
    destruct Hn as [[_ <-]|[_ [[_ <-]|[_ [_ <-]]]]];
      unfold Ccmd.node_ok, store_ok, load_ok, fwd_ok, reply_ok, fits; cbn; unfold REPLY_MODE_NORMAL; lia.
  - vm_compute. reflexivity.
  - lia.
  - vm_compute. reflexivity.
  - vm_compute. discriminate.
  - vm_compute. discriminate.
  - exists b'. split; [exact E|].
    destruct (Hs serving_kernel config1 (serving_node (copy_bytes (Z.to_nat 128) (blk_data b') 0 ∅ 0)) 0 0 1
      (copy_bytes (Z.to_nat 128) (blk_data b') 0 ∅ 0) (blk_data (calloc_block BUF_SIZE)) 128 0 0 0 [] []
      local_effects 0%nat) as (nd' & En & Hsv & _).
    + apply serving_between.
    + exact serving_pipes.
    + by left.
    + rewrite app_nil_r. unfold Connection.unprocessed. apply segment_ext. intros x Hx.
      rewrite byte_at_copy, decide_True by lia. f_equal. lia.
    + reflexivity.
    + reflexivity.
    + reflexivity.
    + discriminate.
    + cbn. lia.
    + vm_compute. discriminate.
    + by left.
    + reflexivity.
    + reflexivity.
    + cbn. lia.
    + exists nd'. split; [exact En|]. rewrite (sv_effects _ _ _ _ _ _ _ _ _ _ _ _ _ _ _ Hsv). reflexivity.
Defined.

(** COMPUTE for 5, then a LOAD of 100 bytes at 8 *)
Definition load_msg : block := put (calloc_block 64)
  [(4%nat, 4, 52); (4%nat, 12, 0); (4%nat, 16, 5); (4%nat, 20, 2); (8%nat, 24, 8); (8%nat, 32, 100);
   (4%nat, 48, 7)].
Definition loading_node : node :=
  upd_req (node_of (Connection.set_mem Connection.world1 (mem_put (w_mem Connection.world1) 0 load_msg))) 0
    (fun _ => MkReq 0 0 Connection.addr1 (-1) 0 0 0 0 (Ptr 0 0) (Ptr 0 12) None None None 0 0 0).
Definition load_effects : list effect :=
  [Computed 5; ToStorage 0 (MkStorageReq 0 0 (C_load (MkLoad 8 100 0)))].

Lemma process_single_message_exec_witness :
  Node.process_single_message serving_kernel config1 loading_node 0 =
    Ret (Node.set_curr_cmd (after loading_node load_effects) 0 (Ptr 0 48), 0).
Proof.
  rewrite (process_single_message_exec serving_kernel config1 loading_node 0 0 0 12 load_msg
    [(COMPUTE, O_comp (MkComp 5)); (LOAD, O_load (MkLoad 8 100 0))]).
  - reflexivity.
  - exact serving_pipes.
  - reflexivity.
  - reflexivity.
  - reflexivity.
  - lia.
  - vm_compute. discriminate.
  - vm_compute. discriminate.
  - vm_compute. reflexivity.
  - split; [lia|]. split; [vm_compute; repeat split|].
    split; [vm_compute; reflexivity|vm_compute; discriminate].
Defined.
