(* ===== verification/Events.v ===== *)
(** * Events of a worker (src/src/dw_node.c: establish_conn, handle_timeout,
    exec_request, and the loop of conn_worker)

    What dw_poll_next gives a worker of connections, dispatched on the tag of
    the entry: a new connection, the acknowledgement of a storage worker, the
    timer, or activity on a connection. *)

From S2P Require Import Prelude Timespec Memory Message Request Connection Poll Storage Timeout Forward Node.

Local Open Scope Z_scope.

Module Events.

(** 1 when the connection is established *)
Definition establish_conn (k : kernel) (nd : node) (c : Z) : outcome (node * Z) :=
  _ ← Connection.get_conn (nd_world nd) c;
  val ← sys_check (k_so_error k (turn nd));
  if negb (val =? 0) then Ret (nd, 0)
  else
    '(w, _) ← Connection.conn_set_status (nd_world nd) c READY;
    let nd := set_world nd w in
    '(nd, rv) ← Node.poll_mod k nd (sock (Node.conn_of nd c)) DW_POLLIN
                  (i2l (event_to_Z SOCKET) c);
    _ ← check (0 <=? rv);
    Ret (nd, 1).

(** timerfd_settime with [us_to_its(0)] *)
Definition disarm (nd : node) : outcome node :=
  t ← timerfd_settime (nd_timeouts nd) (us_to_its 0); Ret (set_timeouts nd t).

(** [fuel] bounds the messages process_messages takes *)
Definition handle_timeout (fuel : nat) (k : kernel) (g : config) (nd : node) : outcome node :=
  let q := timeout_queue (nd_timeouts nd) in
  if PQueue.PQueue.pqueue_size q =? 0 then disarm nd
  else
    top ← PQueue.PQueue.pqueue_top q;
    top ← deref top;
    d ← PQueue.PQueue.pqueue_node_data q top;
    id ← match d with Queue.d_value v => Ret v | _ => Stop UB end;
    match Request.req_get_by_id (w_reqs (nd_world nd)) id with
    | None => disarm nd
    | Some r =>
        let m := message_ptr (req_of nd r) in
        '(t, st, _) ← remove_timeout (nd_timeouts nd) (w_reqs (nd_world nd)) id
                        (k_timer k (turn nd)) (k_timer2 k (turn nd));
        let nd := next_turn (set_timeouts
                    (set_world nd (Connection.set_reqs (nd_world nd) st)) t) in
        let q := req_of nd r in
        if 0 <? fwd_retries q then
          let nd := upd_req nd r (fun q =>
            set_fwd q (fwd_replies_left q) (fwd_replies_mask q) (fwd_retries q - 1)
              (fwd_timeout q) (fwd_on_fail_skip q)) in
          '(nd, _) ← Node.process_messages (Node.obtain_messages fuel k g) k g nd r;
          Ret nd
        else if 0 <? fwd_on_fail_skip q then
          '(b, o) ← Forward.message_at nd m;
          e ← Message.message_end b o;
          curr ← Forward.cmd_offset m (curr_cmd q);
          next ← Message.cmd_bounded_skip b curr (fwd_on_fail_skip q) e;
          let nd := Node.set_curr_cmd nd r (Forward.cmd_ptr m next) in
          nd ← Node.store_at nd m 8 Message.TIMEOUT;
          '(nd, _) ← Node.process_messages (Node.obtain_messages fuel k g) k g nd r;
          Ret nd
        else
          nd ← Node.store_at nd m 8 Message.TIMEOUT;
          '(w, _) ← Connection.conn_req_remove (nd_world nd) (r_conn_id q) r;
          Ret (count_reqs (set_world nd w) (-1))
    end.

(** ** The error path of exec_request *)

(** the [while] that goes to the last REPLY *)
Fixpoint to_reply_loop (fuel : nat) (b : block) (itr : option Z) (msg_end : Z) : outcome (option Z) :=
  match fuel with
  | O => Stop OutOfFuel
  | S fuel =>
      match itr with
      | None => Ret None
      | Some i =>
          t ← get_cmd b i;
          match t with
          | EOM | REPLY => Ret itr
          | _ => n ← Message.cmd_bounded_skip b itr 1 msg_end; to_reply_loop fuel b n msg_end
          end
      end
  end.

(** a request that waits for the lost peer is answered with an error, or its
    connection closed *)
Definition fail_request (fuel : nat) (k : kernel) (g : config) (nd : node) (pending r : Z)
    : outcome node :=
  let m := message_ptr (req_of nd r) in
  '(b, o) ← Forward.message_at nd m;
  id ← get_msg_req_id b o;
  '(t, st, _) ← remove_timeout (nd_timeouts nd) (w_reqs (nd_world nd)) (s32 id)
                  (k_timer k (turn nd)) (k_timer2 k (turn nd));
  let nd := next_turn (set_timeouts (set_world nd (Connection.set_reqs (nd_world nd) st)) t) in
  e ← Message.message_end b o;
  curr ← Forward.cmd_offset m (curr_cmd (req_of nd r));
  itr ← to_reply_loop (S (S (Z.to_nat (e - default 0 curr)))) b curr e;
  found ← match itr with
          | None => Ret false
          | Some i =>
              ok ← Message.cmd_in_bounds b i e;
              if (ok : bool) then t ← get_cmd b i; Ret (negb (bool_decide (t = EOM)))
              else Ret false
          end;
  if negb found then Node.close_and_forget k nd (sock (Node.conn_of nd pending))
  else
    let nd := Node.set_curr_cmd nd r (Forward.cmd_ptr m itr) in
    nd ← Node.store_at nd m 8 Message.ERR;
    '(nd, _) ← Node.process_messages (Node.obtain_messages fuel k g) k g nd r;
    Ret nd.

(** the [while] over the requests of one connection: the first that waits in
    front of a FORWARD_BEGIN to the lost peer ends it *)
Fixpoint fail_requests (steps : nat) (fuel : nat) (k : kernel) (g : config) (nd : node)
    (lost : sockaddr_in) (pending : Z) (head tmp : option Z) : outcome node :=
  match steps with
  | O => Stop OutOfFuel
  | S steps =>
      match tmp with
      | None => Ret nd
      | Some r =>
          let go_on :=
            let tmp := next (req_of nd r) in
            if bool_decide (tmp = head) then Ret nd
            else fail_requests steps fuel k g nd lost pending head tmp in
          '(b, c) ← Forward.message_at nd (curr_cmd (req_of nd r));
          t ← get_cmd b c;
          if bool_decide (t = FORWARD_BEGIN) then
            f ← get_fwd_opts b c;
            if (fwd_host f =? s_addr lost) && (fwd_port f =? sin_port lost) then
              if 0 <? retries f then Ret nd else fail_request fuel k g nd pending r
            else go_on
          else go_on
      end
  end.

(** the connections from [i] on *)
Fixpoint fail_conns (n : nat) (fuel : nat) (k : kernel) (g : config) (nd : node) (c i : Z)
    : outcome node :=
  match n with
  | O => Ret nd
  | S n =>
      nd ← (if sock (Node.conn_of nd i) =? -1 then Ret nd
            else
              let l := req_list (Node.conn_of nd i) in
              fail_requests (S (Z.to_nat MAX_REQS)) fuel k g nd (target (Node.conn_of nd c)) i l l);
      fail_conns n fuel k g nd c (i + 1)
  end.

(** the code at the label [err] *)
Definition fail_conn (fuel : nat) (k : kernel) (g : config) (nd : node) (c : Z) : outcome node :=
  let conn := Node.conn_of nd c in
  let nd := if (c_proto conn =? TCP) && bool_decide (status conn = READY)
            then count_conns nd (-1) else nd in
  nd ← Node.close_and_forget k nd (sock conn);
  fail_conns (Z.to_nat MAX_CONNS) fuel k g nd c 0.

(** sending and receiving on a connection; [false]: go to [err] *)
Definition receive_some (k : kernel) (nd : node) (pflags c : Z) : outcome (node * bool) :=
  if has pflags DW_POLLIN then
    '(w, rv) ← Connection.conn_recv (nd_world nd) c (k_recv k (turn nd)) (k_ssl_recv k (turn nd));
    Ret (next_turn (set_world nd w), negb (rv =? 0))
  else Ret (nd, true).
Definition send_some (k : kernel) (nd : node) (pflags c : Z) : outcome (node * bool) :=
  if has pflags DW_POLLOUT then
    '(w, r) ← Connection.conn_flush (nd_world nd) c (k_send k (turn nd)) (k_ssl_write k (turn nd))
                (k_headers k (turn nd)) (k_sendfile k (turn nd));
    let nd := next_turn (set_world nd w) in
    if r <? 0 then Ret (nd, false)
    else
      '(nd, rv) ← Node.poll_mod k nd (sock (Node.conn_of nd c))
                    (Z.lor (if r =? 0 then DW_POLLOUT else DW_POLLIN) DW_POLLONESHOT)
                    (i2l (event_to_Z SOCKET) c);
      _ ← check (0 <=? rv);
      Ret (nd, true)
  else Ret (nd, true).

(** the part of exec_request for a connection, once a handshake is over *)
Definition exec_conn (fuel : nat) (k : kernel) (g : config) (nd : node) (pflags c : Z)
    (connect : bool) : outcome node :=
  '(nd, ok) ←
    (if connect then
       '(nd, rv) ← establish_conn k nd c;
       if rv =? 0 then Ret (nd, false) else Ret (count_conns nd 1, true)
     else Ret (nd, negb (has pflags DW_POLLERR || has pflags DW_POLLHUP)));
  if negb ok then fail_conn fuel k g nd c
  else
    '(nd, ok) ← receive_some k nd pflags c;
    if negb ok then fail_conn fuel k g nd c
    else
      '(nd, ok) ← send_some k nd pflags c;
      if negb ok then fail_conn fuel k g nd c
      else
        '(nd, rv) ← Node.obtain_messages fuel k g nd c;
        if rv =? 0 then fail_conn fuel k g nd c else Ret nd.

(** [c]: the data of the poll entry, which for the timer is its descriptor *)
Definition exec_request (fuel : nat) (k : kernel) (g : config) (nd : node) (pflags c : Z)
    (type : event_t) : outcome node :=
  conn ← Connection.get_conn (nd_world nd) c;
  '(nd, hs) ←
    (if bool_decide (status conn = SSL_HANDSHAKE) then
       '(w, hs) ← Connection.conn_do_ssl_handshake (nd_world nd) c (k_handshake k (turn nd));
       Ret (next_turn (set_world nd w), hs)
     else Ret (nd, 1));
  if hs <? 0 then fail_conn fuel k g nd c
  else if hs =? 0 then Ret nd
  else
    match type with
    | TIMER => handle_timeout fuel k g nd
    | SOCKET | CONNECT =>
        if (sock (Node.conn_of nd c) =? -1)
           || bool_decide (recv_buf (rx (Node.conn_of nd c)) = NULL)
        then Ret nd
        else exec_conn fuel k g nd pflags c (match type with CONNECT => true | _ => false end)
    | _ => exec_conn fuel k g nd pflags c false
    end.

(** the acknowledgement of a storage worker ([None]: reading the pipe fails) *)
Definition storage_ack (fuel : nat) (k : kernel) (g : config) (nd : node) (id : option Z)
    : outcome node :=
  match id with
  | None => Ret nd
  | Some id =>
      match Request.req_get_by_id (w_reqs (nd_world nd)) id with
      | None => Ret nd
      | Some r =>
          '(nd, _) ← Node.process_messages (Node.obtain_messages fuel k g) k g nd r;
          Ret nd
      end
  end.

(** an index of [conn_worker_infos] *)
Definition thread_index (i : Z) : outcome unit := if 0 <=? i then Ret tt else Stop UB.
(** the worker that serves a new connection; [parent]: conn_threads in the mode
    AM_PARENT, where the workers take turns, [None] otherwise *)
Definition next_worker (g : config) (parent : option Z) (nd : node) : outcome (node * Z) :=
  match parent with
  | Some n => w ← rem_ (next_thread_cnt nd) n; Ret (next_thread nd, w)
  | None => Ret (nd, this_worker g)
  end.
(** the new connection [id] is added to the poll object of its worker, through
    its socket if that is not an epoll instance; what write() and dw_poll_add()
    answer is only printed *)
Definition assign_conn (k : kernel) (g : config) (parent : option Z) (nd : node) (conn_sock id : Z)
    : outcome node :=
  '(nd, w) ← next_worker g parent nd;
  _ ← thread_index w;
  let aux := i2l (event_to_Z SOCKET) id in
  let epoll := match u (dw_poll nd) with Epoll _ => true | _ => false end in
  if bool_decide (is_Some parent) && negb epoll then Ret (emit nd (Dispatch w id))
  else if w =? this_worker g then
    '(p, _, ctl) ← DwPoll.dw_poll_add (dw_poll nd) conn_sock DW_POLLIN aux (k_epoll k (turn nd));
    Ret (told (next_turn (set_poll nd p)) ctl)
  else Ret (emit nd (OtherPoll w (CTL_ADD conn_sock (DwPoll.in_out DW_POLLIN) aux))).

(** a connection accepted on a listening socket of protocol [p] ([None]: not
    one of the worker's) *)
Definition accept_conn (k : kernel) (g : config) (parent : option Z) (nd : node) (p : option Z)
    : outcome node :=
  let t := turn nd in
  let '(conn_sock, addr) := k_accept k t in
  _ ← check (0 <=? conn_sock);
  _ ← Forward.setnonblocking k nd;
  _ ← check (0 <=? k_setsockopt k t);
  let nd := next_turn nd in
  match p with
  | None => Ret (emit nd (CloseFd conn_sock))
  | Some p =>
      '(w, id) ← Connection.conn_alloc (nd_world nd) (k_self k) (k_calloc k t).1 (k_calloc k t).2
                   conn_sock addr p;
      let nd := set_world nd w in
      if id <? 0 then Node.close_and_forget k nd conn_sock
      else
        '(nd, ok) ←
          (if p =? TLS then
             '(w, rv) ← Connection.conn_enable_ssl (nd_world nd) id (k_ssl_new k t) (k_ssl_fd k t) 1;
             let nd := set_world nd w in
             if rv <? 0 then
               nd ← Node.close_and_forget k nd conn_sock;
               w ← Connection.conn_free (nd_world nd) id;
               Ret (set_world nd w, false)
             else Ret (nd, true)
           else
             '(w, _) ← Connection.conn_set_status (nd_world nd) id READY;
             Ret (set_world nd w, true));
        if negb ok then Ret nd
        else
          nd ← upd_conn nd id (fun c => with_defrag c (enable_defrag_opt g));
          assign_conn k g parent (count_conns nd 1) conn_sock id
  end.

End Events.

Import Connection Events.

(** ** Specification: the turns of the workers *)

(** the workers take turns ... *)
Lemma next_worker_turn g n nd : 0 < n → 0 ≤ next_thread_cnt nd →
  next_worker g (Some n) nd = Ret (next_thread nd, next_thread_cnt nd mod n).
Proof. intros Hn Hc. unfold next_worker. by rewrite rem_pos. Qed.
(** ... until the counter overflows: the index of the worker is then negative *)
Lemma next_worker_overflow k g n nd s id : next_thread_cnt nd < 0 → 0 < n →
  Z.rem (next_thread_cnt nd) n ≠ 0 → assign_conn k g (Some n) nd s id = Stop UB.
Proof.
  intros Hc Hn Hr. unfold assign_conn, next_worker, rem_. rewrite (proj2 (Z.eqb_neq n 0)) by lia. obind.
  unfold thread_index. rewrite (proj2 (Z.leb_gt _ _)); [done|].
  pose proof (Z.rem_nonpos (next_thread_cnt nd) n ltac:(lia) ltac:(lia)). lia.
Qed.
Lemma next_thread_wraps nd : next_thread_cnt nd = 2 ^ 31 - 1 → next_thread_cnt (next_thread nd) = - 2 ^ 31.
Proof. intros E. cbn [next_thread next_thread_cnt]. by rewrite E. Qed.

(** ** Specification: closing a connection *)

Lemma poll_forget_ret p fd rv : ∃ p' v ctl, DwPoll.dw_poll_mod p fd 0 0 rv = Ret (p', v, ctl).
Proof.
  unfold DwPoll.dw_poll_mod. destruct (u p) as [s|q|e].
  - unfold DwPoll.select_mod. rewrite !andb_true_r, !andb_false_r.
    destruct (_ <? _); obind; destruct (_ <? _); obind; eauto.
  - rewrite andb_false_r. eauto.
  - eauto.
Qed.

(** the worker forgets the socket in its poll object, whatever epoll answers *)
Lemma poll_mod_forget k nd s : ∃ p t es v, Node.poll_mod k nd s 0 0 =
  Ret (Node (nd_world nd) (nd_timeouts nd) p (active_conns nd) (active_reqs nd) t es
    (next_thread_cnt nd), v).
Proof.
  unfold Node.poll_mod. destruct (poll_forget_ret (dw_poll nd) s (k_epoll k (turn nd))) as (p & v & ctl & ->).
  obind. destruct ctl; do 4 eexists; reflexivity.
Qed.

(** a descriptor is closed once: there is no connection to forget for -1 *)
Lemma close_twice k nd : Node.close_and_forget k nd (-1) = Stop AssertFailed.
Proof.
  unfold Node.close_and_forget. destruct (poll_mod_forget k nd (-1)) as (p & t & es & v & ->). done.
Qed.

(** [c] is the connection of the socket [s]; [l] are its requests *)
Definition owns (w : world) (c s : Z) (l : list Z) : Prop :=
  0 ≤ c < MAX_CONNS ∧ sock (conn_at w c) = s ∧ s ≠ -1 ∧
  (∀ j, 0 ≤ j < c → sock (conn_at w j) ≠ s) ∧
  linked (w_reqs w) l ∧ req_list (conn_at w c) = l !! 0%nat ∧ Z.of_nat (length l) ≤ MAX_REQS.

Lemma find_sock_owner w c s l : owns w c s l → conn_find_sock w s = Ret c.
Proof.
  intros (Hc & Hs & Hne & Hf & _). unfold conn_find_sock.
  rewrite (proj2 (Z.eqb_neq s (-1))) by done. cbn [negb assert_]. obind. f_equal.
  pose proof (find_conn_spec (fun x => sock x =? s) w) as F. revert F.
  generalize (find_conn (fun x => sock x =? s) w). intros i [(Hi & E%Z.eqb_eq & Hlt)|[-> Hn]].
  - destruct (Z.lt_trichotomy i c) as [H|[H|H]]; [|done|].
    + by destruct (Hf i ltac:(lia)).
    + specialize (Hlt c ltac:(lia)). cbn in Hlt. by rewrite Hs, Z.eqb_refl in Hlt.
  - specialize (Hn c Hc). cbn in Hn. by rewrite Hs, Z.eqb_refl in Hn.
Qed.

Lemma close_and_forget_ok k nd c s l : owns (nd_world nd) c s l →
  ∃ nd', Node.close_and_forget k nd s = Ret nd' ∧ sock (Node.conn_of nd' c) = -1 ∧
    last (effects nd') = Some (CloseFd s) ∧
    (∀ r, r ∈ l → req_id (req_of nd' r) = -1) ∧ (∀ i, i ∉ l → req_of nd' i = req_of nd i).
Proof.
  intros O. pose proof O as (Hc & Hs & Hne & _ & L & Hl & Hlen).
  unfold Node.close_and_forget. destruct (poll_mod_forget k nd s) as (p & t & es & v & ->). obind.
  cbn [nd_world]. unfold conn_del_sock. rewrite (find_sock_owner _ c s l O). obind.
  rewrite (proj2 (Z.eqb_neq c (-1))) by lia. unfold conn_del_id.
  replace ((0 <=? c) && (c <? MAX_CONNS)) with true by lia. cbn [assert_]. obind.
  destruct (reset_linked (nd_world nd) c l Hc L Hl Hlen) as (st & -> & H1 & H2). obind.
  rewrite get_conn_ok by done. obind. eexists. split; [reflexivity|]. split_and!.
  - unfold Node.conn_of. cbn [emit set_world nd_world]. by rewrite conn_at_set, decide_True.
  - cbn [emit effects]. by rewrite last_snoc.
  - intros r Hr. by apply H1.
  - intros i Hi. by apply H2.
Qed.


(** a client that sends one message with a REPLY and is gone: the kernel gives
    the bytes of the message, and refuses to send with [e] *)
Definition request_bytes : list Z :=
  [1; 0; 0; 0; 28; 0; 0; 0; 0; 0; 0; 0] ++
  [6; 0; 0; 0; 12; 0; 0; 0; 0; 0; 0; 0; 0; 0; 0; 0].
Definition client_kernel (e : errno) : kernel :=
  Kernel 1 (fun _ => None) (fun _ => None) (fun _ => SysRet (-1) e)
    (fun _ => SslRet 0 SSL_ERROR_OTHER) (fun _ => []) (fun _ => SysRet (-1) EAGAIN)
    (fun _ => -1) (fun _ => -1) (fun _ => -1) (fun _ => -1) (fun _ => (false, false))
    (fun _ => 0) (fun _ => None) (fun _ => false) (fun _ => ConnectFail) (fun _ => [])
    (fun _ => None) (fun _ => SslRet 0 SSL_ERROR_OTHER) (fun _ => Received request_bytes None)
    (fun _ => SslReceived []) (fun _ => (-1, addr1)).
Definition served (s : conn_status_t) : node :=
  node_of (set_conn world1 0 (with_status (conn_at world1 0) s)).
Definition answered : node := upd_req (served CLOSING) 0 (fun q => set_owner q 0 addr1).

