(* ===== verification/Worker.v ===== *)
(** * The loop of a connection worker (src/src/dw_node.c: conn_worker), and what
    every event keeps

    The body of the [while (running)] of conn_worker: a wait, then the events
    it made ready, dispatched on the tag of their data. The invariant of the
    node is that of the shared tables ([world_wf]) and a typing of the poll
    object: the data of every entry is the tag of an event and, for an event of
    a connection, the index of an entry of the table. *)

From S2P Require Import Prelude Timespec Memory Message Request Connection Poll Storage Timeout Invariant Forward Node Events.

Local Open Scope Z_scope.

Module Worker.

(** the tag of an event; a value that is none is treated like EVENT_NUMBER *)
Definition event_of_Z (t : Z) : event_t :=
  if t =? 0 then LISTEN else if t =? 1 then STORAGE else if t =? 2 then TIMER
  else if t =? 3 then CONNECT else if t =? 4 then SOCKET else if t =? 5 then DISPATCH
  else if t =? 6 then STATS else if t =? 7 then TERMINATION else EVENT_NUMBER.

(** the descriptors of the worker: its listening sockets with their protocols
    and whether it listens (another worker accepts in its place in the mode
    AM_PARENT, which sets [dispatched]), conn_threads, the pipes of the storage
    workers; and
    what reading them gives: the id a storage worker acknowledges and the
    connection another worker accepted ([None]: the read fails or is short), and
    whether the signal of STATS could be read *)
Record pipes := Pipes {
  listen_socks : list (Z * Z);
  listens : bool;
  terminationfd : Z;
  timer_fd : Z;
  statfd : Z;
  reply_fds : list Z;
  dispatched : bool;
  conn_threads : Z;
  dispatchfd : Z;
  read_ack : nat → option Z;
  read_conn : nat → option Z;
  read_stat : nat → bool
}.

(** the first listening socket that is [fd]: its protocol *)
Fixpoint listen_proto (l : list (Z * Z)) (fd : Z) : option Z :=
  match l with
  | [] => None
  | (s, p) :: l => if s =? fd then Some p else listen_proto l fd
  end.

(** ** The set-up of the poll object *)

(** [check(dw_poll_add(...) == 0)] for a descriptor to read from *)
Definition poll_in (k : kernel) (nd : node) (fd aux : Z) : outcome node :=
  '(p, rv, ctl) ← DwPoll.dw_poll_add (dw_poll nd) fd DW_POLLIN aux (k_epoll k (turn nd));
  _ ← check (rv =? 0);
  Ret (told (next_turn (set_poll nd p)) ctl).

Fixpoint add_listening (k : kernel) (nd : node) (l : list (Z * Z)) : outcome node :=
  match l with
  | [] => Ret nd
  | (fd, _) :: l =>
      nd ← (if fd <? 0 then Ret nd
            else
              c ← Connection.conn_find_sock (nd_world nd) fd;
              conn ← Connection.get_conn (nd_world nd) c;
              poll_in k nd fd (if Forward.is_stream (c_proto conn)
                               then i2l (event_to_Z LISTEN) fd else i2l (event_to_Z SOCKET) c));
      add_listening k nd l
  end.
Fixpoint add_replies (k : kernel) (nd : node) (l : list Z) : outcome node :=
  match l with
  | [] => Ret nd
  | fd :: l => nd ← poll_in k nd fd (i2l (event_to_Z STORAGE) fd); add_replies k nd l
  end.

Definition worker_setup (k : kernel) (s : pipes) (nd : node) : outcome node :=
  nd ← (if listens s then add_listening k nd (listen_socks s) else Ret nd);
  nd ← poll_in k nd (terminationfd s) (i2l (event_to_Z TERMINATION) (terminationfd s));
  nd ← poll_in k nd (timer_fd s) (i2l (event_to_Z TIMER) (timer_fd s));
  nd ← (if statfd s =? -1 then Ret nd
        else poll_in k nd (statfd s) (i2l (event_to_Z STATS) (statfd s)));
  nd ← add_replies k nd (reply_fds s);
  if dispatched s then poll_in k nd (dispatchfd s) (i2l (event_to_Z DISPATCH) (dispatchfd s))
  else Ret nd.

(** ** The events *)

(** on with the events, on with the next wait, or the end of the worker *)
Inductive flow := GoOn | NextWait | Finished.

(** an event: [fuel] bounds the messages processed *)
Definition worker_event (fuel : nat) (k : kernel) (g : config) (s : pipes) (nd : node)
    (pflags aux : Z) : outcome (node * flow) :=
  let '(tag, data) := l2i aux in
  let event_data := s32 data in
  match event_of_Z tag with
  | LISTEN =>
      let parent := if dispatched s then Some (conn_threads s) else None in
      nd ← Events.accept_conn k g parent nd (listen_proto (listen_socks s) event_data);
      Ret (nd, GoOn)
  | STORAGE => nd ← Events.storage_ack fuel k g nd (read_ack s (turn nd)); Ret (nd, GoOn)
  | DISPATCH =>
      _ ← check (event_data =? dispatchfd s);
      match read_conn s (turn nd) with
      | None => Ret (nd, GoOn)
      | Some c =>
          conn ← Connection.get_conn (nd_world nd) c;
          '(p, _, ctl) ← DwPoll.dw_poll_add (dw_poll nd) (sock conn) DW_POLLIN
                           (i2l (event_to_Z SOCKET) c) (k_epoll k (turn nd));
          Ret (told (next_turn (set_poll nd p)) ctl, GoOn)
      end
  | TERMINATION => Ret (nd, Finished)
  | STATS => Ret (nd, if read_stat s (turn nd) then NextWait else Finished)
  | type => nd ← Events.exec_request fuel k g nd pflags event_data type; Ret (nd, GoOn)
  end.

(** the [while] over dw_poll_next; [steps] bounds the events of one wait. The
    result tells whether the worker goes on *)
Fixpoint events_loop (steps fuel : nat) (k : kernel) (g : config) (s : pipes) (nd : node)
    : outcome (node * bool) :=
  match steps with
  | O => Stop OutOfFuel
  | S steps =>
      '(p, next) ← DwPoll.dw_poll_next (dw_poll nd);
      let nd := set_poll nd p in
      match next with
      | None => Ret (nd, true)
      | Some (pflags, aux) =>
          '(nd, f) ← worker_event fuel k g s nd pflags aux;
          match f with
          | GoOn => events_loop steps fuel k g s nd
          | NextWait => Ret (nd, true)
          | Finished => Ret (nd, false)
          end
      end
  end.

(** one iteration of [while (running)]; [interrupted]: errno is EINTR *)
Definition worker_round (steps fuel : nat) (k : kernel) (g : config) (s : pipes) (nd : node)
    (answer : DwPoll.wait_ret) (interrupted : bool) : outcome (node * bool) :=
  '(p, nfds) ← DwPoll.dw_poll_wait (dw_poll nd) answer;
  _ ← check (negb (nfds =? -1) || interrupted);
  events_loop steps fuel k g s (set_poll nd p).

End Worker.

(** ** The typing of poll entries *)

Definition aux_typed (a : Z) : Prop :=
  ∃ t c, a = i2l (event_to_Z t) c ∧ (t = SOCKET ∨ t = CONNECT → 0 ≤ c < MAX_CONNS).

Definition poll_auxs (p : dw_poll_t) : list Z :=
  match u p with
  | Select s => (s_aux <$> rd s) ++ (s_aux <$> wr s)
  | Poll q => p_aux <$> pollfds q
  | Epoll e => ev_data <$> events e
  end.
Definition poll_typed (p : dw_poll_t) : Prop := Forall aux_typed (poll_auxs p).
(** what epoll was told *)
Definition ctl_typed (c : epoll_ctl) : Prop :=
  match c with CTL_ADD _ _ a | CTL_MOD _ _ a => aux_typed a | CTL_DEL _ => True end.
(** what one worker asks the epoll instance of another for *)
Definition ctl_adds (c : epoll_ctl) (fd ev : Z) : Prop :=
  ∃ id, c = CTL_ADD fd ev (i2l (event_to_Z SOCKET) id) ∧ 0 ≤ id < MAX_CONNS.
Definition effect_typed (e : effect) : Prop :=
  match e with
  | EpollCtl c => ctl_typed c
  | OtherPoll _ c => ∃ fd ev, ctl_adds c fd ev
  | Dispatch _ c => 0 ≤ c < MAX_CONNS
  | _ => True
  end.

Lemma aux_conn t c : 0 ≤ c < MAX_CONNS → aux_typed (i2l (event_to_Z t) c).
Proof. intros H. by exists t, c. Qed.
Lemma aux_fd t fd : t ≠ SOCKET → t ≠ CONNECT → aux_typed (i2l (event_to_Z t) fd).
Proof. intros. exists t, fd. split; [done|]. by intros [|]. Qed.
Lemma aux_if (b : bool) x y : aux_typed x → aux_typed y → aux_typed (if b then x else y).
Proof. by destruct b. Qed.
Lemma aux_none : aux_typed 0.
Proof. exists LISTEN, 0. split; [done|]. by intros [|]. Qed.
#[export] Hint Resolve aux_conn aux_none aux_if : wf.
#[export] Hint Extern 1 (aux_typed (i2l (event_to_Z ?t) _)) => (apply aux_fd; [discriminate|discriminate]) : wf.

Lemma Forall_del_pos {A} (P : A → Prop) l i : Forall P l → Forall P (DwPoll.del_pos l i).
Proof.
  intros H. unfold DwPoll.del_pos. destruct (l !! _) as [x|] eqn:E; [|done].
  case_match; apply Forall_take; [|done]. apply Forall_insert; [done|]. by eapply Forall_lookup_1.
Qed.
Lemma Forall_snoc_2 {A} (P : A → Prop) l x : Forall P l → P x → Forall P (l ++ [x]).
Proof. intros. apply Forall_app_2; [done|]. by constructor. Qed.
#[local] Hint Resolve Forall_del_pos Forall_snoc_2 Forall_insert : wf.

Definition sel_typed (e : sel_fd) : Prop := aux_typed (s_aux e).
Definition pfd_typed (e : poll_fd) : Prop := aux_typed (p_aux e).

Lemma select_add_typed l fd flags aux : Forall sel_typed l → aux_typed aux →
  ensures (DwPoll.select_add l fd flags aux) (Forall sel_typed).
Proof. unfold DwPoll.select_add. ens. Qed.
#[local] Hint Resolve select_add_typed : wf.
Lemma select_mod_typed l fd flags aux want : Forall sel_typed l → aux_typed aux →
  ensures (DwPoll.select_mod l fd flags aux want) (Forall sel_typed).
Proof. unfold DwPoll.select_mod. ens. Qed.
#[local] Hint Resolve select_mod_typed : wf.

Lemma poll_typed_select sp s :
  poll_typed (MkDwPoll sp (Select s)) ↔ Forall sel_typed (rd s) ∧ Forall sel_typed (wr s).
Proof. unfold poll_typed, poll_auxs. cbn. by rewrite Forall_app, !Forall_fmap. Qed.
Lemma poll_typed_poll sp q : poll_typed (MkDwPoll sp (Poll q)) ↔ Forall pfd_typed (pollfds q).
Proof. unfold poll_typed, poll_auxs. cbn. by rewrite Forall_fmap. Qed.

(** the poll object and the request to epoll *)
Definition result_typed (r : dw_poll_t * Z * option epoll_ctl) : Prop :=
  poll_typed r.1.1 ∧ ∀ c, r.2 = Some c → ctl_typed c.

Lemma result_select sp r w a b i v : Forall sel_typed r → Forall sel_typed w →
  result_typed (MkDwPoll sp (Select (MkSelect r w a b i)), v, None).
Proof. intros. split; [by apply poll_typed_select|done]. Qed.
Lemma result_poll sp l i v : Forall pfd_typed l →
  result_typed (MkDwPoll sp (Poll (MkPoll l i)), v, None).
Proof. intros. split; [by apply poll_typed_poll|done]. Qed.
#[local] Hint Resolve result_select result_poll : wf.

Lemma dw_poll_add_typed p fd flags aux rv : poll_typed p → aux_typed aux →
  ensures (DwPoll.dw_poll_add p fd flags aux rv) result_typed.
Proof.
  destruct p as [sp [[r w a b i]|[l i]|e]]; unfold DwPoll.dw_poll_add; cbn [u use_spinning rd wr pollfds];
    intros H Ha.
  - apply poll_typed_select in H as H'. destruct H' as [Hr Hw]. cbn [rd wr] in Hr, Hw.
    repeat ens_step; try (by split); subst; eauto with wf nocore.
  - apply poll_typed_poll in H as Hl. cbn [pollfds] in Hl. repeat ens_step; [by split|].
    apply result_poll, Forall_snoc_2; done.
  - split; [done|]. by intros c [= <-].
Qed.

Lemma dw_poll_mod_typed p fd flags aux rv : poll_typed p → aux_typed aux →
  ensures (DwPoll.dw_poll_mod p fd flags aux rv) result_typed.
Proof.
  destruct p as [sp [[r w a b i]|[l i]|e]]; unfold DwPoll.dw_poll_mod; cbn [u use_spinning rd wr pollfds];
    intros H Ha.
  - apply poll_typed_select in H as [Hr Hw]. cbn [rd wr] in Hr, Hw. ens.
  - apply poll_typed_poll in H as Hl. cbn [pollfds poll_iter] in *.
    set (l' := match _ with Some _ => _ | None => _ end).
    assert (Hl' : Forall pfd_typed l').
    { unfold l'. repeat case_match; eauto with wf nocore. }
    cbn beta zeta. case_match; [|by apply result_poll].
    apply dw_poll_add_typed; [|done]. by apply poll_typed_poll.
  - split; [done|]. intros c [= <-]. by case_match.
Qed.

(** ** The invariant of a node *)

Record node_wf (nd : node) : Prop := NodeWf {
  nw_world : world_wf (nd_world nd);
  nw_poll : poll_typed (dw_poll nd);
  nw_effects : Forall effect_typed (effects nd)
}.
#[export] Hint Resolve nw_world nw_poll nw_effects : wf.

Section Setters.
Context (nd : node) (W : node_wf nd).
Lemma nw_set_world w : world_wf w → node_wf (set_world nd w).
Proof. by destruct W. Qed.
Lemma nw_set_timeouts t : node_wf (set_timeouts nd t).
Proof. by destruct W. Qed.
Lemma nw_set_poll p : poll_typed p → node_wf (set_poll nd p).
Proof. by destruct W. Qed.
Lemma nw_count_conns d : node_wf (count_conns nd d).
Proof. by destruct W. Qed.
Lemma nw_count_reqs d : node_wf (count_reqs nd d).
Proof. by destruct W. Qed.
Lemma nw_next_turn : node_wf (next_turn nd).
Proof. by destruct W. Qed.
Lemma nw_next_thread : node_wf (next_thread nd).
Proof. by destruct W. Qed.
Lemma nw_emit e : effect_typed e → node_wf (emit nd e).
Proof. destruct W. split; [done|done|]. cbn [emit effects]. by apply Forall_snoc_2. Qed.
Lemma nw_told p v ctl : result_typed (p, v, ctl) → node_wf (told nd ctl).
Proof. intros [_ Hc]. destruct ctl as [c|]; [|done]. apply nw_emit. by apply Hc. Qed.
Lemma nw_upd_req r f : keeps_owner f → node_wf (upd_req nd r f).
Proof. intros K. apply nw_set_world. eauto 8 with wf nocore. Qed.
Lemma nw_upd_conn c f : ensures (upd_conn nd c f) node_wf.
Proof. unfold upd_conn. repeat ens_step. apply nw_set_world. eauto 8 with wf nocore. Qed.
End Setters.
#[export] Hint Resolve nw_set_world nw_set_timeouts nw_set_poll nw_count_conns nw_count_reqs : wf.
Lemma result_poll_typed p v ctl : result_typed (p, v, ctl) → poll_typed p.
Proof. by intros [H _]. Qed.
#[export] Hint Resolve nw_told result_poll_typed dw_poll_add_typed dw_poll_mod_typed : wf.
Lemma typed_other w fd ev c : 0 ≤ c < MAX_CONNS →
  effect_typed (OtherPoll w (CTL_ADD fd ev (i2l (event_to_Z SOCKET) c))).
Proof. intros H. by exists fd, ev, c. Qed.
Lemma typed_dispatch w c : 0 ≤ c < MAX_CONNS → effect_typed (Dispatch w c).
Proof. done. Qed.
#[export] Hint Resolve nw_next_thread typed_other typed_dispatch : wf.
#[export] Hint Resolve nw_next_turn nw_emit nw_upd_req nw_upd_conn : wf.
#[export] Hint Extern 1 (effect_typed _) => exact I : wf.

Lemma node_wf_if (b : bool) nd nd' : node_wf nd → node_wf nd' → node_wf (if b then nd else nd').
Proof. by destruct b. Qed.
#[export] Hint Resolve node_wf_if eq_refl : wf.
#[export] Hint Extern 1 (nd_world (told _ ?c) = _) => (destruct c; reflexivity) : wf.
#[export] Hint Extern 1 (nd_world _ = nd_world _) => reflexivity : wf.

Lemma keeps_open_context f : keeps_owner (fun q => Forward.open_context q f).
Proof. intros q. unfold Forward.open_context. by case_match. Qed.
#[export] Hint Resolve keeps_open_context : wf.

(** ** Forwarding *)

Section Operations.
Context (k : kernel) (g : config).
Implicit Types (nd : node).

Lemma poll_mod_wf nd fd flags aux : node_wf nd → aux_typed aux →
  ensures (Node.poll_mod k nd fd flags aux) (fun r => node_wf r.1 ∧ nd_world r.1 = nd_world nd).
Proof.
  unfold Node.poll_mod. ens.
Qed.
Hint Resolve poll_mod_wf : wf.

Lemma close_and_forget_wf nd s : node_wf nd → ensures (Node.close_and_forget k nd s) node_wf.
Proof.
  unfold Node.close_and_forget. ens.
Qed.
Hint Resolve close_and_forget_wf : wf.

Lemma open_forward_wf nd addr proto : node_wf nd →
  ensures (Forward.open_forward k g nd addr proto) (fun r => node_wf r.1).
Proof.
  unfold Forward.open_forward. ens.
Qed.
Hint Resolve open_forward_wf : wf.

Lemma copy_tail_wf h m m_dst c : mem_wf h →
  ensures (Forward.copy_tail h m m_dst c) (fun r => mem_wf r.1).
Proof. unfold Forward.copy_tail. ens. Qed.
Hint Resolve copy_tail_wf : wf.
Lemma build_forward_wf nd r m cmd c fwd : node_wf nd →
  ensures (Forward.build_forward nd r m cmd c fwd) (fun r => node_wf r.1).
Proof. unfold Forward.build_forward. ens. Qed.
Hint Resolve build_forward_wf : wf.
Lemma send_forward_wf nd r m cmd c fwd addr : node_wf nd →
  ensures (Forward.send_forward k nd r m cmd c fwd addr) (fun r => node_wf r.1).
Proof. unfold Forward.send_forward. ens. Qed.
Hint Resolve send_forward_wf : wf.
Lemma single_start_forward_wf nd r m cmd : node_wf nd →
  ensures (Forward.single_start_forward k g nd r m cmd) (fun r => node_wf r.1).
Proof. unfold Forward.single_start_forward. ens. Qed.
Hint Resolve single_start_forward_wf : wf.
Lemma start_loop_wf fuel nd r m itr e : node_wf nd →
  ensures (Forward.start_loop fuel k g nd r m itr e) (fun r => node_wf r.1).
Proof. revert nd itr. induction fuel as [|fuel IH]; cbn [Forward.start_loop]; ens. Qed.
Hint Resolve start_loop_wf : wf.
Lemma start_forward_wf nd r m cmd : node_wf nd →
  ensures (Forward.start_forward k g nd r m cmd) (fun r => node_wf r.1).
Proof. unfold Forward.start_forward. ens. Qed.
Hint Resolve start_forward_wf : wf.

(** ** Messages *)

Lemma with_mem_wf nd h : node_wf nd → mem_wf h → node_wf (Node.with_mem nd h).
Proof. unfold Node.with_mem. eauto 6 with wf nocore. Qed.
Hint Resolve with_mem_wf : wf.
Lemma store_at_wf nd m field v : node_wf nd → ensures (Node.store_at nd m field v) node_wf.
Proof. unfold Node.store_at. ens. Qed.
Hint Resolve store_at_wf : wf.
Lemma set_curr_cmd_wf nd r c : node_wf nd → node_wf (Node.set_curr_cmd nd r c).
Proof. unfold Node.set_curr_cmd. eauto 6 with wf nocore. Qed.
Hint Resolve set_curr_cmd_wf : wf.

Lemma reply_wf nd r m cmd : node_wf nd → ensures (Node.reply k g nd r m cmd)
  (fun x => node_wf x.1 ∧ 0 ≤ r_conn_id (req_of nd r) < MAX_CONNS).
Proof. unfold Node.reply. ens. Qed.
Hint Resolve reply_wf : wf.
Lemma after_reply_wf nd r c v : node_wf nd → 0 ≤ c < MAX_CONNS →
  ensures (Node.after_reply k nd r c v) (fun x => node_wf x.1).
Proof. unfold Node.after_reply. ens. Qed.
Hint Resolve after_reply_wf : wf.
Lemma to_storage_wf nd r c dev : node_wf nd → ensures (Node.to_storage k g nd r c dev)
  (fun x => node_wf x.1 ∧ nd_world x.1 = nd_world nd).
Proof. unfold Node.to_storage. ens. Qed.
Hint Resolve to_storage_wf : wf.

Lemma owner_world nd nd' r c : nd_world nd' = nd_world nd → r_conn_id (req_of nd r) = c →
  r_conn_id (req_of nd' r) = c.
Proof. unfold req_of. by intros ->. Qed.
Hint Resolve owner_world : wf.

Lemma process_loop_wf fuel nd r m c cmd e : node_wf nd → r_conn_id (req_of nd r) = c →
  ensures (Node.process_loop fuel k g nd r m c cmd e) (fun x => node_wf x.1).
Proof.
  revert nd cmd. induction fuel as [|fuel IH]; intros nd cmd W Hc; cbn [Node.process_loop]; [done|].
  assert (Hr : 0 ≤ r_conn_id (req_of nd r) < MAX_CONNS → 0 ≤ c < MAX_CONNS) by (by rewrite Hc).
  ens.
Qed.
Hint Resolve process_loop_wf : wf.
Lemma process_single_message_wf nd r : node_wf nd →
  ensures (Node.process_single_message k g nd r) (fun x => node_wf x.1).
Proof. unfold Node.process_single_message. ens. Qed.
Hint Resolve process_single_message_wf : wf.

Section Recursion.
Context (obtain : node → Z → outcome (node * Z)).
Context (Hobtain : ∀ nd c, node_wf nd → ensures (obtain nd c) (fun x => node_wf x.1)).

Lemma process_messages_wf nd r : node_wf nd →
  ensures (Node.process_messages obtain k g nd r) (fun x => node_wf x.1).
Proof. unfold Node.process_messages. ens. Qed.
Hint Resolve process_messages_wf : wf.
Lemma finish_forward_wf nd r id st : node_wf nd →
  ensures (Node.finish_forward obtain k g nd r id st) (fun x => node_wf x.1).
Proof. unfold Node.finish_forward. ens. Qed.
Hint Resolve finish_forward_wf : wf.
Lemma handle_forward_reply_wf nd id st a : node_wf nd →
  ensures (Node.handle_forward_reply obtain k g nd id st a) (fun x => node_wf x.1).
Proof. unfold Node.handle_forward_reply. ens. Qed.
End Recursion.
Hint Resolve process_messages_wf handle_forward_reply_wf : wf.

Lemma obtain_messages_wf fuel nd c : node_wf nd →
  ensures (Node.obtain_messages fuel k g nd c) (fun x => node_wf x.1).
Proof.
  cut ((∀ nd c, node_wf nd → ensures (Node.obtain_messages fuel k g nd c) (fun x => node_wf x.1)) ∧
       (∀ nd c, node_wf nd → ensures (Node.obtain_loop fuel k g nd c) (fun x => node_wf x.1))).
  { intros [H _]. apply H. }
  clear. induction fuel as [|fuel [IH1 IH2]]; [done|].
  split; intros nd c W; cbn [Node.obtain_messages Node.obtain_loop]; ens.
Qed.
Hint Resolve obtain_messages_wf : wf.

(** ** Events *)

Lemma establish_conn_wf nd c : node_wf nd →
  ensures (Events.establish_conn k nd c) (fun x => node_wf x.1).
Proof. unfold Events.establish_conn. ens. Qed.
Hint Resolve establish_conn_wf : wf.
Lemma disarm_wf nd : node_wf nd → ensures (Events.disarm nd) node_wf.
Proof. unfold Events.disarm. ens. Qed.
Hint Resolve disarm_wf : wf.
Lemma handle_timeout_wf fuel nd : node_wf nd → ensures (Events.handle_timeout fuel k g nd) node_wf.
Proof. unfold Events.handle_timeout. ens. Qed.
Lemma fail_request_wf fuel nd pending r : node_wf nd →
  ensures (Events.fail_request fuel k g nd pending r) node_wf.
Proof. unfold Events.fail_request. ens. Qed.
Hint Resolve handle_timeout_wf fail_request_wf : wf.
Lemma fail_requests_wf steps fuel nd lost pending head tmp : node_wf nd →
  ensures (Events.fail_requests steps fuel k g nd lost pending head tmp) node_wf.
Proof. revert nd tmp. induction steps as [|steps IH]; cbn [Events.fail_requests]; ens. Qed.
Hint Resolve fail_requests_wf : wf.
Lemma fail_conns_wf n fuel nd c i : node_wf nd → ensures (Events.fail_conns n fuel k g nd c i) node_wf.
Proof. revert nd i. induction n as [|n IH]; cbn [Events.fail_conns]; ens. Qed.
Hint Resolve fail_conns_wf : wf.
Lemma fail_conn_wf fuel nd c : node_wf nd → ensures (Events.fail_conn fuel k g nd c) node_wf.
Proof. unfold Events.fail_conn. ens. Qed.
Hint Resolve fail_conn_wf : wf.
Lemma receive_some_wf nd pflags c : node_wf nd →
  ensures (Events.receive_some k nd pflags c) (fun x => node_wf x.1).
Proof. unfold Events.receive_some. ens. Qed.
Lemma send_some_wf nd pflags c : node_wf nd → 0 ≤ c < MAX_CONNS →
  ensures (Events.send_some k nd pflags c) (fun x => node_wf x.1).
Proof. unfold Events.send_some. ens. Qed.
Hint Resolve receive_some_wf send_some_wf : wf.
Lemma exec_conn_wf fuel nd pflags c connect : node_wf nd → 0 ≤ c < MAX_CONNS →
  ensures (Events.exec_conn fuel k g nd pflags c connect) node_wf.
Proof. unfold Events.exec_conn. ens. Qed.
Hint Resolve exec_conn_wf : wf.
Lemma exec_request_wf fuel nd pflags c type : node_wf nd →
  ensures (Events.exec_request fuel k g nd pflags c type) node_wf.
Proof. unfold Events.exec_request. ens. Qed.
Lemma storage_ack_wf fuel nd id : node_wf nd → ensures (Events.storage_ack fuel k g nd id) node_wf.
Proof. unfold Events.storage_ack. ens. Qed.
Lemma next_worker_wf parent nd : node_wf nd →
  ensures (Events.next_worker g parent nd) (fun x => node_wf x.1).
Proof. unfold Events.next_worker. ens. Qed.
Hint Resolve next_worker_wf : wf.
Lemma assign_conn_wf parent nd s c : node_wf nd → 0 ≤ c < MAX_CONNS →
  ensures (Events.assign_conn k g parent nd s c) node_wf.
Proof. unfold Events.assign_conn. ens. Qed.
Hint Resolve assign_conn_wf : wf.
Lemma accept_conn_wf parent nd p : node_wf nd →
  ensures (Events.accept_conn k g parent nd p) node_wf.
Proof. unfold Events.accept_conn. ens. Qed.
Hint Resolve exec_request_wf storage_ack_wf accept_conn_wf : wf.

Context (s : Worker.pipes).
Lemma poll_in_wf nd fd aux : node_wf nd → aux_typed aux → ensures (Worker.poll_in k nd fd aux) node_wf.
Proof. unfold Worker.poll_in. ens. Qed.
Hint Resolve poll_in_wf : wf.
Lemma add_listening_wf nd l : node_wf nd → ensures (Worker.add_listening k nd l) node_wf.
Proof. revert nd. induction l as [|[fd p] l IH]; cbn [Worker.add_listening]; ens. Qed.
Lemma add_replies_wf nd l : node_wf nd → ensures (Worker.add_replies k nd l) node_wf.
Proof. revert nd. induction l as [|fd l IH]; cbn [Worker.add_replies]; ens. Qed.
Hint Resolve add_listening_wf add_replies_wf : wf.
Lemma worker_setup_wf nd : node_wf nd → ensures (Worker.worker_setup k s nd) node_wf.
Proof. unfold Worker.worker_setup. ens. Qed.

Lemma worker_event_wf fuel nd pflags aux : node_wf nd →
  ensures (Worker.worker_event fuel k g s nd pflags aux) (fun x => node_wf x.1).
Proof. unfold Worker.worker_event. ens. Qed.
Hint Resolve worker_event_wf : wf.
End Operations.
#[export] Hint Resolve worker_event_wf : wf.

(** ** Waiting *)

Lemma arr_get_in {A} (l : list A) i : ensures (arr_get l i) (fun e => e ∈ l).
Proof.
  destruct (arr_get l i) as [x|] eqn:E; [|done]. apply arr_get_inv in E as [_ E].
  by apply list_elem_of_lookup_2 in E.
Qed.
#[local] Hint Resolve arr_get_in : wf.

(** the data epoll was given for some descriptor *)
Definition registered (nd : node) (a : Z) : Prop :=
  ∃ c, EpollCtl c ∈ effects nd ∧
    match c with CTL_ADD _ _ x | CTL_MOD _ _ x => x = a | CTL_DEL _ => False end.
(** ... and what the worker that accepts adds to it in the mode AM_PARENT *)
Definition added_by_parent (a : Z) : Prop :=
  ∃ c, a = i2l (event_to_Z SOCKET) c ∧ 0 ≤ c < MAX_CONNS.
(** epoll_wait only gives back what it was given *)
Definition epoll_answers (nd : node) (answer : DwPoll.wait_ret) : Prop :=
  match answer with
  | DwPoll.EpollRet _ evs => Forall (fun e => registered nd (ev_data e) ∨ added_by_parent (ev_data e)) evs
  | _ => True
  end.

Lemma registered_typed nd a : node_wf nd → registered nd a → aux_typed a.
Proof.
  intros W (c & Hin & Hc). pose proof (nw_effects _ W) as F.
  rewrite Forall_forall in F. specialize (F _ Hin). destruct c; cbn in F; by subst.
Qed.

Lemma set_revents_auxs l r : p_aux <$> DwPoll.set_revents l r = p_aux <$> l.
Proof. revert r. induction l as [|e l IH]; intros [|x r]; cbn; f_equal; auto. Qed.

Lemma dw_poll_wait_typed nd answer : node_wf nd → epoll_answers nd answer →
  ensures (DwPoll.dw_poll_wait (dw_poll nd) answer) (fun r => poll_typed r.1).
Proof.
  intros W Ha. pose proof (nw_poll _ W) as Hp. unfold poll_typed, poll_auxs in *.
  unfold DwPoll.dw_poll_wait. destruct (u (dw_poll nd)) as [q|q|q], answer; try done.
  - repeat ens_step. done.
  - cbn. by rewrite set_revents_auxs.
  - cbn. case_match; [|done]. apply Forall_fmap, Forall_take.
    eapply Forall_impl; [exact Ha|]. intros e [He|(c & E & Hc)]; [by eapply registered_typed|].
    by exists SOCKET, c.
Qed.

Definition next_typed (r : dw_poll_t * option (Z * Z)) : Prop :=
  poll_typed r.1 ∧ ∀ f a, r.2 = Some (f, a) → aux_typed a.

Lemma dw_poll_next_typed p : poll_typed p → ensures (DwPoll.dw_poll_next p) next_typed.
Proof.
  destruct p as [sp [[r w a b i]|[l i]|e]]; intros H; unfold DwPoll.dw_poll_next;
    cbn [u use_spinning rd wr pollfds rd_fds wr_fds sel_iter poll_iter].
  - apply poll_typed_select in H as [Hr Hw]. cbn [rd wr] in Hr, Hw.
    repeat ens_step; (split; [apply poll_typed_select; cbn [rd wr fst]; repeat case_match; simplify_eq; split; auto using Forall_del_pos|]);
      intros f x [= <- <-];
      match goal with H : ?e ∈ ?l, F : Forall sel_typed ?l |- _ => by apply (proj1 (Forall_forall _ _) F _ H) end.
  - apply poll_typed_poll in H as Hl. cbn [pollfds] in Hl.
    repeat ens_step; (split; [apply poll_typed_poll; cbn [pollfds fst]; repeat case_match; simplify_eq; auto using Forall_del_pos|]);
      intros f x [= <- <-];
      match goal with H : ?e ∈ ?l, F : Forall pfd_typed ?l |- _ => by apply (proj1 (Forall_forall _ _) F _ H) end.
  - unfold poll_typed, poll_auxs in H. cbn in H.
    repeat ens_step; (split; [exact H|]); [|done..].
    intros f x [= <- <-]. rewrite Forall_fmap in H. by apply (Forall_lookup_1 _ _ _ _ H E).
Qed.
#[local] Hint Resolve dw_poll_next_typed dw_poll_wait_typed : wf.

(** ** Rounds *)

Section Rounds.
Context (fuel : nat) (k : kernel) (g : config) (s : Worker.pipes).
Implicit Types (nd : node).

Lemma events_loop_wf steps nd : node_wf nd →
  ensures (Worker.events_loop steps fuel k g s nd) (fun x => node_wf x.1).
Proof.
  revert nd. induction steps as [|steps IH]; intros nd W; cbn [Worker.events_loop]; [done|].
  apply ensures_bind. eapply ensures_mono; [by apply dw_poll_next_typed, nw_poll|].
  intros [p nx] [Hp _]. cbn [fst] in Hp. ens.
Qed.

Hint Resolve events_loop_wf : wf.

Lemma worker_round_wf steps nd answer intr : node_wf nd → epoll_answers nd answer →
  ensures (Worker.worker_round steps fuel k g s nd answer intr) (fun x => node_wf x.1).
Proof.
  intros W Ha. unfold Worker.worker_round. ens_step.
  eapply ensures_mono; [by apply dw_poll_wait_typed|]. intros [p n] Hp. cbn [fst] in Hp.
  ens.
Qed.
End Rounds.

(** the states of a worker between two waits; each round with its own answers *)
Inductive rounds (start : node) : node → Prop :=
  | rounds_start : rounds start start
  | rounds_step nd steps fuel k g s answer intr nd' more : rounds start nd →
      epoll_answers nd answer →
      Worker.worker_round steps fuel k g s nd answer intr = Ret (nd', more) →
      rounds start nd'.

Lemma rounds_wf start nd : node_wf start → rounds start nd → node_wf nd.
Proof.
  intros W R. induction R as [|nd steps fuel k g s answer intr nd' more _ IH Ha E]; [done|].
  apply (ensures_inv _ _ _ (worker_round_wf fuel k g s steps nd answer intr IH Ha) E).
Qed.

Lemma l2i_i2l t c : 0 ≤ c < 2 ^ 32 → l2i (i2l (event_to_Z t) c) = (event_to_Z t, c).
Proof.
  intros Hc. assert (Ht : 0 ≤ event_to_Z t < 2 ^ 31) by (destruct t; cbn; lia).
  unfold l2i, i2l. rewrite (u32_small c), (u32_small (event_to_Z t)) by lia.
  assert (E : Z.lor (Z.shiftl (event_to_Z t) 32) c = event_to_Z t * 2 ^ 32 + c).
  { rewrite <- Z.shiftl_mul_pow2, <- Z.add_lor_land by done.
    replace (Z.land _ c) with 0; [lia|]. symmetry. apply Z.bits_inj'. intros i Hi.
    rewrite Z.land_spec, Z.bits_0. destruct (Z.lt_ge_cases i 32).
    - by rewrite Z.shiftl_spec_low.
    - rewrite <- (Z.mod_small c (2 ^ 32)), Z.mod_pow2_bits_high by lia. apply andb_false_r. }
  rewrite E. rewrite u64_small, Z.shiftr_div_pow2 by lia. f_equal.
  - rewrite u32_small; [|split; [apply Z.div_pos|]]; dlia.
  - unfold u32. dlia.
Qed.

Lemma event_of_to t : Worker.event_of_Z (event_to_Z t) = t.
Proof. by destruct t. Qed.

Lemma typed_effect nd e : node_wf nd → e ∈ effects nd → effect_typed e.
Proof. intros W. pose proof (nw_effects _ W) as F. rewrite Forall_forall in F. apply F. Qed.

(** [C1] From the set-up of a worker on, whatever the kernel, the peers and
    the storage workers answer in any number of rounds: an id designates at most
    one live request, which belongs to an entry of the table of connections; the
    connections it hands over to other workers, through their epoll instance or
    their socket, are entries of the table; and every event the poll object
    delivers, its own or, with epoll, one added by the worker that accepts,
    decodes to the tag it was registered with and, for an event of a connection,
    to the index of an entry of the table. *)
Theorem worker_rounds_typed (k : kernel) (s : Worker.pipes) (nd0 start nd : node) :
  node_wf nd0 → Worker.worker_setup k s nd0 = Ret start → rounds start nd →
  (∀ id i, id ≠ -1 →
     Request.req_get_by_id (w_reqs (nd_world nd)) id = Some i ↔ req_id (req_of nd i) = id) ∧
  (∀ i, req_id (req_of nd i) ≠ -1 →
     ∃ conn, Connection.get_conn (nd_world nd) (r_conn_id (req_of nd i)) = Ret conn) ∧
  (∀ w ctl, OtherPoll w ctl ∈ effects nd → ∃ fd ev a, ctl = CTL_ADD fd ev a ∧ added_by_parent a) ∧
  (∀ w id, Dispatch w id ∈ effects nd →
     ∃ conn, Connection.get_conn (nd_world nd) id = Ret conn) ∧
  ∀ answer p nfds p' flags aux, epoll_answers nd answer →
    DwPoll.dw_poll_wait (dw_poll nd) answer = Ret (p, nfds) →
    DwPoll.dw_poll_next p = Ret (p', Some (flags, aux)) →
    ∃ t c, aux = i2l (event_to_Z t) c ∧ Worker.event_of_Z (l2i aux).1 = t ∧
      (t = SOCKET ∨ t = CONNECT → s32 (l2i aux).2 = c ∧
        ∃ conn, Connection.get_conn (nd_world nd) c = Ret conn).
Proof.
  intros W0 Es R. pose proof (ensures_inv _ _ _ (worker_setup_wf k s nd0 W0) Es) as W.
  pose proof (rounds_wf _ _ W R) as [[[Hids Howned] _ _] _ _]. pose proof (rounds_wf _ _ W R) as W'.
  split_and!.
  - intros id i Hid. by apply get_by_id_spec.
  - intros i Hi. eexists. by apply Connection.get_conn_ok, Howned.
  - intros w ctl He. destruct (typed_effect _ _ W' He) as (fd & ev & c & -> & Hc).
    eexists _, _, _. split; [done|]. by exists c.
  - intros w id He. eexists. apply Connection.get_conn_ok. exact (typed_effect _ _ W' He).
  - intros answer p nfds p' flags aux Ha Ew En.
    pose proof (ensures_inv _ _ _ (dw_poll_wait_typed nd answer W' Ha) Ew) as Hp. cbn [fst] in Hp.
    destruct (ensures_inv _ _ _ (dw_poll_next_typed p Hp) En) as [_ Hx].
    destruct (Hx flags aux eq_refl) as (t & c & -> & Hc). exists t, (u32 c).
    assert (Ec : i2l (event_to_Z t) c = i2l (event_to_Z t) (u32 c)).
    { unfold i2l. f_equal. symmetry. apply u32_small, u32_range. }
    rewrite Ec, l2i_i2l by apply u32_range. cbn [fst snd]. split; [done|]. split; [apply event_of_to|].
    intros Ht. specialize (Hc Ht). unfold MAX_CONNS in Hc. rewrite u32_small by lia.
    split; [apply s32_small; unfold is_int; lia|]. eexists. by apply Connection.get_conn_ok.
Qed.

(** a worker with epoll and one connection: its client sends a message and can
    take no answer yet *)
Definition initial_node : node :=
  Node (nd_world (Events.served READY)) (MkTimeouts PQueue.PQueue.empty4 0 (us_to_its 0))
    (MkDwPoll 0 (Epoll (MkEpoll 3 [] 0))) 1 0 0
    [EpollCtl (CTL_ADD 5 1 (i2l (event_to_Z SOCKET) 0))] 0.
Definition few_pipes : Worker.pipes :=
  Worker.Pipes [] true 10 11 (-1) [] false 1 7 (fun _ => None) (fun _ => None) (fun _ => false).
Definition start_node : node :=
  match Worker.worker_setup (Events.client_kernel EAGAIN) few_pipes initial_node with
  | Ret nd => nd | Stop _ => initial_node end.
Definition one_event : DwPoll.wait_ret :=
  DwPoll.EpollRet 1 [EpollEv 1 (i2l (event_to_Z SOCKET) 0)].
#[local] Abbreviation first_round := (
  Worker.worker_round 5 10 (Events.client_kernel EAGAIN) config1 few_pipes start_node one_event false).
Definition round_node : node := match first_round with Ret (nd, _) => nd | Stop _ => start_node end.

Lemma start_node_ret :
  Worker.worker_setup (Events.client_kernel EAGAIN) few_pipes initial_node = Ret start_node.
Proof.
  unfold start_node. by destruct (Worker.worker_setup _ _ _) as [nd|] eqn:E; [|vm_compute in E].
Qed.

Lemma first_round_ret : first_round = Ret (round_node, true).
Proof.
  assert (X : match first_round with Ret (_, b) => b | Stop _ => false end = true)
    by (vm_compute; reflexivity).
  unfold round_node. destruct first_round as [[n b]|]; [by rewrite X|done].
Qed.

Lemma initial_node_wf : node_wf initial_node.
Proof.
  assert (W0 : world_wf Connection.world0).
  { split; [split; [apply req_init_wf|by intros i Hi]|by intros b _|]. intros c [x Hx]. done. }
  assert (W1 : world_wf Connection.world1).
  { unfold Connection.world1.
    pose proof (conn_alloc_wf Connection.world0 1 true true 5 Connection.addr1 TCP W0) as H.
    destruct (Connection.conn_alloc _ _ _ _ _ _ _) as [[w c]|]; [apply H|done]. }
  split; cbn [initial_node nd_world dw_poll effects].
  - apply wf_set_conn; [done|unfold MAX_CONNS; lia].
  - by constructor.
  - constructor; [|done]. apply (aux_conn SOCKET 0). unfold MAX_CONNS. lia.
Qed.

Lemma one_event_registered : epoll_answers start_node one_event.
Proof.
  constructor; [|done]. left. exists (CTL_ADD 5 1 (i2l (event_to_Z SOCKET) 0)). split; [|done].
  assert (X : effects start_node !! 0%nat = Some (EpollCtl (CTL_ADD 5 1 (i2l (event_to_Z SOCKET) 0))))
    by (vm_compute; reflexivity).
  by apply list_elem_of_lookup_2 in X.
Qed.

Lemma worker_rounds_typed_witness :
  rounds start_node round_node ∧ status (Node.conn_of round_node 0) = SENDING ∧
  ∀ id i, id ≠ -1 →
    Request.req_get_by_id (w_reqs (nd_world round_node)) id = Some i ↔
    req_id (req_of round_node i) = id.
Proof.
  assert (R : rounds start_node round_node).
  { eapply rounds_step; [apply rounds_start|exact one_event_registered|exact first_round_ret]. }
  split; [exact R|]. split; [vm_compute; reflexivity|].
  exact (proj1 (worker_rounds_typed (Events.client_kernel EAGAIN) few_pipes initial_node start_node
    round_node initial_node_wf start_node_ret R)).
Defined.
