(* ===== verification/Options.v ===== *)
(** * The client's command line as a program (src/src/dw_client.c:
    argp_client_parse_opt)

    The options -C, -S, -L, -s, -F and -R each add commands to the chain
    [ccmd]; the end of the options adds the replies that are still due. The
    text of an argument is read with strsep, sscanf and the parsers of
    distrib.c and address_utils.c: here an argument is the list of its tokens as
    these tests classify them, with the values read ([None] for a text that the
    parser of a distribution refuses). CommandLine reads them from the text. *)

From S2P Require Import Prelude Message Queue Ccmd.

Local Open Scope Z_scope.

(** what the options need of distrib.h besides sampling: pd_build_fixed,
    pd_build_none, pd_is_none, and the limits put on [min] and [max] of the size
    of a reply *)
Class Specs (Spec : Type) := {
  pd_build_fixed : Z → Spec;
  pd_build_none : Spec;
  pd_is_none : Spec → bool;
  clamp_reply : Spec → Spec
}.

Module Options.

Definition default_resp_size : Z := 512.
Definition MAX_PKTS : Z := 1000000.

Section Options.
Context {Spec Rng : Type} `{Sampler Spec Rng} `{Specs Spec}.
Abbreviation chain_t := (Ccmd.ccmd_t Spec).
Abbreviation node := (ccmd_node_t Spec).

(** the fields of the parsing phase; [ccmd] is a global, the default offsets too *)
Record arguments := Arguments_ {
  ccmd : chain_t;
  load_offset_pd : Spec;
  store_offset_pd : Spec;
  last_resp_size : Spec;
  reserved_fwd_replies : Queue.queue_t;
  last_reserved_used : option nat;
  fwd_scope : Z;
  branching_degree : Z;
  curr_forward_begin : option nat
}.

Definition set_ccmd (a : arguments) (c : chain_t) : arguments :=
  Arguments_ c (load_offset_pd a) (store_offset_pd a) (last_resp_size a) (reserved_fwd_replies a)
    (last_reserved_used a) (fwd_scope a) (branching_degree a) (curr_forward_begin a).
Definition set_offsets (a : arguments) (l s : Spec) : arguments :=
  Arguments_ (ccmd a) l s (last_resp_size a) (reserved_fwd_replies a)
    (last_reserved_used a) (fwd_scope a) (branching_degree a) (curr_forward_begin a).
Definition set_reserved (a : arguments) (q : Queue.queue_t) (used : option nat) (scope : Z)
    : arguments :=
  Arguments_ (ccmd a) (load_offset_pd a) (store_offset_pd a) (last_resp_size a) q
    used scope (branching_degree a) (curr_forward_begin a).
Definition set_branching (a : arguments) (degree : Z) (begin : option nat) : arguments :=
  Arguments_ (ccmd a) (load_offset_pd a) (store_offset_pd a) (last_resp_size a)
    (reserved_fwd_replies a) (last_reserved_used a) (fwd_scope a) degree begin.

(** ARGP_KEY_INIT; [junk] are the arrays of the two queues as malloc left them *)
Definition init (junk junk' : Z → node_t) : arguments :=
  Arguments_ (Ccmd.MkChain (Queue.queue_alloc 100 junk) ∅ 0) (pd_build_fixed (-1))
    (pd_build_fixed (-1)) (pd_build_fixed default_resp_size) (Queue.queue_alloc 100 junk')
    None 0 0 None.

(** ** Assignments through pointers *)

Definition update (a : arguments) (p : option nat) (f : node → node) : outcome arguments :=
  i ← deref p;
  n ← Ccmd.node_at (ccmd a) i;
  Ret (set_ccmd a (Ccmd.set_node (ccmd a) i (f n))).
Definition add (a : arguments) (c : command_type_t) (v : Spec) : outcome arguments :=
  s ← Ccmd.ccmd_add (ccmd a) c v; Ret (set_ccmd a s).
(** [ccmd_last(ccmd)->...] *)
Definition update_last (a : arguments) (f : node → node) : outcome arguments :=
  p ← Ccmd.ccmd_last (ccmd a); update a p f.
Definition last_cmd (a : arguments) : outcome command_type_t :=
  p ← Ccmd.ccmd_last (ccmd a); i ← deref p; n ← Ccmd.node_at (ccmd a) i; Ret (cmd n).

Definition with_store (n : node) (off : Spec) (sync dev : Z) : node :=
  MkCcmd (cmd n) (pd_val n) off (MkStore (store_offset (store n)) (store_nbytes (store n)) sync dev)
    (load n) (fwd n) (resp n) (n_skip n) (n_every n) (next n).
Definition with_load (n : node) (off : Spec) (dev : Z) : node :=
  MkCcmd (cmd n) (pd_val n) off (store n) (MkLoad (load_offset (load n)) (load_nbytes (load n)) dev)
    (fwd n) (resp n) (n_skip n) (n_every n) (next n).
Definition with_skip (n : node) (skip every : Z) : node :=
  MkCcmd (cmd n) (pd_val n) (pd_val2 n) (store n) (load n) (fwd n) (resp n) skip every (next n).
Definition with_resp (n : node) (mode dev : Z) : node :=
  MkCcmd (cmd n) (pd_val n) (pd_val2 n) (store n) (load n) (fwd n)
    (MkReply (resp_size (resp n)) mode dev) (n_skip n) (n_every n) (next n).
Definition with_val (n : node) (v : Spec) : node :=
  MkCcmd (cmd n) v (pd_val2 n) (store n) (load n) (fwd n) (resp n) (n_skip n) (n_every n) (next n).
Definition with_fwd (n : node) (c : command_type_t) (f : fwd_opts_t) : node :=
  MkCcmd c (pd_val n) (pd_val2 n) (store n) (load n) f (resp n) (n_skip n) (n_every n) (next n).

(** ** STORE_DATA, LOAD_DATA, SKIP_CMD *)

Inductive data_token :=
  | D_sync (sync : bool)
  | D_offset (v : option Spec)
  | D_size (v : option Spec)
  | D_dev (id : Z).

(** the value, the offset, the sync flag, the device; a LOAD takes [sync] for a
    size, which is refused; [dev_id] is a uint8_t, and the test of a STORE for
    [dev_id >= 0] is always true *)
Fixpoint data_tokens (is_store : bool) (l : list data_token) (val off : Spec) (sync dev : Z)
    : outcome (Spec * Spec * Z * Z) :=
  match l with
  | [] => Ret (val, off, sync, dev)
  | D_sync b :: l => _ ← check is_store; data_tokens is_store l val off (if b then 1 else 0) dev
  | D_offset None :: _ | D_size None :: _ => Stop CheckFailed
  | D_offset (Some v) :: l => data_tokens is_store l val v sync dev
  | D_size (Some v) :: l => data_tokens is_store l v off sync dev
  | D_dev id :: l =>
      let dev := u8 id in
      _ ← check (is_store || (0 <? dev));
      data_tokens is_store l val off sync dev
  end.

Definition store_data (a : arguments) (l : list data_token) : outcome arguments :=
  '(val, off, sync, dev) ← data_tokens true l pd_build_none (store_offset_pd a) 1 0;
  _ ← check (negb (pd_is_none val));
  a ← add a STORE val;
  update_last a (fun n => with_store n off sync dev).

Definition load_data (a : arguments) (l : list data_token) : outcome arguments :=
  '(val, off, _, dev) ← data_tokens false l pd_build_none (load_offset_pd a) 0 0;
  _ ← check (negb (pd_is_none val));
  a ← add a LOAD val;
  update_last a (fun n => with_load n off dev).

(** [K_prob v ok]: the specification with the probability read, and whether it is
    between 0 and 1 *)
Inductive skip_token := K_n (n : Z) | K_prob (v : Spec) (ok : bool) | K_every (n : Z) | K_wrong.

Fixpoint skip_tokens (l : list skip_token) (val : Spec) (skip every : Z) : outcome (Spec * Z * Z) :=
  match l with
  | [] => Ret (val, skip, every)
  | K_n n :: l => _ ← check (1 <=? n); skip_tokens l val n every
  | K_prob v ok :: l => _ ← check ok; skip_tokens l v skip every
  | K_every n :: l => _ ← check (1 <=? n); skip_tokens l val skip n
  | K_wrong :: _ => Stop CheckFailed
  end.

Definition skip_cmd (a : arguments) (l : list skip_token) : outcome arguments :=
  '(val, skip, every) ← skip_tokens l (pd_build_fixed 1) (-1) 1;
  _ ← check (negb (skip =? -1));
  a ← add a PSKIP val;
  update_last a (fun n => with_skip n skip every).

(** ** FORWARD_CMD *)

(** the timeout is the double read, converted to an integer; the address of a
    target is what addr_parse gives, or for DPDK the bytes of the MAC address,
    which share the place of host and port *)
Inductive fwd_token :=
  | F_retry (n : Z)
  | F_timeout (us : Z)
  | F_nack (n : Z)
  | F_branch
  | F_target (proto host port : Z).

(** the locals of the case *)
Record fwd_locals := FwdLocals {
  timeout_us : Z; retry_num : Z; nack : Z; is_branched : Z; multi_fwds : Z;
  fwd_itr_start : option nat
}.

(** closing the previous branch *)
Definition reserved_reply (a : arguments) : outcome Spec :=
  n ← Queue.node_of (reserved_fwd_replies a) (Queue.queue_tail (reserved_fwd_replies a));
  Ret (pd_build_fixed (Queue.key n)).
Definition close_branch (a : arguments) : outcome arguments :=
  if 0 <? branching_degree a then
    c ← last_cmd a;
    if bool_decide (c = REPLY) then Ret a
    else
      v ← reserved_reply a;
      a ← add a REPLY v;
      q ← Queue.queue_dequeue_tail (reserved_fwd_replies a);
      Ret (set_reserved a q (last_reserved_used a) (fwd_scope a))
  else Ret a.

Definition add_target (a : arguments) (x : fwd_locals) (proto host port : Z)
    : outcome (arguments * fwd_locals) :=
  a ← add a FORWARD_BEGIN (pd_build_fixed default_resp_size);
  last ← Ccmd.ccmd_last (ccmd a);
  let a := if (multi_fwds x =? 0) && (branching_degree a =? 0)
           then set_branching a (branching_degree a) last else a in
  let start := if multi_fwds x =? 0 then last else fwd_itr_start x in
  a ← update_last a (fun n =>
        let f := fwd n in
        with_fwd n (cmd n) (MkFwd (pkt_size f) host port (timeout f) (retries f) (n_ack f) 1
                              (branched f) proto));
  m ← int_ (multi_fwds x + 1);
  Ret (a, FwdLocals (timeout_us x) (retry_num x) (nack x) (is_branched x) m start).

Fixpoint fwd_tokens (l : list fwd_token) (a : arguments) (x : fwd_locals)
    : outcome (arguments * fwd_locals) :=
  match l with
  | [] => Ret (a, x)
  | F_retry n :: l =>
      fwd_tokens l a (FwdLocals (timeout_us x) n (nack x) (is_branched x) (multi_fwds x) (fwd_itr_start x))
  | F_timeout us :: l =>
      fwd_tokens l a (FwdLocals us (retry_num x) (nack x) (is_branched x) (multi_fwds x) (fwd_itr_start x))
  | F_nack n :: l =>
      fwd_tokens l a (FwdLocals (timeout_us x) (retry_num x) n (is_branched x) (multi_fwds x) (fwd_itr_start x))
  | F_branch :: l =>
      d ← int_ (branching_degree a + 1);
      fwd_tokens l (set_branching a d (curr_forward_begin a))
        (FwdLocals (timeout_us x) (retry_num x) (nack x) 1 (multi_fwds x) (fwd_itr_start x))
  | F_target p h pt :: l =>
      '(a, x) ← add_target a x p h pt;
      fwd_tokens l a x
  end.

(** the parameters of the forward: n_ack, timeout, retries, branched *)
Definition set_begin (n : node) (nack timeout_us retry_num branched : Z) : node :=
  let f := fwd n in
  with_fwd n (cmd n) (MkFwd (pkt_size f) (fwd_host f) (fwd_port f) (u32 timeout_us) (u8 retry_num)
    (u8 (n_ack f + nack)) (on_fail_skip f) branched (proto f)).
Definition set_continue (n : node) (branched : Z) : node :=
  let f := fwd n in
  with_fwd n FORWARD_CONTINUE (MkFwd (pkt_size f) (fwd_host f) (fwd_port f) (u32 (-1)) (u8 (-1))
    0 (on_fail_skip f) branched (proto f)).

(** the nodes of the chain from [itr] on become FORWARD_CONTINUE *)
Fixpoint continue_loop (fuel : nat) (a : arguments) (itr : option nat) (branched : Z)
    : outcome arguments :=
  match fuel, itr with
  | O, _ => Stop OutOfFuel
  | _, None => Ret a
  | S fuel, Some i =>
      n ← Ccmd.node_at (ccmd a) i;
      a ← update a itr (fun n => set_continue n branched);
      continue_loop fuel a (next n) branched
  end.

Definition end_forward (a : arguments) (x : fwd_locals) : outcome arguments :=
  let b := is_branched x in
  let nack := if (nack x <=? 0) || ((b =? 0) && (multi_fwds x <? nack x)) then multi_fwds x else nack x in
  let a := if b =? 0 then set_branching a 0 (fwd_itr_start x) else a in
  a ← (if branching_degree a <=? 1 then
         t ← int_ (timeout_us x);
         update a (curr_forward_begin a) (fun n => set_begin n nack t (retry_num x) b)
       else Ret a);
  itr ← (if bool_decide (fwd_itr_start x = curr_forward_begin a) then
           i ← deref (fwd_itr_start x);
           n ← Ccmd.node_at (ccmd a) i;
           Ret (next n)
         else Ret (fwd_itr_start x));
  a ← continue_loop (S (Ccmd.fresh (ccmd a))) a itr b;
  '(q, _) ← Queue.queue_enqueue (reserved_fwd_replies a) default_resp_size (d_ptr None);
  s ← int_ (fwd_scope a + 1);
  Ret (set_reserved a q (last_reserved_used a) s).

Definition forward_cmd (a : arguments) (l : list fwd_token) : outcome arguments :=
  a ← close_branch a;
  '(a, x) ← fwd_tokens l a (FwdLocals 10000000 0 (-1) 0 0 None);
  end_forward a x.

(** ** REPLY_CMD *)

Inductive reply_token := R_dev (id : Z) | R_sendfile | R_size (v : option Spec).

(** [val] is not initialised before a size is read *)
Fixpoint reply_tokens (l : list reply_token) (val : option Spec) (mode dev : Z)
    : outcome (option Spec * Z * Z) :=
  match l with
  | [] => Ret (val, mode, dev)
  | R_dev id :: l => _ ← check (0 <=? id); reply_tokens l val mode id
  | R_sendfile :: l => reply_tokens l val REPLY_MODE_SENDFILE dev
  | R_size None :: _ => Stop CheckFailed
  | R_size (Some v) :: l => reply_tokens l (Some v) mode dev
  end.

Definition add_reply (a : arguments) (v : Spec) (mode dev : Z) : outcome arguments :=
  a ← add a REPLY v; update_last a (fun n => with_resp n mode (u8 dev)).

(** [None]: the option without its argument *)
Definition reply_cmd (a : arguments) (arg : option (list reply_token)) : outcome arguments :=
  '(val, mode, dev) ← match arg with
                      | None => Ret (Some pd_build_none, REPLY_MODE_NORMAL, 0)
                      | Some l => reply_tokens l None REPLY_MODE_NORMAL 0
                      end;
  val ← deref val;
  let val := if pd_is_none val then pd_build_fixed default_resp_size else val in
  let val := clamp_reply val in
  if Queue.queue_size (Ccmd.cq (ccmd a)) <=? 0 then add_reply a val mode dev
  else if fwd_scope a <=? 0 then
    last ← Ccmd.ccmd_last (ccmd a);
    c ← last_cmd a;
    if bool_decide (c = REPLY) && negb (bool_decide (last = last_reserved_used a))
    then update_last a (fun n => with_val n val)
    else add_reply a val mode dev
  else
    q ← Queue.queue_dequeue_tail (reserved_fwd_replies a);
    a ← add_reply (set_reserved a q (last_reserved_used a) (fwd_scope a)) val mode dev;
    last ← Ccmd.ccmd_last (ccmd a);
    Ret (set_reserved a (reserved_fwd_replies a) last (fwd_scope a - 1)).

(** ** ARGP_KEY_END *)

(** [num_pkts] and the packets of a session, as unsigned longs *)
Definition round_pkts (num_pkts num_sessions : Z) (use_per_session_output : bool) : outcome (Z * Z) :=
  let s := u64 num_sessions in
  if s =? 0 then Stop UB
  else
    let n := u64 (u64 (u64 (num_pkts + s) - 1) / s * s) in
    let per := n / s in
    _ ← check (negb ((MAX_PKTS <? n) || (use_per_session_output && (MAX_PKTS <? per))));
    Ret (n, per).

(** the replies still due *)
Fixpoint exhaust (fuel : nat) (a : arguments) : outcome arguments :=
  match fuel with
  | O => Stop OutOfFuel
  | S fuel =>
      if (0 <? Queue.queue_size (reserved_fwd_replies a)) && (0 <? fwd_scope a) then
        v ← reserved_reply a;
        a ← add a REPLY v;
        q ← Queue.queue_dequeue_tail (reserved_fwd_replies a);
        last ← Ccmd.ccmd_last (ccmd a);
        exhaust fuel (set_reserved a q last (fwd_scope a - 1))
      else Ret a
  end.

(** the queue holds at most 100 entries *)
Definition exhaust_fuel : nat := 101.

Definition finish (a : arguments) : outcome arguments :=
  a ← exhaust exhaust_fuel a;
  _ ← check (Queue.queue_size (reserved_fwd_replies a) =? 0);
  last ← Ccmd.ccmd_last (ccmd a);
  if bool_decide (last = last_reserved_used a) then add a REPLY (last_resp_size a)
  else
    c ← last_cmd a;
    if bool_decide (c = REPLY) then Ret a else add a REPLY (last_resp_size a).

(** ** The command line *)

Inductive client_option :=
  | COMP_TIME (v : option Spec)
  | LOAD_OFFSET (v : option Spec)
  | STORE_OFFSET (v : option Spec)
  | STORE_DATA (l : list data_token)
  | LOAD_DATA (l : list data_token)
  | SKIP_CMD (l : list skip_token)
  | FORWARD_CMD (l : list fwd_token)
  | REPLY_CMD (arg : option (list reply_token)).

Definition parse_opt (a : arguments) (o : client_option) : outcome arguments :=
  match o with
  | COMP_TIME v => v ← match v with Some v => Ret v | None => Stop CheckFailed end; add a COMPUTE v
  | LOAD_OFFSET v =>
      v ← match v with Some v => Ret v | None => Stop CheckFailed end;
      Ret (set_offsets a v (store_offset_pd a))
  | STORE_OFFSET v =>
      v ← match v with Some v => Ret v | None => Stop CheckFailed end;
      Ret (set_offsets a (load_offset_pd a) v)
  | STORE_DATA l => store_data a l
  | LOAD_DATA l => load_data a l
  | SKIP_CMD l => skip_cmd a l
  | FORWARD_CMD l => forward_cmd a l
  | REPLY_CMD arg => reply_cmd a arg
  end.

Fixpoint parse_opts (a : arguments) (l : list client_option) : outcome arguments :=
  match l with
  | [] => Ret a
  | o :: l => a ← parse_opt a o; parse_opts a l
  end.

Definition parse (junk junk' : Z → node_t) (l : list client_option) : outcome arguments :=
  a ← parse_opts (init junk junk') l; finish a.

End Options.
Arguments arguments : clear implicits.
Arguments client_option : clear implicits.
Arguments data_token : clear implicits.
Arguments skip_token : clear implicits.
Arguments reply_token : clear implicits.

(** ** Specification: the shape of a program

    A cell is the type of a command with its number of acknowledgments. A
    program is one sequence of contexts or more, each ended by a REPLY (see
    [Message.contexts]); [shape d] are the commands added when [d] forwards
    wait for the REPLY that closes them. *)

#[local] Abbreviation cell := (command_type_t * Z)%type.

Inductive programs : list command_type_t → Prop :=
  | programs_nil : programs []
  | programs_snoc p c : programs p → contexts c → programs (p ++ c ++ [REPLY]).

Fixpoint shape (d : nat) (cs : list command_type_t) : Prop :=
  match d with
  | O => ∃ p c, cs = p ++ c ∧ programs p ∧ contexts c
  | S d => ∃ p k c, cs = p ++ FORWARD_BEGIN :: replicate k FORWARD_CONTINUE ++ c ∧
      shape d p ∧ contexts c
  end.

(** the FORWARD_CONTINUE at the front *)
Fixpoint continues (cs : list command_type_t) : Z :=
  match cs with
  | FORWARD_CONTINUE :: cs => 1 + continues cs
  | _ => 0
  end.

(** a forward waits for one of its targets at least, and for all at most *)
Fixpoint acks_ok (ns : list cell) : Prop :=
  match ns with
  | [] => True
  | (c, n) :: ns => (c = FORWARD_BEGIN → 1 ≤ n ≤ 1 + continues (fst <$> ns)) ∧ acks_ok ns
  end.

Section Shapes.
Implicit Types (cs c : list command_type_t) (ns : list cell) (d k : nat).

Lemma contexts_app c c' : contexts c → contexts c' → contexts (c ++ c').
Proof.
  intros Hc. induction Hc using contexts_min with
    (P := fun _ => True) (P0 := fun _ => True) (P1 := fun _ => True); try done.
  intros. rewrite <- app_assoc. constructor; auto.
Qed.

Lemma contexts_one c : context_of c → contexts c.
Proof. intros. rewrite <- (app_nil_r c). constructor; [done|constructor]. Qed.

Lemma shape_simple d cs t : simple t = true → shape d cs → shape d (cs ++ [t]).
Proof.
  intros Ht. assert (Hc : contexts [t]) by (by apply contexts_one; constructor). destruct d.
  - intros (p & c & -> & Hp & Hcs). exists p, (c ++ [t]).
    rewrite app_assoc. split_and!; [done..|by apply contexts_app].
  - intros (p & k & c & -> & Hp & Hcs). exists p, k, (c ++ [t]).
    split_and!; [|done|by apply contexts_app]. by rewrite <- !app_assoc, app_comm_cons, <- !app_assoc.
Qed.

Lemma shape_forward d cs k : shape d cs →
  shape (S d) (cs ++ FORWARD_BEGIN :: replicate k FORWARD_CONTINUE).
Proof. intros Hs. exists cs, k, []. rewrite app_nil_r. split_and!; [done..|constructor]. Qed.

Lemma branch_targets k c : contexts c → branch (replicate k FORWARD_CONTINUE ++ c).
Proof. intros Hc. induction k; cbn; by constructor. Qed.

(** a REPLY closes the innermost forward, or a program *)
Lemma shape_reply d cs : shape (S d) cs → shape d (cs ++ [REPLY]).
Proof.
  intros (p & k & c & -> & Hp & Hc).
  assert (Hx : contexts (FORWARD_BEGIN :: (replicate k FORWARD_CONTINUE ++ c) ++ [REPLY])).
  { apply contexts_one, ctx_forward, br_last, branch_targets, Hc. }
  rewrite <- app_assoc, <- app_comm_cons. destruct d.
  - destruct Hp as (p' & c' & -> & Hp & Hc'). eexists p', _. rewrite <- app_assoc.
    split_and!; [reflexivity|done|by apply contexts_app].
  - destruct Hp as (p' & k' & c' & -> & Hp & Hc'). eexists p', k', _.
    rewrite <- app_assoc, <- app_comm_cons, <- app_assoc.
    split_and!; [reflexivity|done|by apply contexts_app].
Qed.

Lemma shape_close cs : shape 0 cs → programs (cs ++ [REPLY]).
Proof. intros (p & c & -> & Hp & Hc). rewrite <- app_assoc. by constructor. Qed.

Lemma programs_shape cs : programs cs → shape 0 cs.
Proof. intros. exists cs, []. rewrite app_nil_r. split_and!; [done..|constructor]. Qed.

Lemma continues_nonneg cs : 0 ≤ continues cs.
Proof. induction cs as [|[] cs IH]; cbn [continues]; lia. Qed.

Lemma continues_app cs c : continues cs ≤ continues (cs ++ c).
Proof. induction cs as [|[] cs IH]; cbn [continues app]; try lia; apply continues_nonneg. Qed.

Lemma continues_replicate k : continues (replicate k FORWARD_CONTINUE) = Z.of_nat k.
Proof. induction k; cbn [continues replicate]; lia. Qed.

Lemma acks_ok_app ns ns' : acks_ok ns → acks_ok ns' → acks_ok (ns ++ ns').
Proof.
  induction ns as [|[c n] ns IH]; [done|]. cbn [app acks_ok]. intros [Hn Hs] Hs'.
  split; [|by apply IH]. intros Hc. rewrite fmap_app.
  pose proof (continues_app (fst <$> ns) (fst <$> ns')). specialize (Hn Hc). lia.
Qed.

Lemma acks_one t n : t ≠ FORWARD_BEGIN → acks_ok [(t, n)].
Proof. by split. Qed.

Lemma acks_forward k n : 1 ≤ n ≤ 1 + Z.of_nat k →
  acks_ok ((FORWARD_BEGIN, n) :: replicate k (FORWARD_CONTINUE, 0)).
Proof.
  intros Hn. split.
  - intros _. rewrite fmap_replicate. cbn [fst]. by rewrite continues_replicate.
  - clear Hn. induction k; cbn; by split.
Qed.
End Shapes.

(** ** The parsing state *)

Section Built.
Context {Spec Rng : Type} `{Sampler Spec Rng} `{Specs Spec}.
Implicit Types (a : arguments Spec) (l : list nat) (ns : list cell) (d : nat).

Definition sig (n : ccmd_node_t Spec) : cell := (cmd n, n_ack (fwd n)).
Definition cells (s : Ccmd.ccmd_t Spec) l : list (option cell) :=
  (fun i => sig <$> Ccmd.nodes s !! i) <$> l.

(** the [d] replies due *)
Record due (q : Queue.queue_t) (d : nat) : Prop := {
  due_wf : Queue.queue_wf q;
  due_cap : Queue.capacity q = 100;
  due_size : Queue.size q = Z.of_nat d;
  due_head : Queue.head q = 0
}.

(** the chain of [a] has the nodes [l] with the cells [ns], and [d] replies are
    reserved *)
Record built a l ns d : Prop := {
  b_chain : Ccmd.chain (ccmd a) l;
  b_cap : Queue.capacity (Ccmd.cq (ccmd a)) = 100;
  b_cells : cells (ccmd a) l = Some <$> ns;
  b_due : due (reserved_fwd_replies a) d
}.

Lemma built_length a l ns d : built a l ns d → length l = length ns.
Proof. intros Hb. pose proof (f_equal length (b_cells _ _ _ _ Hb)) as E. unfold cells in E. by rewrite !length_fmap in E. Qed.

Lemma built_size a l ns d : built a l ns d → Queue.size (Ccmd.cq (ccmd a)) = Z.of_nat (length ns).
Proof. intros Hb. rewrite <- (built_length _ _ _ _ Hb). apply Ccmd.chain_size, Hb. Qed.

(** another state with the same chain *)
Lemma built_ext a a' l ns d : built a l ns d → ccmd a' = ccmd a →
  reserved_fwd_replies a' = reserved_fwd_replies a → built a' l ns d.
Proof. intros [] E1 E2. split; congruence. Qed.

Lemma built_lookup a l ns d k i x : built a l ns d → l !! k = Some i → ns !! k = Some x →
  ∃ n, Ccmd.nodes (ccmd a) !! i = Some n ∧ sig n = x ∧ next n = l !! S k.
Proof.
  intros Hb Hi Hx. destruct (Ccmd.ch_linked _ _ (b_chain _ _ _ _ Hb) _ _ Hi) as (n & En & Enx).
  exists n. split; [done|]. split; [|done].
  pose proof (f_equal (lookup k) (b_cells _ _ _ _ Hb)) as E. unfold cells in E.
  rewrite !list_lookup_fmap, Hi, Hx in E. cbn in E. rewrite En in E. cbn in E. congruence.
Qed.

Lemma last_built a l ns d : built a l ns d → Ccmd.ccmd_last (ccmd a) = Ret (last l).
Proof. intros Hb. apply Ccmd.ccmd_last_chain, Hb. Qed.

Lemma add_built a l ns d c v : built a l ns d → (length ns < 100)%nat →
  ∃ s, add a c v = Ret (set_ccmd a s) ∧
    built (set_ccmd a s) (l ++ [Ccmd.fresh (ccmd a)]) (ns ++ [(c, 0)]) d.
Proof.
  intros Hb Hl. pose proof (built_size _ _ _ _ Hb) as Hs. pose proof Hb as [Hc Hcap Hcells ?].
  destruct (Ccmd.ccmd_add_room (ccmd a) l c v Hc) as (s & E & Hc' & Ecap & _ & En); [lia|].
  exists s. unfold add. rewrite E. split; [done|]. split; cbn [ccmd set_ccmd]; try done.
  - by rewrite Ecap.
  - unfold cells. rewrite En, (Ccmd.link_last_commands _ _ c v Hc _ sig) by done.
    fold (cells (ccmd a) l). rewrite Hcells, fmap_app. done.
Qed.

Lemma update_built a l ns d k i x y f : built a l ns d → l !! k = Some i → ns !! k = Some x →
  (∀ n, sig n = x → sig (f n) = y ∧ next (f n) = next n) →
  ∃ s, update a (Some i) f = Ret (set_ccmd a s) ∧ Ccmd.fresh s = Ccmd.fresh (ccmd a) ∧
    built (set_ccmd a s) l (<[k := y]> ns) d.
Proof.
  intros Hb Hi Hx Hf. destruct (built_lookup _ _ _ _ _ _ _ Hb Hi Hx) as (n & En & Es & _).
  destruct (Hf n Es) as [Ey Enx]. unfold update, Ccmd.node_at. obind. rewrite En. obind.
  eexists. split; [done|]. split; [done|].
  pose proof Hb as [Hc ? Hcells ?]. pose proof Hc as [Hq Hcont Hlink Hnd Hfr].
  split; cbn [ccmd set_ccmd]; try done.
  - split; cbn; try done. intros k' j Hj. destruct (decide (j = i)) as [->|Hne].
    + rewrite lookup_insert_eq. eexists. split; [done|]. rewrite Enx.
      destruct (Hlink _ _ Hj) as (n' & En' & E). congruence.
    + rewrite lookup_insert_ne by done. by apply Hlink.
  - apply list_eq. intros k'. rewrite list_lookup_fmap.
    pose proof (f_equal (lookup k') Hcells) as E. unfold cells in *.
    rewrite !list_lookup_fmap in *. cbn [Ccmd.set_node Ccmd.nodes].
    destruct (decide (k' = k)) as [->|Hne].
    + rewrite Hi. cbn. rewrite lookup_insert_eq. cbn. rewrite Ey.
      rewrite list_lookup_insert_eq; [done|]. by eapply lookup_lt_Some.
    + rewrite list_lookup_insert_ne by done. rewrite <- E.
      destruct (l !! k') as [j|] eqn:Ej; [|done]. cbn. rewrite lookup_insert_ne; [done|].
      intros <-. by eapply Hne, NoDup_lookup.
Qed.

Lemma update_last_built a l ns d i x y f : built a (l ++ [i]) (ns ++ [x]) d →
  (∀ n, sig n = x → sig (f n) = y ∧ next (f n) = next n) →
  ∃ s, update_last a f = Ret (set_ccmd a s) ∧ built (set_ccmd a s) (l ++ [i]) (ns ++ [y]) d.
Proof.
  intros Hb Hf. pose proof (built_length _ _ _ _ Hb) as Hl. rewrite !length_app in Hl. cbn in Hl.
  destruct (update_built a _ _ d (length ns) i x y f Hb) as (s & E & _ & Hb'); try done.
  - by rewrite lookup_app_r, (proj2 (Nat.sub_0_le _ _)) by lia.
  - by rewrite lookup_app_r, Nat.sub_diag by lia.
  - exists s. unfold update_last. rewrite (last_built _ _ _ _ Hb), last_snoc. obind.
    split; [done|]. rewrite insert_app_r_alt, Nat.sub_diag in Hb' by lia. done.
Qed.

(** a command with its options *)
Lemma add_update_built a l ns d c v f : built a l ns d → (length ns < 100)%nat →
  (∀ n, sig (f n) = sig n ∧ next (f n) = next n) →
  ∃ s, (a ← add a c v; update_last a f) = Ret (set_ccmd a s) ∧
    built (set_ccmd a s) (l ++ [Ccmd.fresh (ccmd a)]) (ns ++ [(c, 0)]) d.
Proof.
  intros Hb Hl Hf. destruct (add_built a l ns d c v Hb Hl) as (s & -> & Hb1). obind.
  destruct (update_last_built _ _ _ _ _ _ (c, 0) f Hb1) as (s' & -> & Hb2).
  { intros n <-. apply Hf. }
  by exists s'.
Qed.

Lemma last_cmd_built a l ns d c : built a l ns d → last (fst <$> ns) = Some c →
  last_cmd a = Ret c.
Proof.
  intros Hb Hlast. unfold last_cmd. rewrite (last_built _ _ _ _ Hb). obind.
  pose proof (built_length _ _ _ _ Hb) as Hl. rewrite fmap_last in Hlast.
  destruct (last ns) as [x|] eqn:Ex; [|done]. injection Hlast as <-.
  rewrite last_lookup in Ex. rewrite last_lookup, Hl.
  destruct (lookup_lt_is_Some_2 l (pred (length ns))) as [i Hi].
  { apply lookup_lt_Some in Ex. lia. }
  rewrite Hi. obind. destruct (built_lookup _ _ _ _ _ _ _ Hb Hi Ex) as (n & En & <- & _).
  unfold Ccmd.node_at. rewrite En. done.
Qed.

Lemma due_tail q d : due q (S d) → Queue.tail q = Z.of_nat d.
Proof.
  intros [Hwf Hc Hs Hh]. pose proof (Queue.wf_link _ Hwf) as E. pose proof (Queue.wf_tail _ Hwf).
  pose proof (Queue.wf_tail_pos _ Hwf). pose proof (Queue.wf_size _ Hwf).
  rewrite Hc, Hs, ?Hh in *. Z.to_euclidean_division_equations. lia.
Qed.

Lemma due_alloc junk : due (Queue.queue_alloc 100 junk) 0.
Proof. split; [by apply Queue.alloc_wf|reflexivity..]. Qed.

Lemma due_push q d k x : due q d → (d < 100)%nat →
  ∃ q' p, Queue.queue_enqueue q k x = Ret (q', p) ∧ due q' (S d).
Proof.
  intros [Hwf Hc Hs Hh] Hd.
  destruct (Queue.enqueue_ok q k x Hwf) as (q' & E & Hwf' & Ec & Ecap & Eh); [lia|].
  eexists q', _. split; [exact E|]. split; [done|congruence| |congruence].
  rewrite <- Queue.contents_length, Ec, length_app by done. cbn [length].
  pose proof (Queue.contents_length q Hwf). lia.
Qed.

Lemma due_pop q d : due q (S d) → ∃ q', Queue.queue_dequeue_tail q = Ret q' ∧ due q' d.
Proof.
  intros Hdue. pose proof (due_tail _ _ Hdue) as Ht. destruct Hdue as [Hwf Hc Hs Hh].
  destruct (Queue.dequeue_tail_step q Hwf) as (q' & E & Hwf' & Ec & Eh & Es & _); [lia..|].
  exists q'. split; [done|]. split; [done|congruence|lia|congruence].
Qed.

Lemma due_node q d : due q (S d) → ∃ n, Queue.node_of q (Queue.queue_tail q) = Ret n.
Proof. intros [Hwf Hc Hs Hh]. eexists. apply Queue.node_of_tail; [done|lia]. Qed.

End Built.

(** ** Command lines without branches *)

Section Valid.
Context {Spec : Type} `{Specs Spec}.

(** the tokens that pass the tests, with at least one of those required *)
Definition valid_data (is_store : bool) (l : list (data_token Spec)) : Prop :=
  Forall (fun t => match t with
    | D_sync _ => is_store = true
    | D_offset v => is_Some v
    | D_size v => ∃ s, v = Some s ∧ pd_is_none s = false
    | D_dev id => is_store = true ∨ 0 < u8 id
    end) l ∧ Exists (fun t => ∃ v, t = D_size v) l.
Definition valid_skip (l : list (skip_token Spec)) : Prop :=
  Forall (fun t => match t with
    | K_n n | K_every n => 1 ≤ n
    | K_prob _ ok => ok = true
    | K_wrong => False
    end) l ∧ Exists (fun t => ∃ n, t = K_n n) l.
Definition is_target (t : fwd_token) : bool :=
  match t with F_target _ _ _ => true | _ => false end.
Definition targets (l : list fwd_token) : nat := length (filter is_target l).
Definition valid_fwd (l : list fwd_token) : Prop :=
  Forall (fun t => match t with F_branch => False | F_timeout us => is_int us | _ => True end) l ∧
  (0 < targets l)%nat.
Definition valid_reply (l : list (reply_token Spec)) : Prop :=
  Forall (fun t => match t with
    | R_dev id => 0 ≤ id
    | R_sendfile => True
    | R_size v => is_Some v
    end) l ∧ Exists (fun t => ∃ v, t = R_size v) l.
Definition valid (o : client_option Spec) : Prop :=
  match o with
  | COMP_TIME v | LOAD_OFFSET v | STORE_OFFSET v => is_Some v
  | STORE_DATA l => valid_data true l
  | LOAD_DATA l => valid_data false l
  | SKIP_CMD l => valid_skip l
  | FORWARD_CMD l => valid_fwd l
  | REPLY_CMD arg => match arg with Some l => valid_reply l | None => True end
  end.

(** the commands an option adds, with the REPLY of a forward *)
Definition cost (o : client_option Spec) : nat :=
  match o with
  | LOAD_OFFSET _ | STORE_OFFSET _ => 0
  | FORWARD_CMD l => S (targets l)
  | _ => 1
  end.

Lemma data_tokens_valid b l val off sync dev : valid_data b l →
  ∃ val' off' sync' dev', data_tokens b l val off sync dev = Ret (val', off', sync', dev') ∧
    pd_is_none val' = false.
Proof.
  intros [Hf He]. revert val off sync dev.
  assert (G : ∀ val off sync dev, pd_is_none val = false ∨ Exists (fun t => ∃ v, t = D_size v) l →
    ∃ val' off' sync' dev', data_tokens b l val off sync dev = Ret (val', off', sync', dev') ∧
    pd_is_none val' = false); [|by auto]. clear He.
  induction Hf as [|t l Ht Hf IH]; intros val off sync dev Hv.
  { destruct Hv as [Hv|Hv%Exists_nil]; [by eauto 10|done]. }
  assert (Hv' : (∃ v, t = D_size v) ∨ pd_is_none val = false ∨ Exists (fun t => ∃ v, t = D_size v) l).
  { destruct Hv as [|[|]%Exists_cons]; auto. }
  destruct t as [s|v|v|id]; cbn [data_tokens].
  - subst b. cbn [check]. obind. apply IH. by destruct Hv' as [[]|].
  - destruct Ht as [v' ->]. apply IH. by destruct Hv' as [[]|].
  - destruct Ht as (v' & -> & Hn). apply IH. by left.
  - assert (E : b || (0 <? u8 id) = true) by (destruct Ht as [->|]; [done|destruct b; [done|lia]]).
    unfold check. rewrite E. obind. apply IH. by destruct Hv' as [[]|].
Qed.

Lemma skip_tokens_valid l val skip every : valid_skip l →
  ∃ val' skip' every', skip_tokens l val skip every = Ret (val', skip', every') ∧ 1 ≤ skip'.
Proof.
  intros [Hf He]. revert val skip every.
  assert (G : ∀ val skip every, 1 ≤ skip ∨ Exists (fun t => ∃ n, t = K_n n) l →
    ∃ val' skip' every', skip_tokens l val skip every = Ret (val', skip', every') ∧ 1 ≤ skip');
    [|by auto]. clear He.
  induction Hf as [|t l Ht Hf IH]; intros val skip every Hv.
  { destruct Hv as [Hv|Hv%Exists_nil]; [by eauto 10|done]. }
  assert (Hv' : (∃ n, t = K_n n) ∨ 1 ≤ skip ∨ Exists (fun t => ∃ n, t = K_n n) l).
  { destruct Hv as [|[|]%Exists_cons]; auto. }
  destruct t as [n|v ok|n|]; cbn [skip_tokens]; unfold check; [..|done].
  - rewrite (proj2 (Z.leb_le 1 n) Ht). obind. apply IH. by left.
  - rewrite Ht. obind. apply IH. by destruct Hv' as [[]|].
  - rewrite (proj2 (Z.leb_le 1 n) Ht). obind. apply IH. by destruct Hv' as [[]|].
Qed.

Lemma reply_tokens_valid l val mode dev : valid_reply l →
  ∃ v mode' dev', reply_tokens l val mode dev = Ret (Some v, mode', dev').
Proof.
  intros [Hf He]. revert val mode dev.
  assert (G : ∀ val mode dev, is_Some val ∨ Exists (fun t => ∃ v, t = R_size v) l →
    ∃ v mode' dev', reply_tokens l val mode dev = Ret (Some v, mode', dev')); [|by auto]. clear He.
  induction Hf as [|t l Ht Hf IH]; intros val mode dev Hv.
  { destruct Hv as [[v ->]|Hv%Exists_nil]; [by eexists _, _, _|done]. }
  assert (Hv' : (∃ v, t = R_size v) ∨ is_Some val ∨ Exists (fun t => ∃ v, t = R_size v) l).
  { destruct Hv as [|[|]%Exists_cons]; auto. }
  destruct t as [id| |v]; cbn [reply_tokens].
  - unfold check. rewrite (proj2 (Z.leb_le 0 id) Ht). obind. apply IH. by destruct Hv' as [[]|].
  - apply IH. by destruct Hv' as [[]|].
  - destruct Ht as [v' ->]. apply IH. left. by eexists.
Qed.
End Valid.

Section Forward.
Context {Spec Rng : Type} `{Sampler Spec Rng} `{Specs Spec}.
Implicit Types (a : arguments Spec) (l ks : list nat) (ns : list cell) (d k m : nat) (x : fwd_locals).

Lemma add_target_built a l ns d x p h pt : built a l ns d → (length ns < 100)%nat →
  is_int (multi_fwds x + 1) → ∃ a' i,
  add_target a x p h pt = Ret (a', FwdLocals (timeout_us x) (retry_num x) (nack x) (is_branched x)
    (multi_fwds x + 1) (if multi_fwds x =? 0 then Some i else fwd_itr_start x)) ∧
  built a' (l ++ [i]) (ns ++ [(FORWARD_BEGIN, 0)]) d ∧ fwd_scope a' = fwd_scope a.
Proof.
  intros Hb Hl Hm. unfold add_target.
  destruct (add_built a l ns d FORWARD_BEGIN (pd_build_fixed default_resp_size) Hb Hl) as (s & -> & Hb1).
  obind. rewrite (last_built _ _ _ _ Hb1), last_snoc. obind.
  set (a1 := if _ && _ then _ else _).
  assert (Hb2 : built a1 (l ++ [Ccmd.fresh (ccmd a)]) (ns ++ [(FORWARD_BEGIN, 0)]) d ∧ fwd_scope a1 = fwd_scope a).
  { unfold a1. destruct (_ && _); (split; [|done]); by apply (built_ext (set_ccmd a s)). }
  destruct Hb2 as [Hb2 Hsame].
  match goal with |- context [update_last a1 ?f] =>
    destruct (update_last_built a1 _ _ d _ _ (FORWARD_BEGIN, 0) f Hb2) as (s' & -> & Hb3) end.
  { by intros n <-. }
  obind. rewrite int_ok by done. obind. eexists _, _. split; [reflexivity|]. by split.
Qed.

Lemma targets_cons t ts : targets (t :: ts) = ((if is_target t then 1 else 0) + targets ts)%nat.
Proof. unfold targets. rewrite filter_cons. by destruct t. Qed.

Lemma fwd_tokens_built ts a l ns d x : built a l ns d →
  Forall (fun t => match t with F_branch => False | F_timeout us => is_int us | _ => True end) ts →
  (length ns + targets ts ≤ 100)%nat → is_int (timeout_us x) → 0 ≤ multi_fwds x →
  multi_fwds x + Z.of_nat (targets ts) < 2 ^ 31 →
  ∃ a' x' ks, fwd_tokens ts a x = Ret (a', x') ∧
    built a' (l ++ ks) (ns ++ replicate (targets ts) (FORWARD_BEGIN, 0)) d ∧ fwd_scope a' = fwd_scope a ∧
    is_int (timeout_us x') ∧ is_branched x' = is_branched x ∧
    multi_fwds x' = multi_fwds x + Z.of_nat (targets ts) ∧
    fwd_itr_start x' = (if multi_fwds x =? 0
                        then match ks with i :: _ => Some i | [] => fwd_itr_start x end
                        else fwd_itr_start x) ∧ length ks = targets ts.
Proof.
  intros Hb Hts. revert a l ns x Hb. induction Hts as [|t ts Ht Hts IH]; intros a l ns x Hb Hn Hi Hm0 Hm.
  { exists a, x, []. rewrite !app_nil_r. cbn. rewrite Z.add_0_r.
    split_and!; try done. by destruct (_ =? _). }
  rewrite targets_cons in *. destruct t as [n|us|n| |p h pt]; cbn [fwd_tokens is_target] in *; try done;
    try (match goal with |- context [fwd_tokens ts a ?y] => apply (IH a l ns y) end;
         cbn; (done || lia)).
  destruct (add_target_built a l ns d x p h pt Hb) as (a1 & i & -> & Hb1 & Hs1);
    [lia|unfold is_int; lia|]. obind.
  match goal with |- context [fwd_tokens ts a1 ?x1] =>
    destruct (IH a1 _ _ x1 Hb1) as (a' & x' & ks & -> & Hb' & Hs' & Hi' & Eb & Em & Es & Ek) end;
    cbn [timeout_us multi_fwds is_branched fwd_itr_start] in *;
    [rewrite length_app; cbn; lia|done|lia|lia|].
  exists a', x', (i :: ks). split; [done|].
  rewrite <- !app_assoc in Hb'. cbn [app] in Hb'. split; [exact Hb'|].
  split; [congruence|]. split; [done|]. split; [done|].
  split; [lia|]. split; [|cbn; lia].
  rewrite Es. rewrite (proj2 (Z.eqb_neq (multi_fwds x + 1) 0)) by lia. done.
Qed.

(** the loop turns what follows a position into FORWARD_CONTINUE *)
Lemma continue_loop_built fuel a l ns d k b : built a l ns d → (length ns - k < fuel)%nat →
  (k ≤ length ns)%nat →
  ∃ s, continue_loop fuel a (l !! k) b = Ret (set_ccmd a s) ∧
    built (set_ccmd a s) l (take k ns ++ replicate (length ns - k) (FORWARD_CONTINUE, 0)) d.
Proof.
  revert a ns k. induction fuel as [|fuel IH]; intros a ns k Hb Hf Hk; [lia|].
  pose proof (built_length _ _ _ _ Hb) as Hl. cbn [continue_loop].
  destruct (l !! k) as [i|] eqn:Ei; cycle 1.
  { apply lookup_ge_None in Ei. exists (ccmd a).
    replace (length ns - k)%nat with O by lia. rewrite take_ge, app_nil_r by lia. by destruct a. }
  pose proof (lookup_lt_Some _ _ _ Ei) as Hlt.
  destruct (lookup_lt_is_Some_2 ns k) as [x Ex]; [lia|].
  destruct (built_lookup _ _ _ _ _ _ _ Hb Ei Ex) as (n & En & _ & Enx).
  unfold Ccmd.node_at. rewrite En. obind.
  destruct (update_built a l ns d k i x (FORWARD_CONTINUE, 0) (fun n => set_continue n b) Hb Ei Ex)
    as (s & -> & _ & Hb1); [by intros|]. obind. rewrite Enx.
  destruct (IH _ _ (S k) Hb1) as (s' & -> & Hb2); [rewrite length_insert; lia|rewrite length_insert; lia|].
  exists s'. split; [done|]. rewrite length_insert in Hb2.
  rewrite (take_S_r _ _ (FORWARD_CONTINUE, 0)) in Hb2 by (rewrite list_lookup_insert_eq; [done|lia]).
  rewrite take_insert_ge, <- app_assoc in Hb2 by lia.
  replace (length ns - k)%nat with (S (length ns - S k)) by lia. exact Hb2.
Qed.

Lemma chain_fresh (s : Ccmd.ccmd_t Spec) l : Ccmd.chain s l → (length l ≤ Ccmd.fresh s)%nat.
Proof.
  intros Hc. rewrite <- (length_seq (Ccmd.fresh s) 0). apply submseteq_length, NoDup_submseteq.
  - apply Hc.
  - intros i Hi%(Ccmd.ch_fresh _ _ Hc). apply elem_of_seq. lia.
Qed.
(** the number of acknowledgments when it is not given, or not usable *)
Definition ack_count (given targets : Z) : Z :=
  if (given <=? 0) || (targets <? given) then targets else given.

Lemma acks_range (given z : Z) : 1 ≤ z → 1 ≤ ack_count given z ≤ z.
Proof. intros. unfold ack_count. destruct (_ || _) eqn:E; lia. Qed.

Lemma set_begin_built a l i ks ns d m n t r b : built a (l ++ i :: ks) (ns ++ replicate (S m) (FORWARD_BEGIN, 0)) d →
  length l = length ns → 0 ≤ n < 256 →
  ∃ s n1, update a (Some i) (fun y => set_begin y n t r b) = Ret (set_ccmd a s) ∧
    built (set_ccmd a s) (l ++ i :: ks) (ns ++ (FORWARD_BEGIN, n) :: replicate m (FORWARD_BEGIN, 0)) d ∧
    Ccmd.nodes (ccmd (set_ccmd a s)) !! i = Some n1 ∧ next n1 = (l ++ i :: ks) !! S (length ns).
Proof.
  intros Hb Hl Hn.
  assert (Hi : (l ++ i :: ks) !! length ns = Some i) by by rewrite lookup_app_r, Hl, Nat.sub_diag by lia.
  destruct (update_built a _ _ d (length ns) i (FORWARD_BEGIN, 0) (FORWARD_BEGIN, n)
    (fun y => set_begin y n t r b) Hb) as (s & -> & _ & Hb1); [done|..].
  { by rewrite lookup_app_r, Nat.sub_diag by lia. }
  { intros y [= E1 E2]. split; [|done]. unfold sig. cbn. rewrite E1, E2. f_equal.
    unfold u8. rewrite Z.mod_small; lia. }
  rewrite insert_app_r_alt, Nat.sub_diag in Hb1 by lia. cbn [replicate insert list_insert] in Hb1.
  destruct (built_lookup _ _ _ _ (length ns) i (FORWARD_BEGIN, n) Hb1) as (n1 & En1 & _ & Enx); [done|..].
  { by rewrite lookup_app_r, Nat.sub_diag by lia. }
  by exists s, n1.
Qed.

Lemma end_forward_built a l i ks ns d m x : built a (l ++ i :: ks) (ns ++ replicate (S m) (FORWARD_BEGIN, 0)) d →
  length l = length ns → (d < 100)%nat → (S m ≤ 100)%nat → is_int (timeout_us x) →
  is_branched x = 0 → multi_fwds x = Z.of_nat (S m) → fwd_itr_start x = Some i →
  fwd_scope a = Z.of_nat d →
  ∃ a', end_forward a x = Ret a' ∧ fwd_scope a' = Z.of_nat (S d) ∧ branching_degree a' = 0 ∧
    built a' (l ++ i :: ks) (ns ++ (FORWARD_BEGIN, ack_count (nack x) (Z.of_nat (S m))) ::
                               replicate m (FORWARD_CONTINUE, 0)) (S d).
Proof.
  intros Hb Hl Hd Hm Hi Eb Em Es Hsc. unfold end_forward. rewrite Eb, Em, Es. cbn [Z.eqb andb].
  fold (ack_count (nack x) (Z.of_nat (S m))). set (n := ack_count _ _).
  assert (Hn : 1 ≤ n ≤ Z.of_nat (S m)) by (apply acks_range; lia).
  change (branching_degree (set_branching a 0 (Some i)) <=? 1) with true. cbv iota.
  rewrite int_ok by done. obind. cbn [curr_forward_begin set_branching].
  assert (Hb0 : built (set_branching a 0 (Some i)) (l ++ i :: ks) (ns ++ replicate (S m) (FORWARD_BEGIN, 0)) d).
  { by apply (built_ext a). }
  destruct (set_begin_built _ l i ks ns d m n (timeout_us x) (retry_num x) 0 Hb0)
    as (s & n1 & -> & Hb1 & En1 & Enx); [done|lia|].
  obind. rewrite bool_decide_true by done. obind.
  unfold Ccmd.node_at. rewrite En1. obind. rewrite Enx.
  pose proof (chain_fresh _ _ (b_chain _ _ _ _ Hb1)). pose proof (built_length _ _ _ _ Hb1).
  match goal with |- context [continue_loop ?f ?a1 _ _] =>
    destruct (continue_loop_built f a1 _ _ d (S (length ns)) 0 Hb1) as (s' & -> & Hb2) end;
    [cbn in *; lia|rewrite length_app; cbn; lia|].
  obind. cbn [reserved_fwd_replies set_ccmd set_branching fwd_scope].
  destruct (due_push (reserved_fwd_replies a) d default_resp_size (d_ptr None) (b_due _ _ _ _ Hb) Hd)
    as (q & p & -> & Hq). obind.
  rewrite Hsc, int_ok by (unfold is_int; lia). obind.
  eexists. split; [reflexivity|]. split; [cbn; lia|]. split; [done|].
  rewrite length_app, take_app_ge in Hb2 by lia. cbn [length] in Hb2.
  rewrite length_replicate, Nat.sub_succ_l, Nat.sub_diag, <- app_assoc in Hb2 by lia.
  replace (length ns + S m - S (length ns))%nat with m in Hb2 by lia. cbn [take app] in Hb2.
  destruct Hb2. by split.
Qed.

Lemma forward_cmd_built a l ns d ts : built a l ns d → valid_fwd ts →
  (length ns + targets ts < 100)%nat → (d < 100)%nat → fwd_scope a = Z.of_nat d →
  branching_degree a = 0 →
  ∃ a' i ks n m, forward_cmd a ts = Ret a' ∧ fwd_scope a' = Z.of_nat (S d) ∧
    branching_degree a' = 0 ∧ targets ts = S m ∧
    1 ≤ n ≤ Z.of_nat (S m) ∧
    built a' (l ++ i :: ks) (ns ++ (FORWARD_BEGIN, n) :: replicate m (FORWARD_CONTINUE, 0)) (S d).
Proof.
  intros Hb [Hts Ht] Hn Hd Hsc Hdeg. unfold forward_cmd, close_branch.
  rewrite Hdeg. cbn [Z.ltb Z.compare]. obind.
  destruct (fwd_tokens_built ts a l ns d (FwdLocals 10000000 0 (-1) 0 0 None) Hb Hts)
    as (a1 & x & ks & -> & Hb1 & Hs1 & Hi & Eb & Em & Es & Ek); cbn; [lia|unfold is_int; lia|lia..|].
  obind. cbn in Eb, Em, Es. destruct (targets ts) as [|m] eqn:Em'; [lia|].
  destruct ks as [|i ks]; [done|].
  destruct (end_forward_built a1 l i ks ns d m x Hb1) as (a' & -> & Hs' & Hdeg' & Hb'); try (done || lia || congruence).
  { by apply built_length in Hb. }
  exists a', i, ks, (ack_count (nack x) (Z.of_nat (S m))), m.
  pose proof (acks_range (nack x) (Z.of_nat (S m)) ltac:(lia)). split_and!; (done || lia).
Qed.
End Forward.

Section Program.
Context {Spec Rng : Type} `{Sampler Spec Rng} `{Specs Spec}.
Implicit Types (a : arguments Spec) (l : list nat) (ns : list cell) (d : nat).

(** a REPLY at the end of the chain closes a forward, and is the last reserved
    one, or ends a program *)
Record grown a l ns d : Prop := {
  g_built : built a l ns d;
  g_scope : fwd_scope a = Z.of_nat d;
  g_degree : branching_degree a = 0;
  g_shape : shape d (fst <$> ns);
  g_acks : acks_ok ns;
  g_used : last_reserved_used a = None ∨ l ≠ [];
  g_reply : last (fst <$> ns) = Some REPLY →
    last l = last_reserved_used a ∨ (d = O ∧ programs (fst <$> ns))
}.

Lemma shape_depth d cs : shape d cs → (d ≤ length cs)%nat.
Proof.
  revert cs. induction d as [|d IH]; intros cs; [lia|].
  intros (p & k & c & -> & Hp%IH & _). rewrite length_app. cbn. lia.
Qed.

Lemma grown_depth a l ns d : grown a l ns d → (d ≤ length ns)%nat.
Proof. intros Hg. pose proof (shape_depth _ _ (g_shape _ _ _ _ Hg)) as E. by rewrite length_fmap in E. Qed.

Lemma grown_simple a a' l ns d i c : grown a l ns d → simple c = true →
  built a' (l ++ [i]) (ns ++ [(c, 0)]) d → fwd_scope a' = Z.of_nat d →
  branching_degree a' = 0 →
  grown a' (l ++ [i]) (ns ++ [(c, 0)]) d.
Proof.
  intros [_ _ _ Hs Ha Hu Hr] Hc Hb E Ed. split; [done|done|done|..].
  - rewrite fmap_app. by apply shape_simple.
  - apply acks_ok_app; [done|]. apply acks_one. by destruct c.
  - right. by destruct l.
  - rewrite fmap_last, last_snoc. by intros [= ->].
Qed.

(** a REPLY that closes a forward *)
Lemma grown_due a a' l ns d i : grown a l ns (S d) →
  built a' (l ++ [i]) (ns ++ [(REPLY, 0)]) d → fwd_scope a' = Z.of_nat d →
  branching_degree a' = 0 →
  last_reserved_used a' = Some i →
  grown a' (l ++ [i]) (ns ++ [(REPLY, 0)]) d.
Proof.
  intros [_ _ _ Hs Ha Hu Hr] Hb Hsc Hd E. split; [done|done|done|..].
  - rewrite fmap_app. by apply shape_reply.
  - apply acks_ok_app; [done|]. by apply acks_one.
  - right. by destruct l.
  - intros _. left. by rewrite last_snoc.
Qed.

(** a REPLY that ends a program *)
Lemma grown_end a a' l ns i : grown a l ns 0 →
  built a' (l ++ [i]) (ns ++ [(REPLY, 0)]) 0 → fwd_scope a' = 0 →
  branching_degree a' = 0 →
  grown a' (l ++ [i]) (ns ++ [(REPLY, 0)]) 0 ∧ programs (fst <$> ns ++ [(REPLY, 0)]).
Proof.
  intros [_ _ _ Hs Ha Hu Hr] Hb Hsc Hd. assert (Hp : programs (fst <$> ns ++ [(REPLY, 0)])).
  { rewrite fmap_app. by apply shape_close. }
  split; [|done]. split; [done|done|done|by apply programs_shape|..].
  - apply acks_ok_app; [done|]. by apply acks_one.
  - right. by destruct l.
  - auto.
Qed.

Lemma grown_forward a a' l ns d i ks n m : grown a l ns d →
  built a' (l ++ i :: ks) (ns ++ (FORWARD_BEGIN, n) :: replicate m (FORWARD_CONTINUE, 0)) (S d) →
  fwd_scope a' = Z.of_nat (S d) →
  branching_degree a' = 0 → 1 ≤ n ≤ Z.of_nat (S m) →
  grown a' (l ++ i :: ks) (ns ++ (FORWARD_BEGIN, n) :: replicate m (FORWARD_CONTINUE, 0)) (S d).
Proof.
  intros [_ _ _ Hs Ha Hu Hr] Hb Hsc Hd Hn. split; [done|done|done|..].
  - rewrite fmap_app, fmap_cons, fmap_replicate. by apply shape_forward.
  - apply acks_ok_app; [done|]. apply acks_forward. lia.
  - right. by destruct l.
  - rewrite fmap_last, last_app_cons. destruct m as [|m]; [done|].
    by rewrite replicate_S_end, app_comm_cons, last_snoc.
Qed.

(** what an option leaves: the chain has grown by [c] commands at most, the
    REPLY of each forward included *)
Definition step_to (o : outcome (arguments Spec)) (room : nat) : Prop :=
  ∃ a' l' ns' d', o = Ret a' ∧ grown a' l' ns' d' ∧ (length ns' + d' ≤ room)%nat.

Lemma simple_step a l ns d c v f : grown a l ns d → simple c = true → (length ns < 100)%nat →
  (∀ n, sig (f n) = sig n ∧ next (f n) = next n) →
  step_to (a ← add a c v; update_last a f) (length ns + d + 1).
Proof.
  intros Hg Hc Hl Hf. destruct (add_update_built a l ns d c v f (g_built _ _ _ _ Hg) Hl Hf) as (s & -> & Hb).
  eexists _, _, _, d. split; [reflexivity|].
  split; [apply (grown_simple a); [done|done|done|apply Hg..]|rewrite length_app; cbn; lia].
Qed.

Lemma forward_step a l ns d ts : grown a l ns d → valid_fwd ts → (length ns + targets ts < 100)%nat →
  step_to (forward_cmd a ts) (length ns + d + S (targets ts)).
Proof.
  intros Hg Hts Hn. pose proof (grown_depth _ _ _ _ Hg). destruct Hts as [Ht1 Ht2].
  destruct (forward_cmd_built a l ns d ts (g_built _ _ _ _ Hg) (conj Ht1 Ht2) Hn)
    as (a' & i & ks & n & m & -> & Hsc & Hd & Em & Hn' & Hb); [lia|apply Hg..|].
  eexists _, _, _, (S d). split; [reflexivity|].
  split; [by apply (grown_forward a)|].
  rewrite length_app. cbn. rewrite length_replicate. lia.
Qed.

(** changing the options of the last command *)
Lemma update_last_same a l ns d f : grown a l ns d → ns ≠ [] →
  (∀ n, sig (f n) = sig n ∧ next (f n) = next n) →
  ∃ s, update_last a f = Ret (set_ccmd a s) ∧ grown (set_ccmd a s) l ns d.
Proof.
  intros [Hb ?? Hs Ha Hu Hr] Hne Hf. pose proof (built_length _ _ _ _ Hb) as Hl.
  destruct ns as [|x ns _] using rev_ind; [done|].
  destruct l as [|i l _] using rev_ind; [rewrite length_app in Hl; cbn in Hl; lia|].
  destruct (update_last_built a l ns d i x x f Hb) as (s & E & Hb').
  { intros n <-. apply Hf. }
  exists s. split; [done|]. by split.
Qed.

Lemma reply_step a l ns d arg : grown a l ns d → valid (REPLY_CMD arg) → (length ns < 100)%nat →
  step_to (reply_cmd a arg) (length ns + d + 1).
Proof.
  intros Hg Hv Hl. pose proof (g_built _ _ _ _ Hg) as Hb. pose proof (built_size _ _ _ _ Hb) as Hsz.
  assert (E : ∃ v mode dev, match arg with
    | None => Ret (Some pd_build_none, REPLY_MODE_NORMAL, 0)
    | Some ts => reply_tokens ts None REPLY_MODE_NORMAL 0 end = Ret (Some v, mode, dev)).
  { destruct arg as [ts|]; [by apply reply_tokens_valid|by eexists _, _, _]. }
  destruct E as (v & mode & dev & E). unfold reply_cmd. rewrite E. obind. clear E.
  set (v' := clamp_reply _). unfold Queue.queue_size. rewrite Hsz, (g_scope _ _ _ _ Hg).
  assert (Hend : d = O → step_to (add_reply a v' mode dev) (length ns + d + 1)).
  { intros ->. destruct (add_update_built a l ns O REPLY v' (fun n => with_resp n mode (u8 dev)) Hb Hl)
      as (s & E & Hb1); [done|]. unfold add_reply. rewrite E. eexists _, _, _, O. split; [reflexivity|].
    split; [apply (grown_end a); [done..|apply Hg|apply Hg]|rewrite length_app; cbn; lia]. }
  pose proof (grown_depth _ _ _ _ Hg).
  destruct (Z.leb_spec (Z.of_nat (length ns)) 0) as [Hz|Hz]; [apply Hend; lia|].
  assert (Hne : ns ≠ []) by (intros ->; cbn in Hz; lia).
  destruct (Z.leb_spec (Z.of_nat d) 0) as [Hd|Hd].
  - rewrite (last_built _ _ _ _ Hb). obind.
    destruct (last (fst <$> ns)) as [c|] eqn:Ec.
    2: { apply last_None, fmap_nil_inv in Ec. done. }
    rewrite (last_cmd_built _ _ _ _ c Hb Ec). obind.
    destruct (_ && _); [|apply Hend; lia].
    destruct (update_last_same a l ns d (fun n => with_val n v') Hg Hne) as (s & -> & Hg'); [done|].
    eexists _, l, ns, d. split; [reflexivity|]. split; [done|lia].
  - destruct d as [|d]; [lia|].
    destruct (due_pop _ _ (b_due _ _ _ _ Hb)) as (q & Eq & Hq). rewrite Eq. obind.
    set (a1 := set_reserved _ _ _ _). assert (Hb1 : built a1 l ns d) by (destruct Hb; by split).
    destruct (add_update_built a1 l ns d REPLY v' (fun n => with_resp n mode (u8 dev)) Hb1 Hl)
      as (s & E & Hb2); [done|]. unfold add_reply. rewrite E. obind.
    rewrite (last_built _ _ _ _ Hb2), last_snoc. obind.
    eexists _, _, (ns ++ [(REPLY, 0)]), d. split; [reflexivity|].
    split; [|rewrite length_app; cbn; lia].
    pose proof (g_scope _ _ _ _ Hg). apply (grown_due a); [done|destruct Hb2; by split|unfold a1; cbn; lia|apply Hg|done].
Qed.

Lemma grown_offsets a l ns d u v : grown a l ns d → grown (set_offsets a u v) l ns d.
Proof. intros [Hb ??????]. split; try done. by apply (built_ext a). Qed.

Lemma parse_opt_step a l ns d o : grown a l ns d → valid o → (length ns + cost o < 100)%nat →
  step_to (parse_opt a o) (length ns + d + cost o).
Proof.
  intros Hg Hv Hl. destruct o as [v|v|v|ts|ts|ts|ts|arg]; cbn [parse_opt cost] in *.
  - destruct Hv as [v' ->]. obind.
    destruct (add_built a l ns d COMPUTE v' (g_built _ _ _ _ Hg)) as (s & -> & Hb); [lia|].
    eexists _, _, (ns ++ [(COMPUTE, 0)]), d. split; [reflexivity|].
    split; [apply (grown_simple a); [done|done|done|apply Hg..]|rewrite length_app; cbn; lia].
  - destruct Hv as [v' ->]. obind. eexists _, l, ns, d. split; [reflexivity|].
    split; [by apply grown_offsets|lia].
  - destruct Hv as [v' ->]. obind. eexists _, l, ns, d. split; [reflexivity|].
    split; [by apply grown_offsets|lia].
  - unfold store_data.
    destruct (data_tokens_valid true ts pd_build_none (store_offset_pd a) 1 0 Hv)
      as (? & ? & ? & ? & -> & Hn). obind. rewrite Hn. cbn [check negb]. obind.
    apply (simple_step a l); (done || lia).
  - unfold load_data.
    destruct (data_tokens_valid false ts pd_build_none (load_offset_pd a) 0 0 Hv)
      as (? & ? & ? & ? & -> & Hn). obind. rewrite Hn. cbn [check negb]. obind.
    apply (simple_step a l); (done || lia).
  - unfold skip_cmd.
    destruct (skip_tokens_valid ts (pd_build_fixed 1) (-1) 1 Hv) as (? & k & ? & -> & Hk).
    obind. rewrite (proj2 (Z.eqb_neq k (-1))) by lia. cbn [check negb]. obind.
    apply (simple_step a l); (done || lia).
  - apply (forward_step a l); (done || lia).
  - apply (reply_step a l); (done || lia).
Qed.

Lemma parse_opts_step os a l ns d : grown a l ns d → Forall valid os →
  (length ns + d + sum_list (cost <$> os) < 100)%nat →
  step_to (parse_opts a os) (length ns + d + sum_list (cost <$> os)).
Proof.
  intros Hg Hv. revert a l ns d Hg. induction Hv as [|o os Ho Hv IH]; intros a l ns d Hg Hl.
  { exists a, l, ns, d. split; [done|]. split; [done|lia]. }
  change (sum_list (cost <$> o :: os)) with (cost o + sum_list (cost <$> os))%nat in *.
  cbn [parse_opts].
  destruct (parse_opt_step a l ns d o Hg Ho) as (a1 & l1 & ns1 & d1 & -> & Hg1 & Hl1); [lia|].
  obind. destruct (IH _ _ _ _ Hg1) as (a' & l' & ns' & d' & -> & Hg' & Hl'); [lia|].
  exists a', l', ns', d'. split; [done|]. split; [done|lia].
Qed.

Lemma init_grown junk junk' : grown (init junk junk') [] [] 0.
Proof.
  split; [|done|done|by exists [], []; split_and!; constructor|done|by left|done].
  split; [|reflexivity|reflexivity|apply due_alloc].
  split; cbn; [by apply Queue.alloc_wf|reflexivity|done|constructor|].
  intros i Hi. by apply elem_of_nil in Hi.
Qed.

(** the REPLY of every forward that is still open *)
Lemma exhaust_grown fuel a l ns d : grown a l ns d → (d < fuel)%nat → (length ns + d ≤ 100)%nat →
  ∃ a' l' ns', exhaust fuel a = Ret a' ∧ grown a' l' ns' 0 ∧ (length ns' ≤ length ns + d)%nat.
Proof.
  revert a l ns d. induction fuel as [|fuel IH]; intros a l ns d Hg Hf Hl; [lia|].
  pose proof (g_built _ _ _ _ Hg) as Hb. pose proof (b_due _ _ _ _ Hb) as Hdue.
  cbn [exhaust]. unfold Queue.queue_size.
  rewrite (due_size _ _ Hdue), (g_scope _ _ _ _ Hg). destruct d as [|d].
  { cbn [Z.of_nat Z.ltb Z.compare andb]. exists a, l, ns. split; [done|]. split; [done|lia]. }
  rewrite (proj2 (Z.ltb_lt 0 (Z.of_nat (S d)))) by lia. cbn [andb].
  unfold reserved_reply. destruct (due_node _ _ Hdue) as [n ->]. obind.
  destruct (add_built a l ns (S d) REPLY (pd_build_fixed (Queue.key n)) Hb) as (s & -> & Hb1); [lia|].
  obind. destruct (due_pop _ _ Hdue) as (q & Eq & Hq). cbn [reserved_fwd_replies set_ccmd].
  rewrite Eq. obind. rewrite (last_built _ _ _ _ Hb1), last_snoc. obind.
  match goal with |- context [exhaust fuel ?a1] => set (a2 := a1) end.
  assert (Hg2 : grown a2 (l ++ [Ccmd.fresh (ccmd a)]) (ns ++ [(REPLY, 0)]) d).
  { pose proof (g_scope _ _ _ _ Hg). apply (grown_due a); 
      [done|destruct Hb1; by split|unfold a2; cbn; lia|apply Hg|done]. }
  destruct (IH _ _ _ _ Hg2) as (a' & l' & ns' & -> & Hg' & Hl');
    [lia|rewrite length_app; cbn; lia|]. rewrite length_app in Hl'. cbn in Hl'.
  exists a', l', ns'. split; [done|]. split; [done|lia].
Qed.

Lemma finish_grown a l ns d : grown a l ns d → (length ns + d < 100)%nat →
  ∃ a' l' ns', finish a = Ret a' ∧ built a' l' ns' 0 ∧ ns' ≠ [] ∧ programs (fst <$> ns') ∧ acks_ok ns' ∧
    (length ns' ≤ S (length ns + d))%nat.
Proof.
  intros Hg Hl. unfold finish. pose proof (grown_depth _ _ _ _ Hg).
  destruct (exhaust_grown exhaust_fuel a l ns d Hg) as (a1 & l1 & ns1 & -> & Hg1 & Hl1);
    [unfold exhaust_fuel; lia|lia|].
  obind. pose proof (g_built _ _ _ _ Hg1) as Hb. unfold Queue.queue_size.
  rewrite (due_size _ _ (b_due _ _ _ _ Hb)). cbn [Z.of_nat Z.eqb check]. obind.
  rewrite (last_built _ _ _ _ Hb). obind.
  assert (Hadd : ∃ a' l' ns', add a1 REPLY (last_resp_size a1) = Ret a' ∧ built a' l' ns' 0 ∧ ns' ≠ [] ∧
    programs (fst <$> ns') ∧ acks_ok ns' ∧ (length ns' ≤ S (length ns + d))%nat).
  { destruct (add_built a1 l1 ns1 0 REPLY (last_resp_size a1) Hb) as (s & -> & Hb'); [lia|].
    destruct (grown_end a1 (set_ccmd a1 s) l1 ns1 _ Hg1 Hb' (g_scope _ _ _ _ Hg1)
      (g_degree _ _ _ _ Hg1)) as [Hg' Hp].
    eexists _, _, _. split; [reflexivity|]. split; [exact Hb'|]. split; [by destruct ns1|].
    split; [exact Hp|]. split; [apply Hg'|rewrite length_app; cbn; lia]. }
  case_bool_decide as Eu; [exact Hadd|].
  destruct (last (fst <$> ns1)) as [c|] eqn:Ec; cycle 1.
  { apply last_None, fmap_nil_inv in Ec as ->. apply built_length in Hb. destruct l1; [|done].
    by destruct (g_used _ _ _ _ Hg1) as [E|E]; [rewrite E in Eu|]. }
  rewrite (last_cmd_built _ _ _ _ c Hb Ec). obind. case_bool_decide as Er; [|exact Hadd]. subst c.
  destruct (g_reply _ _ _ _ Hg1 Ec) as [|[_ Hp]]; [done|].
  exists a1, l1, ns1. split_and!; try done; [by intros ->|apply Hg1|lia].
Qed.

(** The program of a command line without branches. Whenever the
    arguments of the options are acceptable and the commands, with a REPLY for
    each forward, are at most 99, parsing succeeds and the chain is one sequence
    of contexts or more in the grammar the nodes walk, each ended by a REPLY:
    every forward is closed, by the REPLY given for it or by one added. Each
    FORWARD_BEGIN is followed by its other targets and waits for at least one
    acknowledgment and at most as many as it has targets. *)
Lemma program_of_options (junk junk' : Z → node_t) (os : list (client_option Spec)) :
  Forall valid os → (sum_list (cost <$> os) < 100)%nat →
  ∃ a l ns, parse junk junk' os = Ret a ∧ Ccmd.chain (ccmd a) l ∧ cells (ccmd a) l = Some <$> ns ∧
    programs (fst <$> ns) ∧ ns ≠ [] ∧ acks_ok ns ∧ (length ns ≤ S (sum_list (cost <$> os)))%nat.
Proof.
  intros Hv Hl. unfold parse.
  destruct (parse_opts_step os _ _ _ _ (init_grown junk junk') Hv) as (a & l & ns & d & -> & Hg & Hd);
    [done|]. cbn in Hd. obind.
  destruct (finish_grown a l ns d Hg) as (a' & l' & ns' & -> & Hb & Hne & Hp & Ha & Hl'); [lia|].
  exists a', l', ns'. split_and!; try done; [apply Hb|apply Hb|lia].
Qed.

(** The command lines that end the client with an access through a null
    or uninitialised variable: a FORWARD without a target; the first FORWARD
    with [branch] before its targets; a branch after a command that follows the
    REPLY of the previous branch (no reply is reserved any more); a REPLY with an
    argument that gives no size. *)
Theorem option_crashes a :
  (∀ ts, branching_degree a = 0 →
     Forall (fun t => match t with F_branch | F_target _ _ _ => False | F_timeout us => is_int us | _ => True end) ts →
     forward_cmd a ts = Stop UB) ∧
  (∀ l ns d p h pt, built a l ns d → (length ns < 100)%nat →
     branching_degree a = 0 → curr_forward_begin a = None →
     forward_cmd a [F_branch; F_target p h pt] = Stop UB) ∧
  (∀ c ts, 0 < branching_degree a → last_cmd a = Ret c → c ≠ REPLY →
     Queue.size (reserved_fwd_replies a) = 0 → forward_cmd a ts = Stop UB) ∧
  (∀ ts, Forall (fun t => match t with R_size _ => False | R_dev id => 0 ≤ id | R_sendfile => True end) ts →
     reply_cmd a (Some ts) = Stop UB).
Proof.
  split_and!.
  - intros ts Hd Hts. unfold forward_cmd, close_branch. rewrite Hd. cbn [Z.ltb Z.compare]. obind.
    assert (E : ∀ x, fwd_itr_start x = None → is_branched x = 0 → is_int (timeout_us x) →
      ∃ x', fwd_tokens ts a x = Ret (a, x') ∧ fwd_itr_start x' = None ∧ is_branched x' = 0 ∧
        is_int (timeout_us x')).
    { induction Hts as [|t ts Ht Hts IH]; intros x E1 E2 E3; [by exists x|].
      destruct t; try done; cbn [fwd_tokens]; apply IH; done. }
    destruct (E (FwdLocals 10000000 0 (-1) 0 0 None)) as (x' & -> & E1 & E2 & E3);
      [done|done|unfold is_int; cbn; lia|].
    obind. unfold end_forward. rewrite E2, E1, int_ok by done. reflexivity.
  - intros l ns d p h pt Hb Hl Hd Hn. unfold forward_cmd, close_branch. rewrite Hd.
    cbn [Z.ltb Z.compare fwd_tokens]. obind. rewrite Hd, int_ok by (unfold is_int; lia). obind.
    assert (Hb1 : built (set_branching a (0 + 1) (curr_forward_begin a)) l ns d) by by apply (built_ext a).
    rewrite Hn in *. unfold add_target. cbn [multi_fwds branching_degree set_branching].
    destruct (add_built _ l ns d FORWARD_BEGIN (pd_build_fixed default_resp_size) Hb1 Hl) as (s & -> & Hb2).
    obind. rewrite (last_built _ _ _ _ Hb2). obind. cbn [Z.eqb andb branching_degree set_branching set_ccmd].
    match goal with |- context [update_last ?a1 ?f] =>
      destruct (update_last_built a1 _ _ d _ _ (FORWARD_BEGIN, 0) f Hb2) as (s' & -> & _) end.
    { by intros n <-. }
    obind. rewrite int_ok by (unfold is_int; lia). reflexivity.
  - intros c ts Hd Hc Hne Hs. unfold forward_cmd, close_branch.
    rewrite (proj2 (Z.ltb_lt _ _)) by done. rewrite Hc. obind. rewrite bool_decide_false by done.
    unfold reserved_reply, Queue.queue_tail. by rewrite Hs.
  - intros ts Hts. unfold reply_cmd.
    assert (E : ∀ mode dev, ∃ mode' dev', reply_tokens ts None mode dev = Ret (None, mode', dev')).
    { induction Hts as [|t ts Ht Hts IH]; intros mode dev; [by eexists _, _|].
      destruct t as [id| |]; cbn [reply_tokens]; [|by apply IH|done].
      unfold check. rewrite (proj2 (Z.leb_le 0 id) Ht). obind. apply IH. }
    destruct (E REPLY_MODE_NORMAL 0) as (mode & dev & ->). reflexivity.
Qed.
End Program.

(** constant distributions (as in [Ccmd.constant_sampler]); -1 for none *)
Definition constant_specs : Specs Z :=
  {| pd_build_fixed v := v; pd_build_none := -1; pd_is_none v := v =? -1; clamp_reply v := Z.max 12 v |}.
#[local] Existing Instance Ccmd.constant_sampler.
#[local] Existing Instance constant_specs.
Definition no_junk (i : Z) : node_t := Node 0 0 (d_value 0).
Definition target : fwd_token := F_target TCP 7 9.

(** a forward to three nodes with two acknowledgments, a computation there, a
    forward from there that replies, and the client's reply added at the end *)
Definition example_options : list (client_option Z) :=
  [STORE_DATA [D_size (Some 64); D_sync false]; FORWARD_CMD [target; target; F_nack 2; target];
   COMP_TIME (Some 5); FORWARD_CMD [target]; LOAD_DATA [D_dev 1; D_size (Some 32)]; REPLY_CMD None].
Definition example_cells : list (command_type_t * Z) :=
  [(STORE, 0); (FORWARD_BEGIN, 2); (FORWARD_CONTINUE, 0); (FORWARD_CONTINUE, 0); (COMPUTE, 0);
   (FORWARD_BEGIN, 1); (LOAD, 0); (REPLY, 0); (REPLY, 0); (REPLY, 0)].

Example example_program : ∃ a, parse no_junk no_junk example_options = Ret a ∧
  cells (ccmd a) (seq 0 10) = Some <$> example_cells.
Proof. eexists. split; vm_compute; reflexivity. Qed.

Lemma program_of_options_witness : Forall valid example_options ∧
  ∃ a l ns, parse no_junk no_junk example_options = Ret a ∧ Ccmd.chain (ccmd a) l ∧
    cells (ccmd a) l = Some <$> ns ∧ programs (fst <$> ns) ∧ acks_ok ns.
Proof.
  assert (Hv : Forall valid example_options).
  { apply Forall_cons_2; [split; [|left; by eexists]|].
    { apply Forall_cons_2; [by eexists|]. by repeat constructor. }
    apply Forall_cons_2; [split; [by repeat constructor|vm_compute; lia]|].
    apply Forall_cons_2; [by eexists|].
    apply Forall_cons_2; [split; [by repeat constructor|vm_compute; lia]|].
    apply Forall_cons_2; [split; [|right; left; by eexists]|by repeat constructor].
    apply Forall_cons_2; [by right|]. apply Forall_cons_2; [by eexists|constructor]. }
  split; [exact Hv|].
  destruct (program_of_options no_junk no_junk example_options Hv) as (a & l & ns & E & Hc & Hl & Hp & _ & Ha & _).
  { vm_compute. lia. }
  exists a, l, ns. exact (conj E (conj Hc (conj Hl (conj Hp Ha)))).
Defined.

(** a branch whose reply was given, and a command after it *)
Definition after_branch : arguments Z :=
  match parse_opts (init no_junk no_junk)
    [FORWARD_CMD [target; F_branch]; REPLY_CMD None; COMP_TIME (Some 5)] with
  | Ret a => a
  | Stop _ => init no_junk no_junk
  end.

Lemma option_crashes_witness :
  forward_cmd (init no_junk no_junk) [F_nack 1] = Stop UB ∧
  forward_cmd (init no_junk no_junk) [F_branch; target] = Stop UB ∧
  forward_cmd after_branch [target; F_branch] = Stop UB ∧
  reply_cmd (init no_junk no_junk) (Some [R_sendfile]) = Stop UB.
Proof.
  split; [|split; [|split]].
  - apply (option_crashes (init no_junk no_junk)); [reflexivity|repeat constructor].
  - apply (proj1 (proj2 (option_crashes (init no_junk no_junk))) [] [] 0%nat);
      [apply init_grown|cbn; lia|reflexivity|reflexivity].
  - apply (proj1 (proj2 (proj2 (option_crashes after_branch))) COMPUTE);
      [vm_compute; reflexivity|vm_compute; reflexivity|done|vm_compute; reflexivity].
  - apply (option_crashes (init no_junk no_junk)). repeat constructor.
Defined.

End Options.
