(* ===== verification/Distrib.v ===== *)
(** * Probability distributions (src/src/distrib.h, distrib.c)

    Sizes, times and rates are drawn from distributions given as text. A
    [double] is an IEEE 754 binary64 number of the Standard Library's
    specification of floats, with its rounding to nearest, its NaN and its
    infinities; [sqrt] is correctly rounded, [log] and [exp], which are not,
    are parameters. drand48_r is the congruential generator POSIX prescribes:
    the state of a thread is its 48-bit word. What sscanf converts with %lf and
    %d is the interface [Scan]. The loop of pd_sample that draws again until
    the value is within the bounds takes a fuel. *)

From Stdlib Require Import String Ascii SpecFloat.
From S2P Require Import Prelude Text Message Queue Ccmd Options.

Local Open Scope Z_scope.

(** ** Doubles *)

Abbreviation double := spec_float.
Abbreviation NAN := S754_nan.

Module Double.
Definition add : double → double → double := SFadd 53 1024.
Definition sub : double → double → double := SFsub 53 1024.
Definition mul : double → double → double := SFmul 53 1024.
Definition div : double → double → double := SFdiv 53 1024.
Definition sqrt : double → double := SFsqrt 53 1024.
Definition isnan (x : double) : bool := match x with S754_nan => true | _ => false end.
(** the value of an integer, rounded; [m * 2 ^ e] *)
Definition of_Z (z : Z) : double := binary_normalize 53 1024 z 0 false.
Definition scaled (m e : Z) : double := binary_normalize 53 1024 m e false.

(** conversion to an integer type truncates; None when there is no integer *)
Definition trunc (x : double) : option Z :=
  match x with
  | S754_zero _ => Some 0
  | S754_finite s m e =>
      let a := if 0 <=? e then Zpos m * 2 ^ e else Zpos m / 2 ^ (- e) in
      Some (if s then - a else a)
  | _ => None
  end.

(** [lrint]: to nearest, ties to even; the result for a value outside long is
    unspecified, here it stops *)
Definition lrint (x : double) : outcome Z :=
  match x with
  | S754_zero _ => Ret 0
  | S754_finite s m e =>
      let a :=
        if 0 <=? e then Zpos m * 2 ^ e
        else
          let q := Zpos m / 2 ^ (- e) in
          match 2 * (Zpos m mod 2 ^ (- e)) ?= 2 ^ (- e) with
          | Lt => q
          | Gt => q + 1
          | Eq => if Z.even q then q else q + 1
          end in
      long_ (if s then - a else a)
  | _ => Stop UB
  end.
End Double.
Import Double.

(** ** Data *)

Inductive pd_type_t :=
  | PD_NONE | FIXED | UNIF | EXPON | NORM | LOGNORM | GAMMA | ARITH_SEQ | GEO_SEQ | SFILE.

#[export] Instance pd_type_eq_dec : EqDecision pd_type_t.
Proof. solve_decision. Defined.

(** [samples] is [] while it is NULL *)
Record pd_spec_t := MkPd {
  prob : pd_type_t;
  val : double;
  std : double;
  pd_min : double;
  pd_max : double;
  samples : list double;
  num_samples : Z;
  cur_sample : Z
}.

Definition with_val (p : pd_spec_t) (v : double) : pd_spec_t :=
  MkPd (prob p) v (std p) (pd_min p) (pd_max p) (samples p) (num_samples p) (cur_sample p).
Definition with_std (p : pd_spec_t) (v : double) : pd_spec_t :=
  MkPd (prob p) (val p) v (pd_min p) (pd_max p) (samples p) (num_samples p) (cur_sample p).
Definition with_min (p : pd_spec_t) (v : double) : pd_spec_t :=
  MkPd (prob p) (val p) (std p) v (pd_max p) (samples p) (num_samples p) (cur_sample p).
Definition with_max (p : pd_spec_t) (v : double) : pd_spec_t :=
  MkPd (prob p) (val p) (std p) (pd_min p) v (samples p) (num_samples p) (cur_sample p).
Definition with_samples (p : pd_spec_t) (l : list double) (n c : Z) : pd_spec_t :=
  MkPd (prob p) (val p) (std p) (pd_min p) (pd_max p) l n c.

Definition pd_build_fixed (v : double) : pd_spec_t := MkPd FIXED v (of_Z 0) NAN NAN [] 0 0.
Definition pd_build_none : pd_spec_t := MkPd PD_NONE NAN (of_Z 0) NAN NAN [] 0 0.
Definition pd_is_none (p : pd_spec_t) : bool := bool_decide (prob p = PD_NONE).

(** ** The generator *)

Definition drand48_next (x : Z) : Z := (25214903917 * x + 11) mod 2 ^ 48.
(** the number drawn, in [0, 1), and the new state *)
Definition drand48_r (x : Z) : double * Z :=
  let x := drand48_next x in (scaled x (-48), x).
Definition pd_init (seed : Z) : Z := u32 seed * 2 ^ 16 + 13070.

Module Pd.
Section Sample.
Context (log exp : double → double).
Implicit Types (p : pd_spec_t) (r : Z).

Definition expon (lambda : double) (r : Z) : double * Z :=
  let '(x, r) := drand48_r r in (div (SFopp (log (sub (of_Z 1) x))) lambda, r).

(** [for (i = 0; i < N*N; i++) y += x - 0.5] *)
Fixpoint gauss_loop (n : nat) (y : double) (r : Z) : double * Z :=
  match n with
  | O => (y, r)
  | S n => let '(x, r) := drand48_r r in gauss_loop n (add y (sub x (scaled 1 (-1)))) r
  end.
Definition gaussian (avg std : double) (r : Z) : double * Z :=
  let '(y, r) := gauss_loop 16 (of_Z 0) r in
  let y := mul y (div (sqrt (of_Z 12)) (of_Z 4)) in
  (add (mul y std) avg, r).

Fixpoint gamma_loop (n : nat) (scale x : double) (r : Z) : double * Z :=
  match n with
  | O => (x, r)
  | S n =>
      let '(y, r) := expon (div (of_Z 1) scale) r in gamma_loop n scale (add x y) r
  end.
(** What lrint gives for a NaN, an infinity or a number outside long is
    unspecified, but the difference to an int is then no number or more than
    2^62: the check fails whatever it is. *)
Definition distr_gamma (avg std : double) (r : Z) : outcome (double * Z) :=
  let scale := div (mul std std) avg in
  k ← match lrint (div avg scale) with Ret k => Ret k | Stop _ => Stop CheckFailed end;
  let k := s32 k in
  _ ← check (SFltb (SFabs (sub (of_Z k) (div avg scale))) (div (of_Z 1) (of_Z 100000)));
  Ret (gamma_loop (Z.to_nat k) scale (of_Z 0) r).

(** the value of a sequence saturates at its bounds *)
Definition saturate (p : pd_spec_t) (v : double) : pd_spec_t :=
  with_val p (if SFleb (pd_max p) v then pd_max p
              else if SFleb v (pd_min p) then pd_min p else v).

(** the value drawn, and whether its bounds are checked *)
Definition draw (p : pd_spec_t) (r : Z) : outcome (double * bool * pd_spec_t * Z) :=
  match prob p with
  | PD_NONE => Stop CheckFailed
  | FIXED => Ret (val p, false, p, r)
  | UNIF =>
      let '(x, r) := drand48_r r in
      Ret (add (pd_min p) (mul (sub (pd_max p) (pd_min p)) x), false, p, r)
  | EXPON => let '(v, r) := expon (div (of_Z 1) (val p)) r in Ret (v, true, p, r)
  | NORM => let '(v, r) := gaussian (val p) (std p) r in Ret (v, true, p, r)
  | LOGNORM =>
      let m2 := mul (val p) (val p) in
      let s2 := mul (std p) (std p) in
      let xavg := log (div m2 (sqrt (add m2 s2))) in
      let xdev := sqrt (log (add (of_Z 1) (div s2 m2))) in
      let '(v, r) := gaussian xavg xdev r in
      Ret (exp v, true, p, r)
  | GAMMA => '(v, r) ← distr_gamma (val p) (std p) r; Ret (v, true, p, r)
  | ARITH_SEQ => Ret (val p, true, saturate p (add (val p) (std p)), r)
  | GEO_SEQ => Ret (val p, true, saturate p (mul (val p) (std p)), r)
  | SFILE =>
      v ← arr_get (samples p) (cur_sample p);
      next ← int_ (cur_sample p + 1);
      next ← rem_ next (num_samples p);
      Ret (v, true, with_samples p (samples p) (num_samples p) next, r)
  end.

Definition out_of_bounds (p : pd_spec_t) (v : double) : bool :=
  (negb (isnan (pd_min p)) && SFltb v (pd_min p)) || (negb (isnan (pd_max p)) && SFltb (pd_max p) v).

(** [goto retry]: a draw per unit of fuel *)
Fixpoint pd_sample (fuel : nat) (p : pd_spec_t) (r : Z) : outcome (double * pd_spec_t * Z) :=
  match fuel with
  | O => Stop OutOfFuel
  | S fuel =>
      '(v, checked, p, r) ← draw p r;
      if (checked : bool) && out_of_bounds p v then pd_sample fuel p r else Ret (v, p, r)
  end.

(** [rv] is an int *)
Definition pd_len (p : pd_spec_t) : outcome Z :=
  let to_int x := z ← deref (trunc x); int_ z in
  match prob p with
  | ARITH_SEQ => to_int (div (sub (add (pd_max p) (std p)) (pd_min p)) (std p))
  | GEO_SEQ =>
      _ ← check (SFltb (of_Z 0) (log (std p)));
      to_int (add (div (log (div (pd_max p) (pd_min p))) (log (std p))) (of_Z 1))
  | SFILE => Ret (num_samples p)
  | _ => Ret (-1)
  end.

(** [for (i = 0; i < num_samples; i++) rv += samples[i]] *)
Fixpoint sum_loop (n : nat) (l : list double) (i : Z) (rv : double) : outcome double :=
  match n with
  | O => Ret rv
  | S n => x ← arr_get l i; sum_loop n l (i + 1) (add rv x)
  end.
Definition pd_avg (p : pd_spec_t) : outcome double :=
  match prob p with
  | ARITH_SEQ => Ret (div (add (pd_min p) (pd_max p)) (of_Z 2))
  | GEO_SEQ => Ret (sqrt (mul (pd_min p) (pd_max p)))
  | SFILE =>
      rv ← sum_loop (Z.to_nat (num_samples p)) (samples p) 0 (of_Z 0);
      Ret (div rv (of_Z (num_samples p)))
  | _ => Ret (val p)
  end.
End Sample.

(** ** Text *)

(** what sscanf converts with %lf and with %d at the start of a text *)
Class Scan := { scan_lf : string → option double; scan_d : string → option Z }.

(** the character before the last [n] *)
Definition char_back (s : string) (n : nat) : option ascii := String.get (String.length s - 1 - n) s.

Section Parse.
Context `{Scan} (exp : double → double).

(** [sscanf(str, pre ++ %lf, p)]: the value when it returns 1 *)
Definition sscanf (pre str : string) : option double := strip pre str ≫= scan_lf.

(** the value when the functions return 1, None otherwise *)
Definition sscanf_time_us (str pre : string) : outcome (option double) :=
  if (String.length str =? 0)%nat then Ret None
  else
    match sscanf pre str with
    | None => Ret None
    | Some v =>
        if bool_decide (char_back str 0 = Some "s"%char) then
          _ ← check (2 <=? String.length str)%nat;
          match char_back str 1 with
          | Some "n"%char => Ret (Some (div v (of_Z 1000)))
          | Some "u"%char => Ret (Some v)
          | Some "m"%char => Ret (Some (mul v (of_Z 1000)))
          | Some a => _ ← check (is_digit a); Ret (Some (mul v (of_Z 1000000)))
          | None => Stop UB
          end
        else Ret (Some v)
    end.
Definition sscanf_unit (str pre : string) (is_time : bool) : outcome (option double) :=
  if (String.length str =? 0)%nat then Ret None
  else
    match sscanf pre str with
    | None => Ret None
    | Some v =>
        match char_back str 0 with
        | Some "k"%char | Some "K"%char => Ret (Some (mul v (of_Z 1000)))
        | Some "m"%char | Some "M"%char => Ret (Some (mul v (of_Z 1000000)))
        | Some "g"%char | Some "G"%char => Ret (Some (mul v (of_Z 1000000000)))
        | Some "s"%char => _ ← check is_time; sscanf_time_us str pre
        | _ => Ret (Some v)
        end
    end.

(** the locals of pd_parse_internal *)
Record parse_t := MkParse {
  spec : pd_spec_t;
  col : Z;
  fname : option string;
  sep : string;
  xavg : double;
  xstd : double;
  gamma_k : double;
  gamma_scale : double;
  file_unit_us : double
}.
Definition with_spec (s : parse_t) (p : pd_spec_t) : parse_t :=
  MkParse p (col s) (fname s) (sep s) (xavg s) (xstd s) (gamma_k s) (gamma_scale s) (file_unit_us s).
Definition with_file (s : parse_t) (c : Z) (f : option string) (e : string) (u : double) : parse_t :=
  MkParse (spec s) c f e (xavg s) (xstd s) (gamma_k s) (gamma_scale s) u.
Definition with_logs (s : parse_t) (a d k e : double) : parse_t :=
  MkParse (spec s) (col s) (fname s) (sep s) a d k e (file_unit_us s).

(** the first token: the kind of distribution, or a constant *)
Definition parse_kind (tok : string) (is_time : bool) : outcome pd_spec_t :=
  let p t v := MkPd t v NAN NAN NAN [] 0 0 in
  if String.eqb tok "none" then Ret (p PD_NONE NAN)
  else if String.eqb tok "unif" then Ret (p UNIF NAN)
  else if String.eqb tok "exp" then Ret (p EXPON NAN)
  else if String.eqb tok "norm" then Ret (p NORM NAN)
  else if String.eqb tok "lognorm" then Ret (p LOGNORM NAN)
  else if String.eqb tok "gamma" then Ret (p GAMMA NAN)
  else if String.eqb tok "aseq" then Ret (p ARITH_SEQ NAN)
  else if String.eqb tok "gseq" then Ret (p GEO_SEQ NAN)
  else if String.eqb tok "file" then Ret (p SFILE NAN)
  else
    v ← sscanf_unit tok EmptyString is_time;
    match v with Some v => Ret (p FIXED v) | None => Stop CheckFailed end.

(** one operand of the chain of [||]: on a conversion, what it sets *)
Definition try_set (r : outcome (option double)) (set : double → parse_t)
    (other : outcome parse_t) : outcome parse_t :=
  v ← r; match v with Some v => Ret (set v) | None => other end.
Definition only_if (b : bool) (r : outcome (option double)) : outcome (option double) :=
  if b then r else Ret None.

Definition file_unit (u : string) (is_time : bool) : option double :=
  if String.eqb u "k" || String.eqb u "K" then Some (of_Z 1000)
  else if String.eqb u "m" || String.eqb u "M" then Some (of_Z 1000000)
  else if String.eqb u "g" || String.eqb u "G" then Some (of_Z 1000000000)
  else if is_time && String.eqb u "s" then Some (of_Z 1000000)
  else if is_time && String.eqb u "ms" then Some (of_Z 1000)
  else if is_time && String.eqb u "us" then Some (of_Z 1)
  else if is_time && String.eqb u "ns" then Some (div (of_Z 1) (of_Z 1000))
  else None.

(** the tokens that are no parameter: only a file has some *)
Definition parse_file (s : parse_t) (tok : string) (is_time : bool) : outcome parse_t :=
  if negb (bool_decide (prob (spec s) = SFILE)) then Stop CheckFailed
  else
    match strip "sep=" tok, strip "unit=" tok with
    | Some e, _ =>
        _ ← check (0 <? String.length e)%nat;
        Ret (with_file s (col s) (fname s) e (file_unit_us s))
    | None, Some u =>
        match file_unit u is_time with
        | Some u => Ret (with_file s (col s) (fname s) (sep s) u)
        | None => Stop CheckFailed
        end
    | None, None => Ret (with_file s (col s) (Some tok) (sep s) (file_unit_us s))
    end.

Definition parse_tok (s : parse_t) (tok : string) (is_time : bool) : outcome parse_t :=
  let p := spec s in
  let kind t := bool_decide (prob p = t) in
  let unit pre t := sscanf_unit tok pre t in
  let plain pre := Ret (sscanf pre tok) in
  try_set (unit "min="%string is_time) (fun v => with_spec s (with_min p v)) $
  try_set (unit "max="%string is_time) (fun v => with_spec s (with_max p v)) $
  try_set (unit "std="%string is_time) (fun v => with_spec s (with_std p v)) $
  try_set (unit "k="%string false) (fun v => with_logs s (xavg s) (xstd s) v (gamma_scale s)) $
  try_set (unit "scale="%string false) (fun v => with_logs s (xavg s) (xstd s) (gamma_k s) v) $
  try_set (unit "avg="%string is_time) (fun v => with_spec s (with_val p v)) $
  try_set (only_if (kind ARITH_SEQ || kind GEO_SEQ) (unit "step="%string is_time))
    (fun v => with_spec s (with_std p v)) $
  match (if kind SFILE then strip "col=" tok ≫= scan_d else None) with
  | Some c => Ret (with_file s c (fname s) (sep s) (file_unit_us s))
  | None =>
      try_set (only_if (kind LOGNORM) (plain "xavg="%string))
        (fun v => with_logs s v (xstd s) (gamma_k s) (gamma_scale s)) $
      try_set (only_if (kind LOGNORM) (plain "xstd="%string))
        (fun v => with_logs s (xavg s) v (gamma_k s) (gamma_scale s)) $
      try_set (unit EmptyString is_time) (fun v => with_spec s (with_val p v)) $
      parse_file s tok is_time
  end.

Fixpoint parse_toks (s : parse_t) (toks : list string) (is_time : bool) : outcome parse_t :=
  match toks with
  | [] => Ret s
  | tok :: toks => s ← parse_tok s tok is_time; parse_toks s toks is_time
  end.

(** ** Samples from a file *)

(** the [do ... while] that looks for the column: what strsep gave last, and
    the counter *)
Fixpoint col_loop (toks : list string) (c : Z) : outcome (option string * Z) :=
  next ← int_ (c - 1);
  match toks with
  | [] => Ret (None, next)
  | t :: toks => if 0 <? c then col_loop toks next else Ret (Some t, next)
  end.
(** the lines as fgets gives them; those whose column is no number are skipped *)
Fixpoint load_loop (lines : list string) (c : Z) (sep : string) : outcome (list double) :=
  match lines with
  | [] => Ret []
  | line :: lines =>
      '(colstr, c') ← col_loop (split sep line) c;
      _ ← check (c' =? -1);
      match colstr with
      | None => Stop CheckFailed
      | Some t =>
          vs ← load_loop lines c sep;
          Ret match scan_lf t with Some v => v :: vs | None => vs end
      end
  end.
(** [lines]: None when the file does not open. Memory is available; realloc to
    0 bytes returns NULL, as in the GNU C library *)
Definition pd_load_file (p : pd_spec_t) (lines : option (list string)) (c : Z) (sep : string)
    : outcome pd_spec_t :=
  match lines with
  | None => Stop CheckFailed
  | Some lines =>
      vs ← load_loop lines c sep;
      n ← int_ (Z.of_nat (length vs));
      _ ← check (negb (n =? 0));
      Ret (with_samples p vs n 0)
  end.

(** [x >= y] *)
Definition ge (x y : double) : bool := SFleb y x.
Definition lt (x y : double) : bool := SFltb x y.

(** the fields that follow from others *)
Definition derive (s : parse_t) : pd_spec_t :=
  let p := spec s in
  let kind t := bool_decide (prob p = t) in
  let p :=
    if kind GAMMA && negb (isnan (gamma_k s)) && negb (isnan (gamma_scale s))
    then with_std (with_val p (mul (gamma_k s) (gamma_scale s)))
           (mul (sqrt (gamma_k s)) (gamma_scale s))
    else p in
  let p := if kind ARITH_SEQ && isnan (std p) then with_std p (of_Z 1) else p in
  let p := if kind GEO_SEQ && isnan (std p) then with_std p (of_Z 2) else p in
  let p := if kind ARITH_SEQ && isnan (val p)
           then with_val p (if ge (std p) (of_Z 0) then pd_min p else pd_max p) else p in
  let p := if kind GEO_SEQ && isnan (val p)
           then with_val p (if ge (std p) (of_Z 1) then pd_min p else pd_max p) else p in
  let logs := negb (isnan (xavg s)) && negb (isnan (xstd s)) in
  let v2 := mul (xstd s) (xstd s) in
  let p := if kind LOGNORM && isnan (val p) && logs
           then with_val p (exp (add (xavg s) (div v2 (of_Z 2)))) else p in
  if kind LOGNORM && isnan (std p) && logs
  then with_std p (sqrt (mul (sub (exp v2) (of_Z 1)) (exp (add (mul (of_Z 2) (xavg s)) v2))))
  else p.

(** the checks at the end *)
Definition acceptable (p : pd_spec_t) : bool :=
  let has x := negb (isnan x) in
  match prob p with
  | PD_NONE | SFILE => true
  | FIXED => has (val p)
  | UNIF => has (pd_min p) && has (pd_max p)
  | EXPON => has (val p) && isnan (std p)
  | NORM | LOGNORM | GAMMA => has (val p) && has (std p)
  | ARITH_SEQ => has (val p) && ((ge (std p) (of_Z 0) && has (pd_max p)) || (lt (std p) (of_Z 0) && has (pd_min p)))
  | GEO_SEQ => has (val p) && ((ge (std p) (of_Z 1) && has (pd_max p)) || (lt (std p) (of_Z 1) && has (pd_min p)))
  end.

Definition pd_parse_internal (files : string → option (list string)) (str : string) (is_time : bool)
    : outcome pd_spec_t :=
  match split ":" str with
  | [] => Stop CheckFailed
  | tok :: toks =>
      p ← parse_kind tok is_time;
      s ← parse_toks (MkParse p 0 None "," NAN NAN NAN NAN (of_Z 1)) toks is_time;
      s ← (if bool_decide (prob (spec s) = SFILE) then
             f ← match fname s with Some f => Ret f | None => Stop CheckFailed end;
             p ← pd_load_file (spec s) (files f) (col s) (sep s);
             Ret (with_spec s (with_samples p ((fun x => mul x (file_unit_us s)) <$> samples p)
                    (num_samples p) (cur_sample p)))
           else Ret s);
      let p := derive s in
      _ ← check (acceptable p);
      Ret p
  end.

Definition pd_parse (files : string → option (list string)) (str : string) : outcome pd_spec_t :=
  pd_parse_internal files str false.
Definition pd_parse_time (files : string → option (list string)) (str : string) : outcome pd_spec_t :=
  pd_parse_internal files str true.
(** a trailing b is cut off *)
Definition pd_parse_bytes (files : string → option (list string)) (str : string) : outcome pd_spec_t :=
  let l := String.length str in
  let str := match char_back str 0 with
             | Some "b"%char | Some "B"%char => String.substring 0 (l - 1) str
             | _ => str
             end in
  pd_parse_internal files str false.
End Parse.

(** what the client uses of this file *)
Definition distrib_sampler (log exp : double → double) (fuel : nat) : Sampler pd_spec_t Z :=
  {| Ccmd.pd_sample p r :=
       '(v, p, r) ← pd_sample log exp fuel p r; z ← deref (trunc v); Ret (z, p, r);
     coin p r := let '(x, r) := drand48_r r in (SFleb x (val p), r);
     pd_zero := MkPd PD_NONE (of_Z 0) (of_Z 0) (of_Z 0) (of_Z 0) [] 0 0 |}.
(** MIN_REPLY_SIZE and BUF_SIZE, converted to double *)
Definition clamp_reply (p : pd_spec_t) : pd_spec_t :=
  let p := with_min p (if SFltb (pd_min p) (of_Z sizeof_message_t) then of_Z sizeof_message_t else pd_min p) in
  with_max p (if SFltb (of_Z BUF_SIZE) (pd_max p) then of_Z BUF_SIZE else pd_max p).
Definition distrib_specs : Specs pd_spec_t :=
  {| Options.pd_build_fixed z := pd_build_fixed (of_Z z); Options.pd_build_none := pd_build_none;
     Options.pd_is_none := pd_is_none; Options.clamp_reply := clamp_reply |}.
End Pd.

(** ** Comparisons of doubles *)

(** -infinity, the negative numbers, 0, the positive ones, infinity; within one
    sign by exponent and mantissa *)
Definition rank (x : double) : Z * Z * Z :=
  match x with
  | S754_infinity s => (if s then 0 else 4, 0, 0)
  | S754_finite s m e => if s then (1, - e, - Zpos m) else (3, e, Zpos m)
  | _ => (2, 0, 0)
  end.
Definition rank_lt (a b : Z * Z * Z) : Prop :=
  a.1.1 < b.1.1 ∨ (a.1.1 = b.1.1 ∧ (a.1.2 < b.1.2 ∨ (a.1.2 = b.1.2 ∧ a.2 < b.2))).

Lemma SFltb_rank x y : isnan x = false → isnan y = false → SFltb x y = true ↔ rank_lt (rank x) (rank y).
Proof.
  unfold SFltb, rank_lt.
  destruct x as [|s1| |s1 m1 e1], y as [|s2| |s2 m2 e2]; try done; intros _ _; cbn [SFcompare rank];
    try (destruct s1); try (destruct s2); cbn; try lia;
    try (change (Pos.compare_cont Eq m1 m2) with (m1 ?= m2)%positive);
    destruct (Z.compare_spec e1 e2); try lia; destruct (Pos.compare_spec m1 m2); cbn; lia.
Qed.

Lemma SFltb_nan x y : SFltb x y = true → isnan x = false ∧ isnan y = false.
Proof. destruct x, y; done. Qed.

Lemma SFltb_irrefl x : SFltb x x = false.
Proof.
  destruct (SFltb x x) eqn:E; [|done]. pose proof (SFltb_nan _ _ E) as [H _].
  apply SFltb_rank in E; [|done..]. unfold rank_lt in E. lia.
Qed.

Lemma SFltb_false x y : isnan x = false → isnan y = false → SFltb x y = false → SFleb y x = true.
Proof.
  unfold SFltb, SFleb.
  destruct x as [|s1| |s1 m1 e1], y as [|s2| |s2 m2 e2]; try done; intros _ _; cbn [SFcompare];
    try (destruct s1); try (destruct s2); try done;
    change (Pos.compare_cont Eq m1 m2) with (m1 ?= m2)%positive;
    change (Pos.compare_cont Eq m2 m1) with (m2 ?= m1)%positive;
    rewrite (Z.compare_antisym e2 e1), (Pos.compare_antisym m2 m1);
    by destruct (e2 ?= e1)%Z, (m2 ?= m1)%positive.
Qed.

Lemma SFleb_of_lt x y : SFltb x y = true → SFleb x y = true.
Proof. unfold SFltb, SFleb. by destruct (SFcompare x y) as [[]|]. Qed.

(** a number between two others *)
Lemma between_bounds lo v hi : isnan lo = false → isnan v = false → isnan hi = false →
  SFltb v lo = false → SFltb hi v = false → SFltb hi lo = false.
Proof.
  intros H1 H2 H3 Hlo Hhi. apply not_true_iff_false. intros E.
  apply not_true_iff_false in Hlo, Hhi. rewrite SFltb_rank in * by done.
  destruct (rank lo) as [[]], (rank v) as [[]], (rank hi) as [[]]. unfold rank_lt in *; cbn in *. lia.
Qed.

(** ** Sequences *)

Import Pd.

Lemma saturate_within p v : SFltb (pd_max p) (pd_min p) = false →
  out_of_bounds (saturate p v) (val (saturate p v)) = false.
Proof.
  intros H. unfold out_of_bounds, saturate. cbn [with_val pd_min pd_max val].
  destruct (SFleb (pd_max p) v) eqn:E1; [by rewrite H, SFltb_irrefl, !andb_false_r|].
  destruct (SFleb v (pd_min p)) eqn:E2; [by rewrite H, SFltb_irrefl, !andb_false_r|].
  destruct (SFltb v (pd_min p)) eqn:E3; [by apply SFleb_of_lt in E3; rewrite E3 in E2|].
  destruct (SFltb (pd_max p) v) eqn:E4; [by apply SFleb_of_lt in E4; rewrite E4 in E1|].
  by rewrite !andb_false_r.
Qed.

Definition is_seq (p : pd_spec_t) : Prop := prob p = ARITH_SEQ ∨ prob p = GEO_SEQ.
(** the next state of a sequence *)
Definition step (p : pd_spec_t) : pd_spec_t :=
  saturate p (if bool_decide (prob p = ARITH_SEQ) then add (val p) (std p) else mul (val p) (std p)).
(** where a sequence starts: its value, unless that is out of bounds *)
Definition start (p : pd_spec_t) : pd_spec_t := if out_of_bounds p (val p) then step p else p.

(** the progression: [n] values from [p] on, and what comes then *)
Fixpoint progression (n : nat) (p : pd_spec_t) : list double * pd_spec_t :=
  match n with
  | O => ([], p)
  | S n => let '(vs, q) := progression n (step p) in (val p :: vs, q)
  end.

(** [n] values drawn one after the other *)
Fixpoint sample_list (log exp : double → double) (fuel n : nat) (p : pd_spec_t) (r : Z)
    : outcome (list double * pd_spec_t * Z) :=
  match n with
  | O => Ret ([], p, r)
  | S n =>
      '(v, p, r) ← pd_sample log exp fuel p r;
      '(vs, p, r) ← sample_list log exp fuel n p r;
      Ret (v :: vs, p, r)
  end.

Section Seq.
Context (log exp : double → double).
Implicit Types (p : pd_spec_t) (r : Z) (fuel n : nat).

Lemma draw_seq p r : is_seq p → draw log exp p r = Ret (val p, true, step p, r).
Proof. unfold draw, step. by intros [-> | ->]. Qed.

Lemma step_keeps p : is_seq p → SFltb (pd_max p) (pd_min p) = false →
  is_seq (step p) ∧ SFltb (pd_max (step p)) (pd_min (step p)) = false ∧
  out_of_bounds (step p) (val (step p)) = false.
Proof. intros Hp H. split_and!; [done|done|]. by apply saturate_within. Qed.

Lemma bounds_step p v : out_of_bounds (step p) v = out_of_bounds p v.
Proof. done. Qed.

Lemma sample_seq p r fuel : is_seq p → SFltb (pd_max p) (pd_min p) = false →
  pd_sample log exp (2 + fuel) p r = Ret (val (start p), step (start p), r).
Proof.
  intros Hp H. unfold start. change (2 + fuel)%nat with (S (S fuel)).
  cbn [pd_sample]. rewrite draw_seq by done. obind. cbn [andb]. rewrite bounds_step.
  destruct (out_of_bounds p (val p)) eqn:E; [|done].
  destruct (step_keeps p Hp H) as (Hp' & _ & E'). rewrite draw_seq by done. obind.
  cbn [andb]. by rewrite bounds_step, E'.
Qed.

Lemma sample_list_seq n p r fuel : is_seq p → SFltb (pd_max p) (pd_min p) = false →
  out_of_bounds p (val p) = false →
  sample_list log exp (2 + fuel) n p r =
    (let '(vs, q) := progression n p in Ret (vs, q, r)) ∧
  Forall (fun v => out_of_bounds p v = false) (progression n p).1.
Proof.
  revert p. induction n as [|n IH]; intros p Hp H E; [by split|].
  destruct (step_keeps p Hp H) as (Hp' & H' & E').
  cbn [sample_list progression]. rewrite sample_seq by done. obind. unfold start. rewrite E.
  destruct (IH (step p) Hp' H' E') as [-> F]. destruct (progression n (step p)) as [vs q].
  obind. split; [done|]. by constructor.
Qed.
End Seq.

(** [C18] A sequence never has to try more than twice: as long as its bounds do
    not cross, drawing [n] values terminates and gives the plain progression
    (val, val + step or val * step, saturated at the bounds, and so on) from
    its value on, or, when that is out of bounds, from the one after it; every
    value drawn is within the bounds, and the generator is not touched. *)
Theorem sequence_terminates (log exp : double → double) (n fuel : nat) (p : pd_spec_t) (r : Z) :
  is_seq p → SFltb (pd_max p) (pd_min p) = false →
  let '(vs, q) := progression (S n) (start p) in
  sample_list log exp (2 + fuel) (S n) p r = Ret (vs, q, r) ∧
  Forall (fun v => out_of_bounds p v = false) vs.
Proof.
  intros Hp H. destruct (step_keeps p Hp H) as (Hp' & H' & E').
  assert (Hst : is_seq (start p) ∧ SFltb (pd_max (start p)) (pd_min (start p)) = false ∧
    out_of_bounds (start p) (val (start p)) = false ∧ out_of_bounds (start p) = out_of_bounds p).
  { unfold start. by destruct (out_of_bounds p (val p)) eqn:E. }
  destruct Hst as (Hs & Hb & Hv & Ho).
  destruct (sample_list_seq log exp (S n) (start p) r fuel Hs Hb Hv) as [E F]. rewrite Ho in F.
  assert (Est : sample_list log exp (2 + fuel) (S n) p r = sample_list log exp (2 + fuel) (S n) (start p) r).
  { assert (Ess : start (start p) = start p) by (unfold start at 1; by rewrite Hv).
    cbn [sample_list]. by rewrite !sample_seq, Ess by done. }
  rewrite Est, E. destruct (progression (S n) (start p)) as [vs q]. done.
Qed.

(** ** Files *)

Record file_ok (p : pd_spec_t) : Prop := FileOk {
  fo_kind : prob p = SFILE;
  fo_num : num_samples p = Z.of_nat (length (samples p));
  fo_max : num_samples p < 2 ^ 31;
  fo_cur : 0 ≤ cur_sample p < num_samples p
}.

(** the [i]th sample from the current one, round and round *)
Definition nth_sample (p : pd_spec_t) (i : Z) : double :=
  nth (Z.to_nat ((cur_sample p + i) mod num_samples p)) (samples p) NAN.
Definition seek (p : pd_spec_t) (i : Z) : pd_spec_t :=
  with_samples p (samples p) (num_samples p) ((cur_sample p + i) mod num_samples p).

Section File.
Context (log exp : double → double).
Implicit Types (p : pd_spec_t) (r i : Z) (fuel k : nat).

Lemma seek_ok p i : file_ok p → file_ok (seek p i).
Proof. intros [H1 H2 H3 H4]. split; try done. cbn. apply Z.mod_pos_bound. lia. Qed.

Lemma nth_seek p i j : file_ok p → nth_sample (seek p i) j = nth_sample p (i + j).
Proof.
  intros [_ _ _ Hc]. unfold nth_sample, seek. cbn [with_samples cur_sample num_samples samples].
  by rewrite Zplus_mod_idemp_l, Z.add_assoc.
Qed.

Lemma seek_seek p i j : file_ok p → seek (seek p i) j = seek p (i + j).
Proof.
  intros [_ _ _ Hc]. unfold seek. cbn [with_samples cur_sample num_samples samples prob val std pd_min pd_max].
  by rewrite Zplus_mod_idemp_l, Z.add_assoc.
Qed.

Lemma draw_file p r : file_ok p → draw log exp p r = Ret (nth_sample p 0, true, seek p 1, r).
Proof.
  intros [Hk Hn Hm Hc]. unfold draw. rewrite Hk.
  destruct (arr_get_lt (samples p) (cur_sample p)) as [x Ex]; [lia|]. rewrite Ex. obind.
  rewrite int_ok by (unfold is_int; lia). obind. rewrite rem_pos by lia. obind.
  apply arr_get_inv in Ex as [_ Ex]. unfold nth_sample. rewrite Z.add_0_r, (Z.mod_small (cur_sample p)) by lia.
  by rewrite (nth_lookup_Some _ _ _ _ Ex).
Qed.

Lemma sample_file_found p r fuel k : file_ok p → (k < fuel)%nat →
  (∀ i, 0 ≤ i < Z.of_nat k → out_of_bounds p (nth_sample p i) = true) →
  out_of_bounds p (nth_sample p (Z.of_nat k)) = false →
  pd_sample log exp fuel p r = Ret (nth_sample p (Z.of_nat k), seek p (Z.of_nat k + 1), r).
Proof.
  revert p fuel. induction k as [|k IH]; intros p [|fuel] Hp Hf Hbad Hgood; try lia;
    cbn [pd_sample]; rewrite draw_file by done; obind; cbn [andb].
  - change (Z.of_nat 0) with 0 in *. change (out_of_bounds (seek p 1)) with (out_of_bounds p).
    by rewrite Hgood.
  - change (out_of_bounds (seek p 1)) with (out_of_bounds p). rewrite Hbad by lia.
    rewrite IH; [| |lia| |].
    + rewrite nth_seek, seek_seek by done. do 3 f_equal; [f_equal; lia|f_equal; lia].
    + by apply seek_ok.
    + intros i Hi. rewrite nth_seek by done. apply Hbad. lia.
    + rewrite nth_seek by done. rewrite <- Hgood. f_equal. f_equal. lia.
Qed.

Lemma sample_file_none p r fuel : file_ok p → (∀ i, 0 ≤ i → out_of_bounds p (nth_sample p i) = true) →
  pd_sample log exp fuel p r = Stop OutOfFuel.
Proof.
  revert p. induction fuel as [|fuel IH]; intros p Hp H; [done|]. cbn [pd_sample].
  rewrite draw_file by done. obind. change (out_of_bounds (seek p 1)) with (out_of_bounds p).
  rewrite H by lia. cbn [andb]. apply IH; [by apply seek_ok|]. intros i Hi.
  rewrite nth_seek by done. apply H. lia.
Qed.

Lemma nth_sample_elem p i : file_ok p → nth_sample p i ∈ samples p.
Proof.
  intros [_ Hn _ Hc]. unfold nth_sample. pose proof (Z.mod_pos_bound (cur_sample p + i) (num_samples p)).
  destruct (lookup_lt_is_Some_2 (samples p) (Z.to_nat ((cur_sample p + i) mod num_samples p))) as [x Ex]; [lia|].
  rewrite (nth_lookup_Some _ _ _ _ Ex). by eapply list_elem_of_lookup_2.
Qed.

Lemma elem_nth_sample p v : file_ok p → v ∈ samples p →
  ∃ k, (k < length (samples p))%nat ∧ nth_sample p (Z.of_nat k) = v.
Proof.
  intros [_ Hn _ Hc] [j Hj]%list_elem_of_lookup. pose proof (lookup_lt_Some _ _ _ Hj).
  exists (Z.to_nat ((Z.of_nat j - cur_sample p) mod num_samples p)).
  pose proof (Z.mod_pos_bound (Z.of_nat j - cur_sample p) (num_samples p)). split; [lia|].
  unfold nth_sample. rewrite Z2Nat.id by lia. rewrite Zplus_mod_idemp_r.
  replace (cur_sample p + (Z.of_nat j - cur_sample p)) with (Z.of_nat j) by lia.
  rewrite Z.mod_small, Nat2Z.id by lia. by apply nth_lookup_Some.
Qed.
End File.

(** [C19] Drawing from a file terminates exactly when some sample is within
    the bounds: then the value is the first such sample from the current one on,
    round and round, found within as many tries as there are samples, and the
    next draw starts behind it; when none is, no number of tries ends it. *)
Theorem file_sample_terminates (log exp : double → double) (p : pd_spec_t) (r : Z) : file_ok p →
  (∃ k : nat, (k < length (samples p))%nat ∧
     out_of_bounds p (nth_sample p (Z.of_nat k)) = false ∧
     (∀ i, 0 ≤ i < Z.of_nat k → out_of_bounds p (nth_sample p i) = true) ∧
     ∀ fuel, (k < fuel)%nat → pd_sample log exp fuel p r =
       Ret (nth_sample p (Z.of_nat k), seek p (Z.of_nat k + 1), r)) ∨
  ((∀ v, v ∈ samples p → out_of_bounds p v = true) ∧
   ∀ fuel, pd_sample log exp fuel p r = Stop OutOfFuel).
Proof.
  intros Hp. destruct (list_find (fun k => out_of_bounds p (nth_sample p (Z.of_nat k)) = false)
    (seq 0 (length (samples p)))) as [[j k]|] eqn:E.
  - apply list_find_Some in E as (Hj & Hg & Hlow). apply lookup_seq in Hj as [-> Hk]. left. exists j.
    assert (Hbad : ∀ i, 0 ≤ i < Z.of_nat j → out_of_bounds p (nth_sample p i) = true).
    { intros i Hi. apply not_false_iff_true. rewrite <- (Z2Nat.id i) by lia.
      apply (Hlow (Z.to_nat i)); [apply lookup_seq; lia|lia]. }
    split_and!; [lia|done|done|]. intros fuel Hf. by apply sample_file_found.
  - apply list_find_None in E. rewrite Forall_forall in E. right.
    assert (H : ∀ v, v ∈ samples p → out_of_bounds p v = true).
    { intros v Hv. destruct (elem_nth_sample p v Hp Hv) as (k & Hk & <-).
      apply not_false_iff_true, E. apply elem_of_seq. lia. }
    split; [done|]. intros fuel. apply sample_file_none; [done|]. intros i _.
    by apply H, nth_sample_elem.
Qed.

(** ** Bounds *)

(** what drawing never changes *)
Definition same_shape (p p' : pd_spec_t) : Prop :=
  prob p' = prob p ∧ std p' = std p ∧ pd_min p' = pd_min p ∧ pd_max p' = pd_max p ∧
  samples p' = samples p ∧ num_samples p' = num_samples p.

Section Bounds.
Context (log exp : double → double).
Implicit Types (p : pd_spec_t) (r : Z) (v : double) (fuel n : nat).

Lemma draw_shape p r v b p' r' : draw log exp p r = Ret (v, b, p', r') →
  same_shape p p' ∧ (b = false → prob p = FIXED ∨ prob p = UNIF).
Proof.
  unfold draw. intros E. destruct (prob p) eqn:Ek;
    repeat (case_match; try discriminate); inv_ret; try (split; [by split_and!|]; auto; done).
  destruct a as [x rx]. inv_ret. split; [by split_and!|done].
Qed.

Lemma sample_shape p r fuel v p' r' : pd_sample log exp fuel p r = Ret (v, p', r') →
  same_shape p p' ∧ (prob p = FIXED ∨ prob p = UNIF ∨ out_of_bounds p v = false).
Proof.
  revert p r. induction fuel as [|fuel IH]; intros p r E; [done|]. cbn [pd_sample] in E.
  apply bind_Ret_inv in E as ([[[v1 b] p1] r1] & Ed & E).
  apply draw_shape in Ed as [S Hb].
  assert (Hob : out_of_bounds p1 = out_of_bounds p).
  { destruct S as (_ & _ & E1 & E2 & _). unfold out_of_bounds. by rewrite E1, E2. }
  destruct (b && out_of_bounds p1 v1) eqn:Eb.
  - apply IH in E as [S' H']. destruct S as (E1 & E2 & E3 & E4 & E5 & E6).
    rewrite Hob, E1 in H'. split; [|done].
    destruct S' as (F1 & F2 & F3 & F4 & F5 & F6). by split_and!; etransitivity.
  - injection E as <- <- <-. split; [done|]. destruct b; [|destruct Hb; auto].
    right; right. by rewrite <- Hob.
Qed.

(** the values drawn one after the other, rejected or not *)
Inductive draws : pd_spec_t → Z → double → Prop :=
  | draws_now p r v b p' r' : draw log exp p r = Ret (v, b, p', r') → draws p r v
  | draws_later p r v b p' r' w : draw log exp p r = Ret (v, b, p', r') → draws p' r' w → draws p r w.

Lemma sample_draws p r fuel v p' r' : pd_sample log exp fuel p r = Ret (v, p', r') → draws p r v.
Proof.
  revert p r. induction fuel as [|fuel IH]; intros p r E; [done|]. cbn [pd_sample] in E.
  apply bind_Ret_inv in E as ([[[v1 b] p1] r1] & Ed & E).
  destruct (b && out_of_bounds p1 v1).
  - eapply draws_later; [exact Ed|]. by eapply IH.
  - injection E as <- <- <-. by eapply draws_now.
Qed.

(** a file draws its samples *)
Lemma draws_file p r v : draws p r v → file_ok p → v ∈ samples p.
Proof.
  induction 1 as [p r v b p' r' E|p r v b p' r' w E _ IH]; intros Hp; rewrite draw_file in E by done;
    injection E as <- <- <- <-; [by apply nth_sample_elem|]. by apply IH, seek_ok.
Qed.

(** within the bounds that are set *)
Definition within p v : Prop :=
  (isnan (pd_min p) = false → SFleb (pd_min p) v = true) ∧
  (isnan (pd_max p) = false → SFleb v (pd_max p) = true).

Lemma within_bounds p v : out_of_bounds p v = false → isnan v = false → within p v.
Proof.
  unfold out_of_bounds. intros [H1 H2]%orb_false_iff Hv.
  apply andb_false_iff in H1, H2. rewrite !negb_false_iff in H1, H2.
  split; intros Hm; apply SFltb_false; try done.
  - destruct H1 as [H1|H1]; [congruence|done].
  - destruct H2 as [H2|H2]; [congruence|done].
Qed.

Lemma SFltb_SFleb x y : SFltb x y = true → SFleb y x = false.
Proof.
  unfold SFltb, SFleb.
  destruct x as [|s1| |s1 m1 e1], y as [|s2| |s2 m2 e2]; try done; cbn [SFcompare];
    try (destruct s1); try (destruct s2); try done;
    change (Pos.compare_cont Eq m1 m2) with (m1 ?= m2)%positive;
    change (Pos.compare_cont Eq m2 m1) with (m2 ?= m1)%positive;
    rewrite (Z.compare_antisym e2 e1), (Pos.compare_antisym m2 m1);
    by destruct (e2 ?= e1)%Z, (m2 ?= m1)%positive.
Qed.

(** no number lies between bounds that cross *)
Lemma crossing_bounds p v : SFltb (pd_max p) (pd_min p) = true → out_of_bounds p v = false →
  isnan v = true.
Proof.
  intros Hx H. destruct (isnan v) eqn:Ev; [done|]. destruct (SFltb_nan _ _ Hx) as [Hn1 Hn2].
  unfold out_of_bounds in H. rewrite Hn1, Hn2 in H. cbn [negb andb] in H.
  apply orb_false_iff in H as [H1 H2].
  by rewrite (between_bounds (pd_min p) v (pd_max p)) in Hx.
Qed.
End Bounds.

(** [C20] What is drawn from a truncated distribution (any kind but a constant
    or a uniform one, which are not checked) is within its bounds if it is a
    number: neither below min nor above max, for each of the two that is set.
    Only a NaN passes the test of the bounds outside them. Drawing changes
    neither the kind nor the parameters, the bounds or the samples. So when the
    bounds cross (min above max, which the parser accepts) what is returned can
    only be a NaN, and a distribution whose draws are all numbers, such as a
    file of numbers, never returns, however often it tries. *)
Theorem truncated_sample (log exp : double → double) (p : pd_spec_t) (r : Z) :
  prob p ≠ FIXED → prob p ≠ UNIF →
  (∀ fuel v p' r', pd_sample log exp fuel p r = Ret (v, p', r') →
     same_shape p p' ∧ (isnan v = false → within p v) ∧
     (SFltb (pd_max p) (pd_min p) = true → isnan v = true)) ∧
  (SFltb (pd_max p) (pd_min p) = true → (∀ v, draws log exp p r v → isnan v = false) →
     ∀ fuel v p' r', pd_sample log exp fuel p r ≠ Ret (v, p', r')).
Proof.
  intros Hf Hu.
  assert (H : ∀ fuel v p' r', pd_sample log exp fuel p r = Ret (v, p', r') →
    same_shape p p' ∧ out_of_bounds p v = false).
  { intros fuel v p' r' E. by apply sample_shape in E as [S [H|[H|H]]]. }
  split.
  - intros fuel v p' r' [S Hb]%H. split; [done|]. split; [by apply within_bounds|].
    intros Hx. by eapply crossing_bounds.
  - intros Hx Hn fuel v p' r' E. apply H in E as Hb. destruct Hb as [_ Hb].
    apply sample_draws, Hn in E. by rewrite (crossing_bounds p v Hx Hb) in E.
Qed.

(** ** What the parser accepts *)

(** The kinds the parser accepts and pd_sample refuses: none, and a gamma
    distribution whose shape avg^2 / std^2 is no integer (to 1e-5). *)
Definition refused (p : pd_spec_t) : bool :=
  match prob p with
  | PD_NONE => true
  | GAMMA =>
      let k := div (val p) (div (mul (std p) (std p)) (val p)) in
      match lrint k with
      | Ret i => negb (SFltb (SFabs (sub (of_Z (s32 i)) k)) (div (of_Z 1) (of_Z 100000)))
      | Stop _ => true
      end
  | _ => false
  end.
Definition safe (p : pd_spec_t) : Prop := refused p = false ∧ (prob p = SFILE → file_ok p).

Section Safe.
Context `{Scan} (log exp : double → double).
Implicit Types (p : pd_spec_t) (s : parse_t) (t : bool).

Lemma draw_refused p r : refused p = true → draw log exp p r = Stop CheckFailed.
Proof.
  unfold refused, draw, distr_gamma. destruct (prob p); try done. intros Hr.
  destruct (lrint _) as [i|]; [|done]. obind. unfold check. by destruct (SFltb _ _).
Qed.

Lemma refused_shape p p' : prob p' = prob p → prob p ≠ GAMMA → refused p = false → refused p' = false.
Proof. unfold refused. intros ->. by destruct (prob p). Qed.

Lemma draw_safe p r : safe p → ∃ v b p' r', draw log exp p r = Ret (v, b, p', r') ∧ safe p'.
Proof.
  intros (H2 & H3). destruct (decide (prob p = SFILE)) as [Hf|Hf].
  { specialize (H3 Hf). rewrite draw_file by done. do 4 eexists. split; [done|].
    split; [by eapply refused_shape, H2; cbn; congruence|]. intros _. by apply seek_ok. }
  destruct (decide (prob p = GAMMA)) as [Hg|Hg].
  { unfold draw. rewrite Hg. unfold distr_gamma. pose proof H2 as Hr. unfold refused in Hr.
    rewrite Hg in Hr. destruct (lrint _) as [i|]; [|done]. apply negb_false_iff in Hr. obind.
    unfold check. rewrite Hr. obind. destruct (gamma_loop _ _ _ _ _) as [v r']. obind.
    do 4 eexists. split; [reflexivity|]. by split. }
  pose proof (refused_shape p) as Hs.
  unfold draw. destruct (prob p) eqn:Ek; try done; repeat case_match;
    try (unfold refused in H2; by rewrite Ek in H2);
    do 4 eexists; (split; [reflexivity|]); (split; [by apply Hs|]); cbn; rewrite ?Ek; done.
Qed.

Lemma sample_list_safe fuel n p r : safe p →
  match sample_list log exp fuel n p r with Ret (_, p', _) => safe p' | Stop e => e = OutOfFuel end.
Proof.
  assert (Hs : ∀ fuel p r, safe p → match pd_sample log exp fuel p r with
    | Ret (_, p', _) => safe p' | Stop e => e = OutOfFuel end).
  { clear. intros fuel. induction fuel as [|fuel IH]; intros p r Hp; [done|]. cbn [pd_sample].
    destruct (draw_safe p r Hp) as (v & b & p' & r' & -> & Hp'). obind.
    destruct (b && out_of_bounds p' v); [|done]. by apply IH. }
  revert p r. induction n as [|n IH]; intros p r Hp; [done|]. cbn [sample_list].
  specialize (Hs fuel p r Hp). destruct (pd_sample log exp fuel p r) as [[[v p'] r']|]; obind; [|done].
  specialize (IH p' r' Hs). by destruct (sample_list log exp fuel n p' r') as [[[vs p2] r2]|].
Qed.

Lemma try_set_ensures r f o (P : parse_t → Prop) :
  (∀ v, P (f v)) → ensures o P → ensures (try_set r f o) P.
Proof. intros Hf Ho. unfold try_set. destruct r as [[v|]|]; cbn; [apply Hf|done|done]. Qed.

Lemma parse_toks_ensures (P : parse_t → Prop) t toks s :
  (∀ s tok, P s → ensures (parse_tok s tok t) P) → P s → ensures (parse_toks s toks t) P.
Proof.
  intros HP. revert s. induction toks as [|tok toks IH]; intros s Hs; [done|]. cbn [parse_toks].
  apply ensures_bind. eapply ensures_mono; [by apply HP|]. done.
Qed.

Lemma parse_tok_kind s tok t k : prob (spec s) = k → ensures (parse_tok s tok t) (fun s' => prob (spec s') = k).
Proof.
  intros Hk. unfold parse_tok. repeat (apply try_set_ensures; [done|]).
  case_match; [done|]. repeat (apply try_set_ensures; [done|]).
  unfold parse_file. destruct (negb _); [done|].
  destruct (strip "sep=" tok); [|by repeat case_match]. by destruct (check _).
Qed.

Lemma derive_shape s : let p := derive exp s in prob p = prob (spec s) ∧ samples p = samples (spec s) ∧
  num_samples p = num_samples (spec s) ∧ cur_sample p = cur_sample (spec s).
Proof. unfold derive. cbv zeta. repeat case_match; done. Qed.

Lemma load_file_ok p lines c sp p' : prob p = SFILE → pd_load_file p lines c sp = Ret p' → file_ok p'.
Proof.
  intros Hk E. unfold pd_load_file in E. destruct lines as [lines|]; [|done].
  apply bind_Ret_inv in E as (vs & _ & E). apply bind_Ret_inv in E as (n & En & E).
  apply int_inv in En as [-> Hn]. unfold is_int in Hn.
  destruct (Z.eqb_spec (Z.of_nat (length vs)) 0); [done|]. injection E as <-.
  split; cbn; [done|done|lia|lia].
Qed.

Lemma file_ok_scaled p u : file_ok p →
  file_ok (with_samples p ((fun x => mul x u) <$> samples p) (num_samples p) (cur_sample p)).
Proof. intros [H1 H2 H3 H4]. split; try done. cbn. by rewrite length_fmap. Qed.

Lemma file_ok_same p p' : prob p' = prob p → samples p' = samples p → num_samples p' = num_samples p →
  cur_sample p' = cur_sample p → file_ok p → file_ok p'.
Proof. intros E1 E2 E3 E4 [H1 H2 H3 H4]. split; rewrite ?E1, ?E2, ?E3, ?E4; done. Qed.

Lemma parse_file_ok files str t p : pd_parse_internal exp files str t = Ret p →
  acceptable p = true ∧ (prob p = SFILE → file_ok p).
Proof.
  intros E. unfold pd_parse_internal in E. destruct (split ":" str) as [|tok toks]; [done|].
  apply bind_Ret_inv in E as (p0 & E0 & E). apply bind_Ret_inv in E as (s1 & E1 & E).
  apply bind_Ret_inv in E as (s2 & E2 & E). apply bind_Ret_inv in E as ([] & Ea & E).
  injection E as <-. split; [by destruct (acceptable _)|].
  destruct (derive_shape s2) as (D1 & D2 & D3 & D4). rewrite D1. intros Hk.
  apply (file_ok_same (spec s2)); [done..|]. destruct (decide (prob (spec s1) = SFILE)) as [Hs|Hs].
  - rewrite bool_decide_true in E2 by done. apply bind_Ret_inv in E2 as (f & _ & E2).
    apply bind_Ret_inv in E2 as (p & El & E2). injection E2 as <-. cbn [with_spec spec].
    by apply file_ok_scaled, (load_file_ok _ _ _ _ _ Hs El).
  - rewrite bool_decide_false in E2 by done. by injection E2 as <-.
Qed.
End Safe.

(** [C21] What the parser accepts is safe to draw from, or refused at the first
    draw: for any text, as a number of bytes, a time or a plain value, with
    whatever files, if it gives a distribution, then either that is none or a
    gamma distribution whose shape is no integer, and every draw fails the check
    of pd_sample made for it; or drawing any number of values from it never
    indexes outside the samples of its file, never divides by zero and fails no
    check, for any state of the generator: the only way not to return is to go
    on trying. *)
Theorem parsed_is_safe `{Scan} (log exp : double → double) (files : string → option (list string))
    (str : string) (is_time : bool) (p : pd_spec_t) (fuel n : nat) (r : Z) :
  pd_parse_internal exp files str is_time = Ret p →
  (refused p = true → pd_sample log exp (S fuel) p r = Stop CheckFailed) ∧
  (refused p = false →
     match sample_list log exp fuel n p r with Ret (_, p', _) => safe p' | Stop e => e = OutOfFuel end).
Proof.
  intros E. apply parse_file_ok in E as [_ Hf]. split; intros Hr.
  - cbn [pd_sample]. by rewrite draw_refused.
  - by apply sample_list_safe.
Qed.

(** ** The syntax of the manual *)

Lemma parse_tok_one_bound `{Scan} s tok t :
  isnan (pd_min (spec s)) = true → isnan (pd_max (spec s)) = true →
  ensures (parse_tok s tok t) (fun s' => isnan (pd_min (spec s')) || isnan (pd_max (spec s')) = true).
Proof.
  intros H1 H2. unfold parse_tok. repeat (apply try_set_ensures; [intros; cbn; rewrite ?H1, ?H2, ?orb_true_r; done|]).
  case_match; [cbn; by rewrite H1|].
  repeat (apply try_set_ensures; [intros; cbn; rewrite ?H1, ?H2, ?orb_true_r; done|]).
  unfold parse_file. destruct (negb _); [done|].
  destruct (strip "sep=" tok); [|repeat case_match; cbn; by rewrite ?H1].
  destruct (check _); cbn; by rewrite ?H1.
Qed.

Lemma derive_unif exp s : prob (spec s) = UNIF → derive exp s = spec s.
Proof.
  intros Hk. unfold derive. cbv zeta. rewrite Hk.
  assert (E : ∀ k, k ≠ UNIF → bool_decide (UNIF = k) = false) by (intros k ?; by apply bool_decide_false).
  by do 7 (rewrite ?Hk, ?(E GAMMA), ?(E ARITH_SEQ), ?(E GEO_SEQ), ?(E LOGNORM) by done; cbn [andb]).
Qed.

(** The manual separates the parameters with commas (unif:min=a,max=b);
    the parser only with colons, so everything behind "unif:" is one token, of
    which one bound at most is read: no text of that form is ever accepted. *)
Theorem unif_commas_rejected `{Scan} (exp : double → double) (files : string → option (list string))
    (t : string) (is_time : bool) : free ":" t = true →
  match pd_parse_internal exp files ("unif:" ++ t) is_time with Ret _ => False | Stop _ => True end.
Proof.
  intros Hn. unfold pd_parse_internal.
  assert (Es : split ":" ("unif:" ++ t) = ["unif"%string; t]).
  { change ("unif:" ++ t)%string with ("unif" ++ String ":" t)%string.
    rewrite split_app by done. by rewrite split_free. }
  rewrite Es. change (parse_kind "unif" is_time) with (Ret (MkPd UNIF NAN NAN NAN NAN [] 0 0)). obind.
  set (s0 := MkParse _ _ _ _ _ _ _ _ _). cbn [parse_toks].
  pose proof (parse_tok_one_bound s0 t is_time eq_refl eq_refl) as Hb.
  pose proof (parse_tok_kind s0 t is_time UNIF eq_refl) as Hk.
  destruct (parse_tok s0 t is_time) as [s|]; [|done]. cbn [ensures] in Hb, Hk. obind.
  rewrite Hk, bool_decide_false by done. obind.
  rewrite derive_unif by done. unfold acceptable. by rewrite Hk, <- negb_orb, Hb.
Qed.

(** ** Examples *)

(** a conversion of decimal numbers *)
#[local] Instance decimal : Scan := {|
  scan_lf s := '(n, _) ← scan_int s; Some (of_Z n);
  scan_d s := '(n, _) ← scan_int s; Some n |}.

Definition csv (f : string) : option (list string) :=
  if String.eqb f "data.csv" then Some ["t,n"; "5,100"; "7,30"; "9,20"]%string else None.
Definition parsed (str : string) : pd_spec_t :=
  match pd_parse id csv str with Ret p => p | Stop _ => pd_build_none end.

Lemma sequence_terminates_witness :
  sample_list id id 2 6 (parsed "aseq:min=10:max=50:step=15") 0 =
    Ret (of_Z <$> [10; 25; 40; 50; 50; 50],
         with_val (parsed "aseq:min=10:max=50:step=15") (of_Z 50), 0).
Proof.
  pose proof (sequence_terminates id id 5 0 (parsed "aseq:min=10:max=50:step=15") 0) as H.
  specialize (H ltac:(left; vm_compute; reflexivity) ltac:(vm_compute; reflexivity)).
  destruct (progression 6 (start (parsed "aseq:min=10:max=50:step=15"))) as [vs q] eqn:E.
  vm_compute in E. destruct H as [H _]. cbn [Nat.add] in H. rewrite H. injection E as <- <-. reflexivity.
Defined.

Lemma file_sample_terminates_witness :
  file_ok (parsed "file:data.csv:col=1:max=50") ∧
  pd_sample id id 2 (parsed "file:data.csv:col=1:max=50") 0 =
    Ret (of_Z 30, seek (parsed "file:data.csv:col=1:max=50") 2, 0).
Proof.
  assert (Hp : file_ok (parsed "file:data.csv:col=1:max=50")).
  { split; vm_compute; try reflexivity. split; [discriminate|reflexivity]. }
  split; [exact Hp|].
  destruct (file_sample_terminates id id _ 0 Hp) as [(k & Hk & Hg & Hb & Hs)|[Hall _]].
  - assert (k = 1%nat) as ->.
    { change (k < 3)%nat in Hk. destruct k as [|[|k]]; [vm_compute in Hg; discriminate|reflexivity|].
      exfalso. specialize (Hb 1 ltac:(lia)). vm_compute in Hb. discriminate. }
    rewrite (Hs 2%nat ltac:(lia)). vm_compute. reflexivity.
  - exfalso. specialize (Hall (of_Z 30)). assert (of_Z 30 ∈ samples (parsed "file:data.csv:col=1:max=50")) as Hin.
    { vm_compute. right. left. }
    specialize (Hall Hin). vm_compute in Hall. discriminate.
Defined.

(** an exponential distribution cut at its average, with [log] replaced by the
    identity, and a file whose bounds cross *)
Lemma truncated_sample_witness :
  (∃ v p' r', pd_sample id id 5 (parsed "exp:100:max=100") 0 = Ret (v, p', r') ∧
    SFleb v (of_Z 100) = true) ∧
  ∀ fuel v p' r', pd_sample id id fuel (parsed "file:data.csv:col=1:min=50:max=20") 0 ≠ Ret (v, p', r').
Proof.
  split.
  - destruct (pd_sample id id 5 (parsed "exp:100:max=100") 0) as [[[v p'] r']|] eqn:E;
      [|vm_compute in E; discriminate].
    exists v, p', r'. split; [reflexivity|].
    destruct (truncated_sample id id (parsed "exp:100:max=100") 0) as [H _]; [vm_compute; discriminate..|].
    destruct (H 5%nat v p' r' E) as (_ & Hv & _). vm_compute in E. injection E as <- _ _.
    destruct Hv as [_ Hm]; [reflexivity|]. apply Hm. reflexivity.
  - apply (truncated_sample id id (parsed "file:data.csv:col=1:min=50:max=20") 0);
      [vm_compute; discriminate..|vm_compute; reflexivity|].
    intros v Hv. apply draws_file in Hv;
      [|split; vm_compute; try reflexivity; split; [discriminate|reflexivity]].
    assert (Hall : Forall (fun v => isnan v = false) (samples (parsed "file:data.csv:col=1:min=50:max=20"))).
    { vm_compute. repeat constructor. }
    rewrite Forall_forall in Hall. by apply Hall.
Defined.

Lemma parsed_is_safe_witness :
  (match sample_list id id 9 4 (parsed "file:data.csv:col=1:max=50") 7 with
   | Ret (_, p', _) => safe p' | Stop e => e = OutOfFuel end) ∧
  (match sample_list id id 9 2 (parsed "gamma:k=2:scale=3") 7 with
   | Ret (_, p', _) => safe p' | Stop e => e = OutOfFuel end) ∧
  pd_sample id id 9 (parsed "gamma:6:std=4") 7 = Stop CheckFailed.
Proof.
  split; [|split].
  - refine (proj2 (parsed_is_safe id id csv "file:data.csv:col=1:max=50" false
      (parsed "file:data.csv:col=1:max=50") 9 4 7 _) _); vm_compute; reflexivity.
  - refine (proj2 (parsed_is_safe id id csv "gamma:k=2:scale=3" false
      (parsed "gamma:k=2:scale=3") 9 2 7 _) _); vm_compute; reflexivity.
  - refine (proj1 (parsed_is_safe id id csv "gamma:6:std=4" false
      (parsed "gamma:6:std=4") 8 0 7 _) _); vm_compute; reflexivity.
Defined.

(** the example of the manual *)
Lemma unif_commas_rejected_witness :
  match pd_parse_time id csv "unif:min=10ms,max=20ms" with Ret _ => False | Stop _ => True end.
Proof.
  apply (unif_commas_rejected id csv "min=10ms,max=20ms" true).
  reflexivity.
Defined.
