(* ===== verification/Compute.v ===== *)
(** * The time a COMPUTE command takes (src/src/dw_node.c: compute_for and its
      calibration)

    A node computes by looping: either until the clock of the thread has
    advanced enough (compute_for_freqinv), or a number of rounds of [loop] that
    is the time asked for multiplied by loops_per_usec, which the node measures
    once (compute_loops_per_usec) and keeps in a file. What a turn of these loops
    sees, the clock and the flag [running], is an argument. *)

From Stdlib Require Import String SpecFloat.
From S2P Require Import Prelude Text Timespec Distrib.

Local Open Scope Z_scope.

(** what one turn sees: the clock of the thread, and [running] when it is read
    (after the clock in compute_for_freqinv, before it in the others) *)
Record look := Look { now : timespec; running : bool }.

(** ** Until the clock has advanced *)

(** [do ... while (running && ts_sub_us(ts_end, ts_beg) < usecs)], the difference
    converted to unsigned: the turns not used *)
Fixpoint freqinv_loop (usecs : Z) (ts_beg : timespec) (looks : list look) : outcome (list look) :=
  match looks with
  | [] => Stop OutOfFuel
  | l :: looks =>
      if running l then
        d ← ts_sub_us (now l) ts_beg;
        if u64 d <? usecs then freqinv_loop usecs ts_beg looks else Ret looks
      else Ret looks
  end.
Definition compute_for_freqinv (usecs : Z) (ts_beg : timespec) (looks : list look) : outcome (list look) :=
  freqinv_loop usecs ts_beg looks.

(** ** Rounds of a loop *)

(** the sum of a hundred calls of rand(); the loops below call it only for the
    time it takes *)
Fixpoint loop_from (n : nat) (i : Z) (rand : Z → Z) (acc : Z) : outcome Z :=
  match n with
  | O => Ret acc
  | S n => acc ← long_ (acc + rand i); loop_from n (i + 1) rand acc
  end.
Definition loop (rand : Z → Z) : outcome Z := loop_from 100 0 rand 0.

(** [if (elapsed_min_ns == 0 || elapsed_ns < elapsed_min_ns)] *)
Definition keep_min (m e : Z) : Z := if (m =? 0) || (e <? m) then e else m.
(** the time since the last reading; it becomes the last reading *)
Definition lap (ts_beg : timespec) (m : Z) (l : look) : outcome Z :=
  e ← ts_sub_ns (now l) ts_beg; Ret (keep_min m (u64 e)).

(** at most [n] turns *)
Fixpoint calibrate_loop (n : nat) (ts_beg : timespec) (m : Z) (looks : list look) : outcome Z :=
  match n with
  | O => Ret m
  | S n =>
      match looks with
      | [] => Stop OutOfFuel
      | l :: looks =>
          if negb (running l) then Ret m
          else m ← lap ts_beg m l; calibrate_loop n (now l) m looks
      end
  end.
Definition compute_loops_per_usec (ts_beg : timespec) (looks : list look) : outcome double :=
  m ← calibrate_loop (Z.to_nat 100000) ts_beg 0 looks;
  Ret (if 0 <? m then Double.div (Double.of_Z 1000) (Double.of_Z m) else Double.of_Z 0).

(** [for (int i = 0; i < nloops; i++)]: the int is compared as unsigned long;
    the rounds run *)
Fixpoint spin_loop (nloops i : Z) (ts_beg : timespec) (m : Z) (looks : list look) : outcome Z :=
  if u64 i <? nloops then
    match looks with
    | [] => Stop OutOfFuel
    | l :: looks =>
        if negb (running l) then Ret i
        else m ← lap ts_beg m l; i ← int_ (i + 1); spin_loop nloops i (now l) m looks
    end
  else Ret i.

(** [usecs * loops_per_usec], a double converted to unsigned long *)
Definition rounds_of (usecs : Z) (lps : double) : outcome Z :=
  n ← deref (Double.trunc (Double.mul (Double.of_Z usecs) lps));
  if (0 <=? n) && (n <? 2 ^ 64) then Ret n else Stop UB.
(** the rounds run, none when the clock decides *)
Definition compute_for (lps : double) (usecs : Z) (ts_beg : timespec) (looks : list look) : outcome (option Z) :=
  if SFeqb lps (Double.of_Z (-1)) then _ ← compute_for_freqinv usecs ts_beg looks; Ret None
  else n ← rounds_of usecs lps; i ← spin_loop n 0 ts_beg 0 looks; Ret (Some i).

(** ** The file of the calibration *)

(** the file of main(): loops_per_usec and what is written; [read] gives the
    text of a file that can be opened, [writable] tells whether it can be
    opened for writing, which the code does not test *)
Section Calibration.
Context `{!Pd.Scan}.
Definition lps_file (home : option string) : string :=
  (default "." home ++ "/" ++ ".dw_loops_per_usec")%string.
Definition calibrate (lps : double) (home : option string) (read : string → option string)
    (writable : string → bool) (ts_beg : timespec) (looks : list look)
    : outcome (double * option (string * double)) :=
  if SFeqb lps (Double.of_Z 0) then
    let fname := lps_file home in
    let lps := match read fname with Some t => default lps (Pd.scan_lf t) | None => lps end in
    if SFeqb lps (Double.of_Z 0) then
      lps ← compute_loops_per_usec ts_beg looks;
      if writable fname then Ret (lps, Some (fname, lps)) else Stop UB
    else Ret (lps, None)
  else Ret (lps, None).
End Calibration.

(** ** Lemmas *)

Lemma ts_sub_ns_small a b : ts_small a → ts_small b → ts_sub_ns a b = Ret (total_ns a - total_ns b).
Proof.
  intros Ha Hb. destruct (ts_sub_small a b Ha Hb) as (c & Hc & Hn & Ht & Hs).
  unfold ts_sub_ns. rewrite Hc. obind. unfold ts_small, sec_small, normal, total_ns in *.
  rewrite long_ok by (unfold is_long; lia). obind. rewrite long_ok by (unfold is_long; lia). f_equal. lia.
Qed.
Lemma total_small t : ts_small t → - 2 ^ 62 < total_ns t < 2 ^ 62.
Proof. unfold ts_small, normal, sec_small, total_ns. lia. Qed.

(** a clock that runs forward from [t] *)
Fixpoint forward (t : timespec) (looks : list look) : Prop :=
  match looks with
  | [] => True
  | l :: looks => ts_small (now l) ∧ total_ns t ≤ total_ns (now l) ∧ forward (now l) looks
  end.

(** With a clock that runs forward, compute_for_freqinv returns at the first
    reading at which the time asked for has passed, whole microseconds, and not
    before. *)
Lemma freqinv_first usecs beg before l rest : ts_small beg → 0 ≤ usecs →
  Forall (fun l => ts_small (now l) ∧ running l = true ∧
    total_ns beg ≤ total_ns (now l) < total_ns beg + usecs * 1000) before →
  ts_small (now l) → running l = true → total_ns beg + usecs * 1000 ≤ total_ns (now l) →
  compute_for_freqinv usecs beg (before ++ l :: rest) = Ret rest.
Proof.
  intros Hb Hu Hbf Hl Hr Ht. unfold compute_for_freqinv.
  pose proof (total_small _ Hb). induction Hbf as [|x before (Hx & Hrx & Htx) Hbf IH]; cbn [app freqinv_loop].
  - rewrite Hr, ts_sub_us_floor by done. obind. pose proof (total_small _ Hl).
    unfold u64. rewrite Z.mod_small by dlia. destruct (Z.ltb_spec ((total_ns (now l) - total_ns beg) / 1000) usecs); [dlia|done].
  - rewrite Hrx, ts_sub_us_floor by done. obind. pose proof (total_small _ Hx).
    unfold u64. rewrite Z.mod_small by dlia.
    destruct (Z.ltb_spec ((total_ns (now x) - total_ns beg) / 1000) usecs); [exact IH|dlia].
Qed.

(** it also stops at the first turn that finds the node stopping *)
Lemma freqinv_stopped usecs beg before l rest : ts_small beg →
  Forall (fun l => ts_small (now l) ∧ running l = true ∧
    total_ns beg ≤ total_ns (now l) < total_ns beg + usecs * 1000) before →
  running l = false → compute_for_freqinv usecs beg (before ++ l :: rest) = Ret rest.
Proof.
  intros Hb Hbf Hr. unfold compute_for_freqinv.
  pose proof (total_small _ Hb). induction Hbf as [|x before (Hx & Hrx & Htx) Hbf IH]; cbn [app freqinv_loop].
  - by rewrite Hr.
  - rewrite Hrx, ts_sub_us_floor by done. obind. pose proof (total_small _ Hx).
    unfold u64. rewrite Z.mod_small by dlia.
    destruct (Z.ltb_spec ((total_ns (now x) - total_ns beg) / 1000) usecs); [exact IH|dlia].
Qed.

Lemma loop_total n i rand acc : (∀ i, 0 ≤ rand i < 2 ^ 31) → (n ≤ 100)%nat → 0 ≤ acc < (100 - Z.of_nat n) * 2 ^ 31 + 1 →
  ∃ s, loop_from n i rand acc = Ret s ∧ 0 ≤ s ≤ 100 * 2 ^ 31.
Proof.
  intros Hr. revert i acc. induction n as [|n IH]; intros i acc Hn Ha; [by exists acc; split; [|lia]|].
  cbn [loop_from]. pose proof (Hr i). rewrite long_ok by (unfold is_long; lia). obind. apply IH; lia.
Qed.

(** the times of the turns, from reading to reading *)
Fixpoint laps (t : timespec) (looks : list look) : list Z :=
  match looks with [] => [] | l :: looks => (total_ns (now l) - total_ns t) :: laps (now l) looks end.

(** The calibration keeps the least of the times of the rounds, as long as the
    clock has advanced in each: a round of no time makes it forget those before. *)
Lemma keep_min_zero m : keep_min m 0 = (if m =? 0 then 0 else if 0 <? m then 0 else m).
Proof. unfold keep_min. by destruct (m =? 0). Qed.
Lemma lap_ok t m l : ts_small t → ts_small (now l) → total_ns t ≤ total_ns (now l) →
  lap t m l = Ret (keep_min m (total_ns (now l) - total_ns t)).
Proof.
  intros Ht Hl Hle. unfold lap. rewrite ts_sub_ns_small by done. obind.
  pose proof (total_small _ Ht). pose proof (total_small _ Hl). unfold u64. by rewrite Z.mod_small by lia.
Qed.
Lemma calibrate_least looks : ∀ t m, ts_small t → forward t looks → Forall (fun l => running l = true) looks →
  calibrate_loop (length looks) t m looks = Ret (foldl keep_min m (laps t looks)).
Proof.
  induction looks as [|l looks IH]; intros t m Ht Hf Hr; [done|].
  destruct Hf as (Hl & Hle & Hf). apply Forall_cons in Hr as [Hr Hrs].
  cbn [length calibrate_loop laps foldl]. rewrite Hr. cbn [negb]. rewrite lap_ok by done. obind. by apply IH.
Qed.
Lemma keep_min_positive es m : Forall (fun e => 0 < e) es → 0 < m →
  let r := foldl keep_min m es in 0 < r ≤ m ∧ Forall (fun e => r ≤ e) es ∧ r ∈ m :: es.
Proof.
  intros He. revert m. induction He as [|e es He Hes IH]; intros m Hm; cbn [foldl].
  { split; [lia|]. split; [done|]. by apply list_elem_of_here. }
  assert (K : keep_min m e = Z.min m e).
  { unfold keep_min. destruct (Z.eqb_spec m 0); [lia|]. cbn [orb]. destruct (Z.ltb_spec e m); lia. }
  rewrite K. destruct (IH (Z.min m e) ltac:(lia)) as (H1 & H2 & H3).
  split; [lia|]. split; [constructor; [lia|done]|].
  apply elem_of_cons in H3 as [->|H3]; [|by do 2 apply list_elem_of_further].
  destruct (Z.min_spec m e) as [[_ ->]|[_ ->]]; [apply list_elem_of_here|apply list_elem_of_further, list_elem_of_here].
Qed.

(** compute_for runs the rounds asked for, while the node runs, when they are
    less than 2^31 ... *)
Lemma spin_all k : ∀ looks i t m, 0 ≤ i → i + Z.of_nat k < 2 ^ 31 → (k ≤ length looks)%nat → ts_small t →
  forward t looks → Forall (fun l => running l = true) looks →
  spin_loop (i + Z.of_nat k) i t m looks = Ret (i + Z.of_nat k).
Proof.
  induction k as [|k IH]; intros looks i t m Hi Hk Hl Ht Hf Hr.
  - rewrite Z.add_0_r. destruct looks; cbn [spin_loop]; unfold u64; rewrite Z.mod_small by lia; by rewrite Z.ltb_irrefl.
  - destruct looks as [|l looks]; [cbn in Hl; lia|]. destruct Hf as (Hn & Hle & Hf). apply Forall_cons in Hr as [Hr Hrs].
    cbn [spin_loop]. unfold u64. rewrite Z.mod_small by lia.
    destruct (Z.ltb_spec i (i + Z.of_nat (S k))); [|lia]. rewrite Hr. cbn [negb]. rewrite lap_ok by done. obind.
    rewrite int_ok by (unfold is_int; lia). obind.
    replace (i + Z.of_nat (S k)) with (i + 1 + Z.of_nat k) by lia. apply IH; try done; [lia|lia|].
    cbn [length] in Hl. lia.
Qed.
(** ... and overflows its counter otherwise *)
Lemma spin_overflow nloops t m l looks : 2 ^ 31 ≤ nloops → ts_small t → ts_small (now l) →
  total_ns t ≤ total_ns (now l) → running l = true →
  spin_loop nloops (2 ^ 31 - 1) t m (l :: looks) = Stop UB.
Proof.
  intros Hn Ht Hl Hle Hr. cbn [spin_loop].
  destruct (Z.ltb_spec (u64 (2 ^ 31 - 1)) nloops) as [_|H]; [|unfold u64 in H; rewrite Z.mod_small in H; lia].
  rewrite Hr. cbn [negb]. rewrite lap_ok by done. done.
Qed.

(** ** Calibrated computing *)

(** the rounds for [usecs] of a node whose loop took [d] ns when it was
    calibrated, and the time they take at that speed *)
Definition calibrated_rounds (d usecs : Z) : outcome Z :=
  rounds_of usecs (Double.div (Double.of_Z 1000) (Double.of_Z d)).
Definition within_one_round (d usecs : Z) : bool :=
  match calibrated_rounds d usecs with
  | Ret n => (1000 * usecs - d <=? n * d) && (n * d <=? 1000 * usecs)
  | Stop _ => false
  end.
(** the rounding of the doubles costs at most one round of the loop: loops from a
    nanosecond to two microseconds, times from a microsecond to the largest one of
    a command *)
Example calibrated_accuracy :
  forallb (fun usecs => forallb (fun d => within_one_round d usecs) [1; 3; 7; 30; 333; 400; 999; 1000; 1001; 1234; 2000])
    [1; 7; 333; 1000; 1000000; 2 ^ 32 - 1] = true.
Proof. vm_compute. reflexivity. Qed.

(** the file cannot be written: the process crashes, with the calibration done *)
Lemma calibrate_unwritable `{!Pd.Scan} home read writable t looks : read (lps_file home) = None →
  writable (lps_file home) = false →
  ensures (calibrate (Double.of_Z 0) home read writable t looks) (fun _ => False).
Proof.
  intros Hr Hw. unfold calibrate. rewrite Hr, Hw.
  change (SFeqb (Double.of_Z 0) (Double.of_Z 0)) with true. cbn iota. by destruct (compute_loops_per_usec t looks).
Qed.
(** a value that is kept is read back by the next start *)
Lemma calibrate_loads `{!Pd.Scan} home read writable t looks text v : read (lps_file home) = Some text →
  Pd.scan_lf text = Some v → SFeqb v (Double.of_Z 0) = false →
  calibrate (Double.of_Z 0) home read writable t looks = Ret (v, None).
Proof.
  intros Hr Hs Hv. unfold calibrate. rewrite Hr. cbn [default option_map from_option]. rewrite Hs. cbn [from_option id].
  change (SFeqb (Double.of_Z 0) (Double.of_Z 0)) with true. cbn iota. by rewrite Hv.
Qed.

Lemma forward_from t looks : forward t looks →
  Forall (fun l => ts_small (now l) ∧ total_ns t ≤ total_ns (now l)) looks.
Proof.
  revert t. induction looks as [|l looks IH]; intros t; [constructor|]. intros (Hl & Hle & Hf).
  constructor; [done|]. eapply Forall_impl; [by apply (IH (now l))|]. cbn. intros x [Hx Hy]. split; [done|lia].
Qed.
(** the first element with a property *)
Lemma first_with {A} (P : A → bool) (l : list A) : Exists (fun x => P x = true) l →
  ∃ l1 x l2, l = l1 ++ x :: l2 ∧ P x = true ∧ Forall (fun y => P y = false) l1.
Proof.
  induction l as [|y l IH]; intros H; [by apply Exists_nil in H|]. destruct (P y) eqn:E.
  - by exists [], y, l.
  - apply Exists_cons in H as [H|H]; [congruence|]. destruct (IH H) as (l1 & x & l2 & -> & Hx & Hf).
    exists (y :: l1), x, l2. split; [done|]. split; [done|]. by constructor.
Qed.

(** [C38] A COMPUTE command ends, with the work asked for. While the node runs
    and its clock goes forward: driven by the clock, compute_for returns at the
    first reading at which the time asked for has passed, once there is one, and
    not before; calibrated, it runs as many rounds as the time multiplied by
    loops_per_usec, truncated, when they are less than 2^31. *)
Theorem compute_for_ends (usecs : Z) (beg : timespec) (looks : list look) :
  ts_small beg → 0 ≤ usecs < 2 ^ 32 → forward beg looks → Forall (fun l => running l = true) looks →
  (Exists (fun l => total_ns beg + usecs * 1000 ≤ total_ns (now l)) looks →
   ∃ before l rest, looks = before ++ l :: rest ∧ compute_for_freqinv usecs beg looks = Ret rest ∧
     compute_for (Double.of_Z (-1)) usecs beg looks = Ret None ∧
     total_ns beg + usecs * 1000 ≤ total_ns (now l) ∧
     Forall (fun x => total_ns (now x) < total_ns beg + usecs * 1000) before) ∧
  (∀ lps n, SFeqb lps (Double.of_Z (-1)) = false → rounds_of usecs lps = Ret n → n < 2 ^ 31 →
   n ≤ Z.of_nat (length looks) → compute_for lps usecs beg looks = Ret (Some n)).
Proof.
  intros Hb Hu Hf Hr. split.
  - intros He. destruct (first_with (fun l => total_ns beg + usecs * 1000 <=? total_ns (now l)) looks)
      as (before & l & rest & -> & Hl & Hbf).
    { eapply Exists_impl; [exact He|]. cbn. intros x. by apply Z.leb_le. }
    apply Z.leb_le in Hl. pose proof (forward_from _ _ Hf) as Ht. apply Forall_app in Ht as [Ht Hl'].
    apply Forall_cons in Hl' as [[Hl' _] _]. apply Forall_app in Hr as [Hr Hrl]. apply Forall_cons in Hrl as [Hrl _].
    assert (E : compute_for_freqinv usecs beg (before ++ l :: rest) = Ret rest).
    { apply freqinv_first; try done; [lia|]. rewrite Forall_forall in *. intros x Hx.
      destruct (Ht x Hx). specialize (Hbf x Hx). apply Z.leb_gt in Hbf. split_and!; [done|by apply Hr|lia|lia]. }
    exists before, l, rest. split_and!; [done|done| |done|].
    + unfold compute_for. change (SFeqb _ _) with true. cbn iota. by rewrite E.
    + eapply Forall_impl; [exact Hbf|]. cbn. intros x. by rewrite Z.leb_gt.
  - intros lps n El En Hn Hlen. unfold compute_for. rewrite El, En. obind.
    assert (0 ≤ n). { unfold rounds_of in En. apply bind_Ret_inv in En as (k & _ & En).
      destruct (Z.leb_spec 0 k); [|done]. destruct (k <? 2 ^ 64); [|done]. by injection En as <-. }
    pose proof (spin_all (Z.to_nat n) looks 0 beg 0) as S. rewrite Z2Nat.id, Z.add_0_l in S by done.
    by rewrite S by (done || lia).
Qed.

Lemma compute_for_ends_witness :
  let looks := [Look (TS 5 999) true; Look (TS 5 3000) true; Look (TS 5 4000) true] in
  compute_for_freqinv 3 (TS 5 0) looks = Ret [Look (TS 5 4000) true] ∧
  compute_for (Double.scaled 5 (-1)) 1 (TS 5 0) looks = Ret (Some 2).
Proof.
  intros looks. assert (Hb : ts_small (TS 5 0)) by (unfold ts_small, normal, sec_small; cbn; lia).
  assert (Hf : forward (TS 5 0) looks).
  { unfold forward, looks, ts_small, normal, sec_small, total_ns. cbn. lia. }
  assert (Hr : Forall (fun l => running l = true) looks) by by repeat constructor. split.
  - destruct (compute_for_ends 3 (TS 5 0) looks Hb ltac:(lia) Hf Hr) as [H _].
    destruct H as (before & l & rest & E & Er & _ & Hl & Hbf).
    + apply Exists_cons. right. apply Exists_cons. left. unfold total_ns. cbn. lia.
    + rewrite Er. destruct before as [|x [|y [|z before]]]; [|by injection E as _ _ <-| |].
      * injection E as <- _. unfold total_ns in Hl. cbn in Hl. lia.
      * injection E as _ <- _ _. apply Forall_cons in Hbf as [_ Hbf]. apply Forall_cons in Hbf as [Hy _].
        unfold total_ns in Hy. cbn in Hy. lia.
      * injection E as _ _ _ E. by destruct before.
  - destruct (compute_for_ends 1 (TS 5 0) looks Hb ltac:(lia) Hf Hr) as [_ H].
    apply H; [vm_compute; reflexivity|vm_compute; reflexivity|lia|vm_compute; discriminate].
Defined.

(** two readings 1000 ns apart, then 400 ns: 2.5 rounds for a microsecond *)
Example calibrated : compute_loops_per_usec (TS 5 0)
  [Look (TS 5 1000) true; Look (TS 5 1400) true; Look (TS 5 1400) false] = Ret (Double.scaled 5 (-1)).
Proof. vm_compute. reflexivity. Qed.
Example rounds_run : compute_for (Double.scaled 5 (-1)) 1 (TS 5 0) (replicate 3 (Look (TS 6 0) true)) = Ret (Some 2).
Proof. vm_compute. reflexivity. Qed.
