(* ===== verification/Client.v ===== *)
(** * The client's threads (src/src/dw_client.c: idx, process_reply,
    thread_sender, thread_receiver)

    Each thread of the client runs sessions one after the other: the receiver
    connects, starts a sender for the packets of the session, receives the
    replies, and at the end of the session closes the connection and joins the
    sender. The two share the connection and the two arrays of times; the model
    has one state for both, a definition for a packet of the sender and one for
    an iteration of the receiver. The loop of the sender and the time of its
    packets are in Pacing. *)

From S2P Require Import Prelude Timespec Memory Message Request Connection Queue Ccmd Options.

Local Open Scope Z_scope.

Module Client.

#[local] Abbreviation MAX_PKTS := Options.MAX_PKTS.

(** the options; the counts are unsigned longs *)
Record client_config := ClientConfig {
  use_per_session_output : bool;
  use_nano : bool;
  conn_retry_num : Z;
  num_pkts : Z;
  pkts_per_session : Z;
  proto : Z;
  serveraddr : sockaddr_in;
  ts_start : timespec
}.

Inductive action :=
  | Close (fd : Z)
  | Spawn (first_pkt_id : Z)
  | Join
  | Output (send elapsed pkt_id sess_id : Z).

(** the locals of thread_receiver, the arrays of its thread (an entry not
    listed is 0), and what it did *)
Record thread := Thread {
  th_world : world;
  usecs_send : gmap Z Z;
  usecs_elapsed : gmap Z Z;
  num_success : Z;
  num_error : Z;
  num_timedout : Z;
  i_incr : Z;
  clientSocket : Z;
  conn_id : Z;
  actions : list action
}.

Definition set_th_world (t : thread) (w : world) : thread :=
  Thread w (usecs_send t) (usecs_elapsed t) (num_success t) (num_error t) (num_timedout t)
    (i_incr t) (clientSocket t) (conn_id t) (actions t).
Definition set_times (t : thread) (s e : gmap Z Z) : thread :=
  Thread (th_world t) s e (num_success t) (num_error t) (num_timedout t)
    (i_incr t) (clientSocket t) (conn_id t) (actions t).
Definition set_counts (t : thread) (s e d i : Z) : thread :=
  Thread (th_world t) (usecs_send t) (usecs_elapsed t) s e d i (clientSocket t) (conn_id t)
    (actions t).
Definition set_conn_id (t : thread) (sock c : Z) : thread :=
  Thread (th_world t) (usecs_send t) (usecs_elapsed t) (num_success t) (num_error t)
    (num_timedout t) (i_incr t) sock c (actions t).
Definition act (t : thread) (l : list action) : thread :=
  Thread (th_world t) (usecs_send t) (usecs_elapsed t) (num_success t) (num_error t)
    (num_timedout t) (i_incr t) (clientSocket t) (conn_id t) (actions t ++ l).

Definition s64 (z : Z) : Z := (z + 2 ^ 63) mod 2 ^ 64 - 2 ^ 63.

(** [pkt_id % pkts_per_session] is unsigned, and goes to an int *)
Definition idx (g : client_config) (pkt_id : Z) : outcome Z :=
  val ← (if use_per_session_output g then
           if pkts_per_session g =? 0 then Stop UB
           else Ret (s32 (u64 pkt_id mod pkts_per_session g))
         else Ret pkt_id);
  _ ← assert_ (val <? MAX_PKTS);
  Ret val.
(** the arrays have MAX_PKTS entries *)
Definition times_get (a : gmap Z Z) (i : Z) : outcome Z :=
  if (0 <=? i) && (i <? MAX_PKTS) then Ret (default 0 (a !! i)) else Stop UB.
Definition times_set (a : gmap Z Z) (i v : Z) : outcome (gmap Z Z) :=
  if (0 <=? i) && (i <? MAX_PKTS) then Ret (<[i := v]> a) else Stop UB.

(** the time from [ts_start] to [now], as process_reply computes it *)
Definition elapsed_since (g : client_config) (now : timespec) : outcome Z :=
  s ← long_ (tv_sec now - tv_sec (ts_start g));
  n ← long_ (tv_nsec now - tv_nsec (ts_start g));
  if use_nano g then s ← long_ (s * 1000000000); long_ (s + n)
  else s ← long_ (s * 1000000); long_ (s + Z.quot n 1000).

(** 1: success, -1: error, -2: timeout *)
Definition process_reply (g : client_config) (t : thread) (b : block) (m : Z) (now : timespec)
    : outcome (thread * Z) :=
  pkt_id ← get_msg_req_id b m;
  status ← get_msg_status b m;
  if negb (status =? SUCCESS) then Ret (t, if status =? ERR then -1 else -2)
  else
    usecs ← elapsed_since g now;
    i ← idx g (s32 pkt_id);
    sent ← times_get (usecs_send t) i;
    e ← times_set (usecs_elapsed t) i (s64 (u64 usecs - u64 sent));
    Ret (set_times t (usecs_send t) e, 1).

(** ** The sender *)

Section Sender.
Context {Spec Rng : Type} `{Sampler Spec Rng}.

(** a packet of the size sampled; [false]: the thread gives up. The status
    field of the message is not written *)
Definition send_packet (g : client_config) (t : thread) (s : Ccmd.ccmd_t Spec) (r : Rng)
    (pkt_id pkt_size : Z) (now : timespec) (a : sys_ret) (la : ssl_ret)
    : outcome (thread * Ccmd.ccmd_t Spec * Rng * bool) :=
  i ← idx g pkt_id;
  sent ← (if use_nano g then ts_sub_ns now (ts_start g) else ts_sub_us now (ts_start g));
  us ← times_set (usecs_send t) i sent;
  ue ← times_set (usecs_elapsed t) i 0;
  let t := set_times t us ue in
  '(w, m) ← Connection.conn_prepare_send_message (th_world t) (conn_id t);
  '(k, o, b) ← mem_block (w_mem w) m;
  let put b := set_th_world t (Connection.set_mem w (mem_put (w_mem w) k b)) in
  b ← set_msg_req_id b o (u32 pkt_id);
  avail ← get_msg_req_size b o;
  if avail <? pkt_size then Ret (put b, s, r, true)
  else
    b ← set_msg_req_size b o pkt_size;
    '(s, r, b, dumped) ← Ccmd.ccmd_dump s r b o;
    if dumped =? 0 then Ret (put b, s, r, true)
    else
      size ← get_msg_req_size b o;
      _ ← assert_ (size <=? BUF_SIZE);
      let w := th_world (put b) in
      conn ← Connection.get_conn w (conn_id t);
      '(w, rv) ← Connection.conn_start_send w (conn_id t) (target conn) a la;
      Ret (set_th_world t w, s, r, negb (rv =? 0)).
End Sender.

(** ** The receiver *)

(** what the world answers to an iteration: the descriptor and the success of
    each attempt to connect; the allocations; TLS; what is received; the clock *)
Record answers := Answers {
  an_self : Z;
  an_connect : nat → Z * bool;
  an_calloc : bool * bool;
  an_ssl : option Z * bool;
  an_handshake : list ssl_ret;
  an_recv : list (recv_ret * ssl_recv_ret);
  an_clock : nat → timespec
}.

(** up to [n] attempts, closing the socket after one that failed; no attempt
    counts as a success *)
Fixpoint connect_loop (n i : nat) (k : answers) (t : thread) : thread * bool :=
  match n with
  | O => (t, true)
  | S n =>
      let '(fd, ok) := an_connect k i in
      let t := set_conn_id t fd (conn_id t) in
      if (ok : bool) then (t, true)
      else
        let t := act t [Close fd] in
        match n with O => (t, false) | S _ => connect_loop n (S i) k t end
  end.

(** up to 25 tries: 1 success, -1 error, 0 still not done *)
Fixpoint handshake_loop (n : nat) (l : list ssl_ret) (w : world) (c : Z) : outcome (world * Z) :=
  match n with
  | O => Ret (w, 0)
  | S n =>
      match l with
      | [] => Stop OutOfFuel
      | a :: l =>
          '(w, rv) ← Connection.conn_do_ssl_handshake w c a;
          if negb (rv =? 0) then Ret (w, rv) else handshake_loop n l w c
      end
  end.

(** the packets of the session from [pkt_i] on count as errors *)
Definition skip_session (g : client_config) (t : thread) (pkt_i : Z) : outcome thread :=
  if pkts_per_session g =? 0 then Stop UB
  else
    let skip := u64 (pkts_per_session g - u64 pkt_i mod pkts_per_session g) in
    Ret (set_counts t (num_success t) (s32 (num_error t + skip)) (num_timedout t) (s32 skip)).

Inductive next_step := Receive | Skip | Leave.

(** the start of a session: connecting, the TLS handshake, the sender *)
Definition start_session (g : client_config) (k : answers) (t : thread) (pkt_i : Z)
    : outcome (thread * next_step) :=
  let '(t, connected) := connect_loop (Z.to_nat (conn_retry_num g + 1)) 0 k t in
  if negb connected then
    t ← skip_session g (set_conn_id t (clientSocket t) (-1)) pkt_i; Ret (t, Skip)
  else
    '(w, c) ← Connection.conn_alloc (th_world t) (an_self k) (an_calloc k).1 (an_calloc k).2
                (clientSocket t) (serveraddr g) (proto g);
    let t := set_conn_id (set_th_world t w) (clientSocket t) c in
    _ ← check (negb (c =? -1));
    let leave w :=
      w ← Connection.conn_free w c;
      Ret (act (set_th_world t w) [Close (clientSocket t)], Leave) in
    if proto g =? TLS then
      '(w, rv) ← Connection.conn_enable_ssl w c (an_ssl k).1 (an_ssl k).2 0;
      if rv <? 0 then leave w
      else
        '(w, rv) ← handshake_loop 25 (an_handshake k) w c;
        if rv =? 1 then Ret (act (set_th_world t w) [Spawn pkt_i], Receive) else leave w
    else
      '(w, _) ← Connection.conn_set_status w c READY;
      Ret (act (set_th_world t w) [Spawn pkt_i], Receive).

(** a reply longer than what was received so far: what follows its first
    command is dropped, and its size reduced *)
Inductive long_reply_ret := Whole | Dropped | NoNext.
Definition long_reply (w : world) (c : Z) : outcome (world * long_reply_ret) :=
  conn ← Connection.get_conn w c;
  let x := rx conn in
  d ← ptr_diff (curr_recv_buf x) (curr_proc_buf x);
  let msg_size := u64 d in
  if msg_size <=? sizeof_message_t then Ret (w, Whole)
  else
    '(k, o, b) ← mem_block (w_mem w) (curr_proc_buf x);
    t ← get_cmd b (Message.message_first_cmd o);
    req_size ← get_msg_req_size b o;
    if negb (bool_decide (t = EOM)) || (req_size <=? msg_size) then Ret (w, Whole)
    else
      e ← Message.message_end b o;
      next ← Message.cmd_bounded_next b (Message.message_first_cmd o) e;
      match next with
      | None => Ret (w, NoNext)
      | Some n =>
          diff ← ptr_diff (curr_recv_buf x) (Ptr k n);
          let diff := u64 diff in
          b ← set_msg_req_size b o (u32 (req_size - diff));
          p ← ptr_add (curr_recv_buf x) (- diff);
          let x := MkRx (recv_buf x) p (u64 (curr_recv_size x + diff)) (curr_proc_buf x) in
          Ret (Connection.set_conn (Connection.set_mem w (mem_put (w_mem w) k b)) c
                 (with_rx conn x), Dropped)
      end.

(** the [do ... while (recv == -1)] *)
Inductive recv_end := Got | Failed | Stale.
Fixpoint recv_loop (l : list (recv_ret * ssl_recv_ret)) (w : world) (c : Z)
    : outcome (world * recv_end) :=
  match l with
  | [] => Stop OutOfFuel
  | a :: l =>
      '(w, rv) ← Connection.conn_recv w c a.1 a.2;
      if rv =? 0 then Ret (w, Failed)
      else
        '(w, r) ← long_reply w c;
        match r with
        | NoNext => Ret (w, Stale)
        | Dropped => recv_loop l w c
        | Whole => if rv =? -1 then recv_loop l w c else Ret (w, Got)
        end
  end.

(** the loop over the complete messages; [n] counts them *)
Fixpoint process_all (fuel : nat) (g : client_config) (k : answers) (n : nat) (t : thread)
    : outcome thread :=
  match fuel with
  | O => Stop OutOfFuel
  | S fuel =>
      '(w, m) ← Connection.conn_prepare_recv_message (th_world t) (conn_id t);
      let t := set_th_world t w in
      match m with
      | None => Ret t
      | Some p =>
          '(_, o, b) ← mem_block (w_mem w) p;
          '(t, rv) ← process_reply g t b o (an_clock k n);
          s ← int_ (num_success t + (if rv =? 1 then 1 else 0));
          e ← int_ (num_error t + (if rv =? -1 then 1 else 0));
          d ← int_ (num_timedout t + (if rv =? -2 then 1 else 0));
          process_all fuel g k (S n) (set_counts t s e d 1)
      end
  end.

(** the results of a session, for the packets from [first] on *)
Fixpoint session_output (n : nat) (g : client_config) (t : thread) (pkt_id sess_id : Z)
    : outcome (list action) :=
  match n with
  | O => Ret []
  | S n =>
      i ← idx g pkt_id;
      s ← times_get (usecs_send t) i;
      e ← times_get (usecs_elapsed t) i;
      l ← session_output n g t (pkt_id + 1) sess_id;
      Ret (if s =? 0 then l else Output s e pkt_id sess_id :: l)
  end.

(** the code at the label [skip] *)
Definition end_iteration (g : client_config) (t : thread) (pkt_i : Z) : outcome thread :=
  i ← int_ (pkt_i + i_incr t);
  if pkts_per_session g =? 0 then Stop UB
  else if negb (u64 i mod pkts_per_session g =? 0) then Ret t
  else
    let sess_id := s32 (u64 pkt_i / pkts_per_session g) in
    t ← (if use_per_session_output g then
           let first := s32 (i - (pkts_per_session g - 1)) in
           l ← session_output (Z.to_nat (pkts_per_session g)) g t first sess_id;
           Ret (act (set_times t ∅ ∅) l)
         else Ret t);
    if conn_id t =? -1 then Ret t
    else
      w ← Connection.conn_free (th_world t) (conn_id t);
      let t := act (set_th_world t w) [Join; Close (clientSocket t)] in
      Ret (set_conn_id t (clientSocket t) (-1)).

(** one iteration of the [while]; [false]: the thread ends *)
Definition receiver_iteration (g : client_config) (k : answers) (t : thread) (pkt_i : Z)
    : outcome (thread * bool) :=
  if pkts_per_session g =? 0 then Stop UB
  else
    '(t, step) ← (if u64 pkt_i mod pkts_per_session g =? 0 then start_session g k t pkt_i
                  else Ret (t, Receive));
    match step with
    | Leave => Ret (t, false)
    | Skip => t ← end_iteration g t pkt_i; Ret (t, true)
    | Receive =>
        '(w, r) ← recv_loop (an_recv k) (th_world t) (conn_id t);
        let t := set_th_world t w in
        t ← match r with
            | Failed => skip_session g t pkt_i
            | Stale => Ret t
            | Got => process_all Connection.take_fuel g k 0 t
            end;
        t ← end_iteration g t pkt_i;
        Ret (t, true)
    end.

(** [num_success + num_error + num_timedout] *)
Definition pkt_count (t : thread) : outcome Z :=
  n ← int_ (num_success t + num_error t); int_ (n + num_timedout t).

(** the [while] over the iterations, [ks] their answers; [false]: left early *)
Fixpoint receiver_loop (g : client_config) (ks : list answers) (t : thread) : outcome (thread * bool) :=
  pkt_i ← pkt_count t;
  if u64 pkt_i <? num_pkts g then
    match ks with
    | [] => Stop OutOfFuel
    | k :: ks =>
        '(t, go) ← receiver_iteration g k t pkt_i;
        if (go : bool) then receiver_loop g ks t else Ret (t, false)
    end
  else Ret (t, true).

(** thread_receiver from the [memset]s on, in the world of the process *)
Definition thread_receiver (g : client_config) (ks : list answers) (w : world) : outcome thread :=
  '(t, ok) ← receiver_loop g ks (Thread w ∅ ∅ 0 0 0 0 0 (-1) []);
  if negb ok then Ret t
  else if use_per_session_output g then Ret t
  else
    if pkts_per_session g =? 0 then Stop UB
    else
      l ← (fix out (n : nat) (i : Z) : outcome (list action) :=
             match n with
             | O => Ret []
             | S n =>
                 j ← idx g i;
                 s ← times_get (usecs_send t) j;
                 e ← times_get (usecs_elapsed t) j;
                 l ← out n (i + 1);
                 Ret (Output s e i (s32 (u64 i / pkts_per_session g)) :: l)
             end) (Z.to_nat (num_pkts g)) 0;
      Ret (act t l).

(** ** Specification: the replies of one receive *)

Section Replies.
Context (g : client_config) (k : answers).
Implicit Types (t : thread) (m : list Z) (ms : list (list Z)).

(** the words of a message *)
Definition reply_id m : Z := le_of (take 4 m).
Definition reply_status m : Z := le_of (take 4 (drop 8 m)).

Definition n_success ms : Z := Z.of_nat (length (filter (fun m => reply_status m = SUCCESS) ms)).
Definition n_error ms : Z := Z.of_nat (length (filter (fun m => reply_status m = ERR) ms)).
Definition n_timedout ms : Z :=
  Z.of_nat (length (filter (fun m => reply_status m ≠ SUCCESS ∧ reply_status m ≠ ERR) ms)).

(** the clock never overflows the computation of the elapsed time, and the
    identifier of a successful reply is an index of the arrays *)
Definition clock_ok : Prop := ∀ n, ∃ u, elapsed_since g (an_clock k n) = Ret u.
Definition indexed m : Prop :=
  reply_status m = SUCCESS → ∃ i, idx g (s32 (reply_id m)) = Ret i ∧ 0 ≤ i.

(** the counters of [t'] are those of [t] and the replies [ms]; nothing else
    but the elapsed times changed *)
Definition counted t t' ms : Prop :=
  num_success t' = num_success t + n_success ms ∧
  num_error t' = num_error t + n_error ms ∧
  num_timedout t' = num_timedout t + n_timedout ms ∧
  i_incr t' = match ms with [] => i_incr t | _ => 1 end ∧
  conn_id t' = conn_id t ∧ clientSocket t' = clientSocket t ∧ actions t' = actions t ∧
  usecs_send t' = usecs_send t ∧
  ∀ i, Forall (fun m => reply_status m = SUCCESS → idx g (s32 (reply_id m)) ≠ Ret i) ms →
    usecs_elapsed t' !! i = usecs_elapsed t !! i.

Lemma idx_bound z i : idx g z = Ret i → i < MAX_PKTS.
Proof.
  unfold idx. destruct (if use_per_session_output g then _ else _) as [v|]; [|done]. obind.
  unfold assert_. destruct (Z.ltb_spec v MAX_PKTS); [|done]. obind. by intros [= <-].
Qed.

Lemma take_frame_bounds l m rest : take_frame l = Complete m rest →
  12 ≤ Z.of_nat (length m) ≤ Z.of_nat (length l).
Proof.
  intros E. pose proof (take_frame_rest _ _ _ E) as [-> _]. revert E. unfold take_frame.
  rewrite length_app. destruct (_ <? sizeof_message_t); [done|]. set (sz := le_of _).
  destruct (Z.ltb_spec (Z.of_nat (length m + length rest)) sz); [done|].
  destruct (_ && _) eqn:E2; [|done]. intros [= E _].
  apply (f_equal length) in E. rewrite length_take, length_app in E.
  unfold sizeof_message_t in E2. lia.
Qed.

(** the verdict of process_reply *)
Definition verdict m : Z :=
  if decide (reply_status m = SUCCESS) then 1 else if decide (reply_status m = ERR) then -1 else -2.

(** what process_reply does of a message of the receive buffer *)
Lemma process_reply_spec t b o m n : segment (blk_data b) o (Z.of_nat (length m)) = m →
  0 ≤ o → 12 ≤ Z.of_nat (length m) → o + Z.of_nat (length m) ≤ blk_size b →
  clock_ok → indexed m →
  ∃ e, process_reply g t b o (an_clock k n) = Ret (set_times t (usecs_send t) e,
      verdict m) ∧
    ∀ i, (reply_status m = SUCCESS → idx g (s32 (reply_id m)) ≠ Ret i) →
      e !! i = usecs_elapsed t !! i.
Proof.
  intros Em Ho Hm Hb Hclk Hidx.
  assert (E4 : ∀ p : nat, (p + 4 ≤ length m)%nat →
    load_le 4 (blk_data b) (o + Z.of_nat p) = le_of (take 4 (drop p m))).
  { intros p Hp. rewrite load_le_segment. f_equal. rewrite <- Em at 1.
    rewrite <- (Nat2Z.id p), segment_drop by lia. change 4%nat with (Z.to_nat 4).
    rewrite segment_take by lia. f_equal. lia. }
  unfold process_reply, get_msg_req_id, get_msg_status.
  rewrite !blk_load_ok by lia. obind.
  pose proof (E4 0%nat ltac:(lia)) as E0. rewrite Z.add_0_r in E0.
  pose proof (E4 8%nat ltac:(lia)) as E8. change (Z.of_nat 8) with 8 in E8.
  rewrite E0, E8. fold (reply_status m). change (le_of (take 4 (drop 0 m))) with (reply_id m).
  unfold verdict. case_decide as Hs; cycle 1.
  - rewrite (proj2 (Z.eqb_neq _ _) Hs). cbn [negb]. exists (usecs_elapsed t). split; [|done].
    destruct (Z.eqb_spec (reply_status m) ERR); destruct t; case_decide; done.
  - rewrite Hs. cbn [Z.eqb negb SUCCESS].
    destruct (Hclk n) as [u ->]. obind. destruct (Hidx Hs) as (i & Ei & Hi). rewrite Ei. obind.
    pose proof (idx_bound _ _ Ei). unfold times_get, times_set.
    rewrite (proj2 (andb_true_iff _ _)) by (split; lia). obind.
    eexists. split; [reflexivity|]. intros j Hj. rewrite lookup_insert_ne; [done|].
    intros <-. by apply Hj.
Qed.

Lemma counted_nil t w : counted t (set_th_world t w) [].
Proof.
  unfold counted, n_success, n_error, n_timedout. rewrite !filter_nil.
  cbn [length Z.of_nat]. rewrite !Z.add_0_r. by split_and!.
Qed.

Lemma counted_cons t t1 t' m ms : conn_id t1 = conn_id t → clientSocket t1 = clientSocket t →
  actions t1 = actions t → usecs_send t1 = usecs_send t → i_incr t1 = 1 →
  num_success t1 = num_success t + n_success [m] → num_error t1 = num_error t + n_error [m] →
  num_timedout t1 = num_timedout t + n_timedout [m] →
  (∀ i, (reply_status m = SUCCESS → idx g (s32 (reply_id m)) ≠ Ret i) →
     usecs_elapsed t1 !! i = usecs_elapsed t !! i) →
  counted t1 t' ms → counted t t' (m :: ms).
Proof.
  intros ???? Hi Es Ee Ed Hel (C1 & C2 & C3 & C4 & C5 & C6 & C7 & C8 & C9).
  assert (E : i_incr t' = 1) by (rewrite C4; by destruct ms).
  unfold counted, n_success, n_error, n_timedout in *.
  change (m :: ms) with ([m] ++ ms). rewrite !filter_app, !length_app.
  split_and!; try congruence; try lia.
  intros j Hj. change ([m] ++ ms) with (m :: ms) in Hj.
  apply Forall_cons in Hj as [Hm Hms]. rewrite C9 by exact Hms. exact (Hel j Hm).
Qed.

(** one reply is counted once *)
Lemma one_reply m :
  n_success [m] = (if verdict m =? 1 then 1 else 0) ∧
  n_error [m] = (if verdict m =? -1 then 1 else 0) ∧
  n_timedout [m] = (if verdict m =? -2 then 1 else 0) ∧
  n_success [m] + n_error [m] + n_timedout [m] = 1.
Proof.
  unfold verdict, n_success, n_error, n_timedout. rewrite !filter_cons, filter_nil.
  destruct (decide (reply_status m = SUCCESS)) as [E|E].
  - rewrite E. by split_and!.
  - destruct (decide (reply_status m = ERR)) as [E2|E2]; [rewrite E2; by split_and!|].
    destruct (decide (_ ∧ _)) as [|N]; [by split_and!|]. by destruct N.
Qed.

Definition total t : Z := num_success t + num_error t + num_timedout t.
Definition counts_nonneg t : Prop := 0 ≤ num_success t ∧ 0 ≤ num_error t ∧ 0 ≤ num_timedout t.

Lemma n_nonneg m : 0 ≤ n_success [m] ∧ 0 ≤ n_error [m] ∧ 0 ≤ n_timedout [m].
Proof. unfold n_success, n_error, n_timedout. lia. Qed.

Lemma process_all_spec fuel n t rb d R P ms rest : 0 ≤ conn_id t < MAX_CONNS →
  rx_ok (th_world t) (conn_id t) rb d R P → R - P < Z.of_nat fuel →
  all_frames (unprocessed d R P) = Some (ms, rest) → clock_ok → Forall indexed ms →
  counts_nonneg t → total t + Z.of_nat (length ms) < 2 ^ 31 →
  ∃ t' P', process_all fuel g k n t = Ret t' ∧ counted t t' ms ∧
    rx_ok (th_world t') (conn_id t) rb d R P' ∧ unprocessed d R P' = rest.
Proof.
  revert n t P ms. induction fuel as [|fuel IH]; intros n t P ms Hc Hrx Hf Hms Hclk Hidx Hnn Hmax.
  { destruct Hrx as (_ & _ & ? & _). lia. }
  pose proof (prepare_recv_spec _ _ rb d R P Hc Hrx) as H.
  rewrite all_frames_eq in Hms. cbn [process_all].
  destruct (take_frame (unprocessed d R P)) as [| |m rest0] eqn:E; [|done|].
  - injection Hms as <- <-. rewrite H. obind. exists (set_th_world t (th_world t)), P.
    split_and!; try done. by apply counted_nil.
  - apply bind_Some in Hms as ([ms' r] & Hms & [= <- <-]).
    destruct H as (w1 & -> & Hrx1 & Em & Er & _ & Emem & _). obind.
    apply Forall_cons in Hidx as [Him Hidx].
    pose proof (take_frame_bounds _ _ _ E) as Hl. pose proof Hrx as (Hb & _ & HP & HR).
    unfold unprocessed in Hl. rewrite segment_length in Hl by lia.
    cbn [th_world set_th_world]. rewrite Emem, (mem_block_ok _ _ _ _ Hb). obind.
    destruct (process_reply_spec (set_th_world t w1) (Block BUF_SIZE d) P m n) as (e & -> & He);
      try (done || cbn [blk_size]; lia). obind.
    cbn [num_success num_error num_timedout set_times set_th_world].
    destruct (one_reply m) as (<- & <- & <- & H1).
    pose proof (n_nonneg m) as Hn. cbn [length] in Hmax. rewrite Nat2Z.inj_succ in Hmax.
    unfold counts_nonneg, total in Hnn, Hmax.
    rewrite !int_ok by (unfold is_int; lia). obind.
    set (t1 := set_counts _ _ _ _ _).
    destruct (IH (S n) t1 (P + Z.of_nat (length m)) ms') as (t' & P' & -> & C & Hrx' & Er');
      rewrite ?Er; unfold counts_nonneg, total, t1; cbn; (done || lia || idtac).
    exists t', P'. split_and!; try done.
    by apply (counted_cons t t1).
Qed.

Lemma end_iteration_eq t pkt_i : is_int (pkt_i + i_incr t) → 0 ≤ pkt_i + i_incr t →
  0 < pkts_per_session g →
  ((pkt_i + i_incr t) mod pkts_per_session g ≠ 0 → end_iteration g t pkt_i = Ret t) ∧
  ((pkt_i + i_incr t) mod pkts_per_session g = 0 → use_per_session_output g = false →
   0 ≤ conn_id t →
   end_iteration g t pkt_i =
     w ← Connection.conn_free (th_world t) (conn_id t);
     Ret (set_conn_id (act (set_th_world t w) [Join; Close (clientSocket t)])
            (clientSocket t) (-1))).
Proof.
  intros Hi H0 Hp. unfold is_int in Hi. unfold end_iteration.
  rewrite int_ok by (unfold is_int; lia). obind.
  rewrite u64_small by lia. rewrite (proj2 (Z.eqb_neq (pkts_per_session g) 0)) by lia.
  split.
  - intros Hm. by rewrite (proj2 (Z.eqb_neq _ 0) Hm).
  - intros -> -> Hc. cbn [Z.eqb negb]. obind.
    by rewrite (proj2 (Z.eqb_neq (conn_id t) (-1))) by lia.
Qed.

(** [C32] The replies of one receive: each complete message is counted once,
    under its status, and a reply that is not a success leaves the recorded
    times alone. The session's end is then decided by the number of packets
    counted before this receive, plus one, whatever the number of replies: it is
    over (the connection freed, the sender joined, the socket closed) when that
    is a multiple of the packets per session, and otherwise goes on, even when
    the replies just counted complete it. *)
Theorem replies_and_session_end t rb d R P ms rest : 0 ≤ conn_id t < MAX_CONNS →
  rx_ok (th_world t) (conn_id t) rb d R P →
  all_frames (unprocessed d R P) = Some (ms, rest) → ms ≠ [] → clock_ok → Forall indexed ms →
  counts_nonneg t → total t + Z.of_nat (length ms) < 2 ^ 31 → 0 < pkts_per_session g →
  ∃ t1, process_all Connection.take_fuel g k 0 t = Ret t1 ∧ counted t t1 ms ∧
    ((total t + 1) mod pkts_per_session g ≠ 0 → end_iteration g t1 (total t) = Ret t1) ∧
    ((total t + 1) mod pkts_per_session g = 0 → use_per_session_output g = false →
     end_iteration g t1 (total t) =
       w ← Connection.conn_free (th_world t1) (conn_id t);
       Ret (set_conn_id (act (set_th_world t1 w) [Join; Close (clientSocket t)])
              (clientSocket t) (-1))).
Proof.
  intros Hc Hrx Hms Hne Hclk Hidx Hnn Hmax Hp. pose proof Hrx as (_ & _ & HP & HR).
  assert (Hf : R - P < Z.of_nat Connection.take_fuel) by (unfold Connection.take_fuel; lia).
  destruct (process_all_spec Connection.take_fuel 0 t rb d R P ms rest Hc Hrx Hf Hms Hclk Hidx Hnn Hmax)
    as (t1 & P' & E & C & _ & _).
  exists t1. split; [exact E|]. split; [exact C|].
  destruct C as (_ & _ & _ & Hi & Ec & Es & _).
  assert (Hi1 : i_incr t1 = 1) by (rewrite Hi; by destruct ms).
  assert (Hlen : 1 ≤ Z.of_nat (length ms)) by (destruct ms; cbn [length]; [done|lia]).
  unfold counts_nonneg, total in *.
  destruct (end_iteration_eq t1 (num_success t + num_error t + num_timedout t)) as [H1 H2];
    rewrite ?Hi1; [unfold is_int; lia|lia|done|].
  rewrite Hi1, Ec, Es in *. split; [exact H1|]. intros Hm Hu. apply H2; [done|done|lia].
Qed.

End Replies.

(** two replies of a session of two packets, received together: both are
    counted and the session stays open *)
Definition two_packets : client_config := ClientConfig false false 0 4 2 TCP addr1 (TS 0 0).
Definition at_noon : answers :=
  Answers 1 (fun _ => (5, true)) (true, true) (None, false) [] [] (fun _ => TS 1 0).
Definition two_replies : bytes :=
  store_le 4 (store_le 4 (store_le 4 (store_le 4 fresh_buf 0 0) 4 12) 12 1) 16 12.
Definition thread2 : thread :=
  Thread (Connection.set_conn
      (Connection.set_mem world1 (mem_put (w_mem world1) 0 (Block BUF_SIZE two_replies))) 0
      (with_rx (Connection.conn_at world1 0) (MkRx (Ptr 0 0) (Ptr 0 24) (BUF_SIZE - 24) (Ptr 0 0))))
    ∅ ∅ 0 0 0 0 5 0 [].

Lemma replies_and_session_end_witness :
  ∃ t1, process_all Connection.take_fuel two_packets at_noon 0 thread2 = Ret t1 ∧
    num_success t1 = 2 ∧ end_iteration two_packets t1 0 = Ret t1.
Proof.
  assert (E : all_frames (unprocessed two_replies 24 0) =
    Some ([[0;0;0;0;12;0;0;0;0;0;0;0]; [1;0;0;0;12;0;0;0;0;0;0;0]], []))
    by (vm_compute; reflexivity).
  assert (Hrx : rx_ok (th_world thread2) (conn_id thread2) 0 two_replies 24 0).
  { split_and!; [vm_compute; reflexivity|reflexivity|lia..|unfold BUF_SIZE; lia]. }
  assert (Hk : clock_ok two_packets at_noon) by (intros n; eexists; vm_compute; reflexivity).
  assert (Hi : Forall (indexed two_packets) [[0;0;0;0;12;0;0;0;0;0;0;0]; [1;0;0;0;12;0;0;0;0;0;0;0]]).
  { repeat constructor; intros _; eexists; (split; [vm_compute; reflexivity|lia]). }
  pose proof (replies_and_session_end two_packets at_noon thread2 0 two_replies 24 0 _ _
    (conj (Z.le_refl 0) eq_refl) Hrx E ltac:(discriminate) Hk Hi ltac:(by split_and!)
    eq_refl eq_refl) as (t1 & E1 & (C & _) & H & _).
  exists t1. split; [exact E1|]. split; [rewrite C; vm_compute; reflexivity|].
  apply H. vm_compute. discriminate.
Defined.

End Client.
