(* ===== verification/Pacing.v ===== *)
(** * The pace of the client (src/src/dw_client.c: thread_sender, the options
    --period, --rate and --rate-step-secs)

    After each packet the sender moves the time of the next one forward by a
    period drawn from a distribution, which follows a ramp of rates when there
    is one, and waits for that time. The distributions are those of Distrib;
    the answers of the clock are arguments. *)

From Stdlib Require Import String Ascii SpecFloat.
From S2P Require Import Prelude Timespec Message Memory Request Connection Queue Ccmd Options Distrib Client.

Local Open Scope Z_scope.

Module Pacing.

Section Pace.
Context (log exp : double → double).
(** the tries of each sample *)
Context (tries : nat).

Definition million : double := Double.of_Z 1000000.

(** the distributions of the period and of the rate, and the generator *)
Record pace_t := MkPace { period : pd_spec_t; rate : pd_spec_t; rng : Z }.

(** a double converted to unsigned long, a negative one as [Ccmd.to_uint] does *)
Definition to_u64 (x : double) : outcome Z := z ← deref (Double.trunc x); Ccmd.to_uint 8 z.
Definition to_int (x : double) : outcome Z := z ← deref (Double.trunc x); int_ z.

(** [while (step_prev++ < step)] *)
Fixpoint ramp_loop (n : nat) (s : pace_t) : outcome pace_t :=
  match n with
  | O => Ret s
  | S n =>
      _ ← to_int (Double.div million (Distrib.val (period s)));
      '(v, p, r) ← Pd.pd_sample log exp tries (rate s) (rng s);
      v ← to_int v;
      _ ← check (0 <? v);
      ramp_loop n (MkPace (with_val (period s) (Double.div million (Double.of_Z v))) p r)
  end.
(** the seconds since the start, in steps of the ramp *)
Definition ramp_step (use_nano : bool) (us ramp : Z) : Z :=
  s32 (Z.quot (Z.quot us (if use_nano then 1000000000 else 1000000)) ramp).
(** [us_prev], [us]: when the last packet and this one were sent *)
Definition follow_ramp (use_nano : bool) (ramp pkt_id us_prev us : Z) (s : pace_t) : outcome pace_t :=
  if (ramp =? 0) || (pkt_id <=? 0) then Ret s
  else ramp_loop (Z.to_nat (ramp_step use_nano us ramp - ramp_step use_nano us_prev ramp)) s.

(** the time of the next packet *)
Definition next_time (s : pace_t) (ts_now : timespec) : outcome (pace_t * timespec) :=
  '(v, p, r) ← Pd.pd_sample log exp tries (period s) (rng s);
  period_ns ← to_u64 (Double.mul v (Double.of_Z 1000));
  ts ← ts_add ts_now (TS (period_ns / 1000000000) (period_ns mod 1000000000));
  Ret (MkPace p (rate s) r, ts).

(** [do clock_gettime(...) while (ts_leq(ts, ts_now))]: the time it ends *)
Fixpoint spin (clock : list timespec) (ts_now : timespec) : outcome timespec :=
  match clock with
  | [] => Stop OutOfFuel
  | ts :: clock => early ← ts_leq ts ts_now; if (early : bool) then spin clock ts_now else Ret ts
  end.

(** ** The sender *)

(** what the world answers for the [i]-th packet: the clock, send, and the
    clock again while the sender spins; [None] when it sleeps *)
Record sender_answers := MkSender {
  sn_clock : nat → timespec;
  sn_send : nat → sys_ret;
  sn_ssl : nat → ssl_ret;
  sn_spin : option (nat → list timespec)
}.

Definition pace (g : Client.client_config) (a : sender_answers) (t : Client.thread) (ramp pkt_id : Z)
    (i : nat) (s : pace_t) (ts_now : timespec) : outcome (pace_t * timespec) :=
  s ← (if (ramp =? 0) || (pkt_id <=? 0) then Ret s
       else
         j ← Client.idx g (pkt_id - 1);
         us_prev ← Client.times_get (Client.usecs_send t) j;
         j ← Client.idx g pkt_id;
         us ← Client.times_get (Client.usecs_send t) j;
         follow_ramp (Client.use_nano g) ramp pkt_id us_prev us s);
  '(s, ts_now) ← next_time s ts_now;
  _ ← match sn_spin a with Some clock => _ ← spin (clock i) ts_now; Ret tt | None => Ret tt end;
  Ret (s, ts_now).

#[local] Instance sampler : Sampler pd_spec_t Z := Pd.distrib_sampler log exp tries.

(** [for (i = 0; i < num_send_pkts; i++)]: the state of the thread, the commands
    with their distributions, and the time of the next packet *)
Fixpoint sender_loop (n : nat) (g : Client.client_config) (a : sender_answers) (ramp : Z)
    (pkt_size : pd_spec_t) (t : Client.thread) (c : Ccmd.ccmd_t pd_spec_t) (first_pkt_id : Z) (i : nat)
    (s : pace_t) (ts_now : timespec) : outcome (Client.thread * pace_t * timespec) :=
  match n with
  | O => Ret (t, s, ts_now)
  | S n =>
      pkt_id ← int_ (first_pkt_id + Z.of_nat i);
      '(v, pkt_size, r) ← Pd.pd_sample log exp tries pkt_size (rng s);
      size ← deref (Double.trunc v);
      size ← Ccmd.to_uint 4 size;
      '(t, c, r, go_on) ← Client.send_packet g t c r pkt_id size (sn_clock a i) (sn_send a i) (sn_ssl a i);
      let s := MkPace (period s) (rate s) r in
      if (go_on : bool) then
        '(s, ts_now) ← pace g a t ramp pkt_id i s ts_now;
        sender_loop n g a ramp pkt_size t c first_pkt_id (S i) s ts_now
      else Ret (t, s, ts_now)
  end.
Definition thread_sender (g : Client.client_config) (a : sender_answers) (seed ramp : Z)
    (pkt_size period rate : pd_spec_t) (t : Client.thread) (c : Ccmd.ccmd_t pd_spec_t)
    (thread_id first_pkt_id num_send_pkts : Z) (ts_now : timespec)
    : outcome (Client.thread * pace_t * timespec) :=
  sender_loop (Z.to_nat num_send_pkts) g a ramp pkt_size t c first_pkt_id 0
    (MkPace period rate (pd_init (seed + thread_id))) ts_now.

(** --stag-send: when thread_receiver starts, the threads spread over a period *)
Definition stagger (period : pd_spec_t) (thread_id num_threads : Z) (ts_start : timespec) : outcome timespec :=
  let shift := Double.div (Double.mul (Double.mul (Double.of_Z thread_id) (val period)) (Double.of_Z 1000))
                 (Double.of_Z num_threads) in
  ns ← deref (Double.trunc (Double.add (Double.of_Z 200000000) shift));
  ns ← long_ ns;
  ts_add ts_start (TS 0 ns).

(** ** The options *)

(** --rate: the period follows from a first sample *)
Definition rate_opt `{!Pd.Scan} (files : string → option (list string)) (arg : string) (s : pace_t)
    : outcome pace_t :=
  p ← Pd.pd_parse exp files arg;
  '(v, p, r) ← Pd.pd_sample log exp tries p (rng s);
  _ ← check (SFltb (Double.of_Z 0) v);
  Ret (MkPace (pd_build_fixed (Double.div million v)) p r).
Definition period_opt `{!Pd.Scan} (files : string → option (list string)) (arg : string) (s : pace_t)
    : outcome pace_t :=
  p ← Pd.pd_parse_time exp files arg; Ret (MkPace p (rate s) (rng s)).
(** the packets of a whole ramp, for --num-pkts=auto *)
Definition auto_pkts (rate : pd_spec_t) (ramp num_pkts : Z) : outcome Z :=
  _ ← check (bool_decide (prob rate = FIXED) || negb (ramp =? 0));
  if negb (ramp =? 0) && (num_pkts =? 0) then
    num_rates ← Pd.pd_len log rate;
    _ ← check (negb (num_rates =? -1));
    avg_rate ← Pd.pd_avg rate;
    to_u64 (Double.mul (Double.mul avg_rate (Double.of_Z num_rates)) (Double.of_Z ramp))
  else Ret num_pkts.
End Pace.

(** ** No drift *)

(** the waits of [n] packets from the [i]-th on *)
Fixpoint pace_loop (log exp : double → double) (tries n : nat) (g : Client.client_config)
    (a : sender_answers) (t : Client.thread) (ramp first : Z) (i : nat) (s : pace_t) (ts_now : timespec)
    : outcome (pace_t * timespec) :=
  match n with
  | O => Ret (s, ts_now)
  | S n =>
      '(s, ts_now) ← pace log exp tries g a t ramp (first + Z.of_nat i) i s ts_now;
      pace_loop log exp tries n g a t ramp first (S i) s ts_now
  end.

(** instants whose nanoseconds fit well in a long *)
Definition in_time (z : Z) : Prop := 0 ≤ z ≤ 2 ^ 32 * 1000000000.
Lemma in_time_small ts : normal ts → in_time (total_ns ts) → ts_small ts.
Proof. intros Hn Ht. split; [done|]. unfold in_time, total_ns, normal, sec_small in *. lia. Qed.

Section Drift.
Context (log exp : double → double) (tries : nat) (P : Z).

(** a fixed period of [P] nanoseconds *)
Definition fixed_period (s : pace_t) : Prop :=
  prob (period s) = FIXED ∧ to_u64 (Double.mul (Distrib.val (period s)) (Double.of_Z 1000)) = Ret P.

Lemma to_u64_range x z : to_u64 x = Ret z → 0 ≤ z < 2 ^ 64.
Proof.
  unfold to_u64. destruct (Double.trunc x) as [v|]; [|done]. obind. apply Ccmd.to_uint_fits.
Qed.

Lemma next_time_fixed s ts : fixed_period s → normal ts → 0 ≤ total_ns ts → in_time (total_ns ts + P) →
  ∃ ts', next_time log exp (S tries) s ts = Ret (s, ts') ∧ normal ts' ∧ total_ns ts' = total_ns ts + P.
Proof.
  intros [Hp Hu] Hn H0 Ht. pose proof (to_u64_range _ _ Hu) as HP.
  unfold next_time. cbn [Pd.pd_sample]. unfold Pd.draw. rewrite Hp. obind. cbn [andb]. obind. rewrite Hu. obind.
  pose proof (Z.mod_pos_bound P 1000000000 eq_refl) as Hm. pose proof (Z.div_mod P 1000000000) as Hd.
  unfold in_time, total_ns, normal in *.
  destruct (ts_add_small ts (TS (P / 1000000000) (P mod 1000000000))) as (ts' & -> & Hn' & Ht');
    unfold normal, total_ns in *; cbn [tv_sec tv_nsec] in *; [lia..|].
  obind. exists ts'. split; [by destruct s|]. split; [done|]. lia.
Qed.

(** the clock of a spin: readings in range, one of them late enough *)
Definition clock_ok (clock : list timespec) (deadline : Z) : Prop :=
  Forall ts_small clock ∧ Exists (fun ts => deadline ≤ total_ns ts) clock.

Lemma spin_spec clock ts_now : ts_small ts_now → clock_ok clock (total_ns ts_now) →
  ∃ early ts rest, clock = early ++ ts :: rest ∧ spin clock ts_now = Ret ts ∧
    Forall (fun ts => total_ns ts < total_ns ts_now) early ∧ total_ns ts_now ≤ total_ns ts.
Proof.
  intros Hn [Hs He]. induction clock as [|ts clock IH]; [by apply Exists_nil in He|].
  apply Forall_cons in Hs as [Hts Hs]. cbn [spin]. rewrite ts_leq_is_strict by done. obind.
  case_bool_decide as E.
  - apply Exists_cons in He as [He|He]; [lia|].
    destruct (IH Hs He) as (early & ts' & rest & -> & Hsp & Hb & Hd). exists (ts :: early), ts', rest.
    split_and!; [done|done|by constructor|done].
  - exists [], ts, clock. split_and!; [done|done|constructor|lia].
Qed.

Definition spins_ok (a : sender_answers) (start : Z) (n : nat) : Prop :=
  match sn_spin a with
  | None => True
  | Some clock => ∀ k, (k < n)%nat → clock_ok (clock k) (start + (Z.of_nat k + 1) * P)
  end.

Lemma pace_fixed g a t pkt_id i s ts : fixed_period s → normal ts → 0 ≤ total_ns ts →
  in_time (total_ns ts + P) →
  match sn_spin a with None => True | Some clock => clock_ok (clock i) (total_ns ts + P) end →
  ∃ ts', pace log exp (S tries) g a t 0 pkt_id i s ts = Ret (s, ts') ∧
    normal ts' ∧ total_ns ts' = total_ns ts + P.
Proof.
  intros Hf Hn H0 Ht Hc. destruct (next_time_fixed s ts Hf Hn H0 Ht) as (ts' & E & Hn' & Ht').
  exists ts'. split; [|done]. unfold pace. cbn [Z.eqb orb]. obind. rewrite E. obind.
  destruct (sn_spin a) as [clock|]; [|done]. rewrite <- Ht' in Hc, Ht.
  destruct (spin_spec (clock i) ts') as (early & x & rest & _ & -> & _); [by apply in_time_small|done|done].
Qed.
End Drift.

(** [C17] The pace does not drift: with a fixed period of P nanoseconds the
    sender gets through any number of packets, and after the n-th the time of
    the next one is the start plus n times P, exactly, whenever the packets were
    really sent and however late the sender woke up; a spin returns the first
    reading of the clock that is not before that time, provided there is one. *)
Theorem pacing_no_drift (log exp : double → double) (tries n : nat) (P : Z) (g : Client.client_config)
    (a : sender_answers) (t : Client.thread) (first : Z) (s : pace_t) (ts : timespec) :
  fixed_period P s → normal ts → 0 ≤ total_ns ts → in_time (total_ns ts + Z.of_nat n * P) →
  spins_ok P a (total_ns ts) n →
  (∃ ts', pace_loop log exp (S tries) n g a t 0 first 0 s ts = Ret (s, ts') ∧
     normal ts' ∧ total_ns ts' = total_ns ts + Z.of_nat n * P) ∧
  ∀ clock ts_now, ts_small ts_now → clock_ok clock (total_ns ts_now) →
    ∃ early x rest, clock = early ++ x :: rest ∧ spin clock ts_now = Ret x ∧
      Forall (fun y => total_ns y < total_ns ts_now) early ∧ total_ns ts_now ≤ total_ns x.
Proof.
  intros Hf Hn H0 Ht Hs. split; [|apply spin_spec]. pose proof Hf as [_ Hu].
  pose proof (to_u64_range _ _ Hu) as HP.
  assert (Hgo : ∀ k i x, (i + k = n)%nat → normal x → total_ns x = total_ns ts + Z.of_nat i * P →
    ∃ ts', pace_loop log exp (S tries) k g a t 0 first i s x = Ret (s, ts') ∧
      normal ts' ∧ total_ns ts' = total_ns ts + Z.of_nat n * P); [|by apply (Hgo n 0%nat); [lia|done|lia]].
  induction k as [|k IH]; intros i x Hi Hx Ex; cbn [pace_loop].
  - exists x. split; [done|]. split; [done|]. by replace n with i by lia.
  - destruct (pace_fixed log exp tries P g a t (first + Z.of_nat i) i s x) as (x' & -> & Hx' & Ex').
    + done.
    + done.
    + nia.
    + unfold in_time in *. nia.
    + unfold spins_ok in Hs. destruct (sn_spin a) as [clock|]; [|done].
      specialize (Hs i ltac:(lia)). by replace (total_ns x + P) with (total_ns ts + (Z.of_nat i + 1) * P) by lia.
    + obind. apply (IH (S i) x'); [lia|done|lia].
Qed.

(** ** The ramp *)

(** following the ramp draws as many rates as steps were passed since the last
    packet, in the order of their distribution, and the period becomes a million
    by the last of them; within a step nothing is drawn *)
Lemma ramp_draws_rates (log exp : double → double) (tries n : nat) (s s' : pace_t) :
  ramp_loop log exp tries n s = Ret s' →
  ∃ vs, sample_list log exp tries n (rate s) (rng s) = Ret (vs, rate s', rng s') ∧ length vs = n ∧
    Forall (fun v => ∃ z, Double.trunc v = Some z ∧ 0 < z) vs ∧
    period s' = match last vs with
                | None => period s
                | Some v => with_val (period s) (Double.div million (Double.of_Z (default 0 (Double.trunc v))))
                end.
Proof.
  revert s. induction n as [|n IH]; intros s E; cbn [ramp_loop] in E.
  { injection E as <-. by exists []. }
  apply bind_Ret_inv in E as (_ & _ & E). apply bind_Ret_inv in E as ([[v p] r] & Ev & E).
  apply bind_Ret_inv in E as (z & Ez & E). unfold check in E. destruct (Z.ltb_spec 0 z) as [Hz|]; [|done].
  cbn [mbind outcome_bind] in E. unfold to_int in Ez. destruct (Double.trunc v) as [z'|] eqn:Et; [|done].
  cbn [deref mbind outcome_bind] in Ez. apply int_inv in Ez as [-> _].
  destruct (IH _ E) as (vs & Evs & Hl & Hf & Hp). cbn [rate rng period] in *. exists (v :: vs).
  cbn [sample_list]. rewrite Ev. obind. rewrite Evs. obind. split; [done|]. split; [cbn; lia|].
  split; [constructor; [by exists z'|done]|]. rewrite Hp. destruct vs as [|v' vs]; [cbn [last]; by rewrite Et|].
  change (last (v :: v' :: vs)) with (last (v' :: vs)).
  destruct (last (v' :: vs)) eqn:El; [done|]. by apply last_None in El.
Qed.

(** ** Examples *)

(** 10000 packets per second *)
Definition hundred_us : pace_t := MkPace (pd_build_fixed (Double.of_Z 100)) pd_build_none 0.
(** the clock a bit late every time *)
Definition late_clock : sender_answers :=
  MkSender (fun _ => TS 0 0) (fun _ => SysRet 0 EAGAIN) (fun _ => SslRet 0 SSL_ERROR_OTHER)
    (Some (fun k => [TS 5 0; TS 5 (100000 * (Z.of_nat k + 1) + 70)])).

Definition no_thread : Client.thread := Client.Thread Connection.world0 ∅ ∅ 0 0 0 0 (-1) 0 [].

Lemma pacing_no_drift_witness :
  ∃ ts', pace_loop id id 1 1000 (Client.ClientConfig false false 0 0 1 TCP (SockAddr 0 0) (TS 5 0)) late_clock
           no_thread 0 0 0 hundred_us (TS 5 0) = Ret (hundred_us, ts') ∧ total_ns ts' = 5100000000.
Proof.
  destruct (pacing_no_drift id id 0 1000 100000 (Client.ClientConfig false false 0 0 1 TCP (SockAddr 0 0) (TS 5 0))
              late_clock no_thread 0 hundred_us (TS 5 0)) as [(ts' & E & _ & Et) _].
  - split; vm_compute; reflexivity.
  - split; vm_compute; (discriminate || reflexivity).
  - vm_compute. discriminate.
  - split; vm_compute; discriminate.
  - intros k Hk. change (total_ns (TS 5 0)) with 5000000000. split.
    + repeat constructor; cbn; unfold sec_small; lia.
    + apply Exists_cons. right. apply Exists_cons. left. unfold total_ns. cbn. lia.
  - exists ts'. split; [exact E|]. rewrite Et. reflexivity.
Defined.

(** four threads with a period of 2 seconds start half a second apart; a uniform
    period has no value of its own, and no instant comes out *)
Example staggered : (fun i => stagger (pd_build_fixed (Double.of_Z 2000000)) i 4 (TS 7 900000000)) <$> [0; 1; 2; 3] =
  [Ret (TS 8 100000000); Ret (TS 8 600000000); Ret (TS 9 100000000); Ret (TS 9 600000000)].
Proof. vm_compute. reflexivity. Qed.
Example staggered_uniform : stagger (MkPd UNIF NAN NAN (Double.of_Z 1) (Double.of_Z 2) [] 0 0) 1 4 (TS 7 0) = Stop UB.
Proof. vm_compute. reflexivity. Qed.

End Pacing.
