(* ===== verification/Affinity.v ===== *)
(** * Pinning of threads to cores (src/src/thread_affinity.c, dw_node.c)

    The list of cores given to a node, parsed as taskset does, and the iterator
    that pins one thread after the other to the cores of the set, in turn. A
    [cpu_set_t] is the set of its cores; the macros of the GNU C library ignore
    the cores it has no bit for. *)

From Stdlib Require Import String Ascii.
From S2P Require Import Prelude Text.

Local Open Scope Z_scope.

Module Affinity.

(** ** Sets of cores *)

Definition CPU_SETSIZE : Z := 1024.
Definition CPU_SET (c : Z) (mask : gset Z) : gset Z :=
  if (0 <=? c) && (c <? CPU_SETSIZE) then {[c]} ∪ mask else mask.

(** ** The iterator *)

(** the cores are tried one per unit of fuel *)
Fixpoint aff_it_next (fuel : nat) (it : Z) (mask : gset Z) (ncpu : Z) : outcome Z :=
  match fuel with
  | O => Stop OutOfFuel
  | S fuel =>
      it ← int_ (it + 1);
      it ← rem_ it ncpu;
      if bool_decide (it ∈ mask) then Ret it else aff_it_next fuel it mask ncpu
  end.
Definition aff_it_init (fuel : nat) (mask : gset Z) (ncpu : Z) : outcome Z :=
  aff_it_next fuel (-1) mask ncpu.

(** the threads of main() get their cores: the cores of [n] threads, and where
    the iterator is left *)
Fixpoint pin_loop (fuel n : nat) (it : Z) (mask : gset Z) (ncpu : Z) : outcome (list Z * Z) :=
  match n with
  | O => Ret ([], it)
  | S n =>
      next ← aff_it_next fuel it mask ncpu;
      '(cores, last) ← pin_loop fuel n next mask ncpu;
      Ret (it :: cores, last)
  end.
(** the workers of connections, then those of storage *)
Definition pin_threads (fuel conns storers : nat) (mask : gset Z) (ncpu : Z)
    : outcome (list Z * list Z) :=
  it ← aff_it_init fuel mask ncpu;
  '(cs, it) ← pin_loop fuel conns it mask ncpu;
  '(ss, _) ← pin_loop fuel storers it mask ncpu;
  Ret (cs, ss).

(** ** The list of cores *)

(** [for (i = min; i <= max; i += step)] *)
Fixpoint set_loop (fuel : nat) (i hi step : Z) (mask : gset Z) : outcome (gset Z) :=
  match fuel with
  | O => Stop OutOfFuel
  | S fuel =>
      if i <=? hi then next ← int_ (i + step); set_loop fuel next hi step (CPU_SET i mask)
      else Ret mask
  end.

(** [sscanf(tok, "%d-%d:%d", ...) >= 2]: the bounds, and the step if there is one *)
Definition scan_range (tok : string) : option (Z * Z * option Z) :=
  '(lo, s) ← scan_int tok;
  s ← strip "-" s;
  '(hi, s) ← scan_int s;
  Some (lo, hi, s ← strip ":" s; fst <$> scan_int s).
(** [sscanf] with "%d-", else with "-%d", else with "%d", which needs what "%d-" does *)
Definition scan_core (tok : string) : option Z :=
  match scan_int tok with
  | Some (c, _) => Some c
  | None => s ← strip "-" tok; fst <$> scan_int s
  end.

Definition aff_token (tok : string) (step : Z) (mask : gset Z) (ncpu : Z) : outcome (gset Z * Z) :=
  match scan_range tok with
  | Some (lo, hi, st) =>
      lo ← int_ lo;
      hi ← int_ hi;
      step ← match st with Some st => int_ st | None => Ret step end;
      let '(lo, hi) := if hi <? lo then (hi, lo) else (lo, hi) in
      _ ← check ((0 <=? lo) && (lo <? ncpu));
      _ ← check ((0 <=? hi) && (hi <? ncpu));
      _ ← check (0 <? step);
      mask ← set_loop (S (Z.to_nat (hi - lo + 1))) lo hi step mask;
      Ret (mask, step)
  | None =>
      match scan_core tok with
      | Some c =>
          c ← int_ c;
          c ← int_ (Z.abs c);
          _ ← check (c <? ncpu);
          Ret (CPU_SET c mask, step)
      | None => Stop CheckFailed
      end
  end.
Fixpoint aff_tokens (toks : list string) (step : Z) (mask : gset Z) (ncpu : Z) : outcome (gset Z) :=
  match toks with
  | [] => Ret mask
  | tok :: toks => '(mask, step) ← aff_token tok step mask ncpu; aff_tokens toks step mask ncpu
  end.
Definition aff_list_parse (str : string) (ncpu : Z) : outcome (gset Z) :=
  aff_tokens (split "," str) 1 ∅ ncpu.

(** ** The iterator goes round *)

(** the cores of the set that exist, in order *)
Definition cores (mask : gset Z) (ncpu : Z) : list Z := filter (.∈ mask) (seqZ 0 ncpu).
(** those after [it] *)
Definition after (it : Z) (mask : gset Z) (ncpu : Z) : list Z :=
  filter (.∈ mask) (seqZ (it + 1) (ncpu - it - 1)).

(** [n] elements of [l], round after round *)
Fixpoint rounds {A} (n : nat) (l : list A) : list A :=
  match n, l with S n, x :: l => x :: rounds n (l ++ [x]) | _, _ => [] end.

Lemma rounds_lookup {A} (n k : nat) (l : list A) : (k < n)%nat → l ≠ [] →
  rounds n l !! k = l !! (k mod length l)%nat.
Proof.
  revert k l. induction n as [|n IH]; intros k [|x l] Hk Hl; [lia|lia|done|].
  destruct k as [|k]; [by rewrite Nat.Div0.mod_0_l|]. cbn [rounds].
  change ((x :: ?m) !! S k) with (m !! k). rewrite IH; [|lia|by destruct l].
  rewrite length_app. cbn [length]. replace (length l + 1)%nat with (S (length l)) by lia.
  set (m := S (length l)). pose proof (Nat.mod_upper_bound k m ltac:(done)) as Hm.
  assert (S k mod m = if decide (k mod m = length l) then 0 else S (k mod m))%nat as ->.
  { pose proof (Nat.div_mod k m ltac:(done)) as Hd. symmetry. case_decide as E.
    - apply Nat.mod_unique with (q := S (k / m)); [subst m; lia|]. rewrite E in Hd. lia.
    - apply Nat.mod_unique with (q := (k / m)%nat); subst m; lia. }
  case_decide as E; [by rewrite E, list_lookup_middle|].
  rewrite lookup_app_l by (subst m; lia). done.
Qed.

Lemma rounds_length {A} (n : nat) (l : list A) : l ≠ [] → length (rounds n l) = n.
Proof.
  revert l. induction n as [|n IH]; intros [|x l] Hl; [done..|]. cbn [rounds length].
  rewrite IH; [done|by destruct l].
Qed.

Section Iterator.
Context (mask : gset Z) (ncpu : Z).
Hypothesis Hncpu : 0 < ncpu < 2 ^ 31.

Lemma it_step fuel it : -1 ≤ it < ncpu - 1 →
  aff_it_next (S fuel) it mask ncpu =
    if bool_decide (it + 1 ∈ mask) then Ret (it + 1) else aff_it_next fuel (it + 1) mask ncpu.
Proof.
  intros Hi. cbn [aff_it_next]. rewrite int_ok by (unfold is_int; lia). obind.
  rewrite rem_pos, Z.mod_small by lia. done.
Qed.
Lemma it_wrap fuel : aff_it_next fuel (ncpu - 1) mask ncpu = aff_it_next fuel (-1) mask ncpu.
Proof.
  destruct fuel as [|fuel]; [done|]. cbn [aff_it_next].
  rewrite !int_ok by (unfold is_int; lia). obind. rewrite !rem_pos by lia.
  replace (ncpu - 1 + 1) with ncpu by lia. by rewrite Z.mod_same by lia.
Qed.

Lemma after_step it : -1 ≤ it < ncpu - 1 →
  after it mask ncpu = if bool_decide (it + 1 ∈ mask) then it + 1 :: after (it + 1) mask ncpu
                       else after (it + 1) mask ncpu.
Proof.
  intros Hi. unfold after. rewrite seqZ_cons by lia.
  replace (Z.succ (it + 1)) with (it + 1 + 1) by lia.
  replace (Z.pred (ncpu - it - 1)) with (ncpu - (it + 1) - 1) by lia.
  rewrite filter_cons. case_bool_decide; case_decide; done.
Qed.
Lemma after_last : after (ncpu - 1) mask ncpu = [].
Proof. unfold after. by rewrite seqZ_nil by lia. Qed.
Lemma after_start : after (-1) mask ncpu = cores mask ncpu.
Proof. unfold after, cores. f_equal. f_equal; lia. Qed.

(** from [it], the next core is the first one after it, or is searched from the start *)
Lemma it_after n fuel it : -1 ≤ it → it = ncpu - 1 - Z.of_nat n →
  aff_it_next (n + fuel) it mask ncpu =
    match after it mask ncpu with c :: _ => Ret c | [] => aff_it_next fuel (-1) mask ncpu end.
Proof.
  revert it. induction n as [|n IH]; intros it H1 H2.
  - replace it with (ncpu - 1) by lia. rewrite after_last. apply it_wrap.
  - cbn [Nat.add]. rewrite it_step, after_step, IH by lia. by case_bool_decide.
Qed.

Lemma it_next fuel it c l : -1 ≤ it < ncpu → (2 * Z.to_nat ncpu ≤ fuel)%nat →
  after it mask ncpu ++ cores mask ncpu = c :: l → aff_it_next fuel it mask ncpu = Ret c.
Proof.
  intros Hi Hf. replace fuel with (Z.to_nat (ncpu - 1 - it) + (fuel - Z.to_nat (ncpu - 1 - it)))%nat by lia.
  rewrite it_after by lia. destruct (after it mask ncpu) as [|d m]; [|by intros [= <- _]]. cbn [app].
  set (f := (fuel - _)%nat). replace f with (Z.to_nat ncpu + (f - Z.to_nat ncpu))%nat by (subst f; lia).
  rewrite it_after, after_start by lia. by intros ->.
Qed.

Lemma it_none fuel it : -1 ≤ it < ncpu → cores mask ncpu = [] →
  aff_it_next fuel it mask ncpu = Stop OutOfFuel.
Proof.
  intros Hi Hc. revert it Hi. induction fuel as [|fuel IH]; intros it Hi; [done|].
  destruct (decide (it = ncpu - 1)) as [->|].
  - rewrite it_wrap, it_step by lia. rewrite bool_decide_false; [apply IH; lia|].
    intros Hm. apply (not_elem_of_nil (-1 + 1)). rewrite <- Hc. apply list_elem_of_filter.
    split; [done|]. apply elem_of_seqZ. lia.
  - rewrite it_step by lia. rewrite bool_decide_false; [apply IH; lia|].
    intros Hm. apply (not_elem_of_nil (it + 1)). rewrite <- Hc. apply list_elem_of_filter.
    split; [done|]. apply elem_of_seqZ. lia.
Qed.

(** the cores around one of them *)
Lemma cores_split l1 c l2 : cores mask ncpu = l1 ++ c :: l2 →
  0 ≤ c < ncpu ∧ after c mask ncpu = l2.
Proof.
  intros E. assert (Hc : c ∈ cores mask ncpu) by (rewrite E; set_solver).
  apply list_elem_of_filter in Hc as [Hm Hc]. apply elem_of_seqZ in Hc. split; [lia|].
  assert (E' : cores mask ncpu = filter (.∈ mask) (seqZ 0 c) ++ c :: after c mask ncpu).
  { unfold cores, after. replace ncpu with (c + (1 + (ncpu - c - 1))) at 1 by lia.
    rewrite seqZ_app, filter_app by lia. f_equal. rewrite Z.add_0_l, seqZ_cons by lia.
    rewrite filter_cons_True by done. do 3 f_equal; lia. }
  assert (Hn : NoDup (cores mask ncpu)) by apply NoDup_filter, NoDup_seqZ.
  rewrite E' in E. assert (Hn' := Hn). rewrite E' in Hn. clear E' Hn'. revert l1 E Hn.
  generalize (filter (.∈ mask) (seqZ 0 c)). intros k. induction k as [|x k IH]; intros [|y l1] E Hn.
  - by injection E.
  - injection E as <- E. apply NoDup_cons in Hn as [[] _]. rewrite E. apply elem_of_app. right. left.
  - injection E as <- E. apply NoDup_cons in Hn as [[] _]. apply elem_of_app. right. left.
  - injection E as <- E. apply NoDup_cons in Hn as [_ Hn]. eauto.
Qed.

(** from a core on, the threads get the cores in turn *)
Lemma pin_rounds fuel n l1 c l2 : (2 * Z.to_nat ncpu ≤ fuel)%nat → cores mask ncpu = l1 ++ c :: l2 →
  ∃ last m1 m2, cores mask ncpu = m1 ++ last :: m2 ∧
    pin_loop fuel n c mask ncpu = Ret (rounds n (c :: l2 ++ l1), last) ∧
    ∀ k, rounds (n + k) (c :: l2 ++ l1) = rounds n (c :: l2 ++ l1) ++ rounds k (last :: m2 ++ m1).
Proof.
  intros Hf. revert l1 c l2. induction n as [|n IH]; intros l1 c l2 E; [by exists c, l1, l2|].
  destruct (cores_split _ _ _ E) as [Hc Ha].
  assert (∃ d l1' l2', cores mask ncpu = l1' ++ d :: l2' ∧ d :: l2' ++ l1' = (l2 ++ l1) ++ [c] ∧
            aff_it_next fuel c mask ncpu = Ret d) as (d & l1' & l2' & E' & Hr & Hd).
  { destruct l2 as [|d l2].
    - destruct l1 as [|d l1].
      + exists c, [], []. repeat split; [done|]. eapply it_next; [lia|done|]. by rewrite Ha, E.
      + exists d, [], (l1 ++ [c]). repeat split; [by rewrite E|by rewrite app_nil_r|].
        eapply it_next; [lia|done|]. by rewrite Ha, E.
    - exists d, (l1 ++ [c]), l2. repeat split; [by rewrite E, <- app_assoc|by rewrite <- !app_assoc|].
      eapply it_next; [lia|done|]. by rewrite Ha. }
  destruct (IH _ _ _ E') as (last & m1 & m2 & Hl & Hp & Hk). exists last, m1, m2. split; [done|].
  cbn [pin_loop]. rewrite Hd. obind. rewrite Hp. obind. cbn [rounds Nat.add]. rewrite <- Hr. split; [done|].
  intros k. by rewrite Hk.
Qed.
End Iterator.

(** [C14] Threads are pinned round robin: with a core of the set among the
    [ncpu] of the machine, the search for the next core ends, and the workers of
    connections followed by those of storage get the cores of the set in
    increasing order, starting again after the last: the k-th thread has the
    core of index k modulo their number. With none, the search never ends. *)
Theorem pinning_round_robin (mask : gset Z) (ncpu : Z) (fuel conns storers : nat) :
  0 < ncpu < 2 ^ 31 → (2 * Z.to_nat ncpu ≤ fuel)%nat →
  (cores mask ncpu ≠ [] ∧ ∃ cs ss, pin_threads fuel conns storers mask ncpu = Ret (cs, ss) ∧
     length cs = conns ∧ length ss = storers ∧
     ∀ k, (k < conns + storers)%nat →
       (cs ++ ss) !! k = cores mask ncpu !! (k mod length (cores mask ncpu))%nat) ∨
  (cores mask ncpu = [] ∧ ∀ fuel, pin_threads fuel conns storers mask ncpu = Stop OutOfFuel).
Proof.
  intros Hn Hf. destruct (cores mask ncpu) as [|c l] eqn:E.
  - right. split; [done|]. intros f. unfold pin_threads, aff_it_init. by rewrite it_none by (try done; lia).
  - left. split; [done|]. unfold pin_threads, aff_it_init.
    rewrite (it_next mask ncpu Hn fuel (-1) c (l ++ c :: l)); [obind|lia|done|by rewrite (after_start mask ncpu), E].
    destruct (pin_rounds mask ncpu Hn fuel conns [] c l Hf E) as (d & m1 & m2 & E' & Hc & Hk).
    rewrite Hc. obind.
    destruct (pin_rounds mask ncpu Hn fuel storers m1 d m2 Hf E') as (d' & _ & _ & _ & Hs & _).
    rewrite Hs. obind. eexists _, _. split; [done|]. rewrite app_nil_r in *.
    assert (Hl : d :: m2 ++ m1 ≠ [] ∧ c :: l ≠ []) by done. destruct Hl as [Hl1 Hl2].
    rewrite !rounds_length by done. split_and!; [done|done|].
    intros k Hlt. rewrite <- Hk. by apply rounds_lookup.
Qed.

(** ** The list of cores, printed and parsed *)

(** one core, a range, a range with a step *)
Inductive item := Core (c : Z) | Range (lo hi : Z) | Stepped (lo hi step : Z).

Definition print_item (i : item) : string :=
  match i with
  | Core c => dec c
  | Range lo hi => dec lo ++ String "-" (dec hi)
  | Stepped lo hi step => dec lo ++ String "-" (dec hi ++ String ":" (dec step))
  end.
Fixpoint print_list (i : item) (l : list item) : string :=
  match l with [] => print_item i | j :: l => print_item i ++ String "," (print_list j l) end.

Definition valid (ncpu : Z) (i : item) : Prop :=
  match i with
  | Core c => 0 ≤ c < ncpu
  | Range lo hi => 0 ≤ lo < ncpu ∧ 0 ≤ hi < ncpu
  | Stepped lo hi step => 0 ≤ lo < ncpu ∧ 0 ≤ hi < ncpu ∧ 0 < step ≤ 2 ^ 30
  end.

(** the cores of a range: from its smaller bound on, every [step]-th *)
Definition in_range (lo hi step c : Z) : Prop :=
  Z.min lo hi ≤ c ≤ Z.max lo hi ∧ (step | c - Z.min lo hi).
(** whether [c] is of one of the items, and a range without a step takes the
    step of the last one that had one *)
Fixpoint listed (l : list item) (step c : Z) : Prop :=
  match l with
  | [] => False
  | Core d :: l => c = d ∨ listed l step c
  | Range lo hi :: l => in_range lo hi step c ∨ listed l step c
  | Stepped lo hi st :: l => in_range lo hi st c ∨ listed l st c
  end.

Lemma set_loop_spec fuel i hi step mask : 0 ≤ i → hi < CPU_SETSIZE → 0 < step ≤ 2 ^ 30 →
  (Z.to_nat (hi - i + 1) < fuel)%nat →
  returns (set_loop fuel i hi step mask) (fun m =>
    ∀ c, c ∈ m ↔ (i ≤ c ≤ hi ∧ (step | c - i)) ∨ c ∈ mask).
Proof.
  intros Hi Hh Hs. revert i Hi mask. induction fuel as [|fuel IH]; intros i Hi mask Hf; [lia|].
  cbn [set_loop]. destruct (Z.leb_spec i hi) as [Hle|Hle].
  - unfold CPU_SETSIZE in Hh. rewrite int_ok by (unfold is_int; lia). obind.
    eapply returns_mono; [apply IH; lia|]. cbv beta. intros m Hm c. rewrite Hm. unfold CPU_SET, CPU_SETSIZE.
    destruct (Z.leb_spec 0 i); [|lia]. destruct (Z.ltb_spec i 1024); [|lia]. cbn [andb].
    rewrite elem_of_union, elem_of_singleton. split.
    + intros [[Hc Hd]|[->|Hc]]; [left|left|by right].
      * split; [lia|]. replace (c - i) with (c - (i + step) + step) by lia.
        apply Z.divide_add_r; [done|apply Z.divide_refl].
      * split; [lia|]. rewrite Z.sub_diag. apply Z.divide_0_r.
    + intros [[Hc Hd]|Hc]; [|by auto]. destruct (decide (c = i)) as [->|]; [by auto|]. left.
      assert (step ≤ c - i) by (apply Z.divide_pos_le; [lia|done]). split; [lia|].
      replace (c - (i + step)) with (c - i - step) by lia. apply Z.divide_sub_r; [done|apply Z.divide_refl].
  - cbn. intros c. split; [by auto|]. intros [?|?]; [lia|done].
Qed.

Lemma scan_range_core n : 0 ≤ n → scan_range (dec n) = None.
Proof. intros Hn. unfold scan_range. by rewrite scan_dec_end. Qed.
Lemma scan_range_dec lo hi s : 0 ≤ lo → 0 ≤ hi → starts is_digit s = false →
  scan_range (dec lo ++ String "-" (dec hi ++ s)) =
    Some (lo, hi, s ← strip ":" s; fst <$> scan_int s).
Proof.
  intros Hl Hh Hs. unfold scan_range. rewrite scan_dec by done. cbn [mbind option_bind].
  rewrite strip_char. cbn [mbind option_bind]. by rewrite scan_dec.
Qed.

(** the bounds of a range, in either order *)
Lemma range_set lo hi step mask ncpu : 0 ≤ lo < ncpu → 0 ≤ hi < ncpu → 0 < step ≤ 2 ^ 30 →
  ncpu ≤ CPU_SETSIZE →
  returns (let '(lo, hi) := if hi <? lo then (hi, lo) else (lo, hi) in
           _ ← check ((0 <=? lo) && (lo <? ncpu));
           _ ← check ((0 <=? hi) && (hi <? ncpu));
           _ ← check (0 <? step);
           mask ← set_loop (S (Z.to_nat (hi - lo + 1))) lo hi step mask;
           Ret (mask, step)) (fun '(m, step') =>
    step' = step ∧ ∀ c, c ∈ m ↔ in_range lo hi step c ∨ c ∈ mask).
Proof.
  intros Hl Hh Hs Hc.
  assert (Hgo : ∀ a b, 0 ≤ a < ncpu → 0 ≤ b < ncpu → a = Z.min lo hi → b = Z.max lo hi →
    returns (_ ← check ((0 <=? a) && (a <? ncpu));
             _ ← check ((0 <=? b) && (b <? ncpu));
             _ ← check (0 <? step);
             mask ← set_loop (S (Z.to_nat (b - a + 1))) a b step mask;
             Ret (mask, step)) (fun '(m, step') =>
      step' = step ∧ ∀ c, c ∈ m ↔ in_range lo hi step c ∨ c ∈ mask)).
  { intros a b Ha Hb Ea Eb. unfold check.
    rewrite !(proj2 (Z.leb_le _ _)), !(proj2 (Z.ltb_lt _ _)) by lia. cbn [andb]. obind.
    apply returns_bind. eapply returns_mono; [apply set_loop_spec; lia|]. cbv beta.
    intros m Hm. split; [done|]. unfold in_range. by rewrite <- Ea, <- Eb. }
  destruct (Z.ltb_spec hi lo); apply Hgo; lia.
Qed.

Lemma aff_token_print i step mask ncpu : valid ncpu i → 0 < step ≤ 2 ^ 30 → ncpu ≤ CPU_SETSIZE →
  returns (aff_token (print_item i) step mask ncpu) (fun '(m, step') =>
    0 < step' ≤ 2 ^ 30 ∧ ∀ l c, c ∈ m ∨ listed l step' c ↔ c ∈ mask ∨ listed (i :: l) step c).
Proof.
  intros Hv Hs Hn. assert (Hi : ∀ z, 0 ≤ z < ncpu → int_ z = Ret z).
  { intros z Hz. unfold CPU_SETSIZE in Hn. apply int_ok. unfold is_int. lia. }
  destruct i as [c|lo hi|lo hi st]; cbn [valid print_item listed] in *; unfold aff_token.
  - rewrite scan_range_core by lia. unfold scan_core. rewrite scan_dec_end, Hi by lia. obind.
    rewrite Z.abs_eq, Hi by lia. obind. unfold check. rewrite (proj2 (Z.ltb_lt _ _)) by lia. obind.
    split; [done|]. intros l d. unfold CPU_SET. unfold CPU_SETSIZE in *.
    rewrite (proj2 (Z.leb_le _ _)), (proj2 (Z.ltb_lt _ _)) by lia. cbn [andb].
    rewrite elem_of_union, elem_of_singleton. tauto.
  - rewrite <- (string_app_nil (dec hi)), scan_range_dec by (done || lia).
    rewrite !Hi by tauto. obind. eapply returns_mono; [apply range_set; tauto|].
    intros [m st] [-> Hm]. split; [done|]. intros l c. rewrite Hm. tauto.
  - rewrite scan_range_dec by (done || lia). rewrite !Hi by tauto. rewrite strip_char. cbn [mbind option_bind].
    rewrite scan_dec_end by lia. cbn [fmap option_fmap option_map fst].
    rewrite int_ok by (unfold is_int; lia). obind. eapply returns_mono; [apply range_set; tauto|].
    intros [m st'] [-> Hm]. split; [tauto|]. intros l c. rewrite Hm. tauto.
Qed.

Lemma print_item_free i ncpu : valid ncpu i → free "," (print_item i) = true.
Proof.
  destruct i; cbn [valid print_item]; intros Hv;
    repeat (rewrite free_app || (rewrite dec_free by (reflexivity || lia)) || cbn [free andb]); done.
Qed.

Lemma split_print i l ncpu : Forall (valid ncpu) (i :: l) →
  split "," (print_list i l) = print_item <$> i :: l.
Proof.
  revert i. induction l as [|j l IH]; intros i [Hi Hl]%Forall_cons; cbn [print_list].
  - by rewrite split_free by (by eapply print_item_free).
  - rewrite split_app by (done || by eapply print_item_free). by rewrite IH.
Qed.

(** [C15] A list of cores, ranges and ranges with a step, printed as taskset
    prints them and parsed on a machine with at most 1024 cores, gives the set
    of the cores listed, with the bounds of a range in either order. The step is a local of the whole list: a range without one takes the step
    of the last range that had one. *)
Theorem affinity_list_parsed (i : item) (l : list item) (ncpu : Z) :
  ncpu ≤ CPU_SETSIZE → Forall (valid ncpu) (i :: l) →
  ∃ mask, aff_list_parse (print_list i l) ncpu = Ret mask ∧
    ∀ c, c ∈ mask ↔ listed (i :: l) 1 c.
Proof.
  intros Hn Hv. unfold aff_list_parse. erewrite split_print by done.
  assert (Hgo : ∀ l step mask, Forall (valid ncpu) l → 0 < step ≤ 2 ^ 30 →
    ∃ m, aff_tokens (print_item <$> l) step mask ncpu = Ret m ∧
      ∀ c, c ∈ m ↔ c ∈ mask ∨ listed l step c).
  { clear i l Hv. intros l. induction l as [|i l IH]; intros step mask Hv Hs.
    - exists mask. split; [done|]. cbn. tauto.
    - apply Forall_cons in Hv as [Hi Hv]. cbn [fmap list_fmap aff_tokens].
      pose proof (aff_token_print i step mask ncpu Hi Hs Hn) as H.
      destruct (aff_token _ _ _ _) as [[m st]|]; [|done]. destruct H as [Hst Hm]. obind.
      destruct (IH st m Hv Hst) as (m' & E & Hm'). exists m'. split; [done|].
      intros c. by rewrite Hm'. }
  destruct (Hgo _ 1 ∅ Hv ltac:(done)) as (m & E & Hm). exists m. split; [done|].
  intros c. rewrite Hm. split; [|auto]. intros [Hc|]; [|done]. by apply elem_of_empty in Hc.
Qed.

(** ** Examples *)

(** the second range has the step of the first; a node with five workers *)
Lemma affinity_list_parsed_witness :
  print_list (Stepped 0 6 3) [Range 3 1; Core 7] = "0-6:3,3-1,7"%string ∧
  ∃ mask, aff_list_parse "0-6:3,3-1,7" 8 = Ret mask ∧ ∀ c, c ∈ mask ↔ listed [Stepped 0 6 3; Range 3 1; Core 7] 1 c.
Proof.
  split; [reflexivity|]. apply (affinity_list_parsed (Stepped 0 6 3) [Range 3 1; Core 7] 8); [discriminate|].
  repeat constructor; cbn; lia.
Defined.

Lemma pinning_round_robin_witness :
  pin_threads 8 3 2 {[0; 2; 5]} 4 = Ret ([0; 2; 0], [2; 0]) ∧
  cores {[0; 2; 5]} 4 ≠ [].
Proof.
  split; [reflexivity|].
  destruct (pinning_round_robin {[0; 2; 5]} 4 8 3 2) as [[H _]|[H _]];
    [lia|cbn; lia|exact H|exfalso; vm_compute in H; discriminate].
Defined.
End Affinity.
