(* ===== verification/Address.v ===== *)
(** * Addresses (src/src/address_utils.h, address_utils.c)

    The text of a target, [proto://host:port] in its several forms, to a
    protocol and an IPv4 address. gethostbyname is a parameter: the 4 bytes of
    the address it finds for a name, as s_addr holds them. A buffer that was not
    written yet is [None]. *)

From Stdlib Require Import String Ascii.
From S2P Require Import Prelude Text Message Request.

Local Open Scope Z_scope.

Module Address.

Definition MAX_HOSTPORT_STRLEN : Z := 64.
Definition DEFAULT_ADDR : string := "127.0.0.1".
Definition DEFAULT_PORT : string := "7891".

(** the bytes of a 16-bit number swapped *)
Definition htons (p : Z) : Z := (u16 p mod 256) * 256 + u16 p / 256.

Definition LONG_MAX : Z := 2 ^ 63 - 1.
Definition LONG_MIN : Z := - 2 ^ 63.
(** the number, and what follows it: the text itself where there is no number *)
Definition strtol (s : string) : Z * string :=
  match scan_int s with
  | Some (n, e) => (if LONG_MAX <? n then LONG_MAX else if n <? LONG_MIN then LONG_MIN else n, e)
  | None => (0, s)
  end.
Definition atol (s : string) : Z := (strtol s).1.
Definition atoi (s : string) : Z := s32 (strtol s).1.

Definition is_empty (s : string) : bool := match s with EmptyString => true | _ => false end.

(** the text is changed and restored *)
Definition addr_parse (gethostbyname : string → option Z) (hostport_str : string)
    : outcome sockaddr_in :=
  _ ← check (negb (is_empty hostport_str));
  '(host, port) ←
    match strchr ":" hostport_str with
    | Some (host, port_str) =>
        let '(port, end_ptr) := strtol port_str in
        _ ← check (is_empty end_ptr);
        Ret (host, s32 port)
    | None => Ret (hostport_str, atoi DEFAULT_PORT)
    end;
  let hostname := if is_empty host then DEFAULT_ADDR else host in
  match gethostbyname hostname with
  | Some a => Ret (SockAddr (htons port) a)
  | None => Stop CheckFailed
  end.

(** the protocol at the start of [s], and what follows its name *)
Definition proto_prefix (colon : string) (s : string) : option (Z * string) :=
  match strip ("udp" ++ colon) s with
  | Some r => Some (UDP, r)
  | None =>
      match strip ("tcp" ++ colon) s with
      | Some r => Some (TCP, r)
      | None =>
          match strip ("ssl" ++ colon) s with
          | Some r => Some (TLS, r)
          | None =>
              match strip ("dpdk" ++ colon) s with
              | Some r => Some (DPDK, r)
              | None => None
              end
          end
      end
  end.

(** [nodehostport] and [proto] as they are before; what they are after *)
Definition addr_proto_parse (arg : string) (nodehostport : option string) (proto : Z)
    : outcome (option string * Z) :=
  _ ← assert_ (Z.of_nat (String.length arg) <? MAX_HOSTPORT_STRLEN);
  _ ← check (negb (strstr "::" arg));
  if strstr "://" arg then
    match strtok "/" arg with
    | None => Stop CheckFailed
    | Some (tok, reserve) =>
        match proto_prefix ":" tok with
        | Some (p, rest) =>
            _ ← check (is_empty rest);
            Ret (match strtok "/" reserve with Some (t, _) => Some t | None => nodehostport end, p)
        | None => Ret (Some tok, proto)
        end
    end
  else
    let '(proto, arg) :=
      match proto_prefix EmptyString arg with
      | Some (p, rest) => (p, default rest (strip ":" rest))
      | None => (proto, arg)
      end in
    Ret (if is_empty arg then nodehostport else Some arg, proto).

(** ** What the forms of a target mean *)

Definition ntohs (p : Z) : Z := htons p.
Definition proto_name (p : Z) : string :=
  if p =? UDP then "udp" else if p =? TCP then "tcp" else if p =? TLS then "ssl" else "dpdk".
Definition is_proto (p : Z) : Prop := p = UDP ∨ p = TCP ∨ p = TLS ∨ p = DPDK.

(** a name of a host *)
Definition host_name (h : string) : Prop := h ≠ EmptyString ∧ free ":/" h = true.
Definition hostport (h : string) (n : Z) : string := h ++ String ":" (dec n).

Lemma ntohs_htons n : 0 ≤ n < 2 ^ 16 → ntohs (htons n) = n.
Proof. intros Hn. unfold ntohs, htons, u16. change (2 ^ 16) with 65536 in *. dlia. Qed.

Lemma strtol_dec n : 0 ≤ n < 2 ^ 16 → strtol (dec n) = (n, EmptyString).
Proof.
  intros Hn. unfold strtol. rewrite scan_dec_end by lia. unfold LONG_MAX, LONG_MIN.
  destruct (Z.ltb_spec (2 ^ 63 - 1) n); [lia|]. by destruct (Z.ltb_spec n (- 2 ^ 63)); [lia|].
Qed.

Section Forms.
Context (h : string) (n : Z).
Hypothesis (Hh : host_name h) (Hn : 0 ≤ n < 2 ^ 16).

Lemma host_free a : is_in ":/" a = true → free (String a EmptyString) h = true.
Proof.
  intros Ha. destruct Hh as [_ Hf]. eapply free_sub, Hf. intros b. rewrite is_in_1.
  by intros ->%Ascii.eqb_eq.
Qed.
Lemma dec_free_1 a : is_in ":/" a = true → free (String a EmptyString) (dec n) = true.
Proof.
  intros Ha. eapply (free_sub ":/"), dec_free; [|done|lia]. intros b. rewrite is_in_1.
  by intros ->%Ascii.eqb_eq.
Qed.
Lemma host_cons : ∃ a t, h = String a t.
Proof. destruct Hh as [H _]. destruct h as [|a t]; [done|]. by exists a, t. Qed.

Lemma hostport_nonempty : is_empty (hostport h n) = false.
Proof. destruct host_cons as (a & t & E). unfold hostport. by rewrite E, string_app_cons. Qed.

Lemma hostport_slash : free "/" (hostport h n) = true.
Proof. unfold hostport. rewrite free_app, host_free by done. cbn [free]. by rewrite dec_free_1. Qed.

Lemma strip_hostport a pat : is_in ":/" a = true → strip (String a pat) (hostport h n) = None.
Proof. intros Ha. apply strip_free; [apply Hh|by apply host_free]. Qed.

Lemma strstr_hostport a : is_in ":/" a = true → strstr (String ":" (String a EmptyString)) (hostport h n) = false.
Proof.
  intros Ha. unfold hostport. rewrite strstr_app by (by apply host_free).
  rewrite strstr_cons; [by apply strstr_free, dec_free_1|]. rewrite strip_same.
  rewrite <- (string_app_nil (dec n)). apply strip_free; [apply dec_nonempty; lia|by apply dec_free_1].
Qed.
Lemma strstr_slashes : strstr "://" (hostport h n) = false.
Proof.
  unfold hostport. rewrite strstr_app by (by apply host_free).
  rewrite strstr_cons; [by apply strstr_free, dec_free_1|]. rewrite strip_same.
  rewrite <- (string_app_nil (dec n)). apply strip_free; [apply dec_nonempty; lia|by apply dec_free_1].
Qed.

Lemma addr_parse_hostport gethostbyname : addr_parse gethostbyname (hostport h n) =
  match gethostbyname h with Some a => Ret (SockAddr (htons n) a) | None => Stop CheckFailed end.
Proof.
  unfold addr_parse. rewrite hostport_nonempty. obind. unfold hostport.
  rewrite strchr_app by (by apply host_free). rewrite strtol_dec by done. obind. cbn [check is_empty].
  obind. destruct host_cons as (a & t & ->). cbn [is_empty].
  rewrite s32_small by (unfold is_int; lia). done.
Qed.

(** ** The protocol in front *)

Context (p : Z).
Hypothesis Hp : is_proto p.

Lemma name_free : free ":/" (proto_name p) = true.
Proof. by destruct Hp as [->|[->|[->| ->]]]. Qed.
Lemma name_free_1 a : is_in ":/" a = true → free (String a EmptyString) (proto_name p) = true.
Proof.
  intros Ha. eapply free_sub, name_free. intros b. rewrite is_in_1. by intros ->%Ascii.eqb_eq.
Qed.
Lemma prefix_name s : proto_prefix EmptyString (proto_name p ++ s) = Some (p, s).
Proof. by destruct Hp as [->|[->|[->| ->]]]. Qed.
Lemma prefix_name_colon s : proto_prefix ":" (proto_name p ++ String ":" s) = Some (p, s).
Proof. by destruct Hp as [->|[->|[->| ->]]]. Qed.

(** the first checks, and which branch is taken *)
Lemma proto_parse_start arg buf proto : Z.of_nat (String.length arg) < MAX_HOSTPORT_STRLEN →
  strstr "::" arg = false → strstr "://" arg = false →
  addr_proto_parse arg buf proto =
    let '(proto, arg) :=
      match proto_prefix EmptyString arg with
      | Some (p, rest) => (p, default rest (strip ":" rest))
      | None => (proto, arg)
      end in
    Ret (if is_empty arg then buf else Some arg, proto).
Proof.
  intros Hl H1 H2. unfold addr_proto_parse. rewrite (proj2 (Z.ltb_lt _ _) Hl). cbn [assert_]. obind.
  by rewrite H1, H2.
Qed.

Lemma parse_url buf proto :
  Z.of_nat (String.length (proto_name p ++ "://" ++ hostport h n)) < MAX_HOSTPORT_STRLEN →
  addr_proto_parse (proto_name p ++ "://" ++ hostport h n) buf proto = Ret (Some (hostport h n), p).
Proof.
  intros Hl. unfold addr_proto_parse. rewrite (proj2 (Z.ltb_lt _ _) Hl). cbn [assert_]. obind. clear Hl.
  change ("://" ++ hostport h n)%string with (String ":" (String "/" (String "/" (hostport h n)))).
  rewrite (strstr_app ":" ":") by (by apply name_free_1).
  do 3 (rewrite (strstr_cons "::") by reflexivity). rewrite strstr_hostport by done. cbn [negb check]. obind.
  rewrite strstr_app by (by apply name_free_1).
  rewrite (strstr_here _ _ (hostport h n)) by (apply (strip_app "://")).
  change (String ":" ?s) with (String ":" EmptyString ++ s)%string at 1.
  rewrite <- string_app_assoc, strtok_app;
    [|by destruct (proto_name p)|by rewrite free_app, name_free_1|done].
  rewrite prefix_name_colon. cbn [is_empty check]. obind.
  change (strtok "/" (String "/" (hostport h n))) with (strtok "/" (hostport h n)).
  rewrite strtok_free; [done| |apply hostport_slash]. intros E. by pose proof hostport_nonempty as H; rewrite E in H.
Qed.

Lemma parse_colon buf proto :
  Z.of_nat (String.length (proto_name p ++ ":" ++ hostport h n)) < MAX_HOSTPORT_STRLEN →
  addr_proto_parse (proto_name p ++ ":" ++ hostport h n) buf proto = Ret (Some (hostport h n), p).
Proof.
  intros Hl. change (":" ++ hostport h n)%string with (String ":" (hostport h n)) in *.
  rewrite proto_parse_start; [|done|..].
  - rewrite prefix_name, strip_char. cbn -[hostport is_empty]. by rewrite hostport_nonempty.
  - rewrite strstr_app by (by apply name_free_1).
    rewrite strstr_cons by (rewrite strip_same; by apply strip_hostport).
    by apply strstr_hostport.
  - rewrite strstr_app by (by apply name_free_1).
    rewrite strstr_cons by (rewrite strip_same; by apply strip_hostport).
    apply strstr_slashes.
Qed.

Lemma parse_glued buf proto :
  Z.of_nat (String.length (proto_name p ++ hostport h n)) < MAX_HOSTPORT_STRLEN →
  addr_proto_parse (proto_name p ++ hostport h n) buf proto = Ret (Some (hostport h n), p).
Proof.
  intros Hl. rewrite proto_parse_start; [|done|..].
  - rewrite prefix_name, strip_hostport by done. cbn -[hostport is_empty]. by rewrite hostport_nonempty.
  - rewrite strstr_app by (by apply name_free_1). by apply strstr_hostport.
  - rewrite strstr_app by (by apply name_free_1). apply strstr_slashes.
Qed.

Lemma parse_bare buf proto : Z.of_nat (String.length (hostport h n)) < MAX_HOSTPORT_STRLEN →
  proto_prefix EmptyString (hostport h n) = None →
  addr_proto_parse (hostport h n) buf proto = Ret (Some (hostport h n), proto).
Proof.
  intros Hl Hb. rewrite proto_parse_start; [|done|by apply strstr_hostport|apply strstr_slashes].
  by rewrite Hb, hostport_nonempty.
Qed.
End Forms.

(** the spellings of a target: the last without a protocol *)
Inductive form := Url | Colon | Glued | Bare.
Definition spell (f : form) (p : Z) (h : string) (n : Z) : string :=
  match f with
  | Url => proto_name p ++ "://" ++ hostport h n
  | Colon => proto_name p ++ ":" ++ hostport h n
  | Glued => proto_name p ++ hostport h n
  | Bare => hostport h n
  end.

(** [C16] A target reads back from each of its spellings: for every protocol,
    name of a host and 16-bit port, "udp://host:port", "udp:host:port" and
    "udphost:port" (less than 64 characters) give the protocol, the address of
    the host and the port, and "host:port" does with the protocol left as it
    was, but only for a host whose name does not itself start with the name of
    a protocol: of "udphost" the three letters are taken for the protocol. *)
Theorem target_roundtrip (f : form) (gethostbyname : string → option Z) (p proto n a : Z)
    (h : string) (buf : option string) :
  is_proto p → host_name h → 0 ≤ n < 2 ^ 16 → gethostbyname h = Some a →
  Z.of_nat (String.length (spell f p h n)) < MAX_HOSTPORT_STRLEN →
  (f = Bare → proto_prefix EmptyString (hostport h n) = None) →
  addr_proto_parse (spell f p h n) buf proto =
    Ret (Some (hostport h n), match f with Bare => proto | _ => p end) ∧
  ∃ addr, addr_parse gethostbyname (hostport h n) = Ret addr ∧ s_addr addr = a ∧ ntohs (sin_port addr) = n.
Proof.
  intros Hp Hh Hn Ha Hl Hb. split.
  - destruct f; cbn [spell] in *; [by apply parse_url|by apply parse_colon|by apply parse_glued|].
    by apply parse_bare; auto.
  - rewrite addr_parse_hostport, Ha by done. eexists. split; [done|]. split; [done|]. by apply ntohs_htons.
Qed.

(** ** Examples *)

Definition hosts (h : string) : option Z := if String.eqb h "node1" then Some 16777343 else None.

Lemma target_roundtrip_witness :
  addr_proto_parse "ssl://node1:7892" None TCP = Ret (Some "node1:7892"%string, TLS) ∧
  ∃ addr, addr_parse hosts "node1:7892" = Ret addr ∧ s_addr addr = 16777343 ∧ ntohs (sin_port addr) = 7892.
Proof.
  apply (target_roundtrip Url hosts TLS TCP 7892 16777343 "node1" None).
  - right. right. by left.
  - by split.
  - lia.
  - reflexivity.
  - reflexivity.
  - discriminate.
Defined.

(** the name of the host is cut, the port is taken modulo 65536, and nothing is
    written for a protocol alone *)
Example tcpdump_host : addr_proto_parse "tcpdump:80" None UDP = Ret (Some "dump:80"%string, TCP).
Proof. reflexivity. Qed.
Example port_wraps : addr_parse hosts "node1:65616" = addr_parse hosts "node1:80".
Proof. reflexivity. Qed.
Example port_left_out : addr_parse hosts "node1:" = Ret (SockAddr 0 16777343).
Proof. reflexivity. Qed.
Example nothing_written : addr_proto_parse "udp" None TCP = Ret (None, UDP).
Proof. reflexivity. Qed.
End Address.
