(* ===== verification/Startup.v ===== *)
(** * Start-up of a node (src/src/dw_node.c: argp_node_parse_opt,
      init_listen_sock, main)

    The options of a node, the storage devices main() makes of them, and the
    listening sockets with their entries in the table of connections. argp
    splits the command line: an option comes with its argument. The answers of
    socket() and of the calls that prepare a socket are arguments; memory is
    available. *)

From Stdlib Require Import String Ascii SpecFloat.
From S2P Require Import Prelude Text Message Request Memory Connection Poll Forward Node Distrib Address.

Local Open Scope Z_scope.

Module Startup.

Definition MAX_STORAGE_PATH_STR : nat := 100.
Definition MAX_LISTEN_SOCKETS : Z := 16.
Definition MAX_THREADS : Z := 256.

Inductive accept_mode_t := AM_CHILD | AM_SHARED | AM_PARENT.
#[export] Instance accept_mode_eq_dec : EqDecision accept_mode_t.
Proof. solve_decision. Defined.

(** ** Data *)

(** the settings of a storage worker; -1 where not given *)
Record device := MkDevice {
  storage_path : string;
  max_storage_size : Z;
  use_odirect : Z;
  periodic_sync_msec : Z;
  use_wait_spin : Z;
  dev_count : Z
}.
Definition SIZE_NONE : Z := u64 (-1).
Definition no_device : device := MkDevice EmptyString SIZE_NONE (-1) (-1) (-1) 1.

Record sched_t := MkSched { sched_policy : Z; sched_nice : Z; sched_priority : Z;
                            sched_runtime : Z; sched_deadline : Z; sched_period : Z }.
Definition SCHED_OTHER : Z := 0.
Definition SCHED_FIFO : Z := 1.
Definition SCHED_RR : Z := 2.
Definition SCHED_DEADLINE : Z := 6.

(** the defaults for the devices among the arguments *)
Record storage_defaults := MkDefaults { d_sync : Z; d_size : Z; d_odirect : Z; d_spin : Z }.
Record ssl_files := MkSslFiles { ssl_cert : option string; ssl_key : option string;
  ssl_ca : option string; ssl_ciphers : option string; ssl_ca_path : option string; ssl_verify : Z }.

(** the arguments and the global variables the options set; an address that is
    not written keeps its initial text *)
Record node_config := MkConfig {
  bind_addrs : list (option string * Z);
  n_bind_addrs : Z;
  accept_mode : accept_mode_t;
  poll_mode : DwPoll.dw_poll_type_t;
  listen_backlog : Z;
  no_delay : Z;
  g_defrag : Z;
  use_wait_spinning : Z;
  loops_per_usec : double;
  devices : list device;
  storage_devices : Z;
  defaults : storage_defaults;
  affinity : option (option string);
  num_threads : Z;
  sched_attrs : sched_t;
  ssl_args : ssl_files
}.

Definition with_binds (c : node_config) (l : list (option string * Z)) (n : Z) : node_config :=
  MkConfig l n (accept_mode c) (poll_mode c) (listen_backlog c) (no_delay c) (g_defrag c)
    (use_wait_spinning c) (loops_per_usec c) (devices c) (storage_devices c) (defaults c) (affinity c)
    (num_threads c) (sched_attrs c) (ssl_args c).
Definition with_modes (c : node_config) (a : accept_mode_t) (p : DwPoll.dw_poll_type_t) : node_config :=
  MkConfig (bind_addrs c) (n_bind_addrs c) a p (listen_backlog c) (no_delay c) (g_defrag c)
    (use_wait_spinning c) (loops_per_usec c) (devices c) (storage_devices c) (defaults c) (affinity c)
    (num_threads c) (sched_attrs c) (ssl_args c).
(** backlog, no_delay, defrag, spinning *)
Definition with_socket (c : node_config) (b d f s : Z) : node_config :=
  MkConfig (bind_addrs c) (n_bind_addrs c) (accept_mode c) (poll_mode c) b d f s (loops_per_usec c)
    (devices c) (storage_devices c) (defaults c) (affinity c) (num_threads c) (sched_attrs c) (ssl_args c).
Definition with_devices (c : node_config) (l : list device) (n : Z) : node_config :=
  MkConfig (bind_addrs c) (n_bind_addrs c) (accept_mode c) (poll_mode c) (listen_backlog c) (no_delay c)
    (g_defrag c) (use_wait_spinning c) (loops_per_usec c) l n (defaults c) (affinity c) (num_threads c)
    (sched_attrs c) (ssl_args c).
Definition with_defaults (c : node_config) (d : storage_defaults) : node_config :=
  MkConfig (bind_addrs c) (n_bind_addrs c) (accept_mode c) (poll_mode c) (listen_backlog c) (no_delay c)
    (g_defrag c) (use_wait_spinning c) (loops_per_usec c) (devices c) (storage_devices c) d (affinity c)
    (num_threads c) (sched_attrs c) (ssl_args c).
(** loops per microsecond, affinity, threads, scheduling *)
Definition with_cpu (c : node_config) (l : double) (a : option (option string)) (n : Z) (s : sched_t) : node_config :=
  MkConfig (bind_addrs c) (n_bind_addrs c) (accept_mode c) (poll_mode c) (listen_backlog c) (no_delay c)
    (g_defrag c) (use_wait_spinning c) l (devices c) (storage_devices c) (defaults c) a n s (ssl_args c).
Definition with_ssl_args (c : node_config) (s : ssl_files) : node_config :=
  MkConfig (bind_addrs c) (n_bind_addrs c) (accept_mode c) (poll_mode c) (listen_backlog c) (no_delay c)
    (g_defrag c) (use_wait_spinning c) (loops_per_usec c) (devices c) (storage_devices c) (defaults c)
    (affinity c) (num_threads c) (sched_attrs c) s.

Definition default_hostport : string := Address.DEFAULT_ADDR ++ ":" ++ Address.DEFAULT_PORT.
(** the initial values, and the defaults of main *)
Definition init_config : node_config :=
  MkConfig (replicate (Z.to_nat MAX_LISTEN_SOCKETS) (Some default_hostport, TCP)) 0 AM_CHILD DwPoll.DW_EPOLL 5 1 1 0
    (Double.of_Z 0) (replicate (Z.to_nat MAX_STORAGE_DEVICES) no_device) 0
    (MkDefaults (-1) (1024 * 1024 * 1024) 0 0) None 1 (MkSched SCHED_OTHER 0 0 0 0 0)
    (MkSslFiles None None None None None 0).

(** ** The options *)

Inductive node_option :=
  | BIND_ADDR (a : string) | ACCEPT_MODE (a : string) | POLL_MODE (a : string)
  | BACKLOG_LENGTH (a : string) | NO_DELAY (a : string) | NO_DEFRAG | WAIT_SPIN
  | LOOPS_PER_USEC (a : string) | MAX_STORAGE_SIZE (a : string) | SYNC (a : string) | ODIRECT
  | WAIT_SPIN_STORAGE | STORAGE_OPT_ARG (a : string) | NUM_THREADS (a : string)
  | THREAD_AFFINITY (a : string) | SCHED_POLICY (a : string)
  | SSL_CERT_FILE (a : string) | SSL_KEY_FILE (a : string) | SSL_CA_FILE (a : string)
  | SSL_CIPHERS (a : string) | SSL_CA_PATH (a : string) | SSL_VERIFY.

(** strncpy into the path: without a terminator when it fills the array *)
Definition set_path (d : device) (p : string) : device :=
  MkDevice (String.substring 0 MAX_STORAGE_PATH_STR p) (max_storage_size d) (use_odirect d)
    (periodic_sync_msec d) (use_wait_spin d) (dev_count d).
Definition set_count (d : device) (n : Z) : device :=
  MkDevice (storage_path d) (max_storage_size d) (use_odirect d) (periodic_sync_msec d) (use_wait_spin d) n.

(** a field of --storage, the [n]-th device being described *)
Definition storage_token (d : device) (n : Z) (tok : string) : outcome device :=
  match strip "file=" tok with
  | Some p => Ret (set_path d p)
  | None =>
  match strip "size=" tok with
  | Some v => Ret (MkDevice (storage_path d) (u64 (Address.atol v)) (use_odirect d) (periodic_sync_msec d)
                     (use_wait_spin d) (dev_count d))
  | None =>
  match strip "count=" tok with
  | Some v =>
      total ← int_ (n + Address.atoi v);
      _ ← check (total <=? MAX_STORAGE_DEVICES);
      Ret (set_count d (Address.atoi v))
  | None =>
  match strip "sync=" tok with
  | Some v => Ret (MkDevice (storage_path d) (max_storage_size d) (use_odirect d) (Address.atoi v)
                     (use_wait_spin d) (dev_count d))
  | None =>
  match strip "odirect" tok, strip "wait-spin" tok with
  | Some _, _ => Ret (MkDevice (storage_path d) (max_storage_size d) 1 (periodic_sync_msec d)
                        (use_wait_spin d) (dev_count d))
  | None, Some _ => Ret (MkDevice (storage_path d) (max_storage_size d) (use_odirect d)
                           (periodic_sync_msec d) 1 (dev_count d))
  | None, None => Ret (set_path d tok)
  end end end end end.
(** [do ... while (arg != NULL && *arg != '\0')] *)
Fixpoint storage_tokens (d : device) (n : Z) (toks : list string) : outcome device :=
  match toks with
  | [] => Ret d
  | tok :: toks =>
      d ← storage_token d n tok;
      match toks with
      | [EmptyString] => Ret d
      | _ => storage_tokens d n toks
      end
  end.
Definition storage_opt (c : node_config) (arg : string) : outcome node_config :=
  let n := storage_devices c in
  _ ← check (n <? MAX_STORAGE_DEVICES);
  d ← arr_get (devices c) n;
  d ← storage_tokens d n (split "," arg);
  l ← arr_set (devices c) n d;
  n ← int_ (n + dev_count d);
  Ret (with_devices c l n).

(** [sscanf(s, ":%d", &val) == 1] *)
Definition scan_colon (s : string) : option Z := s ← strip ":" s; fst <$> scan_int s.
Definition scan_two (s : string) : option (Z * Z) :=
  s ← strip ":" s;
  '(a, s) ← scan_int s;
  s ← strip "," s;
  '(b, _) ← scan_int s;
  Some (a, b).
Definition sched_opt (s : sched_t) (arg : string) : outcome sched_t :=
  let real policy r :=
    match scan_colon r with
    | Some v =>
        v ← int_ v;
        Ret (MkSched policy (sched_nice s) (u32 v) (sched_runtime s) (sched_deadline s) (sched_period s))
    | None => Stop CheckFailed
    end in
  match strip "other" arg with
  | Some r =>
      match scan_colon r with
      | Some v =>
          v ← int_ v;
          Ret (MkSched SCHED_OTHER v (sched_priority s) (sched_runtime s) (sched_deadline s) (sched_period s))
      | None =>
          _ ← check (Address.is_empty r);
          Ret (MkSched SCHED_OTHER (sched_nice s) (sched_priority s) (sched_runtime s) (sched_deadline s)
                 (sched_period s))
      end
  | None =>
  match strip "rr" arg with
  | Some r => real SCHED_RR r
  | None =>
  match strip "fifo" arg with
  | Some r => real SCHED_FIFO r
  | None =>
  match strip "dl" arg with
  | Some r =>
      match scan_two r with
      | Some (a, b) =>
          Ret (MkSched SCHED_DEADLINE (sched_nice s) (sched_priority s) (u64 (u64 a * 1000))
                 (u64 (u64 b * 1000)) (u64 (u64 b * 1000)))
      | None => Stop CheckFailed
      end
  | None => Stop CheckFailed
  end end end end.

Section Parse.
Context `{!Pd.Scan}.

Definition atof (s : string) : double := default (Double.of_Z 0) (Pd.scan_lf s).

Definition node_parse_opt (c : node_config) (o : node_option) : outcome node_config :=
  let d := defaults c in
  let f := ssl_args c in
  match o with
  | BIND_ADDR arg =>
      _ ← check (n_bind_addrs c <? MAX_LISTEN_SOCKETS);
      '(host, proto) ← arr_get (bind_addrs c) (n_bind_addrs c);
      '(host, proto) ← Address.addr_proto_parse arg host proto;
      l ← arr_set (bind_addrs c) (n_bind_addrs c) (host, proto);
      Ret (with_binds c l (n_bind_addrs c + 1))
  | ACCEPT_MODE arg =>
      if String.eqb arg "child" then Ret (with_modes c AM_CHILD (poll_mode c))
      else if String.eqb arg "shared" then Ret (with_modes c AM_SHARED (poll_mode c))
      else if String.eqb arg "parent" then Ret (with_modes c AM_PARENT (poll_mode c))
      else Stop CheckFailed
  | POLL_MODE arg =>
      if String.eqb arg "epoll" then Ret (with_modes c (accept_mode c) DwPoll.DW_EPOLL)
      else if String.eqb arg "poll" then Ret (with_modes c (accept_mode c) DwPoll.DW_POLL)
      else if String.eqb arg "select" then Ret (with_modes c (accept_mode c) DwPoll.DW_SELECT)
      else Stop CheckFailed
  | BACKLOG_LENGTH arg =>
      Ret (with_socket c (Address.atoi arg) (no_delay c) (g_defrag c) (use_wait_spinning c))
  | NO_DELAY arg =>
      let v := Address.atoi arg in
      _ ← check ((v =? 0) || (v =? 1));
      Ret (with_socket c (listen_backlog c) v (g_defrag c) (use_wait_spinning c))
  | NO_DEFRAG => Ret (with_socket c (listen_backlog c) (no_delay c) 0 (use_wait_spinning c))
  | WAIT_SPIN => Ret (with_socket c (listen_backlog c) (no_delay c) (g_defrag c) 1)
  | LOOPS_PER_USEC arg =>
      let v := atof arg in
      _ ← check (SFeqb v (Double.of_Z (-1)) || SFleb (Double.of_Z 0) v);
      Ret (with_cpu c v (affinity c) (num_threads c) (sched_attrs c))
  | MAX_STORAGE_SIZE arg => Ret (with_defaults c (MkDefaults (d_sync d) (u64 (Address.atol arg)) (d_odirect d) (d_spin d)))
  | SYNC arg => Ret (with_defaults c (MkDefaults (Address.atoi arg) (d_size d) (d_odirect d) (d_spin d)))
  | ODIRECT => Ret (with_defaults c (MkDefaults (d_sync d) (d_size d) 1 (d_spin d)))
  | WAIT_SPIN_STORAGE => Ret (with_defaults c (MkDefaults (d_sync d) (d_size d) (d_odirect d) 1))
  | STORAGE_OPT_ARG arg => storage_opt c arg
  | NUM_THREADS arg => Ret (with_cpu c (loops_per_usec c) (affinity c) (Address.atoi arg) (sched_attrs c))
  | THREAD_AFFINITY arg =>
      let list := match affinity c with Some l => l | None => None end in
      Ret (with_cpu c (loops_per_usec c)
             (Some (if String.eqb arg "auto" then list else Some arg)) (num_threads c) (sched_attrs c))
  | SCHED_POLICY arg =>
      s ← sched_opt (sched_attrs c) arg;
      Ret (with_cpu c (loops_per_usec c) (affinity c) (num_threads c) s)
  | SSL_CERT_FILE a => Ret (with_ssl_args c (MkSslFiles (Some a) (ssl_key f) (ssl_ca f) (ssl_ciphers f) (ssl_ca_path f) (ssl_verify f)))
  | SSL_KEY_FILE a => Ret (with_ssl_args c (MkSslFiles (ssl_cert f) (Some a) (ssl_ca f) (ssl_ciphers f) (ssl_ca_path f) (ssl_verify f)))
  | SSL_CA_FILE a => Ret (with_ssl_args c (MkSslFiles (ssl_cert f) (ssl_key f) (Some a) (ssl_ciphers f) (ssl_ca_path f) (ssl_verify f)))
  | SSL_CIPHERS a => Ret (with_ssl_args c (MkSslFiles (ssl_cert f) (ssl_key f) (ssl_ca f) (Some a) (ssl_ca_path f) (ssl_verify f)))
  | SSL_CA_PATH a => Ret (with_ssl_args c (MkSslFiles (ssl_cert f) (ssl_key f) (ssl_ca f) (ssl_ciphers f) (Some a) (ssl_verify f)))
  | SSL_VERIFY => Ret (with_ssl_args c (MkSslFiles (ssl_cert f) (ssl_key f) (ssl_ca f) (ssl_ciphers f) (ssl_ca_path f) 1))
  end.
Fixpoint node_parse (c : node_config) (l : list node_option) : outcome node_config :=
  match l with [] => Ret c | o :: l => c ← node_parse_opt c o; node_parse c l end.
End Parse.

(** ** The storage devices *)

(** a text used as a format with one number: other directives than a single %d
    read arguments that are not there *)
Fixpoint printf_d (s : string) (n : Z) (used : bool) : outcome string :=
  match s with
  | EmptyString => Ret EmptyString
  | String a s =>
      if negb (Ascii.eqb a "%") then t ← printf_d s n used; Ret (String a t)
      else
        match s with
        | EmptyString => Stop UB
        | String b s =>
            if Ascii.eqb b "%" then t ← printf_d s n used; Ret (String "%" t)
            else if Ascii.eqb b "d" && negb used then t ← printf_d s n true; Ret (dec n ++ t)%string
            else Stop UB
        end
  end.
(** [snprintf(storage_path, sizeof(storage_path), path_template, n)] *)
Definition format_path (template : string) (n : Z) : outcome string :=
  t ← printf_d template n false; Ret (String.substring 0 (MAX_STORAGE_PATH_STR - 1) t).
(** the path read as a string *)
Definition read_path (p : string) : outcome string :=
  if (String.length p <? MAX_STORAGE_PATH_STR)%nat then Ret p else Stop UB.

(** what is not given is taken from the defaults *)
Definition fill (d : storage_defaults) (v : device) : device :=
  MkDevice (storage_path v)
    (if max_storage_size v =? SIZE_NONE then d_size d else max_storage_size v)
    (if use_odirect v =? -1 then d_odirect d else use_odirect v)
    (if periodic_sync_msec v =? -1 then d_sync d else periodic_sync_msec v)
    (if use_wait_spin v =? -1 then d_spin d else use_wait_spin v) (dev_count v).
Definition renamed (v : device) (p : string) : device :=
  MkDevice p (max_storage_size v) (use_odirect v) (periodic_sync_msec v) (use_wait_spin v) (dev_count v).

(** the path of the first device of a group, and the template of the others,
    which is not initialised for a path given for one device *)
Definition group_path (home : option string) (v : device) (i : Z) : outcome (string * option string) :=
  if Address.is_empty (storage_path v) then
    h ← deref home;
    let template := String.substring 0 1023 (h ++ "/.dw_store_%d") in
    p ← format_path template i;
    Ret (p, Some template)
  else if 1 <? dev_count v then
    p ← read_path (storage_path v);
    let template := if strstr "%d" p then p else (p ++ "_%d")%string in
    p ← format_path template i;
    Ret (p, Some template)
  else Ret (storage_path v, None).

(** [for (j = 1; j < count; j++)]; the count of an entry is its own *)
Fixpoint copy_loop (n : nat) (l : list device) (v : device) (template : option string) (i j : Z)
    : outcome (list device) :=
  match n with
  | O => Ret l
  | S n =>
      old ← arr_get l (i + j);
      t ← deref template;
      p ← format_path t (i + j);
      l ← arr_set l (i + j) (set_count (renamed v p) (dev_count old));
      copy_loop n l v template i (j + 1)
  end.

(** [for (i = 0; i < storage_devices; i++)]: a group per unit of fuel *)
Fixpoint device_loop (fuel : nat) (home : option string) (d : storage_defaults) (n : Z)
    (l : list device) (i : Z) : outcome (list device) :=
  match fuel with
  | O => Stop OutOfFuel
  | S fuel =>
      if i <? n then
        v ← arr_get l i;
        let v := fill d v in
        '(p, template) ← group_path home v i;
        let v := renamed v p in
        l ← arr_set l i v;
        l ← copy_loop (Z.to_nat (dev_count v - 1)) l v template i 1;
        next ← int_ (i + dev_count v - 1);
        next ← int_ (next + 1);
        device_loop fuel home d n l next
      else Ret l
  end.
(** one device when no option asks for any *)
Definition storage_setup (fuel : nat) (home : option string) (c : node_config) : outcome node_config :=
  let n := if storage_devices c =? 0 then 1 else storage_devices c in
  l ← device_loop fuel home (defaults c) n (devices c) 0;
  Ret (with_devices c l n).

(** ** The listening sockets *)

(** what socket() gives for the [l]-th address and the [i]-th worker, and
    whether setsockopt, bind and listen succeed on it *)
Record listen_answers := MkListen { sock_of : nat → nat → Z; prepared : nat → nat → bool }.

Definition with_listen (c : conn_info_t) (defrag listen : Z) : conn_info_t :=
  MkConn (c_proto c) (sock c) (status c) (target c) (rx c) (tx c) (file c) (req_list c)
    (serialize_request c) (parent_thread c) (busy c) defrag listen (c_ssl c).

(** the sockets of each worker, with their protocols *)
Definition init_listen_sock (a : listen_answers) (self defrag : Z) (mode : accept_mode_t) (l i : nat)
    (proto : Z) (addr : sockaddr_in) (st : world * list (list (Z * Z)))
    : outcome (world * list (list (Z * Z))) :=
  let '(w, socks) := st in
  if bool_decide (mode = AM_CHILD) || (i =? 0)%nat then
    let lsock := sock_of a l i in
    _ ← check (negb (lsock =? -1));
    '(w, id) ← Connection.conn_alloc w self true true lsock addr proto;
    _ ← check (negb (id =? -1));
    '(w, _) ← Connection.conn_set_status w id READY;
    conn ← Connection.get_conn w id;
    let w := Connection.set_conn w id
               (with_listen conn defrag (if Forward.is_stream proto then 1 else is_listen conn)) in
    _ ← check (prepared a l i);
    mine ← arr_get socks (Z.of_nat i);
    _ ← (if Z.of_nat (length mine) <? MAX_LISTEN_SOCKETS then Ret tt else Stop UB);
    socks ← arr_set socks (Z.of_nat i) (mine ++ [(lsock, proto)]);
    Ret (w, socks)
  else
    match mode with
    | AM_SHARED =>
        first ← arr_get socks 0;
        socks ← arr_set socks (Z.of_nat i) first;
        Ret (w, socks)
    | _ => socks ← arr_set socks (Z.of_nat i) []; Ret (w, socks)
    end.

(** [for (i = 0; i < conn_threads; i++)] *)
Fixpoint thread_loop (n : nat) (a : listen_answers) (self defrag : Z) (mode : accept_mode_t) (l i : nat)
    (proto : Z) (addr : sockaddr_in) (st : world * list (list (Z * Z)))
    : outcome (world * list (list (Z * Z))) :=
  match n with
  | O => Ret st
  | S n =>
      st ← init_listen_sock a self defrag mode l i proto addr st;
      thread_loop n a self defrag mode l (S i) proto addr st
  end.
(** [for (l = 0; l < n_bind_addrs; l++)] *)
Fixpoint bind_loop (gethostbyname : string → option Z) (a : listen_answers) (self : Z) (c : node_config)
    (binds : list (option string * Z)) (l : nat) (st : world * list (list (Z * Z)))
    : outcome (world * list (list (Z * Z))) :=
  match binds with
  | [] => Ret st
  | (host, proto) :: binds =>
      _ ← check (negb (proto =? DPDK));
      host ← deref host;
      addr ← Address.addr_parse gethostbyname host;
      st ← thread_loop (Z.to_nat (num_threads c)) a self (g_defrag c) (accept_mode c) l 0 proto addr st;
      bind_loop gethostbyname a self c binds (S l) st
  end.
Definition listening_setup (gethostbyname : string → option Z) (a : listen_answers) (self : Z)
    (c : node_config) (w : world) : outcome (world * list (list (Z * Z))) :=
  _ ← check ((0 <? num_threads c) && (num_threads c <=? MAX_THREADS));
  let n := if n_bind_addrs c =? 0 then 1 else n_bind_addrs c in
  bind_loop gethostbyname a self c (take (Z.to_nat n) (bind_addrs c)) 0
    (w, replicate (Z.to_nat (num_threads c)) []).

(** ** The table after the start *)

(** the entries in use are the sockets made, in order; the others are free *)
Definition entry_of (x : conn_info_t) (m : option (Z * Z)) : Prop :=
  match m with
  | Some (s, p) => busy x = 1 ∧ sock x = s ∧ c_proto x = p ∧ status x = READY ∧
                   is_listen x = if Forward.is_stream p then 1 else 0
  | None => busy x = 0 ∧ is_listen x = 0
  end.
Definition made (w : world) (m : list (Z * Z)) : Prop :=
  mem_wf (w_mem w) ∧ ∀ c, 0 ≤ c < MAX_CONNS → entry_of (Connection.conn_at w c) (m !! Z.to_nat c).

Lemma made_one w m self defrag s p t : made w m → Z.of_nat (length m) < MAX_CONNS →
  ∃ w1 id conn, Connection.conn_alloc w self true true s t p = Ret (w1, id) ∧ (id =? -1) = false ∧
    Connection.conn_set_status w1 id READY =
      Ret (Connection.set_conn w1 id (with_status (Connection.conn_at w1 id) READY), conn) ∧
    let w2 := Connection.set_conn w1 id (with_status (Connection.conn_at w1 id) READY) in
    Connection.get_conn w2 id = Ret (Connection.conn_at w2 id) ∧
    made (Connection.set_conn w2 id (with_listen (Connection.conn_at w2 id) defrag
            (if Forward.is_stream p then 1 else is_listen (Connection.conn_at w2 id)))) (m ++ [(s, p)]).
Proof.
  intros [Hw Hm] Hl.
  destruct (Connection.conn_alloc_ok w self s p t Hw) as
    [(c & w1 & rb & sb & Hc & Hb & Hlow & Ha & Hb1 & Hs & _ & Hp & Hi & _ & _ & _ & _ & _ & Hw1 & Ho & _)|[Hall _]].
  2: { exfalso. apply (Hall (Z.of_nat (length m))); [lia|].
       specialize (Hm (Z.of_nat (length m)) ltac:(lia)).
       rewrite Nat2Z.id, lookup_ge_None_2 in Hm by lia. apply Hm. }
  assert (Ec : c = Z.of_nat (length m)).
  { destruct (Z.lt_trichotomy c (Z.of_nat (length m))) as [Hlt|[?|Hgt]]; [|done|].
    - specialize (Hm c Hc). destruct (lookup_lt_is_Some_2 m (Z.to_nat c)) as [[s' p'] E]; [lia|].
      rewrite E in Hm. destruct Hm as [Hm _]. congruence.
    - exfalso. apply (Hlow (Z.of_nat (length m))); [lia|].
      specialize (Hm (Z.of_nat (length m)) ltac:(lia)).
      rewrite Nat2Z.id, lookup_ge_None_2 in Hm by lia. apply Hm. }
  exists w1, c, (status (Connection.conn_at w1 c)). split; [done|]. split; [apply Z.eqb_neq; lia|].
  unfold Connection.conn_set_status. rewrite Connection.get_conn_ok by done. obind. split; [done|].
  cbv zeta. set (w2 := Connection.set_conn w1 c _).
  split; [by apply Connection.get_conn_ok|]. split; [done|]. intros j Hj.
  rewrite Connection.conn_at_set. case_decide as E.
  - subst j. rewrite Ec, Nat2Z.id, list_lookup_middle by done. unfold w2. rewrite Connection.conn_at_set, decide_True by done.
    cbn. specialize (Hm c Hc). rewrite Ec, Nat2Z.id, lookup_ge_None_2 in Hm by lia. rewrite <- Ec in Hm.
    destruct Hm as [_ Hm]. rewrite Hi, Hm. by destruct (Forward.is_stream p).
  - unfold w2. rewrite Connection.conn_at_set, decide_False, Ho by done.
    specialize (Hm j Hj). destruct (decide (j < c)).
    + by rewrite lookup_app_l by lia.
    + rewrite lookup_ge_None_2 in Hm by lia. by rewrite lookup_ge_None_2 by (rewrite length_app; cbn; lia).
Qed.

(** every socket made is found, at an entry of its own *)
Lemma made_find w m s p : made w m → NoDup (fst <$> m) → (s, p) ∈ m → s ≠ -1 →
  Z.of_nat (length m) ≤ MAX_CONNS →
  ∃ c, Connection.conn_find_sock w s = Ret c ∧ 0 ≤ c < MAX_CONNS ∧
    entry_of (Connection.conn_at w c) (Some (s, p)).
Proof.
  intros [_ Hm] Hn Hin Hs Hl. apply list_elem_of_lookup_1 in Hin as [k Hk].
  pose proof (lookup_lt_Some _ _ _ Hk) as Hlt. unfold Connection.conn_find_sock.
  rewrite (proj2 (Z.eqb_neq s (-1))) by done. cbn [negb assert_]. obind.
  assert (Hmk := Hm (Z.of_nat k) ltac:(lia)). rewrite Nat2Z.id, Hk in Hmk.
  destruct (Connection.find_conn_spec (λ x, sock x =? s) w) as [(Hc & Hf & Hlow)|[_ Hall]].
  2: { specialize (Hall (Z.of_nat k) ltac:(lia)). destruct Hmk as (_ & E & _).
       rewrite E, Z.eqb_refl in Hall. done. }
  remember (Connection.find_conn _ w) as c eqn:Ec. clear Ec. exists c. split; [done|]. split; [done|].
  assert (c = Z.of_nat k) as ->; [|done]. apply Z.eqb_eq in Hf.
  destruct (Z.lt_trichotomy c (Z.of_nat k)) as [Hck|[?|Hck]]; [|done|].
  - specialize (Hm c Hc). destruct (lookup_lt_is_Some_2 m (Z.to_nat c)) as [[s' p'] E]; [lia|].
    rewrite E in Hm. destruct Hm as (_ & Es & _).
    assert (Z.to_nat c = k); [|lia]. eapply NoDup_lookup; [done|..]; rewrite list_lookup_fmap;
      [by rewrite E|]. rewrite Hk. cbn. congruence.
  - specialize (Hlow (Z.of_nat k) ltac:(lia)). destruct Hmk as (_ & E & _).
    rewrite E, Z.eqb_refl in Hlow. done.
Qed.

(** ** Who listens where *)

Section Listening.
Context (gethostbyname : string → option Z) (a : listen_answers) (self : Z) (c : node_config).
Context (binds : list (option string * Z)).

(** the sockets of the [i]-th worker after the first [k] addresses *)
Definition listens_on (k i : nat) : list (Z * Z) :=
  let own j := (fun l => (sock_of a l j, (binds !!! l).2)) <$> seq 0 k in
  match accept_mode c with
  | AM_CHILD => own i
  | AM_SHARED => own 0%nat
  | AM_PARENT => if (i =? 0)%nat then own 0%nat else []
  end.

(** the answers: distinct descriptors, prepared without an error *)
Record sockets_ok : Prop := SocketsOk {
  sock_given l i : sock_of a l i ≠ -1;
  sock_prepared l i : prepared a l i = true;
  sock_distinct l i l' i' : (i < Z.to_nat (num_threads c))%nat → (i' < Z.to_nat (num_threads c))%nat →
    sock_of a l i = sock_of a l' i' → l = l' ∧ i = i'
}.
(** an address that can be listened on *)
Definition bind_ok (b : option string * Z) : Prop :=
  b.2 ≠ DPDK ∧ ∃ host addr, b.1 = Some host ∧ Address.addr_parse gethostbyname host = Ret addr.

(** after [i] threads of the [l]-th address *)
Record listening (l i : nat) (st : world * list (list (Z * Z))) (m : list (Z * Z)) : Prop := Listening {
  li_made : made st.1 m;
  li_count : (length m ≤ l * Z.to_nat (num_threads c) + i)%nat;
  li_nodup : NoDup (fst <$> m);
  li_fresh s p : (s, p) ∈ m → ∃ l' i', s = sock_of a l' i' ∧ (i' < Z.to_nat (num_threads c))%nat ∧
    ((l' < l)%nat ∨ (l' = l ∧ (i' < i)%nat));
  li_length : length st.2 = Z.to_nat (num_threads c);
  li_socks j : (j < Z.to_nat (num_threads c))%nat →
    st.2 !! j = Some (listens_on (if (j <? i)%nat then S l else l) j);
  li_known j x : (j < Z.to_nat (num_threads c))%nat → x ∈ listens_on (if (j <? i)%nat then S l else l) j → x ∈ m
}.

Hypothesis Hok : sockets_ok.
Hypothesis Hthreads : 0 < num_threads c ≤ MAX_THREADS.
Hypothesis Hbinds : (length binds ≤ Z.to_nat MAX_LISTEN_SOCKETS)%nat.

Lemma listens_on_succ k j : listens_on (S k) j =
  match accept_mode c with
  | AM_CHILD => listens_on k j ++ [(sock_of a k j, (binds !!! k).2)]
  | AM_SHARED => listens_on k j ++ [(sock_of a k 0, (binds !!! k).2)]
  | AM_PARENT => if (j =? 0)%nat then listens_on k j ++ [(sock_of a k 0, (binds !!! k).2)] else []
  end.
Proof.
  unfold listens_on. destruct (accept_mode c); [| |destruct (j =? 0)%nat; [|done]];
    by rewrite seq_S, fmap_app.
Qed.
Lemma listens_on_length k j : (length (listens_on k j) ≤ k)%nat.
Proof.
  unfold listens_on. destruct (accept_mode c); [| |destruct (j =? 0)%nat; [|cbn; lia]];
    by rewrite length_fmap, length_seq.
Qed.

(** the sockets of the next thread are set *)
Lemma listening_next l i w socks m w' m' : listening l i (w, socks) m → (i < Z.to_nat (num_threads c))%nat →
  made w' m' → (length m' ≤ S (length m))%nat → NoDup (fst <$> m') →
  (∀ s p, (s, p) ∈ m' → (s, p) ∈ m ∨ s = sock_of a l i) →
  (∀ x, x ∈ m → x ∈ m') → (∀ x, x ∈ listens_on (S l) i → x ∈ m') →
  listening l (S i) (w', <[i := listens_on (S l) i]> socks) m'.
Proof.
  intros [_ Hc Hn Hf Hlen Hs Hk] Hi Hm' Hc' Hn' Hf' Hsub Hnew. cbn [fst snd] in *. split; cbn [fst snd].
  - done.
  - lia.
  - done.
  - intros s p [Hsp| ->]%Hf'; [|exists l, i; split; [done|split; [done|right; lia]]].
    destruct (Hf s p Hsp) as (l' & i' & E & Hi' & Hlt). exists l', i'. split; [done|]. split; [done|].
    destruct Hlt; [by left|right; lia].
  - by rewrite length_insert.
  - intros j Hj. destruct (decide (j = i)) as [->|Hne].
    + rewrite list_lookup_insert_eq by lia. by rewrite (proj2 (Nat.ltb_lt i (S i))) by lia.
    + rewrite list_lookup_insert_ne, Hs by done.
      destruct (Nat.ltb_spec j i), (Nat.ltb_spec j (S i)); by (lia || done).
  - intros j x Hj. destruct (decide (j = i)) as [->|Hne].
    + rewrite (proj2 (Nat.ltb_lt i (S i))) by lia. apply Hnew.
    + intros Hx. apply Hsub, (Hk j x Hj). revert Hx.
      destruct (Nat.ltb_spec j i), (Nat.ltb_spec j (S i)); by (lia || done).
Qed.

(** a worker that makes its own socket: the calls *)
Lemma init_make l i w socks m mine p addr : made w m → Z.of_nat (length m) < MAX_CONNS →
  socks !! i = Some mine → Z.of_nat (length mine) < MAX_LISTEN_SOCKETS →
  bool_decide (accept_mode c = AM_CHILD) || (i =? 0)%nat = true →
  ∃ w', init_listen_sock a self (g_defrag c) (accept_mode c) l i p addr (w, socks) =
      Ret (w', <[i := mine ++ [(sock_of a l i, p)]]> socks) ∧
    made w' (m ++ [(sock_of a l i, p)]).
Proof.
  intros Hm Hl Hi Hlen E. pose proof (lookup_lt_Some _ _ _ Hi) as Hlt.
  destruct (made_one w m self (g_defrag c) (sock_of a l i) p addr Hm Hl) as
    (w1 & id & cn & Ea & Eid & Est & Eg & Hm').
  eexists. split; [|exact Hm'].
  unfold init_listen_sock. rewrite E, (proj2 (Z.eqb_neq _ _) (sock_given Hok l i)), Ea.
  cbn [negb check mbind outcome_bind]. rewrite Eid, Est. cbn [negb check mbind outcome_bind].
  rewrite Eg, (sock_prepared Hok). cbn [check mbind outcome_bind].
  rewrite (arr_get_nat _ _ _ Hi). cbn [mbind outcome_bind]. rewrite (proj2 (Z.ltb_lt _ _) Hlen).
  cbn [mbind outcome_bind]. rewrite arr_set_nat by done. reflexivity.
Qed.

(** ... and the sockets made so far *)
Lemma listening_make l i w socks m addr : (l < length binds)%nat → (i < Z.to_nat (num_threads c))%nat →
  listening l i (w, socks) m →
  listens_on (S l) i = listens_on l i ++ [(sock_of a l i, (binds !!! l).2)] →
  bool_decide (accept_mode c = AM_CHILD) || (i =? 0)%nat = true →
  ∃ st' m', init_listen_sock a self (g_defrag c) (accept_mode c) l i (binds !!! l).2 addr (w, socks) = Ret st' ∧
    listening l (S i) st' m'.
Proof.
  intros Hl Hi HL Hnew E. pose proof HL as [Hm Hc Hn Hf Hlen Hs Hk]. cbn [fst snd] in *.
  assert (Hsi := Hs i Hi). rewrite Nat.ltb_irrefl in Hsi.
  pose proof (listens_on_length l i) as Hll.
  destruct (init_make l i w socks m (listens_on l i) (binds !!! l).2 addr Hm) as (w' & E' & Hm').
  { unfold MAX_CONNS, MAX_THREADS, MAX_LISTEN_SOCKETS in *.
    assert (l * Z.to_nat (num_threads c) ≤ 15 * 256)%nat; [apply Nat.mul_le_mono; lia|lia]. }
  { done. }
  { unfold MAX_LISTEN_SOCKETS in *. lia. }
  { done. }
  eexists _, _. split; [exact E'|]. rewrite <- Hnew.
  eapply listening_next; [exact HL|done|exact Hm'|rewrite length_app; cbn; lia| | |set_solver|].
  - rewrite fmap_app. apply NoDup_app. split; [done|]. split; [|apply NoDup_singleton].
    intros s Hs1 Hs2. apply list_elem_of_singleton in Hs2. cbn in Hs2. subst s.
    apply list_elem_of_fmap in Hs1 as ([s p] & Es & Hsp). cbn in Es. subst s.
    destruct (Hf _ _ Hsp) as (l' & i' & Eq & Hi' & Hlt). apply (sock_distinct Hok) in Eq as [-> ->]; lia.
  - intros s p [Hsp|Hsp]%elem_of_app; [by left|right]. apply list_elem_of_singleton in Hsp. by injection Hsp.
  - intros x. rewrite Hnew. intros [Hx|Hx]%elem_of_app; apply elem_of_app; [left|by right].
    apply (Hk i x Hi). by rewrite Nat.ltb_irrefl.
Qed.

(** the next thread *)
Lemma listening_step l i st m addr : (l < length binds)%nat → (i < Z.to_nat (num_threads c))%nat →
  listening l i st m →
  ∃ st' m', init_listen_sock a self (g_defrag c) (accept_mode c) l i (binds !!! l).2 addr st = Ret st' ∧
    listening l (S i) st' m'.
Proof.
  intros Hl Hi HL. destruct st as [w socks].
  pose proof HL as [Hm Hc Hn Hf Hlen Hs Hk]. cbn [fst snd] in *.
  destruct (bool_decide (accept_mode c = AM_CHILD) || (i =? 0)%nat) eqn:E.
  { apply (listening_make l i w socks m addr Hl Hi HL); [|done]. rewrite listens_on_succ.
    destruct (accept_mode c); [done|..]; cbn in E; apply Nat.eqb_eq in E; by subst i. }
  apply orb_false_elim in E as [Em Ei]. apply bool_decide_eq_false in Em.
  assert (H0 : (0 <? i)%nat = true) by (apply Nat.ltb_lt; apply Nat.eqb_neq in Ei; lia).
  assert (Hs0 : socks !! 0%nat = Some (listens_on (S l) 0)) by (rewrite Hs, H0 by lia; done).
  assert (Hx : ∃ x, init_listen_sock a self (g_defrag c) (accept_mode c) l i (binds !!! l).2 addr (w, socks) =
                      Ret (w, <[i := x]> socks) ∧ x = listens_on (S l) i ∧ ∀ y, y ∈ x → y ∈ m).
  { unfold init_listen_sock. rewrite bool_decide_false, Ei by done. cbn [orb].
    destruct (accept_mode c) eqn:Ea; [done|..].
    - rewrite (arr_get_nat socks 0 _ Hs0 : arr_get socks 0 = _). obind. rewrite arr_set_nat by lia. obind. eexists. split; [done|].
      split; [unfold listens_on; by rewrite Ea|]. intros y Hy. apply (Hk 0%nat y); [lia|by rewrite H0].
    - rewrite arr_set_nat by lia. obind. eexists. split; [done|]. split; [unfold listens_on; by rewrite Ea, Ei|].
      intros y Hy. by apply elem_of_nil in Hy. }
  destruct Hx as (x & -> & -> & Hx). eexists _, m. split; [done|].
  eapply listening_next; [exact HL|done|done|lia|done|by left|done|exact Hx].
Qed.

Lemma listening_threads n l i st m addr : (l < length binds)%nat → (i + n = Z.to_nat (num_threads c))%nat →
  listening l i st m →
  ∃ st' m', thread_loop n a self (g_defrag c) (accept_mode c) l i (binds !!! l).2 addr st = Ret st' ∧
    listening (S l) 0 st' m'.
Proof.
  intros Hl. revert i st m. induction n as [|n IH]; intros i st m Hi HL; cbn [thread_loop].
  - exists st, m. split; [done|]. destruct HL as [Hm Hc Hn Hf Hlen Hs Hk]. split; [done|lia|done| |done|..].
    + intros s p Hsp. destruct (Hf s p Hsp) as (l' & i' & E & Hi' & Hlt). exists l', i'. split; [done|]. split; [done|left; lia].
    + intros j Hj. rewrite Hs by done. by rewrite (proj2 (Nat.ltb_lt j i)) by lia.
    + intros j x Hj Hx. apply (Hk j x Hj). by rewrite (proj2 (Nat.ltb_lt j i)) by lia.
  - destruct (listening_step l i st m addr Hl) as (st' & m' & -> & HL'); [lia|done|]. obind.
    apply (IH (S i) st' m'); [lia|done].
Qed.

Lemma listening_binds n l st m : (l + n = length binds)%nat → Forall bind_ok binds → listening l 0 st m →
  ∃ st' m', bind_loop gethostbyname a self c (drop l binds) l st = Ret st' ∧ listening (length binds) 0 st' m'.
Proof.
  intros Hn Hb. revert l st m Hn. induction n as [|n IH]; intros l st m Hn HL.
  - exists st, m. rewrite drop_ge by lia. replace (length binds) with l by lia. by split.
  - destruct (lookup_lt_is_Some_2 binds l) as [[h p] E]; [lia|].
    rewrite (drop_S _ _ _ E). cbn [bind_loop].
    assert (Hbl := Hb). rewrite Forall_lookup in Hbl. destruct (Hbl l _ E) as (Hd & host & addr & Eh & Ea).
    cbn in Hd, Eh. subst h. rewrite (proj2 (Z.eqb_neq p DPDK)) by done. cbn [negb check deref]. obind.
    rewrite Ea. obind. destruct (listening_threads (Z.to_nat (num_threads c)) l 0 st m addr) as (st' & m' & E' & HL');
      [lia|done|done|]. rewrite list_lookup_total_alt, E in E'. cbn [default snd] in E'.
    unfold id in E'. cbn [snd] in E'. rewrite E'. obind. apply (IH (S l) st' m'); [lia|done].
Qed.
End Listening.

(** [C11] The node listens where it was told to: with descriptors from the
    kernel that are distinct and prepared without an error, the start-up ends
    with, for every worker, one socket per address in the order of the options
    with its protocol (mode child), the sockets of the first worker (shared), or
    none but for the first worker (parent); and each of them has an entry of its
    own in the table, READY, marked as listening exactly when its protocol is a
    stream, so that the set-up of the workers finds it. *)
Theorem listening_set_up (gethostbyname : string → option Z) (a : listen_answers) (self : Z)
    (c : node_config) (w : world) (binds : list (option string * Z)) :
  binds = take (Z.to_nat (if n_bind_addrs c =? 0 then 1 else n_bind_addrs c)) (bind_addrs c) →
  (length (bind_addrs c) ≤ Z.to_nat MAX_LISTEN_SOCKETS)%nat → 0 < num_threads c ≤ MAX_THREADS →
  sockets_ok a c → Forall (bind_ok gethostbyname) binds → made w [] →
  ∃ w' socks, listening_setup gethostbyname a self c w = Ret (w', socks) ∧
    length socks = Z.to_nat (num_threads c) ∧
    ∀ i, (i < Z.to_nat (num_threads c))%nat →
      socks !! i = Some (listens_on a c binds (length binds) i) ∧
      ∀ s p, (s, p) ∈ listens_on a c binds (length binds) i →
        ∃ id, Connection.conn_find_sock w' s = Ret id ∧ 0 ≤ id < MAX_CONNS ∧
          c_proto (Connection.conn_at w' id) = p ∧ status (Connection.conn_at w' id) = READY ∧
          is_listen (Connection.conn_at w' id) = if Forward.is_stream p then 1 else 0.
Proof.
  intros Eb Hl Ht Hok Hb Hm. assert (Hlen : (length binds ≤ Z.to_nat MAX_LISTEN_SOCKETS)%nat).
  { rewrite Eb, length_take. lia. }
  assert (H0 : listening a c binds 0 0 (w, replicate (Z.to_nat (num_threads c)) []) []).
  { assert (E : ∀ i, listens_on a c binds 0 i = []).
    { intros i. unfold listens_on. destruct (accept_mode c); [done..|]. by destruct (i =? 0)%nat. }
    split; cbn [fst snd]; [done|cbn; lia|constructor| |by rewrite length_replicate|..].
    - intros s p Hsp. by apply elem_of_nil in Hsp.
    - intros j Hj. cbn. by rewrite E, lookup_replicate_2.
    - intros j x Hj. cbn. by rewrite E. }
  destruct (listening_binds gethostbyname a self c binds Hok Ht Hlen (length binds) 0 _ _ ltac:(lia) Hb H0)
    as ([w' socks] & m & E & [Hm' Hc Hn Hf Hls Hs Hk]). cbn [fst snd] in *.
  exists w', socks. split.
  { unfold listening_setup, MAX_THREADS in *. rewrite (proj2 (Z.ltb_lt _ _)), (proj2 (Z.leb_le _ _)) by lia.
    cbn [andb check]. obind. by rewrite <- Eb. }
  split; [done|]. intros i Hi. split; [by apply (Hs i Hi)|]. intros s p Hsp.
  assert (Hin : (s, p) ∈ m) by (by apply (Hk i)).
  destruct (made_find w' m s p Hm' Hn Hin) as (id & Ei & Hid & _ & _ & Hp & Hst & Hli).
  - destruct (Hf s p Hin) as (l' & i' & -> & _). apply (sock_given _ _ Hok).
  - unfold MAX_CONNS, MAX_THREADS, MAX_LISTEN_SOCKETS in *.
    assert (length binds * Z.to_nat (num_threads c) ≤ 16 * 256)%nat; [apply Nat.mul_le_mono; lia|lia].
  - by exists id.
Qed.

(** ** The storage devices *)

Section Devices.
Context (home : string) (d : storage_defaults).

(** the path of the device [k] of a group *)
Definition path_at (g : device) (k : Z) : string :=
  if Address.is_empty (storage_path g) then home ++ "/.dw_store_" ++ dec k
  else if 1 <? dev_count g then storage_path g ++ "_" ++ dec k
  else storage_path g.
(** the [j]-th device of a group that starts at [i] *)
Definition entry_at (g : device) (i j : Z) : device :=
  set_count (renamed (fill d g) (path_at g (i + j))) (if j =? 0 then dev_count g else 1).
Fixpoint expand (i : Z) (gs : list device) : list device :=
  match gs with
  | [] => []
  | g :: gs => (entry_at g i <$> seqZ 0 (dev_count g)) ++ expand (i + dev_count g) gs
  end.
(** the entries the options fill: the first of each group *)
Fixpoint layout (gs : list device) : list device :=
  match gs with
  | [] => []
  | g :: gs => g :: replicate (Z.to_nat (dev_count g - 1)) no_device ++ layout gs
  end.

(** a group of devices whose paths fit and hold no directive *)
Definition group_ok (g : device) : Prop :=
  1 ≤ dev_count g ≤ MAX_STORAGE_DEVICES ∧ free "%" (storage_path g) = true ∧
  (String.length (storage_path g) < 90)%nat.
Definition home_ok : Prop := free "%" home = true ∧ (String.length home < 80)%nat.

Lemma dec_short k : 0 ≤ k < MAX_STORAGE_DEVICES → (String.length (dec k) ≤ 2)%nat.
Proof.
  intros Hk. assert (H : forallb (fun k => String.length (dec k) <=? 2)%nat (seqZ 0 MAX_STORAGE_DEVICES) = true)
    by reflexivity.
  rewrite forallb_forall in H. apply Nat.leb_le, H, list_elem_of_In, elem_of_seqZ. lia.
Qed.

Lemma printf_free s n used : free "%" s = true → printf_d s n used = Ret s.
Proof.
  induction s as [|a s IH]; [done|]. cbn [free printf_d]. rewrite is_in_1.
  intros [Ha%negb_true_iff Hs]%andb_prop. rewrite Ha. cbn [negb]. by rewrite IH.
Qed.
Lemma printf_app s t n used : free "%" s = true →
  printf_d (s ++ t) n used = t ← printf_d t n used; Ret (s ++ t)%string.
Proof.
  induction s as [|a s IH]; intros Hs.
  - rewrite string_nil_app. by destruct (printf_d t n used).
  - rewrite string_app_cons. cbn [free printf_d] in *. rewrite is_in_1 in Hs.
    apply andb_prop in Hs as [Ha%negb_true_iff Hs]. rewrite Ha. cbn [negb]. rewrite IH by done.
    by destruct (printf_d t n used).
Qed.
(** a template with one directive at its end *)
Lemma format_ok s n : free "%" s = true → 0 ≤ n < MAX_STORAGE_DEVICES →
  (String.length s < MAX_STORAGE_PATH_STR - 3)%nat → format_path (s ++ "%d") n = Ret (s ++ dec n)%string.
Proof.
  intros Hs Hn Hl. pose proof (dec_short n Hn) as Hd. unfold format_path. rewrite printf_app by done.
  change (printf_d "%d" n false) with (Ret (dec n ++ EmptyString)%string). obind.
  rewrite string_app_nil, substring_all; [done|]. rewrite string_length_app.
  unfold MAX_STORAGE_PATH_STR in *. lia.
Qed.

(** the paths of a group: of the first device, and of the others by its template *)
Lemma group_path_ok g i : home_ok → group_ok g → 0 ≤ i → i + dev_count g ≤ MAX_STORAGE_DEVICES →
  ∃ template, group_path (Some home) (fill d g) i = Ret (path_at g i, template) ∧
    (1 < dev_count g → ∃ t, template = Some t ∧
       ∀ k, i ≤ k < i + dev_count g → format_path t k = Ret (path_at g k)).
Proof.
  intros [Hh Hhl] (Hc & Hp & Hl) Hi Hle. unfold group_path, path_at. cbn [fill storage_path dev_count].
  destruct (Address.is_empty (storage_path g)).
  - cbn [deref]. obind. rewrite (substring_all 1023) by (rewrite string_length_app; cbn; lia).
    change (home ++ "/.dw_store_%d")%string with (home ++ ("/.dw_store_" ++ "%d"))%string.
    rewrite <- string_app_assoc.
    assert (Hf : ∀ k, 0 ≤ k < MAX_STORAGE_DEVICES →
      format_path ((home ++ "/.dw_store_") ++ "%d") k = Ret (home ++ "/.dw_store_" ++ dec k)%string).
    { intros k Hk. rewrite format_ok; [by rewrite string_app_assoc|by rewrite free_app, Hh|done|].
      rewrite string_length_app. cbn. unfold MAX_STORAGE_PATH_STR. lia. }
    rewrite Hf by lia. obind. eexists. split; [done|]. intros _. eexists. split; [done|].
    intros k Hk. apply Hf. lia.
  - destruct (Z.ltb_spec 1 (dev_count g)) as [Hc1|Hc1]; [|by eexists; split; [done|lia]].
    unfold read_path. rewrite (proj2 (Nat.ltb_lt _ _)) by (unfold MAX_STORAGE_PATH_STR; lia). obind.
    rewrite strstr_free by done. change (?p ++ "_%d")%string with (p ++ ("_" ++ "%d"))%string.
    rewrite <- string_app_assoc.
    assert (Hf : ∀ k, 0 ≤ k < MAX_STORAGE_DEVICES →
      format_path ((storage_path g ++ "_") ++ "%d") k = Ret (storage_path g ++ "_" ++ dec k)%string).
    { intros k Hk. rewrite format_ok; [by rewrite string_app_assoc|by rewrite free_app, Hp|done|].
      rewrite string_length_app. cbn. unfold MAX_STORAGE_PATH_STR. lia. }
    rewrite Hf by lia. obind. eexists. split; [done|]. intros _. eexists. split; [done|].
    intros k Hk. apply Hf. lia.
Qed.

Lemma copy_loop_ok n g p template i j Q R : 0 ≤ i → 1 ≤ j → Z.of_nat (length Q) = i + j →
  (n ≠ 0%nat → ∃ t, template = Some t ∧
     ∀ k, i + j ≤ k < i + j + Z.of_nat n → format_path t k = Ret (path_at g k)) →
  copy_loop n (Q ++ replicate n no_device ++ R) (renamed (fill d g) p) template i j =
    Ret (Q ++ (entry_at g i <$> seqZ j (Z.of_nat n)) ++ R).
Proof.
  intros Hi. revert j Q. induction n as [|n IH]; intros j Q Hj HQ Ht; [done|].
  cbn [copy_loop replicate]. rewrite <- app_comm_cons, arr_get_middle by done. obind.
  destruct (Ht ltac:(done)) as (t & -> & Hf). obind. rewrite Hf by lia. obind.
  rewrite arr_set_middle by done. obind.
  set (x := set_count _ _). assert (Ex : x = entry_at g i j).
  { unfold x, entry_at. rewrite (proj2 (Z.eqb_neq j 0)) by lia. done. }
  replace (Q ++ x :: replicate n no_device ++ R) with ((Q ++ [x]) ++ replicate n no_device ++ R)
    by (by rewrite <- app_assoc).
  rewrite IH; [|lia|rewrite length_app; cbn; lia|].
  - rewrite <- app_assoc, Nat2Z.inj_succ, (seqZ_cons j) by lia. cbn [app fmap list_fmap]. rewrite Ex.
    by rewrite Z.pred_succ, Z.add_1_r.
  - intros _. exists t. split; [done|]. intros k Hk. apply Hf. lia.
Qed.

(** one group: the loop goes on behind it *)
Lemma device_step fuel g P R n : home_ok → group_ok g → Z.of_nat (length P) < n →
  Z.of_nat (length P) + dev_count g ≤ MAX_STORAGE_DEVICES →
  device_loop (S fuel) (Some home) d n
    (P ++ g :: replicate (Z.to_nat (dev_count g - 1)) no_device ++ R) (Z.of_nat (length P)) =
  device_loop fuel (Some home) d n
    (P ++ (entry_at g (Z.of_nat (length P)) <$> seqZ 0 (dev_count g)) ++ R)
    (Z.of_nat (length P) + dev_count g).
Proof.
  intros Hh Hg Hn Hl. pose proof Hg as [Hc _]. cbn [device_loop]. unfold MAX_STORAGE_DEVICES in *.
  rewrite (proj2 (Z.ltb_lt _ _)) by lia. rewrite arr_get_middle by done. obind.
  destruct (group_path_ok g (Z.of_nat (length P)) Hh Hg) as (template & -> & Ht);
    [lia|unfold MAX_STORAGE_DEVICES; lia|]. obind.
  rewrite arr_set_middle by done. obind. set (x := renamed _ _).
  assert (Ex : x = entry_at g (Z.of_nat (length P)) 0) by (unfold x, entry_at; by rewrite Z.add_0_r).
  assert (Ec : ∀ r, P ++ x :: r = (P ++ [x]) ++ r) by (intros r; by rewrite <- app_assoc).
  rewrite Ec. clear Ec.
  change (dev_count x) with (dev_count g). unfold x at 2.
  rewrite copy_loop_ok; [obind|lia|lia|rewrite length_app; cbn; lia|].
  2: { intros H0. destruct (Ht ltac:(lia)) as (t & -> & Hk). exists t. split; [done|].
       intros k ?. apply Hk. lia. }
  rewrite !int_ok by (unfold is_int; lia). obind. rewrite int_ok by (unfold is_int; lia). obind.
  rewrite Ex, (seqZ_cons 0), <- app_assoc by lia. cbn [app fmap list_fmap].
  replace (Z.of_nat (Z.to_nat (dev_count g - 1))) with (Z.pred (dev_count g)) by lia.
  f_equal. lia.
Qed.

(** the loop over the groups, those before [P] done *)
Lemma device_loop_ok fuel gs P R : home_ok → Forall group_ok gs → (length gs < fuel)%nat →
  Z.of_nat (length P) + Z.of_nat (length (layout gs)) ≤ MAX_STORAGE_DEVICES →
  device_loop fuel (Some home) d (Z.of_nat (length P) + Z.of_nat (length (layout gs)))
    (P ++ layout gs ++ R) (Z.of_nat (length P)) =
  Ret (P ++ expand (Z.of_nat (length P)) gs ++ R).
Proof.
  intros Hh. revert P fuel. induction gs as [|g gs IH]; intros P [|fuel] Hgs Hf Hl; [lia| |lia|].
  - cbn [device_loop layout length]. by rewrite Z.add_0_r, Z.ltb_irrefl.
  - apply Forall_cons in Hgs as [Hg Hgs]. pose proof Hg as [Hc _]. cbn [layout length] in *.
    rewrite length_app, length_replicate in *. rewrite <- app_comm_cons, <- app_assoc.
    rewrite device_step by (done || lia).
    set (P' := P ++ (entry_at g (Z.of_nat (length P)) <$> seqZ 0 (dev_count g))).
    assert (HP : Z.of_nat (length P') = Z.of_nat (length P) + dev_count g).
    { unfold P'. rewrite length_app, length_fmap, length_seqZ. lia. }
    specialize (IH P' fuel Hgs ltac:(lia) ltac:(lia)). rewrite HP in IH.
    replace (Z.of_nat (length P) + Z.of_nat (S (Z.to_nat (dev_count g - 1) + length (layout gs))))
      with (Z.of_nat (length P) + dev_count g + Z.of_nat (length (layout gs))) by lia.
    cbn [expand]. unfold P' in IH. rewrite <- !app_assoc in IH. by rewrite <- app_assoc.
Qed.
End Devices.

(** ** From the options to the devices *)

Section Options.
Context `{!Pd.Scan}.

(** the groups the options describe, the first from the [n]-th device on *)
Fixpoint described (n : Z) (args : list string) (gs : list device) : Prop :=
  match args, gs with
  | [], [] => True
  | arg :: args, g :: gs =>
      storage_tokens no_device n (split "," arg) = Ret g ∧ group_ok g ∧
      n + dev_count g ≤ MAX_STORAGE_DEVICES ∧ described (n + dev_count g) args gs
  | _, _ => False
  end.
Definition unused (n : nat) : list device := replicate (Z.to_nat MAX_STORAGE_DEVICES - n) no_device.

Lemma storage_opt_ok c P g arg : devices c = P ++ unused (length P) → storage_devices c = Z.of_nat (length P) →
  storage_tokens no_device (Z.of_nat (length P)) (split "," arg) = Ret g → group_ok g →
  Z.of_nat (length P) + dev_count g ≤ MAX_STORAGE_DEVICES →
  storage_opt c arg = Ret (with_devices c (P ++ layout [g] ++ unused (length (P ++ layout [g])))
                             (Z.of_nat (length (P ++ layout [g])))).
Proof.
  intros Ed En Et [Hc _] Hl. unfold storage_opt. rewrite En, Ed. unfold unused, MAX_STORAGE_DEVICES in *.
  rewrite (proj2 (Z.ltb_lt _ _)) by lia. cbn [check]. obind. cbn [layout].
  replace (Z.to_nat 16 - length P)%nat with (S (Z.to_nat 16 - S (length P))) by lia. cbn [replicate].
  rewrite arr_get_middle by done. obind. rewrite Et. obind. rewrite arr_set_middle by done. obind.
  rewrite int_ok by (unfold is_int; lia). obind. f_equal.
  rewrite app_nil_r, length_app. cbn [length]. rewrite length_replicate. f_equal; [|lia].
  rewrite <- app_comm_cons. do 2 f_equal. rewrite <- replicate_add. f_equal. lia.
Qed.

Lemma node_parse_storage args gs P c : devices c = P ++ unused (length P) →
  storage_devices c = Z.of_nat (length P) → described (Z.of_nat (length P)) args gs →
  node_parse c (STORAGE_OPT_ARG <$> args) =
    Ret (with_devices c (P ++ layout gs ++ unused (length (P ++ layout gs)))
           (Z.of_nat (length (P ++ layout gs)))) ∧
  Forall group_ok gs ∧ Z.of_nat (length (P ++ layout gs)) ≤ Z.max (Z.of_nat (length P)) MAX_STORAGE_DEVICES.
Proof.
  revert gs P c. induction args as [|arg args IH]; intros [|g gs] P c Ed En Hd; try done; cbn [described] in Hd.
  - cbn [layout]. rewrite !app_nil_r. cbn [app fmap list_fmap node_parse]. rewrite <- En, <- Ed.
    split; [by destruct c|]. split; [done|]. lia.
  - destruct Hd as (Et & Hg & Hl & Hd). pose proof Hg as [Hc _].
    assert (E1 : length (P ++ layout [g]) = (length P + Z.to_nat (dev_count g))%nat).
    { cbn [layout]. rewrite length_app. cbn [length]. rewrite app_nil_r, length_replicate. lia. }
    cbn [fmap list_fmap node_parse node_parse_opt]. erewrite storage_opt_ok by done. obind.
    assert (E2 : P ++ layout (g :: gs) = (P ++ layout [g]) ++ layout gs).
    { cbn [layout]. by rewrite app_nil_r, <- app_assoc. }
    destruct (IH gs (P ++ layout [g]) (with_devices c ((P ++ layout [g]) ++ unused (length (P ++ layout [g])))
                                         (Z.of_nat (length (P ++ layout [g]))))) as (E & Hgs & Hle).
    + done.
    + done.
    + replace (Z.of_nat (length (P ++ layout [g]))) with (Z.of_nat (length P) + dev_count g) by lia. exact Hd.
    + rewrite (app_assoc P (layout [g])), E. split; [|split; [by constructor|rewrite E2; lia]].
      by rewrite (app_assoc P (layout (g :: gs))), E2, <- (app_assoc _ (layout gs)).
Qed.

(** a device with a count of 0: the loop over the groups stays where it is *)
Lemma device_loop_zero fuel home d v rest : dev_count v = 0 → Address.is_empty (storage_path v) = false →
  device_loop fuel home d 1 (v :: rest) 0 = Stop OutOfFuel.
Proof.
  intros Hc Hp. revert v Hc Hp. induction fuel as [|fuel IH]; intros v Hc Hp; [done|].
  cbn [device_loop]. change (0 <? 1) with true. cbv iota.
  change (arr_get (v :: rest) 0) with (Ret v). obind. unfold group_path. cbn [fill storage_path dev_count].
  rewrite Hp, Hc. change (1 <? 0) with false. cbv iota. obind.
  change (arr_set (v :: rest) 0 ?x) with (Ret (x :: rest)). obind.
  cbn [renamed fill dev_count]. rewrite Hc. cbn [Z.to_nat Z.sub Z.add Z.opp Z.pos_sub copy_loop]. obind.
  change (int_ (-1)) with (Ret (-1)). obind. change (int_ (-1 + 1)) with (Ret 0). obind. by apply IH.
Qed.

Lemma storage_opt_zero path : path ≠ EmptyString → free "," path = true →
  ∃ v, storage_opt init_config ("file=" ++ path ++ ",count=0") =
      Ret (with_devices init_config (v :: tail (devices init_config)) 0) ∧
    dev_count v = 0 ∧ Address.is_empty (storage_path v) = false.
Proof.
  intros Hp Hf. eexists (set_count (set_path no_device path) 0). split; [|split; [done|by destruct path]].
  unfold storage_opt. change (arr_get (devices init_config) (storage_devices init_config)) with (Ret no_device).
  cbn [check]. change (storage_devices init_config <? MAX_STORAGE_DEVICES) with true. cbn [check]. obind.
  rewrite <- string_app_assoc.
  change ",count=0"%string with (String "," "count=0"). rewrite split_app by (by rewrite ?free_app, ?Hf).
  change (split "," "count=0") with ["count=0"%string]. cbn [storage_tokens].
  change (storage_token no_device ?n ("file=" ++ path)) with (Ret (set_path no_device path)). obind.
  reflexivity.
Qed.

(** [C12] The storage devices are those the options describe: for any
    sequence of --storage options with counts of at least 1 and at most 16
    devices in all, the start-up ends and gives, for each option, as many
    devices as its count, one after the other, with its settings or else the
    defaults; a single one keeps its path, several get "_" and their number
    behind it, and without a path the file is .dw_store_ and the number in the
    home directory. A count of 0 is accepted, and then the loop never ends. *)
Theorem storage_set_up (args : list string) (gs : list device) (home : string) (fuel : nat) :
  described 0 args gs → gs ≠ [] → home_ok home → (length gs < fuel)%nat →
  (∃ c, node_parse init_config (STORAGE_OPT_ARG <$> args) = Ret c ∧
     storage_setup fuel (Some home) c =
       Ret (with_devices c (expand home (defaults c) 0 gs ++ unused (length (layout gs)))
              (Z.of_nat (length (layout gs))))) ∧
  ∀ path fuel, path ≠ EmptyString → free "," path = true →
    ∃ c, node_parse init_config [STORAGE_OPT_ARG ("file=" ++ path ++ ",count=0")] = Ret c ∧
      storage_setup fuel (Some home) c = Stop OutOfFuel.
Proof.
  intros Hd Hg Hh Hf. split.
  - destruct (node_parse_storage args gs [] init_config) as (E & Hgs & Hle); [done..|].
    rewrite !app_nil_l in *. eexists. split; [exact E|]. unfold storage_setup.
    cbn [with_devices storage_devices devices defaults].
    assert (length (layout gs) ≠ 0%nat) by (by destruct gs).
    rewrite (proj2 (Z.eqb_neq _ 0)) by lia.
    pose proof (device_loop_ok home (defaults init_config) fuel gs [] (unused (length (layout gs))) Hh Hgs Hf) as E1.
    cbn [length app] in E1. rewrite Z.add_0_l in E1. change (Z.of_nat 0) with 0 in *.
    rewrite E1 by (cbn in Hle; lia). done.
  - intros path f Hp Hfree. destruct (storage_opt_zero path Hp Hfree) as (v & E & Hc & He).
    eexists. cbn [node_parse node_parse_opt]. rewrite E. obind. split; [done|].
    unfold storage_setup. cbn [with_devices storage_devices devices]. change (0 =? 0) with true. cbv iota.
    by rewrite device_loop_zero.
Qed.
End Options.


(** ** Examples *)

#[local] Instance decimals : Pd.Scan := {|
  Pd.scan_lf s := '(n, _) ← scan_int s; Some (Double.of_Z n);
  Pd.scan_d s := '(n, _) ← scan_int s; Some n |}.

(** a node with two workers that share two addresses *)
Definition some_options : list node_option :=
  [BIND_ADDR "udp://node1:7891"; BIND_ADDR "node1:80"; NUM_THREADS "2"; ACCEPT_MODE "shared"].
Definition some_config : node_config :=
  match node_parse init_config some_options with Ret c => c | Stop _ => init_config end.
Definition some_sockets : listen_answers :=
  MkListen (fun l i => 10 + Z.of_nat l * 256 + Z.of_nat i) (fun _ _ => true).
Definition empty_world : world := World (w_reqs Connection.world0) ∅ (w_mem Connection.world0).

Lemma listening_set_up_witness :
  ∃ w' socks, listening_setup Address.hosts some_sockets 1 some_config empty_world = Ret (w', socks) ∧
    socks !! 1%nat = Some [(10, UDP); (266, TCP)] ∧
    ∃ id, Connection.conn_find_sock w' 266 = Ret id ∧ is_listen (Connection.conn_at w' id) = 1.
Proof.
  destruct (listening_set_up Address.hosts some_sockets 1 some_config empty_world
              [(Some "node1:7891"%string, UDP); (Some "node1:80"%string, TCP)]) as (w' & socks & E & _ & Hs).
  - vm_compute. reflexivity.
  - vm_compute. lia.
  - vm_compute. split; [reflexivity|discriminate].
  - split.
    + intros l i. cbn. lia.
    + reflexivity.
    + intros l i l' i' Hi Hi' Eq. change (Z.to_nat (num_threads some_config)) with 2%nat in *. cbn in Eq. lia.
  - repeat constructor; try discriminate; eexists _, _; split; reflexivity.
  - split; [intros b _; reflexivity|]. intros x Hx. by split.
  - exists w', socks. split; [exact E|]. destruct (Hs 1%nat) as [E1 Hf]; [vm_compute; lia|].
    split; [exact E1|]. destruct (Hf 266 TCP) as (id & Ei & _ & _ & _ & Hl).
    + vm_compute. right. left.
    + exists id. split; [exact Ei|exact Hl].
Defined.

(** three devices of two options, the second without a path *)
Definition some_storage : list string := ["file=/tmp/d,count=2,sync=100"; "size=4096,odirect"]%string.
Definition some_groups : list device :=
  [MkDevice "/tmp/d" SIZE_NONE (-1) 100 (-1) 2; MkDevice EmptyString 4096 1 (-1) (-1) 1].
Lemma storage_set_up_witness :
  ∃ c l, node_parse init_config (STORAGE_OPT_ARG <$> some_storage) = Ret c ∧
    storage_setup 3 (Some "/root"%string) c = Ret (with_devices c l 3) ∧
    take 3 l = [MkDevice "/tmp/d_0" (2 ^ 30) 0 100 0 2; MkDevice "/tmp/d_1" (2 ^ 30) 0 100 0 1;
                MkDevice "/root/.dw_store_2" 4096 1 (-1) 0 1].
Proof.
  destruct (storage_set_up some_storage some_groups "/root" 3) as [(c & Ec & Es) _].
  - repeat split; try reflexivity; vm_compute; (discriminate || lia).
  - discriminate.
  - split; [reflexivity|vm_compute; lia].
  - cbn. lia.
  - exists c. eexists. split; [exact Ec|]. split; [exact Es|].
    injection Ec as <-. vm_compute. reflexivity.
Defined.
End Startup.
