(* ===== verification/Print.v ===== *)
(** * The printed forms of distributions and programs (src/src/distrib.c:
      pd_str; src/src/ccmd.c: ccmd_log)

    pd_str writes into a static array of 64 characters and ccmd_log into one of
    128, with sprintf: a text that does not fit is written past the end. Since
    the array of pd_str is static, two calls in one sprintf give the same
    characters, those of the call evaluated last. %g is here in full, with the
    rounding of the C library. *)

From Stdlib Require Import String Ascii SpecFloat.
From S2P Require Import Prelude Text Message Queue Ccmd Distrib.

Local Open Scope Z_scope.

Module Print.

(** ** %g *)

(** the value is n / d: the largest x with 10 ^ x <= n / d, from below and from above *)
Fixpoint exp_up (fuel : nat) (n d x : Z) : Z :=
  match fuel with
  | O => x
  | S fuel => if 10 * d <=? n then exp_up fuel n (10 * d) (x + 1) else x
  end.
Fixpoint exp_down (fuel : nat) (n d x : Z) : Z :=
  match fuel with
  | O => x
  | S fuel => if n <? d then exp_down fuel (10 * n) d (x - 1) else x
  end.
Definition exp10 (n d : Z) : Z :=
  if d <=? n then exp_up (S (Z.to_nat (Z.log2 n))) n d 0 else exp_down (S (Z.to_nat (Z.log2 d))) n d 0.
(** to nearest, ties to even *)
Definition round_even (a b : Z) : Z :=
  let q := a / b in
  match 2 * (a mod b) ?= b with Lt => q | Gt => q + 1 | Eq => if Z.even q then q else q + 1 end.
(** six digits of n / d, and the exponent of the first *)
Definition six_digits (n d : Z) : Z * Z :=
  let x := exp10 n d in
  let m := if x <=? 5 then round_even (n * 10 ^ (5 - x)) d else round_even n (d * 10 ^ (x - 5)) in
  if m =? 10 ^ 6 then (10 ^ 5, x + 1) else (m, x).

(** the digits after the point without the zeros at the end, and without the
    point when there are none *)
Fixpoint no_zeros (s : string) : string :=
  match s with
  | EmptyString => EmptyString
  | String a s =>
      match no_zeros s with
      | EmptyString => if Ascii.eqb a "0" then EmptyString else String a EmptyString
      | s => String a s
      end
  end.
Definition frac (s : string) : string :=
  match no_zeros s with EmptyString => EmptyString | s => String "." s end.
Definition exponent (x : Z) : string :=
  let a := Z.abs x in
  String "e" (String (if (x <? 0)%Z then "-" else "+")%char (if a <? 10 then String "0" (dec a) else dec a)).
Definition g_digits (m x : Z) : string :=
  let ds := dec m in
  if (x <? -4) || (6 <=? x) then
    (String.substring 0 1 ds ++ frac (String.substring 1 5 ds) ++ exponent x)%string
  else if x <? 0 then
    ("0" ++ frac (String.substring 0 (Z.to_nat (- x - 1)) "0000" ++ ds))%string
  else
    (String.substring 0 (Z.to_nat (x + 1)) ds ++ frac (String.substring (Z.to_nat (x + 1)) (Z.to_nat (5 - x)) ds))%string.
Definition ratio (m : positive) (e : Z) : Z * Z :=
  if 0 <=? e then (Zpos m * 2 ^ e, 1) else (Zpos m, 2 ^ (- e)).
Definition g (x : double) : string :=
  let sign (s : bool) t := if s then String "-" t else t in
  match x with
  | S754_zero s => sign s "0"%string
  | S754_infinity s => sign s "inf"%string
  | S754_nan => "nan"%string
  | S754_finite s m e => let '(n, d) := ratio m e in let '(m, x) := six_digits n d in sign s (g_digits m x)
  end.

(** ** pd_str *)

(** sprintf of a text into an array *)
Definition sprintf (capacity : Z) (t : string) : outcome string :=
  if Z.of_nat (String.length t) <? capacity then Ret t else Stop UB.

(** [s]: what the array holds already *)
Definition append (s t : string) : outcome string := sprintf 64 (s ++ t).
Definition pd_head (p : pd_spec_t) : outcome string :=
  match prob p with
  | PD_NONE => Ret "none"
  | FIXED => Ret (g (val p))
  | UNIF => Ret "unif:"
  | EXPON => Ret ("exp:" ++ g (val p))
  | NORM => Ret ("norm:" ++ g (val p))
  | LOGNORM => Ret ("lognorm:" ++ g (val p))
  | GAMMA =>
      let scale := Double.div (Double.mul (std p) (std p)) (val p) in
      k ← Double.lrint (Double.div (val p) scale);
      Ret ("gamma:" ++ g (val p) ++ ",k=" ++ ld (s32 k) ++ ",scale=" ++ g scale)
  | ARITH_SEQ | GEO_SEQ => Ret ("seq:step=" ++ g (std p))
  | SFILE =>
      v ← deref (samples p !! 0%nat);
      Ret ("file:num_samples=" ++ ld (num_samples p) ++ ",[0]=" ++ g v)
  end%string.
Definition std_shown (p : pd_spec_t) : bool :=
  negb (bool_decide (prob p = FIXED)) && negb (bool_decide (prob p = ARITH_SEQ)) &&
  negb (bool_decide (prob p = GEO_SEQ)) && negb (Double.isnan (std p)).
(** the parameter in print, if it is shown *)
Definition shown (b : bool) (name : string) (v : double) : string :=
  if b then (name ++ g v)%string else EmptyString.
Definition pd_str (p : pd_spec_t) : outcome string :=
  s ← pd_head p;
  s ← append EmptyString s;
  s ← append s (shown (std_shown p) ",std=" (std p));
  s ← append s (shown (negb (Double.isnan (pd_min p))) ",min=" (pd_min p));
  append s (shown (negb (Double.isnan (pd_max p))) ",max=" (pd_max p)).

(** ** ccmd_log *)

(** the two texts of one sprintf: the calls of pd_str are made in some order,
    [later] when that of [b] is the later one, and both stand for the same array *)
Definition pd_str_two (later : bool) (a b : pd_spec_t) : outcome (string * string) :=
  s ← pd_str a; t ← pd_str b;
  let array := if later then t else s in Ret (array, array).

(** the four bytes of an address, lowest first *)
Definition bytes4 (z : Z) : list Z := [u8 z; u8 (z / 2 ^ 8); u8 (z / 2 ^ 16); u8 (z / 2 ^ 24)].
Definition inet_ntoa (h : Z) : string := joined "." (dec <$> bytes4 h).
Definition hex_char (n : Z) : ascii := ascii_of_nat (Z.to_nat (if n <? 10 then 48 + n else 87 + n)).
(** %02x *)
Definition hex2 (b : Z) : string := String (hex_char (b / 16)) (String (hex_char (b mod 16)) EmptyString).
(** the target: the bytes of the hardware address, or protocol, host and port *)
Definition target (f : fwd_opts_t) : string :=
  if proto f =? DPDK then
    ("dpdk://" ++ joined ":" (hex2 <$> (bytes4 (fwd_host f) ++ [u8 (fwd_port f); u8 (fwd_port f / 2 ^ 8)])%list))%string
  else
    ((if (proto f =? TCP)%Z then "tcp" else "udp") ++ "://" ++ inet_ntoa (fwd_host f) ++ ":"
     ++ ld ((u16 (fwd_port f) mod 256) * 256 + u16 (fwd_port f) / 256)%Z)%string.

Section Log.
Context (later : bool).

Definition opts_of (n : ccmd_node_t pd_spec_t) : outcome string :=
  match cmd n with
  | STORE =>
      '(s, t) ← pd_str_two later (pd_val n) (pd_val2 n);
      Ret ("dev=" ++ ld (store_dev_id (store n)) ++ "," ++ s ++ "b,"
           ++ (if (wait_sync (store n) =? 0)%Z then "nosync" else "sync") ++ ",offset=" ++ t)
  | COMPUTE => s ← pd_str (pd_val n); Ret (s ++ "us")
  | LOAD =>
      '(s, t) ← pd_str_two later (pd_val n) (pd_val2 n);
      Ret ("dev=" ++ ld (load_dev_id (load n)) ++ "," ++ s ++ "b,offset=" ++ t)
  | PSKIP =>
      if SFltb (val (pd_val n)) (Double.of_Z 1) then
        s ← pd_str (pd_val n); Ret (ld (n_skip n) ++ ",prob=" ++ s)
      else Ret (ld (n_skip n))
  | FORWARD_BEGIN =>
      s ← pd_str (pd_val n);
      let f := fwd n in
      Ret (target f ++ "," ++ s ++ "b,retries=" ++ ld (retries f) ++ ",timeout=" ++ ld (s32 (timeout f))
           ++ ",branched=" ++ ld (branched f) ++ ",nack=" ++ ld (n_ack f))
  | FORWARD_CONTINUE => s ← pd_str (pd_val n); Ret (target (fwd n) ++ "," ++ s ++ "b")
  | REPLY =>
      s ← pd_str (pd_val n);
      Ret (s ++ "b, mode=" ++ (if (mode (resp n) =? 0)%Z then "normal" else "sendfile") ++ ", dev="
           ++ ld (reply_dev_id (resp n)))
  | _ => Stop CheckFailed
  end%string.
(** what is printed of a command, before the arrow *)
Definition item (n : ccmd_node_t pd_spec_t) : outcome string :=
  t ← opts_of n; opts ← sprintf 128 t;
  name ← Message.get_command_name (cmd n);
  Ret (name ++ "(" ++ opts ++ ")")%string.

(** [while (queue_itr_has_next(q, itr))] *)
Fixpoint log_loop (fuel : nat) (s : Ccmd.ccmd_t pd_spec_t) (itr : Z) : outcome string :=
  match fuel with
  | O => Stop OutOfFuel
  | S fuel =>
      if Queue.queue_itr_has_next (Ccmd.cq s) itr then
        '(p, itr) ← Queue.queue_itr_next (Ccmd.cq s) itr;
        i ← Ccmd.data_ptr s p;
        i ← deref i;
        n ← Ccmd.node_at s i;
        t ← item n;
        rest ← log_loop fuel s itr;
        Ret (t ++ (if Queue.queue_itr_has_next (Ccmd.cq s) itr then "->" else EmptyString) ++ rest)%string
      else Ret EmptyString
  end.
Definition ccmd_log (s : Ccmd.ccmd_t pd_spec_t) : outcome string :=
  t ← log_loop (S (Z.to_nat (Queue.capacity (Ccmd.cq s)))) s (Queue.queue_itr_begin (Ccmd.cq s));
  Ret (t ++ endl)%string.
End Log.

End Print.

Import Print.

Example g_values : g <$> [Double.of_Z 0; Double.of_Z 10; Double.of_Z 100000; Double.of_Z 1000000; Double.of_Z 123456789;
    Double.scaled 5 (-1); Double.scaled (-3) (-3); Double.div (Double.of_Z 1) (Double.of_Z 3);
    Double.div (Double.of_Z 1) (Double.of_Z 30000); Double.of_Z 9999995; Double.scaled 1 (-1074); Double.scaled 1 1023] =
  ["0"; "10"; "100000"; "1e+06"; "1.23457e+08"; "2.5"; "-0.375"; "0.333333"; "3.33333e-05"; "1e+07"; "4.94066e-324"; "8.98847e+307"]%string.
Proof. vm_compute. reflexivity. Qed.

(** ** %g has six digits, and the number of characters it takes *)

Lemma exp_up_ok fuel n d x : 0 < d ≤ n →
  let y := exp_up fuel n d x in
  x ≤ y ∧ d * 10 ^ (y - x) ≤ n ∧ (n < d * 10 ^ Z.of_nat fuel → n < d * 10 ^ (y - x + 1)).
Proof.
  revert d x. induction fuel as [|fuel IH]; intros d x Hd; cbn [exp_up].
  - rewrite Z.sub_diag. cbn. lia.
  - destruct (Z.leb_spec (10 * d) n) as [H|H].
    + destruct (IH (10 * d) (x + 1) ltac:(lia)) as (H1 & H2 & H3). set (y := exp_up _ _ _ _) in *.
      replace (y - x) with (Z.succ (y - (x + 1))) by lia. rewrite Z.pow_succ_r by lia.
      split; [lia|]. split; [lia|]. rewrite Nat2Z.inj_succ, Z.pow_succ_r by lia. intros Hf.
      replace (Z.succ (y - (x + 1)) + 1) with (Z.succ (y - (x + 1) + 1)) by lia. rewrite (Z.pow_succ_r 10 (_ + 1)) by lia. lia.
    + rewrite Z.sub_diag. cbn. lia.
Qed.
Lemma exp_down_ok fuel n d x : 0 < n → 0 < d →
  let y := exp_down fuel n d x in
  y ≤ x ∧ (n < d → fuel ≠ O → y < x) ∧ (y < x → n * 10 ^ (x - y) < 10 * d) ∧
  (d ≤ n * 10 ^ Z.of_nat fuel → d ≤ n * 10 ^ (x - y)).
Proof.
  revert n x. induction fuel as [|fuel IH]; intros n x Hn Hd; cbn [exp_down].
  - rewrite Z.sub_diag. cbn. lia.
  - destruct (Z.ltb_spec n d) as [H|H].
    + destruct (IH (10 * n) (x - 1) ltac:(lia) Hd) as (H1 & _ & H2 & H3). set (y := exp_down _ _ _ _) in *.
      replace (x - y) with (Z.succ (x - 1 - y)) by lia. rewrite Z.pow_succ_r by lia.
      split_and!; [lia|lia| |].
      * intros _. destruct (decide (y = x - 1)) as [->|]; [rewrite Z.sub_diag; lia|]. specialize (H2 ltac:(lia)). lia.
      * rewrite Nat2Z.inj_succ, Z.pow_succ_r by lia. lia.
    + rewrite Z.sub_diag. cbn. lia.
Qed.
Lemma pow_2_10 k : 0 ≤ k → 2 ^ k ≤ 10 ^ k.
Proof. intros. apply Z.pow_le_mono_l. lia. Qed.
(** [x] is the exponent of n / d *)
Definition exponent_of (n d x : Z) : Prop :=
  if 0 <=? x then d * 10 ^ x ≤ n < d * 10 ^ (x + 1) else d ≤ n * 10 ^ (- x) < 10 * d.
Lemma exp10_ok n d : 0 < n → 0 < d → exponent_of n d (exp10 n d).
Proof.
  intros Hn Hd. unfold exponent_of, exp10. destruct (Z.leb_spec d n) as [H|H].
  - pose proof (exp_up_ok (S (Z.to_nat (Z.log2 n))) n d 0 ltac:(lia)) as (H1 & H2 & H3).
    set (y := exp_up _ _ _ _) in *. rewrite Z.sub_0_r in *. rewrite (proj2 (Z.leb_le _ _) H1). split; [done|].
    apply H3. pose proof (Z.log2_spec n Hn). pose proof (Z.log2_nonneg n).
    rewrite Nat2Z.inj_succ, Z2Nat.id by done. pose proof (pow_2_10 (Z.succ (Z.log2 n)) ltac:(lia)). nia.
  - pose proof (exp_down_ok (S (Z.to_nat (Z.log2 d))) n d 0 Hn Hd) as (_ & H1 & H2 & H3).
    set (y := exp_down _ _ _ _) in *. specialize (H1 H ltac:(done)). rewrite Z.sub_0_l in *.
    destruct (Z.leb_spec 0 y); [lia|]. split; [|by apply H2].
    apply H3. pose proof (Z.log2_spec d Hd). pose proof (Z.log2_nonneg d).
    rewrite Nat2Z.inj_succ, Z2Nat.id by done. pose proof (pow_2_10 (Z.succ (Z.log2 d)) ltac:(lia)). nia.
Qed.

Lemma round_even_bounds a b lo hi : 0 < b → lo * b ≤ a → a < hi * b → lo ≤ round_even a b ≤ hi.
Proof.
  intros Hb Hlo Hhi. unfold round_even. pose proof (Z.div_mod a b ltac:(lia)). pose proof (Z.mod_pos_bound a b Hb).
  assert (lo ≤ a / b) by (apply Z.div_le_lower_bound; lia). assert (a / b < hi) by (apply Z.div_lt_upper_bound; lia).
  destruct (_ ?= _); [destruct (Z.even _)| |]; lia.
Qed.
Lemma six_digits_ok n d m x : 0 < n → 0 < d → six_digits n d = (m, x) →
  10 ^ 5 ≤ m < 10 ^ 6 ∧ exp10 n d ≤ x ≤ exp10 n d + 1.
Proof.
  intros Hn Hd. unfold six_digits. pose proof (exp10_ok n d Hn Hd) as E. set (y := exp10 n d) in *.
  set (k := if y <=? 5 then _ else _). assert (Hk : 10 ^ 5 ≤ k ≤ 10 ^ 6).
  { unfold exponent_of in E. subst k. destruct (Z.leb_spec y 5) as [H5|H5].
    - apply round_even_bounds; [done|..]; destruct (Z.leb_spec 0 y) as [H0|H0].
      + assert (Ep : 10 ^ 5 = 10 ^ y * 10 ^ (5 - y)) by (rewrite <- Z.pow_add_r by lia; f_equal; lia).
        pose proof (Z.pow_pos_nonneg 10 (5 - y)). rewrite Ep. nia.
      + replace (5 - y) with (- y + 5) by lia. rewrite Z.pow_add_r by lia. nia.
      + assert (Ep : 10 ^ 6 = 10 ^ (y + 1) * 10 ^ (5 - y)) by (rewrite <- Z.pow_add_r by lia; f_equal; lia).
        pose proof (Z.pow_pos_nonneg 10 (5 - y)). rewrite Ep. nia.
      + replace (5 - y) with (- y + 5) by lia. rewrite Z.pow_add_r by lia. nia.
    - rewrite (proj2 (Z.leb_le 0 y)) in E by lia. pose proof (Z.pow_pos_nonneg 10 (y - 5)).
      apply round_even_bounds; [nia|..].
      + assert (Ep : 10 ^ y = 10 ^ 5 * 10 ^ (y - 5)) by (rewrite <- Z.pow_add_r by lia; f_equal; lia). nia.
      + assert (Ep : 10 ^ (y + 1) = 10 ^ 6 * 10 ^ (y - 5)) by (rewrite <- Z.pow_add_r by lia; f_equal; lia). nia. }
  clearbody k. destruct (Z.eqb_spec k (10 ^ 6)) as [->|]; intros [= <- <-]; lia.
Qed.

Lemma substring_short a b s : (String.length (String.substring a b s) ≤ b)%nat.
Proof.
  revert a b. induction s as [|c s IH]; intros [|a] [|b]; cbn; try lia; [specialize (IH 0%nat b)|specialize (IH a 0%nat)|specialize (IH a (S b))];
    cbn in IH; lia.
Qed.
Lemma no_zeros_short s : (String.length (no_zeros s) ≤ String.length s)%nat.
Proof. induction s as [|a s IH]; [done|]. cbn [no_zeros]. destruct (no_zeros s); [destruct (Ascii.eqb a "0")|]; cbn in *; lia. Qed.
Lemma frac_short s : (String.length (frac s) ≤ S (String.length s))%nat.
Proof. unfold frac. pose proof (no_zeros_short s). destruct (no_zeros s); cbn in *; lia. Qed.
Lemma dec_below_1000 a : 0 ≤ a < 1000 → (String.length (dec a) ≤ 3)%nat.
Proof.
  intros Ha. destruct (decide (a < 10)). { destruct (decide (a = 0)) as [->|]; [cbn; lia|]. rewrite (dec_length 0); cbn; lia. }
  destruct (decide (a < 100)); [rewrite (dec_length 1)|rewrite (dec_length 2)]; cbn; lia.
Qed.
Lemma exponent_short x : -1000 < x < 1000 → (String.length (exponent x) ≤ 5)%nat.
Proof.
  intros Hx. unfold exponent. cbn [String.length]. pose proof (dec_below_1000 (Z.abs x) ltac:(lia)).
  destruct (Z.ltb_spec (Z.abs x) 10); [|lia]. cbn [String.length].
  destruct (decide (Z.abs x = 0)) as [->|]; [cbn; lia|]. rewrite (dec_length 0); cbn; lia.
Qed.
Lemma g_digits_short m x : 10 ^ 5 ≤ m < 10 ^ 6 → -1000 < x < 1000 → (String.length (g_digits m x) ≤ 12)%nat.
Proof.
  intros Hm Hx. pose proof (dec_length 5 m Hm) as Hd. unfold g_digits.
  destruct (Z.ltb_spec x (-4)); [|destruct (Z.leb_spec 6 x)]; cbn [orb].
  1,2: rewrite !string_length_app; pose proof (exponent_short x Hx);
    pose proof (substring_short 0 1 (dec m)); pose proof (frac_short (String.substring 1 5 (dec m)));
    pose proof (substring_short 1 5 (dec m)); lia.
  destruct (Z.ltb_spec x 0); rewrite string_length_app.
  - set (z := String.substring 0 _ _). pose proof (frac_short (z ++ dec m)). rewrite string_length_app in *.
    pose proof (substring_short 0 (Z.to_nat (- x - 1)) "0000"). cbn [String.length]. subst z. lia.
  - pose proof (substring_short 0 (Z.to_nat (x + 1)) (dec m)).
    pose proof (frac_short (String.substring (Z.to_nat (x + 1)) (Z.to_nat (5 - x)) (dec m))).
    pose proof (substring_short (Z.to_nat (x + 1)) (Z.to_nat (5 - x)) (dec m)). lia.
Qed.

(** a mantissa of 53 bits and an exponent of a double *)
Definition is_double (x : double) : Prop :=
  match x with S754_finite _ m e => Zpos m < 2 ^ 53 ∧ -1074 ≤ e ≤ 971 | _ => True end.
Lemma pow_10_lt a b c : 0 ≤ c → 10 ^ a < b → b ≤ 10 ^ c → a < c.
Proof.
  intros Hc Ha Hb. destruct (Z.lt_ge_cases a c) as [|Hge]; [done|].
  pose proof (Z.pow_le_mono_r 10 c a ltac:(lia) Hge). lia.
Qed.
Lemma big_powers : 2 ^ 1024 ≤ 10 ^ 309 ∧ 2 ^ 1074 ≤ 10 ^ 324.
Proof. split; vm_compute; discriminate. Qed.
Lemma ratio_exponent m e : Zpos m < 2 ^ 53 → -1074 ≤ e ≤ 971 →
  let '(n, d) := ratio m e in 0 < n ∧ 0 < d ∧ -326 < exp10 n d < 309.
Proof.
  intros Hm He. unfold ratio. destruct big_powers as [B1 B2]. destruct (Z.leb_spec 0 e) as [H0|H0].
  - pose proof (Z.pow_pos_nonneg 2 e ltac:(lia) H0). pose proof (Z.pow_le_mono_r 2 e 971 ltac:(lia) ltac:(lia)).
    assert (Hn : 0 < Zpos m * 2 ^ e < 2 ^ 53 * 2 ^ 971) by nia. rewrite <- (Z.pow_add_r 2 53 971) in Hn by lia.
    split; [apply Hn|]. split; [lia|]. generalize dependent (Zpos m * 2 ^ e). intros n Hn.
    pose proof (exp10_ok n 1 ltac:(lia) ltac:(lia)) as E. unfold exponent_of in E. set (x := exp10 n 1) in *.
    destruct (Z.leb_spec 0 x).
    + split; [lia|]. apply (pow_10_lt _ (2 ^ 1024) 309); [lia|lia|done].
    + pose proof (Z.pow_le_mono_r 10 1 (- x) ltac:(lia) ltac:(lia)). nia.
  - pose proof (Z.pow_pos_nonneg 2 (- e)). split; [lia|]. split; [lia|].
    pose proof (exp10_ok (Zpos m) (2 ^ (- e)) ltac:(lia) ltac:(lia)) as E. unfold exponent_of in E.
    set (x := exp10 _ _) in *. destruct (Z.leb_spec 0 x) as [Hx|Hx].
    + split; [lia|]. apply (pow_10_lt _ (2 ^ 1024) 309); [lia| |done].
      pose proof (Z.pow_lt_mono_r 2 53 1024 ltac:(lia) ltac:(lia)). nia.
    + split; [|lia]. assert (- x - 1 < 324); [|lia]. apply (pow_10_lt _ (2 ^ 1074) 324); [lia| |done].
      pose proof (Z.pow_le_mono_r 2 (- e) 1074 ltac:(lia) ltac:(lia)).
      replace (- x) with (Z.succ (- x - 1)) in E by lia. rewrite Z.pow_succ_r in E by lia. nia.
Qed.
Lemma g_short x : is_double x → (String.length (g x) ≤ 13)%nat.
Proof.
  destruct x as [s|s| |s m e]; cbn [is_double g]; intros H; [by destruct s; cbn; lia..|cbn; lia|].
  destruct H as [Hm He]. pose proof (ratio_exponent m e Hm He) as R. destruct (ratio m e) as [n d].
  destruct R as (Hn & Hd & Hx). destruct (six_digits n d) as [k x] eqn:E.
  apply six_digits_ok in E as [Hk Hx']; [|done..]. pose proof (g_digits_short k x Hk ltac:(lia)).
  destruct s; [cbn [String.length]|]; lia.
Qed.

(** ** What fits into the array of pd_str *)

Definition params (p : pd_spec_t) : string :=
  (shown (std_shown p) ",std=" (std p) ++ shown (negb (Double.isnan (pd_min p))) ",min=" (pd_min p) ++
   shown (negb (Double.isnan (pd_max p))) ",max=" (pd_max p))%string.
Lemma append_text s t : append s t = (if (String.length (s ++ t) <? 64)%nat then Ret (s ++ t)%string else Stop UB).
Proof.
  unfold append, sprintf. destruct (Nat.ltb_spec (String.length (s ++ t)) 64), (Z.ltb_spec (Z.of_nat (String.length (s ++ t))) 64);
    done || lia.
Qed.
(** pd_str gives the whole text when it fits, and otherwise writes past the end *)
Lemma pd_str_text p h : pd_head p = Ret h →
  pd_str p = (if (String.length (h ++ params p) <? 64)%nat then Ret (h ++ params p)%string else Stop UB).
Proof.
  intros Eh. unfold pd_str, params. rewrite Eh. obind.
  set (a := shown (std_shown p) _ _). set (b := shown (negb (Double.isnan (pd_min p))) _ _).
  set (c := shown (negb (Double.isnan (pd_max p))) _ _). rewrite !append_text, string_nil_app.
  repeat rewrite string_length_app.
  destruct (Nat.ltb_spec (String.length h) 64); obind;
    [|by destruct (Nat.ltb_spec (String.length h + (String.length a + (String.length b + String.length c))) 64); [lia|]].
  rewrite append_text, string_length_app. destruct (Nat.ltb_spec (String.length h + String.length a) 64); obind;
    [|by destruct (Nat.ltb_spec (String.length h + (String.length a + (String.length b + String.length c))) 64); [lia|]].
  rewrite append_text, !string_length_app. destruct (Nat.ltb_spec (String.length h + String.length a + String.length b) 64); obind;
    [|by destruct (Nat.ltb_spec (String.length h + (String.length a + (String.length b + String.length c))) 64); [lia|]].
  rewrite append_text, !string_length_app, !string_app_assoc.
  by replace (String.length h + String.length a + String.length b + String.length c)%nat
    with (String.length h + (String.length a + (String.length b + String.length c)))%nat by lia.
Qed.

Definition doubles (p : pd_spec_t) : Prop :=
  is_double (val p) ∧ is_double (std p) ∧ is_double (pd_min p) ∧ is_double (pd_max p).
(** the specifications that are always short enough: those of few parameters, or
    with one of the standard deviation and the bounds left out *)
Definition short_spec (p : pd_spec_t) : Prop :=
  match prob p with
  | PD_NONE | FIXED | UNIF | ARITH_SEQ | GEO_SEQ => True
  | EXPON | NORM | LOGNORM =>
      Double.isnan (std p) = true ∨ Double.isnan (pd_min p) = true ∨ Double.isnan (pd_max p) = true
  | _ => False
  end.
Lemma shown_short b name v : is_double v → (String.length name = 5)%nat →
  (String.length (shown b name v) ≤ if b then 18 else 0)%nat.
Proof. intros Hv Hn. unfold shown. destruct b; [|done]. rewrite string_length_app. pose proof (g_short v Hv). lia. Qed.
Lemma params_short p : doubles p → (String.length (params p) ≤
  (if std_shown p then 18 else 0) + (if Double.isnan (pd_min p) then 0 else 18) + (if Double.isnan (pd_max p) then 0 else 18))%nat.
Proof.
  intros (_ & Hs & Hl & Hh). unfold params. rewrite !string_length_app.
  pose proof (shown_short (std_shown p) ",std=" (std p) Hs eq_refl).
  pose proof (shown_short (negb (Double.isnan (pd_min p))) ",min=" (pd_min p) Hl eq_refl).
  pose proof (shown_short (negb (Double.isnan (pd_max p))) ",max=" (pd_max p) Hh eq_refl).
  destruct (Double.isnan (pd_min p)), (Double.isnan (pd_max p)); cbn [negb] in *; lia.
Qed.

(** numbers without a point, as scanf reads them *)
#[local] Instance whole_numbers : Pd.Scan := {|
  Pd.scan_lf s := '(n, _) ← scan_int s; Some (Double.of_Z n);
  Pd.scan_d s := '(n, _) ← scan_int s; Some n |}.
Definition long_spec : string := "norm:123457000000:std=123457000000:min=123457000000:max=123457000001".

Lemma short_head p : doubles p → short_spec p →
  ∃ h, pd_head p = Ret h ∧ (String.length (h ++ params p) < 64)%nat.
Proof.
  intros Hd Hs. pose proof (params_short p Hd) as Hp. destruct Hd as (Hv & Hsd & _ & _).
  pose proof (g_short _ Hv) as Gv. pose proof (g_short _ Hsd) as Gs.
  unfold pd_head, short_spec, std_shown in *.
  destruct (prob p); try done; eexists; (split; [reflexivity|]); rewrite ?string_length_app;
    cbn [String.length] in *; cbn [bool_decide decide_rel pd_type_eq_dec negb andb] in *;
    repeat case_bool_decide; try done; cbn [negb andb] in *;
    destruct (Double.isnan (std p)), (Double.isnan (pd_min p)), (Double.isnan (pd_max p)); cbn [negb] in *;
    try lia; by destruct Hs as [|[|]].
Qed.

(** [C39] What pd_str may write. For numbers that are doubles, the text of a
    specification is written whole when it takes at most 63 characters, and past
    the end of the static array otherwise. Specifications without parameters or
    with bounds only (fixed, uniform, sequences) always fit, and so do the others
    with at most two of the deviation and the bounds; with all three one that the
    parser accepts does not. *)
Theorem pd_str_bounds (p : pd_spec_t) (h : string) : doubles p → pd_head p = Ret h →
  (pd_str p = if (String.length (h ++ params p) <? 64)%nat then Ret (h ++ params p)%string else Stop UB) ∧
  (short_spec p → pd_str p = Ret (h ++ params p)%string) ∧
  (∃ q, Pd.pd_parse id (fun _ => None) long_spec = Ret q ∧ doubles q ∧ pd_str q = Stop UB).
Proof.
  intros Hd Hh. pose proof (pd_str_text p h Hh) as E. split; [exact E|]. split.
  - intros Hs. destruct (short_head p Hd Hs) as (h' & Eh & Hl). assert (h' = h) as -> by congruence. rewrite E.
    by rewrite (proj2 (Nat.ltb_lt _ _) Hl).
  - destruct (Pd.pd_parse id (fun _ => None) long_spec) as [q|] eqn:Eq; [|by vm_compute in Eq].
    exists q. split; [done|]. vm_compute in Eq. injection Eq as <-. split; [|by vm_compute].
    unfold doubles, is_double. cbn. lia.
Qed.

Lemma pd_str_bounds_witness :
  let p := MkPd UNIF NAN NAN (Double.of_Z 100) (Double.scaled 5 (-1)) [] 0 0 in
  pd_str p = Ret "unif:,min=100,max=2.5"%string ∧
  ∃ q, Pd.pd_parse id (fun _ => None) long_spec = Ret q ∧ doubles q ∧ pd_str q = Stop UB.
Proof.
  intros p. assert (Hd : doubles p) by (unfold doubles; split_and!; vm_compute; repeat split; congruence).
  destruct (pd_str_bounds p "unif:" Hd eq_refl) as (_ & Hs & Hq). split; [|exact Hq].
  rewrite (Hs I). vm_compute. reflexivity.
Defined.

(** ** The text of a program *)

Fixpoint arrows (ts : list string) : string :=
  match ts with
  | [] => EmptyString
  | t :: ts => (t ++ match ts with [] => EmptyString | _ => "->" ++ arrows ts end)%string
  end.

Section Chain.
Context (log exp : double → double) (tries : nat).
#[local] Instance print_sampler : Sampler pd_spec_t Z := Pd.distrib_sampler log exp tries.
Context (later : bool) (s : Ccmd.ccmd_t pd_spec_t) (l : list nat).
Context (Hc : Ccmd.chain s l) (Hh : Queue.head (Ccmd.cq s) = 0).

Lemma chain_data k : 0 ≤ k < Queue.size (Ccmd.cq s) → Ccmd.data_ptr s (Some k) = Ret (l !! Z.to_nat k).
Proof.
  intros Hk. rewrite <- (Ccmd.data_ptr_at s l k Hc Hk). unfold Ccmd.data_ptr, Queue.node_of. obind.
  pose proof (Queue.wf_nodes _ (Ccmd.ch_queue _ _ Hc)). pose proof (Queue.wf_size _ (Ccmd.ch_queue _ _ Hc)).
  rewrite arr_get_total by lia. unfold Queue.slot. by rewrite Hh, Z.add_0_l, Z.mod_small by lia.
Qed.

Lemma log_loop_text fuel ts k itr :
  Forall2 (fun i t => ∃ n, Ccmd.nodes s !! i = Some n ∧ item later n = Ret t) (drop k l) ts →
  (k ≤ length l)%nat →
  Queue.tail (Ccmd.cq s) = Queue.size (Ccmd.cq s) - 1 →
  ((k < length l)%nat ∧ itr = Z.of_nat k ∨ k = length l ∧ (itr = Z.of_nat k ∨ itr = -1)) →
  (length l - k < fuel)%nat → log_loop later fuel s itr = Ret (arrows ts).
Proof.
  pose proof (Ccmd.chain_size s l Hc) as Hl. pose proof (Ccmd.ch_queue _ _ Hc) as Hq.
  revert ts k itr. induction fuel as [|fuel IH]; intros ts k itr Hts Hk Ht Hi Hf; [lia|]. cbn [log_loop].
  destruct (decide (k = length l)) as [->|Hne].
  { rewrite drop_ge in Hts by done. apply Forall2_nil_inv_l in Hts as ->.
    by replace (Queue.queue_itr_has_next (Ccmd.cq s) itr) with false by (unfold Queue.queue_itr_has_next; lia). }
  assert (Hlt : (k < length l)%nat) by lia. assert (itr = Z.of_nat k) as -> by lia.
  destruct (lookup_lt_is_Some_2 l k Hlt) as [i El]. rewrite (drop_S l i k El) in Hts.
  apply Forall2_cons_inv_l in Hts as (t & ts' & (n & En & Et) & Hts & ->).
  replace (Queue.queue_itr_has_next (Ccmd.cq s) (Z.of_nat k)) with true by (unfold Queue.queue_itr_has_next; lia).
  rewrite Queue.itr_next_straight by (done || lia). obind. rewrite chain_data by lia. obind.
  rewrite Nat2Z.id, El. obind. unfold Ccmd.node_at. rewrite En. obind. rewrite Et. obind.
  set (itr' := if bool_decide _ then -1 else _).
  assert (Hi' : ((S k < length l)%nat ∧ itr' = Z.of_nat (S k) ∨ S k = length l ∧ (itr' = Z.of_nat (S k) ∨ itr' = -1))).
  { pose proof (Queue.wf_size _ Hq). subst itr'. case_bool_decide; lia. }
  clearbody itr'.
  rewrite (IH ts' (S k) itr') by (done || lia). obind. f_equal. cbn [arrows]. f_equal.
  apply Forall2_length in Hts. rewrite length_drop in Hts.
  destruct Hi' as [[Hs ->]|[Hs Hi']].
  - destruct ts' as [|t' ts']; [cbn in Hts; lia|].
    apply Nat2Z.inj_lt in Hs. pose proof (Nat2Z.is_nonneg (S k)). generalize dependent (Z.of_nat (S k)). intros j Hs Hj.
    assert (Queue.queue_itr_has_next (Ccmd.cq s) j = true) as -> by (unfold Queue.queue_itr_has_next; lia). done.
  - destruct ts' as [|t' ts']; [|cbn in Hts; lia].
    by replace (Queue.queue_itr_has_next (Ccmd.cq s) itr') with false by (unfold Queue.queue_itr_has_next; lia).
Qed.

(** a chain whose commands all fit is printed in order, with arrows between *)
Lemma ccmd_log_text ts : l ≠ [] →
  Forall2 (fun i t => ∃ n, Ccmd.nodes s !! i = Some n ∧ item later n = Ret t) l ts →
  ccmd_log later s = Ret (arrows ts ++ endl)%string.
Proof.
  intros Hne Hts. pose proof (Ccmd.chain_size s l Hc) as Hl. pose proof (Ccmd.ch_queue _ _ Hc) as Hq.
  pose proof (Queue.wf_size _ Hq). assert (length l ≠ 0)%nat by (by intros E%length_zero_iff_nil).
  assert (Ht : Queue.tail (Ccmd.cq s) = Queue.size (Ccmd.cq s) - 1).
  { rewrite Queue.tail_slot by (done || lia). unfold Queue.slot. rewrite Hh, Z.mod_small; lia. }
  unfold ccmd_log, Queue.queue_itr_begin. rewrite Hh.
  rewrite (log_loop_text _ ts 0 0); [done|done|lia|done|left; lia|lia].
Qed.
End Chain.

(** The size and the offset of a STORE or LOAD are printed alike, whatever they
    are: both are the text of the one printed last. *)
Lemma store_offset_text later n t : cmd n = STORE → opts_of later n = Ret t →
  ∃ u, t = ("dev=" ++ ld (store_dev_id (store n)) ++ "," ++ u ++ "b,"
            ++ (if (wait_sync (store n) =? 0)%Z then "nosync" else "sync") ++ ",offset=" ++ u)%string ∧
    pd_str (if later then pd_val2 n else pd_val n) = Ret u.
Proof.
  intros Ec. unfold opts_of. rewrite Ec. intros H. apply bind_Ret_inv in H as ([u v] & E & H).
  unfold pd_str_two in E. apply bind_Ret_inv in E as (a & Ea & E). apply bind_Ret_inv in E as (b & Eb & E).
  injection E as <- <-. injection H as <-. exists (if later then b else a). split; [done|]. by destruct later.
Qed.
(** a store of 4096 bytes at offset 0 *)
Example store_printed :
  let n := MkCcmd STORE (MkPd FIXED (Double.of_Z 4096) NAN NAN NAN [] 0 0) (MkPd FIXED (Double.of_Z 0) NAN NAN NAN [] 0 0)
    (MkStore 0 0 1 0) (MkLoad 0 0 0) (MkFwd 0 0 0 0 0 0 0 0 0) (MkReply 0 0 0) 0 0 None in
  item true n = Ret "STORE(dev=0,0b,sync,offset=0)"%string ∧
  item false n = Ret "STORE(dev=0,4096b,sync,offset=4096)"%string.
Proof. split; vm_compute; reflexivity. Qed.
Example target_printed : target (MkFwd 0 16777343 54302 0 0 0 0 0 TCP) = "tcp://127.0.0.1:7892"%string.
Proof. vm_compute. reflexivity. Qed.
