(* ===== verification/CommandLine.v ===== *)
(** * The text of the client's command line (src/src/dw_client.c:
      argp_client_parse_opt)

    The arguments of the options as texts: how strsep, sscanf and the parsers of
    distrib.c and address_utils.c cut them into the tokens of Options, and the
    options that set a variable. argp splits the command line: an option comes
    with its argument. A text that does not parse ends the process. The tokens
    of one argument are read before the chain is changed, except for a forward,
    whose targets the code adds as it reads them: an argument with two faults
    stops with either of them. The last part is script_parse, which reads
    options from files and cuts them into tokens itself. *)

From Stdlib Require Import String Ascii SpecFloat.
From S2P Require Import Prelude Text Message Request Queue Ccmd Options Distrib Address Pacing Startup.

Local Open Scope Z_scope.

Module CommandLine.

Section Text.
Context `{!Pd.Scan} (log exp : double → double) (tries : nat).
Context (files : string → option (list string)) (gethostbyname : string → option Z).
#[local] Instance sampler : Sampler pd_spec_t Z := Pd.distrib_sampler log exp tries.
#[local] Existing Instance Pd.distrib_specs.
Abbreviation arguments := (Options.arguments pd_spec_t).

Definition bytes (t : string) : outcome pd_spec_t := Pd.pd_parse_bytes exp files t.

(** [strsep(&arg, c)]: the token and what is left, [None] for NULL *)
Definition strsep (c : ascii) (s : string) : string * option string :=
  match strchr c s with Some (t, u) => (t, Some u) | None => (s, None) end.
(** [if (arg != NULL && *arg == ',') arg++], then the condition of the loop:
    [None] when it ends *)
Definition next_arg (arg : option string) : option string :=
  let arg := match arg with Some (String "," s) => Some s | _ => arg end in
  match arg with Some EmptyString => None | _ => arg end.

(** ** STORE_DATA, LOAD_DATA *)

(** the rest of an argument up to the bracket *)
Definition bracketed (s : string) : outcome (pd_spec_t * option string) :=
  match strchr "]" s with
  | Some (t, u) => v ← bytes t; Ret (v, Some u)
  | None => Stop CheckFailed
  end.
Definition data_item (is_store : bool) (arg : string)
    : outcome (Options.data_token pd_spec_t * option string) :=
  match (if is_store then strip "nosync" arg else None), (if is_store then strip "sync" arg else None) with
  | Some r, _ => Ret (Options.D_sync false, Some r)
  | None, Some r => Ret (Options.D_sync true, Some r)
  | None, None =>
      match strip "offset=[" arg, strip "size=[" arg with
      | Some r, _ => '(v, r) ← bracketed r; Ret (Options.D_offset (Some v), r)
      | None, Some r => '(v, r) ← bracketed r; Ret (Options.D_size (Some v), r)
      | None, None =>
          match strip "dev=" arg with
          | Some r => let '(t, r) := strsep "," r in Ret (Options.D_dev (Address.atoi t), r)
          | None => let '(t, r) := strsep "," arg in v ← bytes t; Ret (Options.D_size (Some v), r)
          end
      end
  end.
(** [do ... while (arg != NULL && *arg != '\0')]: every turn takes a character *)
Fixpoint data_loop (fuel : nat) (is_store : bool) (arg : string)
    : outcome (list (Options.data_token pd_spec_t)) :=
  match fuel with
  | O => Stop OutOfFuel
  | S fuel =>
      '(t, r) ← data_item is_store arg;
      match next_arg r with
      | None => Ret [t]
      | Some r => l ← data_loop fuel is_store r; Ret (t :: l)
      end
  end.
Definition data_text (is_store : bool) (arg : string) : outcome (list (Options.data_token pd_spec_t)) :=
  data_loop (S (String.length arg)) is_store arg.

(** ** SKIP_CMD *)

(** [sscanf(tok, pre ++ "%d", ...) == 1] *)
Definition scan_d (pre tok : string) : option Z := s ← strip pre tok; fst <$> scan_int s.
Definition skip_item (tok : string) : outcome (Options.skip_token pd_spec_t) :=
  match scan_d EmptyString tok with
  | Some n => n ← int_ n; Ret (Options.K_n n)
  | None =>
      match Pd.sscanf "prob=" tok with
      | Some v =>
          Ret (Options.K_prob (pd_build_fixed v) (SFleb (Double.of_Z 0) v && SFleb v (Double.of_Z 1)))
      | None =>
          match scan_d "every=" tok with
          | Some n => n ← int_ n; Ret (Options.K_every n)
          | None => Ret Options.K_wrong
          end
      end
  end.
Definition skip_text (arg : string) : outcome (list (Options.skip_token pd_spec_t)) :=
  mapM skip_item (split "," arg).

(** ** FORWARD_CMD *)

Definition hex_digit (a : ascii) : option Z :=
  let n := Z.of_nat (nat_of_ascii a) in
  if is_digit a then Some (n - 48)
  else if (65 <=? n) && (n <=? 70) then Some (n - 55)
  else if (97 <=? n) && (n <=? 102) then Some (n - 87)
  else None.
Fixpoint hex_digits (s : string) (n : Z) : Z * string :=
  match s with
  | String a s' => match hex_digit a with Some d => hex_digits s' (16 * n + d) | None => (n, s) end
  | EmptyString => (n, s)
  end.
Definition starts_hex (s : string) : bool := starts (fun a => bool_decide (is_Some (hex_digit a))) s.
(** %x: white space, a sign, a prefix, digits *)
Definition scan_x (s : string) : option (Z * string) :=
  let s := skip_space s in
  let '(neg, s) :=
    match s with String "-" s => (true, s) | String "+" s => (false, s) | _ => (false, s) end in
  let s := match strip "0x" s, strip "0X" s with
           | Some r, _ | None, Some r => if starts_hex r then r else s
           | None, None => s
           end in
  if starts_hex s then let '(n, s) := hex_digits s 0 in Some (if neg then - n else n, s) else None.
(** [n + 1] numbers with colons between them *)
Fixpoint scan_mac (n : nat) (s : string) : option (list Z) :=
  '(b, s) ← scan_x s;
  match n with
  | O => Some [u8 b]
  | S n => s ← strip ":" s; l ← scan_mac n s; Some (u8 b :: l)
  end.
(** the bytes of fwd_addr as the fields that share their place *)
Definition mac_target (l : list Z) : outcome (Z * Z) :=
  match l with
  | [a; b; c; d; e; f] => Ret (a + 2 ^ 8 * b + 2 ^ 16 * c + 2 ^ 24 * d, e + 2 ^ 8 * f)
  | _ => Stop CheckFailed
  end.

Definition target_item (tok : string) : outcome Options.fwd_token :=
  '(host, proto) ← Address.addr_proto_parse tok None TCP;
  host ← deref host;
  if proto =? DPDK then
    '(h, p) ← mac_target (default [] (scan_mac 5 host)); Ret (Options.F_target proto h p)
  else
    addr ← Address.addr_parse gethostbyname host;
    Ret (Options.F_target proto (s_addr addr) (sin_port addr)).
(** a timeout that is no number has no integer value *)
Definition fwd_item (tok : string) : outcome Options.fwd_token :=
  match scan_d "retry=" tok, scan_d "retries=" tok with
  | Some n, _ | None, Some n => n ← int_ n; Ret (Options.F_retry n)
  | None, None =>
      us ← Pd.sscanf_unit tok "timeout=" true;
      match us with
      | Some v => Ret (Options.F_timeout (default (2 ^ 63) (Double.trunc v)))
      | None =>
          match scan_d "nack=" tok, strip "branch" tok with
          | Some n, _ => n ← int_ n; Ret (Options.F_nack n)
          | None, Some _ => Ret Options.F_branch
          | None, None => target_item tok
          end
      end
  end.
Fixpoint fwd_loop (toks : list string) (a : arguments) (x : Options.fwd_locals)
    : outcome (arguments * Options.fwd_locals) :=
  match toks with
  | [] => Ret (a, x)
  | tok :: toks =>
      t ← fwd_item tok;
      '(a, x) ← Options.fwd_tokens [t] a x;
      fwd_loop toks a x
  end.
Definition forward_text (a : arguments) (arg : string) : outcome arguments :=
  a ← Options.close_branch a;
  '(a, x) ← fwd_loop (split "," arg) a (Options.FwdLocals 10000000 0 (-1) 0 0 None);
  Options.end_forward a x.

(** ** REPLY_CMD *)

Definition reply_item (tok : string) : outcome (Options.reply_token pd_spec_t) :=
  match strip "dev=" tok, strip "sendfile" tok with
  | Some r, _ => Ret (Options.R_dev (Address.atoi r))
  | None, Some _ => Ret Options.R_sendfile
  | None, None => v ← bytes tok; Ret (Options.R_size (Some v))
  end.
(** [do ... while (arg != NULL && *arg != '\0')] *)
Fixpoint reply_loop (toks : list string) : outcome (list (Options.reply_token pd_spec_t)) :=
  match toks with
  | [] => Ret []
  | tok :: toks =>
      t ← reply_item tok;
      match toks with
      | [EmptyString] => Ret [t]
      | _ => l ← reply_loop toks; Ret (t :: l)
      end
  end.
Definition reply_text (arg : option string) : outcome (option (list (Options.reply_token pd_spec_t))) :=
  match arg with
  | None => Ret None
  | Some arg => l ← reply_loop (split "," arg); Ret (Some l)
  end.

(** ** The options that set a variable *)

(** the arguments are a global: the format is the first one, TXT, until it is set *)
Inductive output_format_t := OUTPUT_FORMAT_TXT | OUTPUT_FORMAT_CSV.
Record output_t := Output {
  output_file : option string; output_sep : ascii; output_header : Z; output_format : output_format_t }.
Record flags_t := Flags {
  wait_spinning : Z; nano : Z; conn_times : Z; conn_nonblock : Z; staggered_send : Z;
  per_session_output : Z; interactive_pso : Z; client_no_delay : Z }.
Record numbers_t := Numbers {
  num_pkts : Z; ramp_step_secs : Z; client_threads : Z; num_sessions : Z; conn_retry_num : Z;
  conn_retry_period_ms : Z; seed : Z }.
(** the arguments and the globals: the program, the period and the rate, the
    size of a packet, the texts of the two addresses and the protocol *)
Record client_args := ClientArgs {
  program : arguments;
  pacing : Pacing.pace_t;
  send_pkt_size_pd : pd_spec_t;
  clienthostport : option string;
  nodehostport : option string;
  to_proto : Z;
  flags : flags_t;
  numbers : numbers_t;
  output : output_t;
  client_ssl : Startup.ssl_files
}.

Definition with_program (c : client_args) (a : arguments) : client_args :=
  ClientArgs a (pacing c) (send_pkt_size_pd c) (clienthostport c) (nodehostport c) (to_proto c)
    (flags c) (numbers c) (output c) (client_ssl c).
Definition with_pacing (c : client_args) (p : Pacing.pace_t) (size : pd_spec_t) : client_args :=
  ClientArgs (program c) p size (clienthostport c) (nodehostport c) (to_proto c)
    (flags c) (numbers c) (output c) (client_ssl c).
Definition with_hosts (c : client_args) (from to : option string) (p : Z) : client_args :=
  ClientArgs (program c) (pacing c) (send_pkt_size_pd c) from to p
    (flags c) (numbers c) (output c) (client_ssl c).
Definition with_flags (c : client_args) (f : flags_t) : client_args :=
  ClientArgs (program c) (pacing c) (send_pkt_size_pd c) (clienthostport c) (nodehostport c) (to_proto c)
    f (numbers c) (output c) (client_ssl c).
Definition with_numbers (c : client_args) (n : numbers_t) : client_args :=
  ClientArgs (program c) (pacing c) (send_pkt_size_pd c) (clienthostport c) (nodehostport c) (to_proto c)
    (flags c) n (output c) (client_ssl c).
Definition with_output (c : client_args) (o : output_t) : client_args :=
  ClientArgs (program c) (pacing c) (send_pkt_size_pd c) (clienthostport c) (nodehostport c) (to_proto c)
    (flags c) (numbers c) o (client_ssl c).
Definition with_client_ssl (c : client_args) (s : Startup.ssl_files) : client_args :=
  ClientArgs (program c) (pacing c) (send_pkt_size_pd c) (clienthostport c) (nodehostport c) (to_proto c)
    (flags c) (numbers c) (output c) s.

(** the initial values of the globals, and ARGP_KEY_INIT; [rng] is the state of
    the generator of the main thread *)
Definition client_init (junk junk' : Z → node_t) (rng : Z) : client_args :=
  let fixed z := pd_build_fixed (Double.of_Z z) in
  ClientArgs (Options.init junk junk') (Pacing.MkPace (fixed 100000) (fixed 10) rng) (fixed 1024)
    (Some "0.0.0.0:0"%string) (Some Startup.default_hostport) TCP (Flags 0 0 0 0 0 0 0 1)
    (Numbers 1 0 1 1 0 200 (-1)) (Output None "," 0 OUTPUT_FORMAT_TXT)
    (Startup.MkSslFiles None None None None None 0).

(** *** --output *)

(** the text from the last character [a] on *)
Fixpoint strrchr (a : ascii) (s : string) : option string :=
  match s with
  | EmptyString => None
  | String b t =>
      match strrchr a t with
      | Some r => Some r
      | None => if Ascii.eqb b a then Some s else None
      end
  end.
Definition is_quote (a : ascii) : bool := Ascii.eqb a "'" || (nat_of_ascii a =? 34)%nat.
(** the output, the separator as given, and whether a header was set *)
Definition output_item (o : output_t) (sep : ascii) (header_set : bool) (tok : string)
    : outcome (output_t * ascii * bool) :=
  match strip "sep=" tok with
  | Some r =>
      let r := match r with String a r' => if is_quote a then r' else r | EmptyString => r end in
      match r with
      | String a _ => Ret (Output (output_file o) a (output_header o) (output_format o), a, header_set)
      | EmptyString => Stop CheckFailed
      end
  | None =>
      match strip "header=" tok with
      | Some v =>
          let set h := Ret (Output (output_file o) (output_sep o) h (output_format o), sep, true) in
          if String.eqb v "true" || String.eqb v "1" then set 1
          else if String.eqb v "false" || String.eqb v "0" then set 0
          else Stop CheckFailed
      | None =>
          _ ← check (negb (Address.is_empty tok));
          let set f := Ret (Output (Some tok) (output_sep o) (output_header o) f, sep, header_set) in
          match strrchr "." tok with
          | Some ".csv"%string => set OUTPUT_FORMAT_CSV
          | Some ".txt"%string => set OUTPUT_FORMAT_TXT
          | _ => Stop CheckFailed
          end
      end
  end.
Fixpoint output_loop (toks : list string) (o : output_t) (sep : ascii) (header_set : bool)
    : outcome (output_t * ascii * bool) :=
  match toks with
  | [] => Ret (o, sep, header_set)
  | tok :: toks => '(o, sep, header_set) ← output_item o sep header_set tok; output_loop toks o sep header_set
  end.
Definition output_opt (o : output_t) (arg : string) : outcome output_t :=
  '(o, sep, header_set) ← output_loop (split "," arg) o "," false;
  let is_txt := match output_format o with OUTPUT_FORMAT_TXT => true | _ => false end in
  let is_csv := match output_format o with OUTPUT_FORMAT_CSV => true | _ => false end in
  _ ← check (negb (is_txt && (Ascii.eqb sep "_" || Ascii.eqb sep ":")));
  _ ← check (negb (is_csv && Ascii.eqb sep "_"));
  _ ← check (negb header_set || is_csv);
  Ret o.

(** *** The options *)

Definition MAX_THREADS : Z := 256.
Definition TCPIP_HEADERS_SIZE : Z := 66.
Definition MIN_SEND_SIZE : Z := sizeof_message_t + 2 * sizeof_command_t.

Inductive client_opt :=
  | O_BIND_ADDR (arg : string) | O_TO (arg : string) | O_NUM_PKTS (arg : string)
  | O_PERIOD (arg : string) | O_RATE (arg : string) | O_WAIT_SPIN | O_NANO_OUTPUT
  | O_RATE_STEP_SECS (arg : string) | O_COMP_TIME (arg : string) | O_LOAD_OFFSET (arg : string)
  | O_STORE_OFFSET (arg : string) | O_STORE_DATA (arg : string) | O_LOAD_DATA (arg : string)
  | O_SKIP_CMD (arg : string) | O_FORWARD_CMD (arg : string) | O_SEND_REQUEST_SIZE (arg : string)
  | O_REPLY_CMD (arg : option string) | O_NUM_THREADS (arg : string) | O_SEED (arg : string)
  | O_NUM_SESSIONS (arg : string) | O_CONN_RETRY_NUM (arg : string) | O_CONN_RETRY_PERIOD (arg : string)
  | O_CONN_TIMES | O_CONN_NONBLOCK | O_STAG_SEND | O_PER_SESSION_OUTPUT | O_INTERACTIVE_PSO
  | O_OUTPUT_FILE (arg : string) | O_NO_DELAY (arg : string)
  | O_SSL_CERT_FILE (arg : string) | O_SSL_KEY_FILE (arg : string) | O_SSL_CA_FILE (arg : string)
  | O_SSL_CIPHERS (arg : string) | O_SSL_CA_PATH (arg : string) | O_SSL_VERIFY.

(** the options that build the program *)
Definition program_opt (a : arguments) (o : client_opt) : outcome (option arguments) :=
  let add x := a ← x; Ret (Some a) in
  match o with
  | O_COMP_TIME arg =>
      add (v ← Pd.pd_parse_time exp files arg; Options.parse_opt a (Options.COMP_TIME (Some v)))
  | O_LOAD_OFFSET arg => add (v ← bytes arg; Options.parse_opt a (Options.LOAD_OFFSET (Some v)))
  | O_STORE_OFFSET arg => add (v ← bytes arg; Options.parse_opt a (Options.STORE_OFFSET (Some v)))
  | O_STORE_DATA arg => add (l ← data_text true arg; Options.parse_opt a (Options.STORE_DATA l))
  | O_LOAD_DATA arg => add (l ← data_text false arg; Options.parse_opt a (Options.LOAD_DATA l))
  | O_SKIP_CMD arg => add (l ← skip_text arg; Options.parse_opt a (Options.SKIP_CMD l))
  | O_FORWARD_CMD arg => add (forward_text a arg)
  | O_REPLY_CMD arg => add (l ← reply_text arg; Options.parse_opt a (Options.REPLY_CMD l))
  | _ => Ret None
  end.

Definition flag_opt (f : flags_t) (o : client_opt) : outcome (option flags_t) :=
  let '(Flags w n t b s p i d) := f in
  match o with
  | O_WAIT_SPIN => Ret (Some (Flags 1 n t b s p i d))
  | O_NANO_OUTPUT => Ret (Some (Flags w 1 t b s p i d))
  | O_CONN_TIMES => Ret (Some (Flags w n 1 b s p i d))
  | O_CONN_NONBLOCK => Ret (Some (Flags w n t 1 s p i d))
  | O_STAG_SEND => Ret (Some (Flags w n t b 1 p i d))
  | O_PER_SESSION_OUTPUT => Ret (Some (Flags w n t b s 1 i d))
  | O_INTERACTIVE_PSO => Ret (Some (Flags w n t b s p 1 d))
  | O_NO_DELAY arg =>
      let v := Address.atoi arg in
      _ ← check ((v =? 0) || (v =? 1));
      Ret (Some (Flags w n t b s p i v))
  | _ => Ret None
  end.

(** a double converted to long, then to the unsigned num_pkts *)
Definition num_pkts_opt (arg : string) : outcome Z :=
  if String.eqb arg "auto" then Ret 0
  else
    v ← Pd.sscanf_unit arg EmptyString false;
    match v with
    | Some v => n ← deref (Double.trunc v); n ← long_ n; Ret (u64 n)
    | None => Stop CheckFailed
    end.
Definition number_opt (x : numbers_t) (o : client_opt) : outcome (option numbers_t) :=
  let '(Numbers n ra t s rn rp sd) := x in
  match o with
  | O_NUM_PKTS arg => n ← num_pkts_opt arg; Ret (Some (Numbers n ra t s rn rp sd))
  | O_RATE_STEP_SECS arg => Ret (Some (Numbers n (u32 (Address.atoi arg)) t s rn rp sd))
  | O_NUM_THREADS arg =>
      let v := Address.atoi arg in
      _ ← check ((1 <=? v) && (v <=? MAX_THREADS));
      Ret (Some (Numbers n ra v s rn rp sd))
  | O_SEED arg => Ret (Some (Numbers n ra t s rn rp (Address.atoi arg)))
  | O_NUM_SESSIONS arg =>
      let v := Address.atoi arg in
      _ ← check (1 <=? v);
      Ret (Some (Numbers n ra t v rn rp sd))
  | O_CONN_RETRY_NUM arg =>
      let v := Address.atoi arg in
      _ ← check (0 <=? v);
      Ret (Some (Numbers n ra t s v rp sd))
  | O_CONN_RETRY_PERIOD arg =>
      let v := Address.atoi arg in
      _ ← check (200 <=? v);
      Ret (Some (Numbers n ra t s rn v sd))
  | _ => Ret None
  end.

Definition send_size_opt (arg : string) : outcome pd_spec_t :=
  p ← bytes arg;
  _ ← check (SFleb (Double.of_Z MIN_SEND_SIZE) (val p));
  _ ← check (SFleb (Double.add (val p) (Double.of_Z TCPIP_HEADERS_SIZE)) (Double.of_Z BUF_SIZE));
  Ret p.
Definition long_host (arg : string) : outcome unit :=
  check (Z.of_nat (String.length arg) <? Address.MAX_HOSTPORT_STRLEN).

Definition client_parse_opt (c : client_args) (o : client_opt) : outcome client_args :=
  let s := client_ssl c in
  let ssl cert key ca ci path v := Ret (with_client_ssl c (Startup.MkSslFiles cert key ca ci path v)) in
  match o with
  | O_BIND_ADDR arg =>
      _ ← long_host arg;
      '(h, _) ← Address.addr_proto_parse arg (clienthostport c) TCP;
      Ret (with_hosts c h (nodehostport c) (to_proto c))
  | O_TO arg =>
      _ ← long_host arg;
      '(h, p) ← Address.addr_proto_parse arg (nodehostport c) (to_proto c);
      Ret (with_hosts c (clienthostport c) h p)
  | O_PERIOD arg => p ← Pacing.period_opt exp files arg (pacing c); Ret (with_pacing c p (send_pkt_size_pd c))
  | O_RATE arg =>
      p ← Pacing.rate_opt log exp tries files arg (pacing c); Ret (with_pacing c p (send_pkt_size_pd c))
  | O_SEND_REQUEST_SIZE arg => p ← send_size_opt arg; Ret (with_pacing c (pacing c) p)
  | O_OUTPUT_FILE arg => x ← output_opt (output c) arg; Ret (with_output c x)
  | O_SSL_CERT_FILE a => ssl (Some a) (Startup.ssl_key s) (Startup.ssl_ca s) (Startup.ssl_ciphers s)
                           (Startup.ssl_ca_path s) (Startup.ssl_verify s)
  | O_SSL_KEY_FILE a => ssl (Startup.ssl_cert s) (Some a) (Startup.ssl_ca s) (Startup.ssl_ciphers s)
                          (Startup.ssl_ca_path s) (Startup.ssl_verify s)
  | O_SSL_CA_FILE a => ssl (Startup.ssl_cert s) (Startup.ssl_key s) (Some a) (Startup.ssl_ciphers s)
                         (Startup.ssl_ca_path s) (Startup.ssl_verify s)
  | O_SSL_CIPHERS a => ssl (Startup.ssl_cert s) (Startup.ssl_key s) (Startup.ssl_ca s) (Some a)
                         (Startup.ssl_ca_path s) (Startup.ssl_verify s)
  | O_SSL_CA_PATH a => ssl (Startup.ssl_cert s) (Startup.ssl_key s) (Startup.ssl_ca s) (Startup.ssl_ciphers s)
                         (Some a) (Startup.ssl_verify s)
  | O_SSL_VERIFY => ssl (Startup.ssl_cert s) (Startup.ssl_key s) (Startup.ssl_ca s) (Startup.ssl_ciphers s)
                      (Startup.ssl_ca_path s) 1
  | _ =>
      f ← flag_opt (flags c) o;
      n ← number_opt (numbers c) o;
      a ← program_opt (program c) o;
      Ret match f, n, a with
          | Some f, _, _ => with_flags c f
          | None, Some n, _ => with_numbers c n
          | None, None, Some a => with_program c a
          | None, None, None => c
          end
  end.
Fixpoint client_parse_opts (c : client_args) (l : list client_opt) : outcome client_args :=
  match l with [] => Ret c | o :: l => c ← client_parse_opt c o; client_parse_opts c l end.

(** ARGP_KEY_END: the addresses of the client and of the node, the packets of a
    session, and the rest of the program *)
Definition client_finish (c : client_args)
    : outcome (client_args * option (sockaddr_in * sockaddr_in) * Z) :=
  let n := numbers c in
  addrs ← (if to_proto c =? DPDK then Ret None
           else
             from ← deref (clienthostport c);
             from ← Address.addr_parse gethostbyname from;
             to ← deref (nodehostport c);
             to ← Address.addr_parse gethostbyname to;
             Ret (Some (from, to)));
  pkts ← Pacing.auto_pkts log (Pacing.rate (pacing c)) (ramp_step_secs n) (num_pkts n);
  '(pkts, per_session) ← Options.round_pkts pkts (num_sessions n)
                           (negb (per_session_output (flags c) =? 0));
  a ← Options.finish (program c);
  Ret (with_program (with_numbers c (Numbers pkts (ramp_step_secs n) (client_threads n) (num_sessions n)
         (conn_retry_num n) (conn_retry_period_ms n) (seed n))) a, addrs, per_session).
Definition client_parse (junk junk' : Z → node_t) (rng : Z) (l : list client_opt)
    : outcome (client_args * option (sockaddr_in * sockaddr_in) * Z) :=
  c ← client_parse_opts (client_init junk junk' rng) l; client_finish c.

(** ** The script files *)

(** the tokens of a line: a comment ends it *)
Fixpoint until_comment (toks : list string) : list string :=
  match toks with
  | [] => []
  | EmptyString :: toks => until_comment toks
  | String "#" _ :: _ => []
  | t :: toks => t :: until_comment toks
  end.
Definition script_tokens (lines : list string) : list string :=
  concat ((fun line => until_comment (split (" -" ++ endl) line)) <$> lines).

(** an option of a script: one of those above, another script, or a text that
    ends the process (help and usage) *)
Inductive script_opt := S_opt (o : client_opt) | S_script (file : string) | S_exit.
(** argp_client_options in order: the name, the key where it is a character,
    whether there is an argument, and the option; the options for DPDK, whose
    names no token matches, are left out *)
Definition option_table : list (string * option ascii * bool * (string → script_opt)) :=
  let flag o := (false, fun _ => S_opt o) in
  let with_arg o := (true, fun a => S_opt (o a)) in
  let entry n k (x : bool * (string → script_opt)) := (n, k, x.1, x.2) in
  [entry "bind-addr" (Some "b"%char) (with_arg O_BIND_ADDR); entry "to" None (with_arg O_TO);
   entry "num-pkts" (Some "n"%char) (with_arg O_NUM_PKTS); entry "period" (Some "p"%char) (with_arg O_PERIOD);
   entry "rate" (Some "r"%char) (with_arg O_RATE); entry "wait-spin" None (flag O_WAIT_SPIN);
   entry "ws" None (flag O_WAIT_SPIN); entry "rate-step-secs" None (with_arg O_RATE_STEP_SECS);
   entry "rss" None (with_arg O_RATE_STEP_SECS); entry "comp-time" (Some "C"%char) (with_arg O_COMP_TIME);
   entry "store-offset" None (with_arg O_STORE_OFFSET); entry "store-data" (Some "S"%char) (with_arg O_STORE_DATA);
   entry "load-offset" None (with_arg O_LOAD_OFFSET); entry "load-data" (Some "L"%char) (with_arg O_LOAD_DATA);
   entry "skip" (Some "s"%char) (with_arg O_SKIP_CMD); entry "forward" (Some "F"%char) (with_arg O_FORWARD_CMD);
   entry "ps" None (with_arg O_SEND_REQUEST_SIZE);
   entry "rs" (Some "R"%char) (with_arg (fun a => O_REPLY_CMD (Some a)));
   entry "num-threads" None (with_arg O_NUM_THREADS); entry "nt" None (with_arg O_NUM_THREADS);
   entry "num-sessions" None (with_arg O_NUM_SESSIONS); entry "ns" None (with_arg O_NUM_SESSIONS);
   entry "retry-num" None (with_arg O_CONN_RETRY_NUM); entry "retry-period" None (with_arg O_CONN_RETRY_PERIOD);
   entry "conn-times" None (flag O_CONN_TIMES); entry "non-block" None (flag O_CONN_NONBLOCK);
   entry "no-delay" None (with_arg O_NO_DELAY); entry "nd" None (with_arg O_NO_DELAY);
   entry "stag-send" None (flag O_STAG_SEND); entry "pso" None (flag O_PER_SESSION_OUTPUT);
   entry "per-session-output" None (flag O_PER_SESSION_OUTPUT); entry "i" (Some "i"%char) (flag O_INTERACTIVE_PSO);
   entry "interactive-pso" (Some "i"%char) (flag O_INTERACTIVE_PSO);
   entry "script-filename" (Some "f"%char) (true, S_script);
   entry "help" (Some "h"%char) (false, fun _ => S_exit); entry "usage" None (false, fun _ => S_exit);
   entry "seed" None (with_arg O_SEED); entry "ssl-cert" None (with_arg O_SSL_CERT_FILE);
   entry "ssl-key" None (with_arg O_SSL_KEY_FILE); entry "ssl-ca" None (with_arg O_SSL_CA_FILE);
   entry "ssl-ciphers" None (with_arg O_SSL_CIPHERS); entry "ssl-ca-path" None (with_arg O_SSL_CA_PATH);
   entry "ssl-verify" None (flag O_SSL_VERIFY); entry "nano" None (flag O_NANO_OUTPUT);
   entry "output" (Some "o"%char) (with_arg O_OUTPUT_FILE);
   entry "output-file" (Some "o"%char) (with_arg O_OUTPUT_FILE)]%string.
(** the first entry whose name is a prefix of the token, or whose key is the token *)
Definition match_token (tok : string) : option (bool * (string → script_opt)) :=
  '(_, _, has_arg, o) ← list_find (fun e : string * option ascii * bool * (string → script_opt) =>
      let '(name, key, _, _) := e in
      bool_decide (is_Some (strip name tok)) ||
      match tok, key with String a EmptyString, Some k => Ascii.eqb a k | _, _ => false end = true)
    option_table ≫= fun p => Some p.2;
  Some (has_arg, o).

(** [for (i = 0; i < argc - 1; i++)]: the last token is never an option *)
Fixpoint script_loop (fuel : nat) (toks : list string) : list script_opt :=
  match fuel, toks with
  | S fuel, tok :: ((arg :: rest) as more) =>
      match match_token tok with
      | Some (true, o) => o arg :: script_loop fuel rest
      | Some (false, o) => o arg :: script_loop fuel more
      | None => script_loop fuel more
      end
  | _, _ => []
  end.
Definition script_parse (lines : list string) : list script_opt :=
  let toks := script_tokens lines in script_loop (length toks) toks.
(** the options with those of the scripts in their places; [scripts]: the lines
    of a file, [depth] bounds the scripts that name scripts *)
Fixpoint expand_scripts (depth : nat) (scripts : string → option (list string)) (l : list script_opt)
    : outcome (list client_opt) :=
  match depth with
  | O => Stop OutOfFuel
  | S depth =>
      ls ← mapM (fun o => match o with
             | S_opt o => Ret [o]
             | S_exit => Stop CheckFailed
             | S_script f =>
                 match scripts f with
                 | Some lines => expand_scripts depth scripts (script_parse lines)
                 | None => Stop CheckFailed
                 end
             end) l;
      Ret (concat ls)
  end.

End Text.
End CommandLine.

Import CommandLine.

(** ** The arguments in print *)


Abbreviation commas := (joined ",").
(** the head of the rest: nothing, or a comma before a text that is not empty
    and starts with no comma *)
Definition tail_of (l : list string) : string :=
  match l with [] => EmptyString | _ => String "," (commas l) end.
Lemma commas_cons t l : commas (t :: l) = (t ++ tail_of l)%string.
Proof. destruct l; [by rewrite string_app_nil|done]. Qed.
Definition solid (t : string) : Prop := starts (fun a => negb (Ascii.eqb a ",")) t = true.

Lemma solid_length t : solid t → (1 ≤ String.length t)%nat.
Proof. destruct t as [|a t]; [done|]. intros _. change (String.length (String a t)) with (S (String.length t)). lia. Qed.
Lemma commas_length l : Forall solid l → (length l ≤ String.length (commas l))%nat.
Proof.
  induction 1 as [|t [|u l] Ht Hl IH]; [done|by apply solid_length|].
  change (commas (t :: u :: l)) with (t ++ String "," (commas (u :: l)))%string.
  rewrite string_length_app. pose proof (solid_length t Ht).
  change (String.length (String "," ?x)) with (S (String.length x)). cbn [length] in *. lia.
Qed.

Lemma next_tail l : Forall solid l →
  next_arg (Some (tail_of l)) = match l with [] => None | _ => Some (commas l) end.
Proof.
  intros H. destruct l as [|t l]; [done|]. unfold tail_of, next_arg. rewrite commas_cons.
  apply Forall_cons in H as [Ht _]. by destruct t.
Qed.
(** the same after strsep took the comma *)
Lemma strsep_tail t l : free "," t = true → Forall solid l →
  (strsep "," (t ++ tail_of l)).1 = t ∧
  next_arg (strsep "," (t ++ tail_of l)).2 = match l with [] => None | _ => Some (commas l) end.
Proof.
  intros Ht Hl. unfold strsep. destruct l as [|u l].
  - cbn [tail_of]. rewrite string_app_nil, strchr_none by done. done.
  - unfold tail_of. rewrite strchr_app by done. cbn [fst snd]. split; [done|].
    rewrite commas_cons. apply Forall_cons in Hl as [Hu _].
    destruct u as [|a u]; [done|]. rewrite string_app_cons. unfold solid, starts in Hu.
    unfold next_arg. destruct a as [[] [] [] [] [] [] [] []]; first [done|discriminate Hu].
Qed.

Section Read.
Context `{!Pd.Scan} (log exp : double → double) (tries : nat).
Context (files : string → option (list string)) (gethostbyname : string → option Z).
Abbreviation bytes := (bytes exp files).

Lemma atoi_dec n : 0 ≤ n < 2 ^ 31 → Address.atoi (dec n) = n.
Proof.
  intros Hn. unfold Address.atoi, Address.strtol. rewrite scan_dec_end by lia.
  unfold Address.LONG_MAX, Address.LONG_MIN. destruct (Z.ltb_spec (2 ^ 63 - 1) n); [lia|].
  destruct (Z.ltb_spec n (- 2 ^ 63)); [lia|]. apply s32_small. unfold is_int. lia.
Qed.
Lemma scan_d_dec pre n : 0 ≤ n → scan_d pre (pre ++ dec n) = Some n.
Proof. intros Hn. unfold scan_d. rewrite strip_app. cbn [mbind option_bind]. by rewrite scan_dec_end. Qed.
Lemma comma_dec n : 0 ≤ n → free "," (dec n) = true.
Proof. by apply dec_free. Qed.

(** *** STORE_DATA, LOAD_DATA *)

(** an item of the argument, with what it means *)
Inductive data_arg (is_store : bool) : string → Options.data_token pd_spec_t → Prop :=
  | A_sync (b : bool) : is_store = true →
      data_arg is_store (if b then "sync" else "nosync") (Options.D_sync b)
  | A_offset t v : free "]" t = true → bytes t = Ret v →
      data_arg is_store ("offset=[" ++ t ++ "]") (Options.D_offset (Some v))
  | A_size t v : free "]" t = true → bytes t = Ret v →
      data_arg is_store ("size=[" ++ t ++ "]") (Options.D_size (Some v))
  | A_dev n : 0 ≤ n < 2 ^ 31 → data_arg is_store ("dev=" ++ dec n) (Options.D_dev n).

Lemma data_arg_solid b x t : data_arg b x t → solid x.
Proof. by intros [[]| | |]. Qed.
Lemma data_args_solid b xs ts : Forall2 (data_arg b) xs ts → Forall solid xs.
Proof. induction 1; constructor; [by eapply data_arg_solid|done]. Qed.

Lemma bracketed_ok t v s : free "]" t = true → bytes t = Ret v →
  bracketed exp files ((t ++ "]") ++ s) = Ret (v, Some s).
Proof.
  intros Ht Ev. unfold bracketed. rewrite string_app_assoc. change ("]" ++ s)%string with (String "]" s).
  rewrite strchr_app by done. unfold CommandLine.bytes in *. rewrite Ev. done.
Qed.

Lemma data_item_ok b x t l : data_arg b x t → Forall solid l →
  ∃ r, data_item exp files b (x ++ tail_of l) = Ret (t, r) ∧
    next_arg r = match l with [] => None | _ => Some (commas l) end.
Proof.
  intros Hx Hl. destruct Hx as [sy ->|p v Hp Ev|p v Hp Ev|n Hn].
  - exists (Some (tail_of l)). split; [by destruct sy|by apply next_tail].
  - exists (Some (tail_of l)). split; [|by apply next_tail]. unfold data_item.
    rewrite (string_app_assoc "offset=["), (strip_app "offset=["), bracketed_ok with (v := v) by done.
    by destruct b.
  - exists (Some (tail_of l)). split; [|by apply next_tail]. unfold data_item.
    rewrite (string_app_assoc "size=["), (strip_app "size=["), bracketed_ok with (v := v) by done.
    by destruct b.
  - destruct (strsep_tail (dec n) l (comma_dec n ltac:(lia)) Hl) as [E1 E2].
    exists (strsep "," (dec n ++ tail_of l)).2. split; [|exact E2]. unfold data_item.
    rewrite (string_app_assoc "dev="), (strip_app "dev=").
    destruct (strsep "," (dec n ++ tail_of l)) as [u r]. cbn [fst snd] in *. subst u.
    rewrite atoi_dec by done. by destruct b.
Qed.

Lemma data_loop_ok fuel b xs ts : Forall2 (data_arg b) xs ts → xs ≠ [] → (length xs ≤ fuel)%nat →
  data_loop exp files fuel b (commas xs) = Ret ts.
Proof.
  intros Hxs. revert fuel. induction Hxs as [|x t xs ts Hx Hs IH]; intros [|fuel] Hne Hf; [done|done|cbn in Hf; lia|].
  cbn [data_loop]. rewrite commas_cons.
  destruct (data_item_ok b x t xs Hx (data_args_solid _ _ _ Hs)) as (r & -> & Er). obind. rewrite Er.
  cbn in Hf. destruct Hs as [|y t' ys ts' Hy Hs]; [done|]. rewrite IH by (done || lia). done.
Qed.
Lemma data_text_ok b xs ts : Forall2 (data_arg b) xs ts → xs ≠ [] → data_text exp files b (commas xs) = Ret ts.
Proof.
  intros Hxs Hne. apply data_loop_ok; [done|done|]. pose proof (commas_length xs (data_args_solid _ _ _ Hxs)). lia.
Qed.
(** a turn of the loop leaves less of the argument, whatever the text *)
Lemma strip_length p t u : strip p t = Some u → (String.length u ≤ String.length t)%nat.
Proof. intros ->%strip_app_inv. rewrite string_length_app. lia. Qed.
Lemma strchr_length c t u v : strchr c t = Some (u, v) → (S (String.length v) ≤ String.length t)%nat.
Proof.
  revert u v. induction t as [|a t IH]; intros u v; [done|]. cbn [strchr].
  change (String.length (String a t)) with (S (String.length t)).
  destruct (Ascii.eqb c a); [intros [= _ <-]; lia|].
  destruct (strchr c t) as [[u' v']|]; [|done]. intros [= _ <-]. specialize (IH u' v' eq_refl). lia.
Qed.
Lemma strsep_length c t : match (strsep c t).2 with Some u => (S (String.length u) ≤ String.length t)%nat | None => True end.
Proof. unfold strsep. destruct (strchr c t) as [[u v]|] eqn:E; [by apply strchr_length in E|done]. Qed.
Lemma next_arg_length r u : next_arg r = Some u →
  match r with Some t => (String.length u ≤ String.length t)%nat | None => False end.
Proof.
  destruct r as [t|]; [|done]. unfold next_arg.
  assert (E : match t with String "," t' => Some t' | _ => Some t end =
    Some (match t with String "," t' => t' | _ => t end)) by by destruct t as [|[[] [] [] [] [] [] [] []] t].
  rewrite E. intros Eu.
  assert (u = match t with String "," t' => t' | _ => t end) as -> by (destruct (match t with String "," t' => t' | _ => t end); by simplify_eq).
  destruct t as [|[[] [] [] [] [] [] [] []] t]; cbn; lia.
Qed.

Lemma bracketed_shorter t v r : bracketed exp files t = Ret (v, r) →
  match r with Some u => (S (String.length u) ≤ String.length t)%nat | None => True end.
Proof.
  unfold bracketed. destruct (strchr "]" t) as [[x y]|] eqn:E; [|done]. intros Er.
  apply bind_Ret_inv in Er as (w & _ & [= _ <-]). by apply strchr_length in E.
Qed.
Lemma data_item_shorter b arg t r u : arg ≠ EmptyString → data_item exp files b arg = Ret (t, r) →
  next_arg r = Some u → (String.length u < String.length arg)%nat.
Proof.
  intros Hne Er Hu. apply next_arg_length in Hu. revert Er. unfold data_item.
  destruct (if b then strip "nosync" arg else None) as [x|] eqn:E1.
  { destruct b; [|done]. apply strip_app_inv in E1 as ->. intros [= _ <-]. rewrite string_length_app. cbn. lia. }
  destruct (if b then strip "sync" arg else None) as [x|] eqn:E2.
  { destruct b; [|done]. apply strip_app_inv in E2 as ->. intros [= _ <-]. rewrite string_length_app. cbn. lia. }
  destruct (strip "offset=[" arg) as [x|] eqn:E3; [|destruct (strip "size=[" arg) as [x|] eqn:E4].
  - intros Er. apply bind_Ret_inv in Er as ([v w] & Eb & [= _ <-]). apply bracketed_shorter in Eb.
    apply strip_length in E3. destruct w; [lia|done].
  - intros Er. apply bind_Ret_inv in Er as ([v w] & Eb & [= _ <-]). apply bracketed_shorter in Eb.
    apply strip_length in E4. destruct w; [lia|done].
  - destruct (strip "dev=" arg) as [x|] eqn:E5.
    + pose proof (strsep_length "," x) as Hs. destruct (strsep "," x) as [v w]. intros [= _ <-].
      apply strip_length in E5. cbn [snd] in Hs. destruct w; [lia|done].
    + pose proof (strsep_length "," arg) as Hs. destruct (strsep "," arg) as [v w]. intros Er.
      apply bind_Ret_inv in Er as (y & _ & [= _ <-]). cbn [snd] in Hs. destruct w; [lia|done].
Qed.

(** the fuel of [data_text] is enough: more of it changes nothing *)
Lemma data_fuel b arg fuel : (String.length arg < fuel)%nat →
  data_loop exp files fuel b arg = data_text exp files b arg.
Proof.
  unfold data_text. generalize (Nat.lt_succ_diag_r (String.length arg)).
  generalize (S (String.length arg)) as fuel'. revert arg fuel.
  assert (G : ∀ n arg fuel fuel', (String.length arg ≤ n)%nat → (String.length arg < fuel)%nat →
    (String.length arg < fuel')%nat → data_loop exp files fuel b arg = data_loop exp files fuel' b arg).
  2: { intros. by eapply G. }
  induction n as [|n IH]; intros arg [|fuel] [|fuel'] Hn Hf Hf'; try lia; cbn [data_loop];
    destruct (data_item exp files b arg) as [[t r]|] eqn:Ei; [|done| |done]; obind;
    destruct (next_arg r) as [u|] eqn:Er; [|done| |done].
  - destruct arg; [|cbn in Hn; lia]. exfalso. revert Ei Er. unfold data_item. destruct b; cbn;
      destruct (CommandLine.bytes exp files EmptyString); cbn; by intros [= _ <-].
  - destruct (decide (arg = EmptyString)) as [->|Hne].
    + exfalso. revert Ei Er. unfold data_item. destruct b; cbn;
        destruct (CommandLine.bytes exp files EmptyString); cbn; by intros [= _ <-].
    + pose proof (data_item_shorter b arg t r u Hne Ei Er). by rewrite (IH u fuel fuel') by lia.
Qed.

(** *** SKIP_CMD *)

Inductive skip_arg : string → Options.skip_token pd_spec_t → Prop :=
  | S_n n : 0 ≤ n < 2 ^ 31 → skip_arg (dec n) (Options.K_n n)
  | S_prob t v : free "," t = true → Pd.scan_lf t = Some v →
      skip_arg ("prob=" ++ t)
        (Options.K_prob (pd_build_fixed v) (SFleb (Double.of_Z 0) v && SFleb v (Double.of_Z 1)))
  | S_every n : 0 ≤ n < 2 ^ 31 → skip_arg ("every=" ++ dec n) (Options.K_every n).

Lemma skip_item_ok x t : skip_arg x t → free "," x = true ∧ skip_item x = Ret t.
Proof.
  intros [n Hn|p v Hp Ev|n Hn].
  - split; [apply comma_dec; lia|]. unfold skip_item.
    assert (scan_d EmptyString (dec n) = Some n) as -> by (apply (scan_d_dec EmptyString); lia).
    by rewrite int_ok by (unfold is_int; lia).
  - split; [exact Hp|]. unfold skip_item, Pd.sscanf. rewrite (strip_app "prob=").
    cbn [mbind option_bind]. by rewrite Ev.
  - split; [apply (comma_dec n); lia|]. unfold skip_item.
    change (scan_d EmptyString ("every=" ++ dec n)) with (@None Z).
    change (Pd.sscanf "prob=" ("every=" ++ dec n)) with (@None double).
    rewrite scan_d_dec by lia. by rewrite int_ok by (unfold is_int; lia).
Qed.

Lemma skip_text_ok xs ts : Forall2 skip_arg xs ts → xs ≠ [] → skip_text (commas xs) = Ret ts.
Proof.
  intros Hs Hne. unfold skip_text. rewrite split_joined; [|done|].
  - clear Hne. induction Hs as [|x t xs ts Hx Hs IH]; [done|]. cbn [mapM].
    rewrite (proj2 (skip_item_ok x t Hx)). obind. by rewrite IH.
  - induction Hs as [|x t xs ts Hx Hs IH]; [done|]. constructor; [by apply (skip_item_ok x t)|].
    destruct xs; [done|]. by apply IH.
Qed.

(** *** FORWARD_CMD *)

Inductive fwd_arg : string → Options.fwd_token → Prop :=
  | W_retry n : 0 ≤ n < 2 ^ 31 → fwd_arg ("retry=" ++ dec n) (Options.F_retry n)
  | W_timeout t v : free "," t = true → Pd.sscanf_unit ("timeout=" ++ t) "timeout=" true = Ret (Some v) →
      fwd_arg ("timeout=" ++ t) (Options.F_timeout (default (2 ^ 63) (Double.trunc v)))
  | W_nack n : 0 ≤ n < 2 ^ 31 → fwd_arg ("nack=" ++ dec n) (Options.F_nack n)
  | W_target p h n a : Address.is_proto p → p ≠ DPDK → Address.host_name h → free "," h = true →
      0 ≤ n < 2 ^ 16 → gethostbyname h = Some a →
      Z.of_nat (String.length (Address.spell Address.Url p h n)) < Address.MAX_HOSTPORT_STRLEN →
      fwd_arg (Address.spell Address.Url p h n) (Options.F_target p a (Address.htons n)).

Lemma target_item_ok p h n a : Address.is_proto p → p ≠ DPDK → Address.host_name h →
  0 ≤ n < 2 ^ 16 → gethostbyname h = Some a →
  Z.of_nat (String.length (Address.spell Address.Url p h n)) < Address.MAX_HOSTPORT_STRLEN →
  target_item gethostbyname (Address.spell Address.Url p h n) = Ret (Options.F_target p a (Address.htons n)).
Proof.
  intros Hp Hd Hh Hn Ha Hl. unfold target_item. cbn [Address.spell] in *.
  rewrite (Address.parse_url h n Hh Hn p Hp) by done. obind. rewrite (proj2 (Z.eqb_neq _ _) Hd).
  rewrite (Address.addr_parse_hostport h n Hh Hn), Ha. done.
Qed.

(** the other tests of a token fail on a target *)
Lemma fwd_item_target p h n : Address.is_proto p → p ≠ DPDK →
  fwd_item gethostbyname (Address.spell Address.Url p h n) =
    target_item gethostbyname (Address.spell Address.Url p h n).
Proof.
  intros Hp Hd. cbn [Address.spell].
  by destruct Hp as [->|[->|[->| ->]]]; [reflexivity..|].
Qed.

Lemma fwd_item_ok x t : fwd_arg x t → free "," x = true ∧ fwd_item gethostbyname x = Ret t.
Proof.
  intros [n Hn|u v Hu Ev|n Hn|p h n a Hp Hd Hh Hc Hn Ha Hl].
  - split; [apply (comma_dec n); lia|]. unfold fwd_item. rewrite scan_d_dec by lia.
    by rewrite int_ok by (unfold is_int; lia).
  - split; [exact Hu|]. unfold fwd_item. rewrite Ev. reflexivity.
  - split; [apply (comma_dec n); lia|]. unfold fwd_item. rewrite (scan_d_dec "nack=") by lia.
    cbn [Pd.sscanf_unit]. rewrite int_ok by (unfold is_int; lia). reflexivity.
  - split; [|by rewrite fwd_item_target, target_item_ok with (a := a)].
    cbn [Address.spell]. unfold Address.hostport. rewrite !free_app. apply andb_true_intro. split.
    + by destruct Hp as [->|[->|[->| ->]]].
    + cbn [free]. rewrite Hc. apply (comma_dec n). lia.
Qed.

Section Forward.
#[local] Existing Instance Pd.distrib_specs.
#[local] Hint Extern 0 (Sampler pd_spec_t _) => exact (CommandLine.sampler log exp tries) : typeclass_instances.

Lemma fwd_tokens_cons t l (a : Options.arguments pd_spec_t) x : Options.fwd_tokens (t :: l) a x =
  ('(a, x) ← Options.fwd_tokens [t] a x; Options.fwd_tokens l a x).
Proof.
  destruct t; cbn [Options.fwd_tokens]; [done..| |].
  - by destruct (int_ _).
  - by destruct (Options.add_target a x proto host port) as [[]|].
Qed.

Lemma forward_text_ok (a : Options.arguments pd_spec_t) xs ts : Forall2 fwd_arg xs ts → xs ≠ [] →
  forward_text log exp tries gethostbyname a (commas xs) = Options.forward_cmd a ts.
Proof.
  intros Hs Hne. unfold forward_text. rewrite split_joined; [|done|].
  - clear Hne. unfold Options.forward_cmd. destruct (Options.close_branch a) as [a1|]; [|done]. obind.
    f_equal. generalize (Options.FwdLocals 10000000 0 (-1) 0 0 None). revert a1.
    induction Hs as [|x t xs ts Hx Hs IH]; intros a1 y; [done|]. cbn [fwd_loop].
    rewrite (proj2 (fwd_item_ok x t Hx)). obind. rewrite (fwd_tokens_cons t ts).
    destruct (Options.fwd_tokens [t] a1 y) as [[a2 y2]|]; [|done]. obind. apply IH.
  - clear Hne. induction Hs as [|x t xs ts Hx Hs IH]; constructor; [by apply (fwd_item_ok x t)|done].
Qed.
End Forward.

(** *** REPLY_CMD *)

Inductive reply_arg : string → Options.reply_token pd_spec_t → Prop :=
  | Y_dev n : 0 ≤ n < 2 ^ 31 → reply_arg ("dev=" ++ dec n) (Options.R_dev n)
  | Y_sendfile : reply_arg "sendfile" Options.R_sendfile
  | Y_size t v : free "," t = true → t ≠ EmptyString → strip "dev=" t = None → strip "sendfile" t = None →
      bytes t = Ret v → reply_arg t (Options.R_size (Some v)).

Lemma reply_item_ok x t : reply_arg x t → free "," x = true ∧ x ≠ EmptyString ∧ reply_item exp files x = Ret t.
Proof.
  intros [n Hn| |u v Hu Hne H1 H2 Ev].
  - split; [apply (comma_dec n); lia|]. split; [done|]. unfold reply_item. rewrite (strip_app "dev=").
    by rewrite atoi_dec.
  - done.
  - split; [done|]. split; [done|]. unfold reply_item. rewrite H1, H2.
    unfold CommandLine.bytes in *. by rewrite Ev.
Qed.
Lemma reply_text_ok xs ts : Forall2 reply_arg xs ts → xs ≠ [] →
  reply_text exp files (Some (commas xs)) = Ret (Some ts).
Proof.
  intros Hs Hne. unfold reply_text. rewrite split_joined; [|done|].
  - assert (reply_loop exp files xs = Ret ts) as ->; [|done]. clear Hne.
    induction Hs as [|x t xs ts Hx Hs IH]; [done|]. cbn [reply_loop].
    destruct (reply_item_ok x t Hx) as (_ & _ & ->). obind. rewrite IH.
    destruct Hs as [|y t' xs ts Hy Hs]; [done|]. destruct (reply_item_ok y t' Hy) as (_ & Hn & _).
    by destruct y, xs.
  - clear Hne. induction Hs as [|x t xs ts Hx Hs IH]; constructor; [by apply (reply_item_ok x t)|done].
Qed.

(** ** The options *)

#[local] Hint Extern 0 (Sampler pd_spec_t _) => exact (CommandLine.sampler log exp tries) : typeclass_instances.
#[local] Existing Instance Pd.distrib_specs.
Abbreviation client_parse_opt := (client_parse_opt log exp tries files gethostbyname).
Abbreviation client_parse_opts := (client_parse_opts log exp tries files gethostbyname).

(** an option with its argument in print, and the option of Options it is *)
Inductive reads : client_opt → Options.client_option pd_spec_t → Prop :=
  | R_comp t v : Pd.pd_parse_time exp files t = Ret v → reads (O_COMP_TIME t) (Options.COMP_TIME (Some v))
  | R_load_offset t v : bytes t = Ret v → reads (O_LOAD_OFFSET t) (Options.LOAD_OFFSET (Some v))
  | R_store_offset t v : bytes t = Ret v → reads (O_STORE_OFFSET t) (Options.STORE_OFFSET (Some v))
  | R_store xs ts : xs ≠ [] → Forall2 (data_arg true) xs ts →
      reads (O_STORE_DATA (commas xs)) (Options.STORE_DATA ts)
  | R_load xs ts : xs ≠ [] → Forall2 (data_arg false) xs ts →
      reads (O_LOAD_DATA (commas xs)) (Options.LOAD_DATA ts)
  | R_skip xs ts : xs ≠ [] → Forall2 skip_arg xs ts → reads (O_SKIP_CMD (commas xs)) (Options.SKIP_CMD ts)
  | R_forward xs ts : xs ≠ [] → Forall2 fwd_arg xs ts →
      reads (O_FORWARD_CMD (commas xs)) (Options.FORWARD_CMD ts)
  | R_reply xs ts : xs ≠ [] → Forall2 reply_arg xs ts →
      reads (O_REPLY_CMD (Some (commas xs))) (Options.REPLY_CMD (Some ts))
  | R_plain : reads (O_REPLY_CMD None) (Options.REPLY_CMD None).

Definition is_program (o : client_opt) : bool :=
  match o with
  | O_COMP_TIME _ | O_LOAD_OFFSET _ | O_STORE_OFFSET _ | O_STORE_DATA _ | O_LOAD_DATA _ | O_SKIP_CMD _
  | O_FORWARD_CMD _ | O_REPLY_CMD _ => true
  | _ => false
  end.

Lemma bytes_sampler t : CommandLine.bytes exp files t = Pd.pd_parse_bytes exp files t.
Proof. done. Qed.

Lemma program_opt_ok a o o' : reads o o' →
  program_opt log exp tries files gethostbyname a o = (a ← Options.parse_opt a o'; Ret (Some a)).
Proof.
  intros [t v E|t v E|t v E|xs ts Hn E|xs ts Hn E|xs ts Hn E|xs ts Hn E|xs ts Hn E|]; unfold program_opt.
  - by rewrite E.
  - unfold CommandLine.bytes in *. by rewrite E.
  - unfold CommandLine.bytes in *. by rewrite E.
  - by rewrite data_text_ok with (ts := ts).
  - by rewrite data_text_ok with (ts := ts).
  - by rewrite skip_text_ok with (ts := ts).
  - by rewrite forward_text_ok with (ts := ts).
  - by rewrite reply_text_ok with (ts := ts).
  - done.
Qed.

Lemma program_parse c o o' : reads o o' →
  client_parse_opt c o = (a ← Options.parse_opt (program c) o'; Ret (with_program c a)).
Proof.
  intros R. pose proof (program_opt_ok (program c) o o' R) as E.
  destruct R; unfold CommandLine.client_parse_opt, flag_opt, number_opt;
    destruct (flags c), (numbers c); obind; rewrite E; by destruct (Options.parse_opt _ _).
Qed.

(** the result of the first call *)
Ltac split_bind :=
  obind;
  match goal with |- context [@mbind outcome outcome_bind _ _ _ ?x] =>
    lazymatch x with
    | context [@mbind _ _ _ _ _ _] => fail
    | _ => destruct x as [|]
    end
  end; repeat match goal with p : (_ * _)%type |- _ => destruct p end; obind.

(** the other options leave the program alone and do not look at it *)
Lemma setting_parse c a o : is_program o = false →
  client_parse_opt (with_program c a) o = (c ← client_parse_opt c o; Ret (with_program c a)) ∧
  ensures (client_parse_opt c o) (fun c' => program c' = program c).
Proof.
  intros Ho. destruct c as [pr pa sz ch nh pt [] [] out ssl].
  unfold CommandLine.client_parse_opt, flag_opt, number_opt, program_opt.
  destruct o; try discriminate Ho;
    cbn [flags numbers output client_ssl clienthostport nodehostport to_proto pacing send_pkt_size_pd
         program with_program]; repeat split_bind; done.
Qed.

Lemma settings_parse c a os : Forall (fun o => is_program o = false) os →
  client_parse_opts (with_program c a) os = (c ← client_parse_opts c os; Ret (with_program c a)) ∧
  ensures (client_parse_opts c os) (fun c' => program c' = program c).
Proof.
  intros Ho. revert c. induction Ho as [|o os Ho Hos IH]; intros c; [done|].
  cbn [CommandLine.client_parse_opts]. destruct (setting_parse c a o Ho) as [-> Hp].
  destruct (client_parse_opt c o) as [c1|]; [|done]. obind. cbn [ensures] in Hp.
  destruct (IH c1) as [-> Hq]. split; [done|]. by rewrite <- Hp.
Qed.

(** options of both kinds in any order *)
Abbreviation settings os := (filter (fun o => is_program o = false) os).
Abbreviation commands os := (filter (fun o => is_program o = true) os).
Lemma line_parse os : ∀ c ps c1 a, Forall2 reads (commands os) ps →
  client_parse_opts c (settings os) = Ret c1 → Options.parse_opts (program c) ps = Ret a →
  client_parse_opts c os = Ret (with_program c1 a).
Proof.
  induction os as [|o os IH]; intros c ps c1 a.
  - rewrite !filter_nil. intros Hr [= <-] Hp. apply Forall2_nil_inv_l in Hr as ->. injection Hp as <-.
    by destruct c.
  - cbn [CommandLine.client_parse_opts]. destruct (is_program o) eqn:Eo.
    + rewrite filter_cons_True, filter_cons_False by (by rewrite ?Eo). intros Hr Hs Hp.
      destruct ps as [|p ps]; [by apply Forall2_cons_nil_inv in Hr|]. apply Forall2_cons in Hr as [Ho Hr].
      cbn [Options.parse_opts] in Hp. apply bind_Ret_inv in Hp as (a1 & E1 & Hp).
      rewrite (program_parse c o p Ho), E1. obind.
      destruct (settings_parse c a1 (settings os)) as [E _].
      { apply Forall_forall. intros x Hx. by apply list_elem_of_filter in Hx as [? _]. }
      rewrite (IH (with_program c a1) ps (with_program c1 a1) a); [done|done| |done]. by rewrite E, Hs.
    + rewrite filter_cons_False, filter_cons_True by (by rewrite ?Eo). intros Hr Hs Hp.
      cbn [CommandLine.client_parse_opts] in Hs.
      apply bind_Ret_inv in Hs as (c2 & E2 & Hs). rewrite E2. obind.
      destruct (setting_parse c (program c) o Eo) as [_ Hq]. rewrite E2 in Hq. cbn [ensures] in Hq.
      apply (IH c2 ps c1 a); [done|done|]. by rewrite Hq.
Qed.

(** [C31] The program of a command line, from its text. Let the line without
    the options that build the program be accepted. Then with any options of
    the program added, in any order, in print (comma-separated items: sizes and
    offsets in brackets, devices, probabilities, targets as proto://host:port)
    and with acceptable values, without branches and for at most 99 commands,
    the line is accepted with the same settings, and the chain of commands is
    one sequence of contexts or more in the grammar the nodes walk, each ended
    by a REPLY: every forward is closed, by the REPLY given for it or by one
    added; each FORWARD_BEGIN is followed by its other targets and waits for at
    least one acknowledgment and at most as many as it has targets. *)
Theorem command_line_program (junk junk' : Z → node_t) (rng : Z) (os : list client_opt)
    (ps : list (Options.client_option pd_spec_t)) (c0 : client_args)
    (addrs : option (sockaddr_in * sockaddr_in)) (per : Z) :
  client_parse log exp tries files gethostbyname junk junk' rng (settings os) = Ret (c0, addrs, per) →
  Forall2 reads (commands os) ps → Forall Options.valid ps → (sum_list (Options.cost <$> ps) < 100)%nat →
  ∃ c l ns,
    client_parse log exp tries files gethostbyname junk junk' rng os = Ret (c, addrs, per) ∧
    with_program c (program c0) = c0 ∧
    Ccmd.chain (Options.ccmd (program c)) l ∧ Options.cells (Options.ccmd (program c)) l = Some <$> ns ∧
    Options.programs (fst <$> ns) ∧ ns ≠ [] ∧ Options.acks_ok ns.
Proof.
  intros Hs Hr Hv Hc. unfold client_parse in *. apply bind_Ret_inv in Hs as (c1 & E1 & Hf).
  destruct (Options.program_of_options junk junk' ps Hv Hc) as (a & l & ns & Ep & Hch & Hce & Hpr & Hne & Hac & _).
  unfold Options.parse in Ep. apply bind_Ret_inv in Ep as (a0 & Ea & Ef).
  rewrite (line_parse os _ ps c1 a0 Hr E1 Ea). obind. unfold client_finish in *.
  apply bind_Ret_inv in Hf as (ad & Ead & Hf). apply bind_Ret_inv in Hf as (pk & Epk & Hf).
  apply bind_Ret_inv in Hf as ([pkts per'] & Ero & Hf). apply bind_Ret_inv in Hf as (af & _ & Hf).
  injection Hf as <- <- <-.
  exists (with_program (with_numbers c1 (Numbers pkts (ramp_step_secs (numbers c1)) (client_threads (numbers c1))
         (num_sessions (numbers c1)) (conn_retry_num (numbers c1)) (conn_retry_period_ms (numbers c1))
         (seed (numbers c1)))) a), l, ns.
  split; [|by split_and!].
  cbn [with_program numbers to_proto clienthostport nodehostport pacing flags program] in *.
  rewrite Ead. obind. rewrite Epk. obind. rewrite Ero. obind. rewrite Ef. done.
Qed.
End Read.

(** ** Example *)

#[local] Instance decimals : Pd.Scan := {|
  Pd.scan_lf s := '(n, _) ← scan_int s; Some (Double.of_Z n);
  Pd.scan_d s := '(n, _) ← scan_int s; Some n |}.
Definition some_hosts (h : string) : option Z :=
  if String.eqb h "node1" then Some 16777343 else if String.eqb h "127.0.0.1" then Some 16777343
  else if String.eqb h "0.0.0.0" then Some 0 else None.
Definition no_files (f : string) : option (list string) := None.

(** a store, and a forward to two nodes of which one has to answer, for 3
    packets in 2 sessions *)
Definition some_line : list client_opt :=
  [O_NUM_PKTS "3"; O_STORE_DATA "size=[64],nosync"; O_FORWARD_CMD "tcp://node1:7892,nack=1,udp://node1:80";
   O_NUM_SESSIONS "2"; O_COMP_TIME "5ms"; O_REPLY_CMD None].
Definition constant (z : Z) : pd_spec_t := MkPd FIXED (Double.of_Z z) NAN NAN NAN [] 0 0.
Definition some_tokens : list (Options.client_option pd_spec_t) :=
  [Options.STORE_DATA [Options.D_size (Some (constant 64)); Options.D_sync false];
   Options.FORWARD_CMD [Options.F_target TCP 16777343 (Address.htons 7892); Options.F_nack 1;
     Options.F_target UDP 16777343 (Address.htons 80)];
   Options.COMP_TIME (Some (constant 5000)); Options.REPLY_CMD None].
Definition some_parse (os : list client_opt) :=
  client_parse id id 1 no_files some_hosts Options.no_junk Options.no_junk 0 os.

Lemma some_line_reads :
  Forall2 (reads id no_files some_hosts) (filter (fun o => is_program o = true) some_line) some_tokens.
Proof.
  change (filter _ some_line) with [O_STORE_DATA (commas ["size=[64]"; "nosync"]);
    O_FORWARD_CMD (commas ["tcp://node1:7892"; "nack=1"; "udp://node1:80"]); O_COMP_TIME "5ms"; O_REPLY_CMD None]%string.
  constructor; [|constructor; [|constructor; [|constructor; [|constructor]]]].
  - constructor; [done|]. constructor; [|constructor; [|constructor]].
    + apply (A_size _ _ _ "64"); vm_compute; reflexivity.
    + by apply (A_sync _ _ _ false).
  - constructor; [done|]. constructor; [|constructor; [|constructor; [|constructor]]].
    + apply (W_target _ TCP "node1" 7892); [right; by left|done|by split|done|lia|done|vm_compute; reflexivity].
    + apply (W_nack _ 1). lia.
    + apply (W_target _ UDP "node1" 80); [by left|done|by split|done|lia|done|vm_compute; reflexivity].
  - constructor. vm_compute. reflexivity.
  - constructor.
Qed.

Lemma command_line_program_witness :
  ∃ c addrs l ns, some_parse some_line = Ret (c, addrs, 2) ∧ num_pkts (numbers c) = 4 ∧
    Ccmd.chain (Options.ccmd (program c)) l ∧ Options.cells (Options.ccmd (program c)) l = Some <$> ns ∧
    Options.programs (fst <$> ns) ∧ Options.acks_ok ns.
Proof.
  assert (X : match some_parse (filter (fun o => is_program o = false) some_line) with
    | Ret (c, _, per) => (per, num_pkts (numbers c)) | Stop _ => (0, 0) end = (2, 4)) by (vm_compute; reflexivity).
  destruct (some_parse (filter (fun o => is_program o = false) some_line)) as [[[c0 addrs] per]|] eqn:E0;
    [|discriminate X]. injection X as -> E4.
  destruct (command_line_program id id 1 no_files some_hosts Options.no_junk Options.no_junk 0 some_line some_tokens
    c0 addrs 2 E0 some_line_reads) as (c & l & ns & E & Ec & Hc & Hl & Hp & _ & Ha).
  - constructor; [|constructor; [|constructor; [by eexists|by constructor; [|constructor]]]].
    + split; [|left; by eexists]. constructor; [eexists; by split|]. by repeat constructor.
    + split; [by repeat constructor|vm_compute; lia].
  - vm_compute. lia.
  - exists c, addrs, l, ns. split; [exact E|]. rewrite <- Ec in E4. split; [exact E4|]. exact (conj Hc (conj Hl (conj Hp Ha))).
Defined.

(** a script whose options have one letter is read as it is meant ... *)
Example script_read : script_parse ["# packets"; "-n 10 -C 5ms"; "-s 1,every=2 # skip"]%string =
  [S_opt (O_NUM_PKTS "10"); S_opt (O_COMP_TIME "5ms"); S_opt (O_SKIP_CMD "1,every=2")]%string.
Proof. reflexivity. Qed.
(** ... but a value given with = is taken from the next token, the last token is
    no option, names with a hyphen are cut there, and pso is taken for ps *)
Example script_equals : script_parse ["--rs=1024 -n 10"]%string = [S_opt (O_REPLY_CMD (Some "n"))]%string.
Proof. reflexivity. Qed.
Example script_last : script_parse ["-n 10 --ws"]%string = [S_opt (O_NUM_PKTS "10")]%string.
Proof. reflexivity. Qed.
Example script_hyphen : script_parse ["--rate-step-secs 2"]%string = [S_opt (O_RATE "step")]%string.
Proof. reflexivity. Qed.
Example script_pso : script_parse ["--pso -n 10"]%string = [S_opt (O_SEND_REQUEST_SIZE "n")]%string.
Proof. reflexivity. Qed.

(** a size of packets without a value of its own (unif) is always too small *)
Lemma send_size_needs_value exp files t p : Pd.pd_parse_bytes exp files t = Ret p → val p = NAN →
  send_size_opt exp files t = Stop CheckFailed.
Proof. intros E En. unfold send_size_opt, CommandLine.bytes. rewrite E. obind. by rewrite En. Qed.
Example unif_packets : send_size_opt id no_files "unif:min=100:max=200" = Stop CheckFailed.
Proof. vm_compute. reflexivity. Qed.
