(* ===== verification/Process.v ===== *)
(** * The process of the client, its results, and TLS (src/src/dw_client.c:
      try_connect, csv_output to main; src/src/dw_node.c: main)

    The lines a session prints or writes to the output file, in the order
    thread_receiver hands them over ([Client.Output]); the steps of main() around
    the threads of the sessions; connecting a socket; and the TLS contexts of the
    client and of the node. What the calls return are arguments, and the calls
    made are listed. *)

From Stdlib Require Import String Ascii.
From S2P Require Import Prelude Text Message Request Connection Client Address Startup CommandLine.

Local Open Scope Z_scope.

Module Process.

(** ** Results *)

(** a result: send_time, elapsed_time, req_id, thread_id, session_id *)
Record result := Result { send_time : Z; elapsed_time : Z; req_id : Z; thread_id : Z; session_id : Z }.
Definition fields (r : result) : list string :=
  [ld (send_time r); ld (elapsed_time r); ld (req_id r); ld (thread_id r); ld (session_id r)].

Definition csv_names (nano : Z) : list string :=
  (if (nano =? 0)%Z then ["t(us)"; "elapsed(us)"; "req_id"; "thr_id"; "sess_id"]
   else ["t(ns)"; "elapsed(ns)"; "req_id"; "thr_id"; "sess_id"])%string.
Definition csv_header (nano : Z) (sep : ascii) : string := (joined sep (csv_names nano) ++ endl)%string.
(** what is appended, and the arguments with the header marked as printed *)
Definition csv_output (nano : Z) (o : CommandLine.output_t) (r : result) : CommandLine.output_t * string :=
  let sep := CommandLine.output_sep o in
  let line := (joined sep (fields r) ++ endl)%string in
  if CommandLine.output_header o =? 1 then
    (CommandLine.Output (CommandLine.output_file o) sep 0 (CommandLine.output_format o),
     (csv_header nano sep ++ line)%string)
  else (o, line).
Definition cli_output (nano : Z) (r : result) : string :=
  let unit := (if (nano =? 0)%Z then "us" else "ns")%string in
  ("t: " ++ ld (send_time r) ++ " " ++ unit ++ ", elapsed: " ++ ld (elapsed_time r) ++ " " ++ unit
   ++ ", req_id: " ++ ld (req_id r) ++ ", thr_id: " ++ ld (thread_id r)
   ++ ", sess_id: " ++ ld (session_id r) ++ endl)%string.
Definition txt_output (sep : ascii) (r : result) : string :=
  (joined sep ["t:" ++ ld (send_time r); "elapsed:" ++ ld (elapsed_time r); "req_id:" ++ ld (req_id r);
               "thr_id:" ++ ld (thread_id r); "sess_id:" ++ ld (session_id r)] ++ endl)%string.

(** stdout, the output file where there is one, and its arguments *)
Record outputs := Outputs { stdout : string; output_fp : option string; out_args : CommandLine.output_t }.
Definition output_result (nano : Z) (s : outputs) (r : result) : outputs :=
  match output_fp s with
  | None => Outputs (stdout s ++ cli_output nano r) None (out_args s)
  | Some file =>
      match CommandLine.output_format (out_args s) with
      | CommandLine.OUTPUT_FORMAT_TXT =>
          Outputs (stdout s) (Some (file ++ txt_output (CommandLine.output_sep (out_args s)) r)%string) (out_args s)
      | CommandLine.OUTPUT_FORMAT_CSV =>
          let '(o, t) := csv_output nano (out_args s) r in
          Outputs (stdout s) (Some (file ++ t)%string) o
      end
  end.
(** the results among the actions of thread_receiver *)
Definition results (thread : Z) (l : list Client.action) : list result :=
  omap (fun a => match a with
    | Client.Output send elapsed pkt sess => Some (Result send elapsed pkt thread sess)
    | _ => None
    end) l.
Definition output_all (nano : Z) (thread : Z) (l : list Client.action) (s : outputs) : outputs :=
  foldl (output_result nano) s (results thread l).

(** ** Several threads *)

(** csv_output by several threads: the header tested, printed, and marked as
    printed, and the line, one step each; a thread prints its results in turn *)
Inductive csv_pc := P_test | P_header | P_clear | P_line.
Inductive csv_text := T_header | T_line (thread : nat).
Record csv_state := Csv { shared_header : Z; csv_threads : list (csv_pc * nat); csv_file : list csv_text }.
Definition csv_step (s : csv_state) (i : nat) : csv_state :=
  match csv_threads s !! i with
  | Some (pc, S n) =>
      let go h pc n t := Csv h (<[i := (pc, n)]> (csv_threads s)) (csv_file s ++ t) in
      match pc with
      | P_test => go (shared_header s) (if shared_header s =? 1 then P_header else P_line) (S n) []
      | P_header => go (shared_header s) P_clear (S n) [T_header]
      | P_clear => go 0 P_line (S n) []
      | P_line => go (shared_header s) P_test n [T_line i]
      end
  | _ => s
  end.
Definition csv_run (s : csv_state) (schedule : list nat) : csv_state := foldl csv_step s schedule.
Definition csv_start (counts : list nat) : csv_state := Csv 1 ((fun n => (P_test, n)) <$> counts) [].

(** ** Connecting *)

Inductive sock_call :=
  | C_socket (stream nonblock : bool) | C_nodelay (fd v : Z) | C_reuseaddr (fd : Z)
  | C_bind (fd : Z) (a : sockaddr_in) | C_connect (fd : Z) (a : sockaddr_in).
(** what the calls return: the socket, whether the others succeed *)
Record sock_answers := SockAnswers {
  ret_socket : Z; ret_nodelay : bool; ret_reuse : bool; ret_bind : bool; ret_connect : bool }.
(** *conn_sock and the result of connect(), with the calls made *)
Definition try_connect (proto no_delay conn_nonblock : Z) (myaddr target : sockaddr_in) (k : sock_answers)
    : outcome (Z * bool * list sock_call) :=
  let stream := (proto =? TCP) || (proto =? TLS) in
  let fd := ret_socket k in
  let nonblock := negb (conn_nonblock =? 0) in
  l ← (if stream then
         _ ← check (negb (fd =? -1));
         _ ← check (ret_nodelay k);
         Ret [C_socket true nonblock; C_nodelay fd no_delay]
       else Ret [C_socket false nonblock]);
  let reuse := negb (Address.ntohs (sin_port myaddr) =? 0) in
  _ ← check (negb reuse || ret_reuse k);
  let l := l ++ (if reuse then [C_reuseaddr fd] else []) in
  _ ← check (ret_bind k);
  Ret (fd, ret_connect k, l ++ [C_bind fd myaddr; C_connect fd target]).

(** ** TLS *)

Inductive ssl_call :=
  | S_init | S_ctx_new | S_load_ca (file : string) | S_load_ca_path (dir : string)
  | S_cert (file : string) | S_key (file : string) | S_ciphers (l : string) | S_verify.
(** [if (f && f[0]) if (!call(f)) exit]: the calls made before and the new one *)
Definition ssl_file (f : option string) (call : string → ssl_call) (ok : ssl_call → bool) (l : list ssl_call)
    : outcome (list ssl_call) :=
  match f with
  | Some (String _ _ as f) => _ ← check (ok (call f)); Ret (l ++ [call f])
  | _ => Ret l
  end.
Definition ssl_setup (s : Startup.ssl_files) (ok : ssl_call → bool) : outcome (list ssl_call) :=
  _ ← check (ok S_ctx_new);
  l ← ssl_file (Startup.ssl_ca s) S_load_ca ok [S_init; S_ctx_new];
  l ← ssl_file (Startup.ssl_ca_path s) S_load_ca_path ok l;
  l ← ssl_file (Startup.ssl_cert s) S_cert ok l;
  l ← ssl_file (Startup.ssl_key s) S_key ok l;
  l ← ssl_file (Startup.ssl_ciphers s) S_ciphers ok l;
  Ret (if Startup.ssl_verify s =? 0 then l else l ++ [S_verify]).
(** a node needs the context when one of its addresses has the protocol TLS *)
Definition node_tls (c : Startup.node_config) (ok : ssl_call → bool) : outcome (list ssl_call) :=
  let binds := take (Z.to_nat (Startup.n_bind_addrs c)) (Startup.bind_addrs c) in
  if existsb (fun b => b.2 =? TLS) binds then ssl_setup (Startup.ssl_args c) ok else Ret [].

(** ** main() *)

Inductive main_call :=
  | M_ssl (c : ssl_call) | M_fopen (file : string) | M_alloc (thread : Z)
  | M_run | M_create (thread : Z) | M_join (thread : Z) | M_free (thread : Z)
  | M_destroy_ccmd | M_ssl_free | M_fclose.
(** what the calls return; [ok_alloc] is for both arrays of a thread *)
Record main_answers := MainAnswers {
  ok_ssl : ssl_call → bool; ok_fopen : bool; time_now : Z; ok_alloc : Z → bool; ok_create : Z → bool }.

(** main() after the options: the settings the threads run with (a TLS client
    does not block in connect(), a seed of -1 is the time) and the calls *)
Definition client_main (c : CommandLine.client_args) (k : main_answers)
    : outcome (CommandLine.client_args * list main_call) :=
  let '(CommandLine.Flags w n t b s p i d) := CommandLine.flags c in
  let '(CommandLine.Numbers np ra th ns rn rp seed) := CommandLine.numbers c in
  let threads := seqZ 0 th in
  let tls := CommandLine.to_proto c =? TLS in
  let file := CommandLine.output_file (CommandLine.output c) in
  _ ← check (negb (CommandLine.to_proto c =? DPDK));
  ssl ← (if tls then ssl_setup (CommandLine.client_ssl c) (ok_ssl k) else Ret []);
  opened ← match file with
           | Some f => _ ← check (ok_fopen k); Ret [M_fopen f]
           | None => Ret []
           end;
  let c := CommandLine.with_flags c (CommandLine.Flags w n t (if tls then 1 else b) s p i d) in
  let c := CommandLine.with_numbers c
             (CommandLine.Numbers np ra th ns rn rp (if seed =? -1 then s32 (time_now k) else seed)) in
  _ ← check (forallb (ok_alloc k) threads);
  run ← (if th =? 1 then Ret [M_run]
         else
           _ ← check (forallb (ok_create k) threads);
           Ret ((M_create <$> threads) ++ (M_join <$> threads)));
  Ret (c, (M_ssl <$> ssl) ++ opened ++ (M_alloc <$> threads) ++ run ++ (M_free <$> threads)
          ++ [M_destroy_ccmd] ++ (if tls then [M_ssl_free] else [])
          ++ match file with Some _ => [M_fclose] | None => [] end).

(** ** The threads of a node *)

Inductive signal_t := SIGTERM | SIGINT | SIGUSR1.
Inductive node_call :=
  | K_block (l : list signal_t) | K_signalfd (l : list signal_t)
  | K_create_storer (i : Z) | K_run | K_create (i : Z) | K_join (i : Z) | K_free_timeouts (i : Z)
  | K_join_storer (i : Z) | K_free_storer (i : Z).
(** terminationfd and the calls; the result of signalfd is not looked at *)
Definition node_signals (ok : node_call → bool) (fd : Z) : outcome (Z * list node_call) :=
  let term := [SIGTERM; SIGINT] in
  _ ← check (ok (K_block term));
  _ ← check (ok (K_block [SIGUSR1]));
  Ret (fd, [K_block term; K_signalfd term; K_block [SIGUSR1]]).
(** the devices with a path *)
Definition with_path (paths : list bool) : list Z :=
  imap (fun i (b : bool) => (Z.of_nat i, b)) paths ≫= (fun x => if x.2 : bool then [x.1] else []).
(** from the start of the storage threads until all threads have ended; [paths]:
    whether each of the storage devices has a path *)
Definition node_threads (ok : node_call → bool) (num_threads : Z) (paths : list bool) : outcome (list node_call) :=
  let storers := with_path paths in
  let workers := seqZ 0 num_threads in
  _ ← check (forallb (fun i => ok (K_create_storer i)) storers);
  run ← (if num_threads =? 1 then Ret [K_run; K_free_timeouts 0]
         else
           _ ← check (forallb (fun i => ok (K_create i)) workers);
           if 1 <? num_threads then
             _ ← check (forallb (fun i => ok (K_join i)) workers);
             Ret ((K_create <$> workers) ++ (workers ≫= (fun i => [K_join i; K_free_timeouts i])))
           else Ret ((K_create <$> workers) ++ [K_free_timeouts 0]));
  _ ← check (forallb (fun i => ok (K_join_storer i)) storers);
  Ret ((K_create_storer <$> storers) ++ run ++ (storers ≫= (fun i => [K_join_storer i; K_free_storer i]))).

End Process.

Import Process.

(** ** Lemmas *)

(** a line of the CSV file as numbers *)
Definition read_row (sep : ascii) (line : string) : option (list Z) :=
  mapM (fun t => match scan_int t with Some (n, EmptyString) => Some n | _ => None end)
    (split (String sep EmptyString) line).
Definition row (r : result) : list Z :=
  [send_time r; elapsed_time r; req_id r; thread_id r; session_id r].
Lemma read_row_fields sep r : separates sep → read_row sep (joined sep (fields r)) = Some (row r).
Proof.
  intros Hs. unfold read_row, fields, row. rewrite split_joined; [|done|].
  - cbn [mapM]. by rewrite !ld_scan.
  - by repeat constructor; apply ld_free.
Qed.
Lemma fields_free a sep r : separates a → a ≠ sep → free (String a EmptyString) (joined sep (fields r)) = true.
Proof.
  intros Ha Hne. apply joined_free.
  - rewrite is_in_1. apply Ascii.eqb_neq. congruence.
  - by repeat constructor; apply ld_free.
Qed.

(** the lines of results, and the file they make *)
Definition line_of (sep : ascii) (r : result) : string := joined sep (fields r).
Fixpoint text_of (lines : list string) : string :=
  match lines with [] => EmptyString | l :: lines => (l ++ endl ++ text_of lines)%string end.
Lemma split_text lines : Forall (fun l => free endl l = true) lines → split endl (text_of lines) = lines ++ [EmptyString].
Proof.
  induction 1 as [|l lines Hl Hs IH]; [done|]. cbn [text_of].
  change (endl ++ text_of lines)%string with (String (ascii_of_nat 10) (text_of lines)).
  rewrite split_app by done. by rewrite IH.
Qed.
Lemma text_app l1 l2 : text_of (l1 ++ l2) = (text_of l1 ++ text_of l2)%string.
Proof. induction l1 as [|l l1 IH]; [done|]. cbn [text_of app]. by rewrite IH, !string_app_assoc. Qed.
Lemma text_single l : text_of [l] = (l ++ endl)%string.
Proof. done. Qed.

Lemma csv_rest nano rs s file : output_fp s = Some file →
  CommandLine.output_format (out_args s) = CommandLine.OUTPUT_FORMAT_CSV →
  CommandLine.output_header (out_args s) ≠ 1 →
  foldl (output_result nano) s rs =
  Outputs (stdout s) (Some (file ++ text_of (line_of (CommandLine.output_sep (out_args s)) <$> rs))%string) (out_args s).
Proof.
  revert s file. induction rs as [|r rs IH]; intros s file Hf Hc Hh.
  - destruct s as [so fp o]. cbn in Hf. subst fp. cbn. by rewrite string_app_nil.
  - cbn [foldl]. assert (E : output_result nano s r =
      Outputs (stdout s) (Some (file ++ line_of (CommandLine.output_sep (out_args s)) r ++ endl)%string) (out_args s)).
    { unfold output_result, csv_output. rewrite Hf, Hc. by rewrite (proj2 (Z.eqb_neq _ _) Hh). }
    rewrite E, (IH _ (file ++ line_of (CommandLine.output_sep (out_args s)) r ++ endl)%string) by done.
    cbn [stdout out_args fmap list_fmap text_of]. by rewrite !string_app_assoc.
Qed.

Lemma read_rows sep rs : separates sep → mapM (read_row sep) (line_of sep <$> rs) = Some (row <$> rs).
Proof.
  intros Hs. induction rs as [|r rs IH]; [done|]. cbn [fmap list_fmap mapM].
  rewrite (read_row_fields sep r Hs : read_row sep (line_of sep r) = _). cbn [mbind option_bind]. by rewrite IH.
Qed.

(** The CSV file of a session reads back: with a separator that is no part of a
    number or a line, and a header asked for, the lines of the file are the
    header, once, and one per result, in order, whose cells are its five numbers. *)
Lemma csv_reads_back nano out o (rs : list result) :
  CommandLine.output_format o = CommandLine.OUTPUT_FORMAT_CSV → CommandLine.output_header o = 1 → rs ≠ [] →
  separates (CommandLine.output_sep o) → CommandLine.output_sep o ≠ ascii_of_nat 10 →
  ∃ o' file rows,
    foldl (output_result nano) (Outputs out (Some EmptyString) o) rs = Outputs out (Some file) o' ∧
    split endl file = joined (CommandLine.output_sep o) (csv_names nano) :: rows ++ [EmptyString] ∧
    mapM (read_row (CommandLine.output_sep o)) rows = Some (row <$> rs).
Proof.
  intros Hc Hh Hne Hs Hn. destruct rs as [|r rs]; [done|]. cbn [foldl].
  set (sep := CommandLine.output_sep o) in *.
  assert (E : output_result nano (Outputs out (Some EmptyString) o) r =
    Outputs out (Some (csv_header nano sep ++ line_of sep r ++ endl)%string)
      (CommandLine.Output (CommandLine.output_file o) sep 0 (CommandLine.output_format o))).
  { unfold output_result, csv_output. cbn [output_fp out_args]. by rewrite Hc, Hh. }
  rewrite E. erewrite csv_rest; [|done|done|done]. cbn [out_args CommandLine.output_sep stdout].
  eexists _, _, (line_of sep <$> r :: rs). split; [done|]. split; [|by apply read_rows].
  change (joined sep (csv_names nano) :: (line_of sep <$> r :: rs) ++ [EmptyString])
    with ((joined sep (csv_names nano) :: (line_of sep <$> r :: rs)) ++ [EmptyString]).
  rewrite <- split_text.
  - f_equal. unfold csv_header. cbn [fmap list_fmap text_of]. by rewrite !string_app_assoc.
  - constructor.
    + apply joined_free; [change (is_in (String (ascii_of_nat 10) EmptyString) sep = false); rewrite is_in_1; by apply Ascii.eqb_neq|].
      unfold csv_names. by destruct (nano =? 0); repeat constructor.
    + apply Forall_fmap, Forall_true. intros x. by apply fields_free.
Qed.

(** ** Threads *)

(** one thread prints the header once, before its lines *)
Lemma csv_one_thread n k : csv_file (csv_run (csv_start [n]) (replicate k 0%nat)) `prefix_of`
  T_header :: replicate n (T_line 0).
Proof.
  assert (G : ∀ k s, (∃ m : nat, csv_threads s = [(P_test, m)] ∧ shared_header s = 0 ∧ (m < n)%nat ∧
        csv_file s = T_header :: replicate (n - m) (T_line 0) ∨
      csv_threads s = [(P_line, S m)] ∧ shared_header s = 0 ∧ (m < n)%nat ∧
        csv_file s = T_header :: replicate (n - S m) (T_line 0)) →
    csv_file (csv_run s (replicate k 0%nat)) `prefix_of` T_header :: replicate n (T_line 0)).
  { clear k. induction k as [|k IH]; intros [h ts f] (m & [(Et & Eh & Hm & Ef)|(Et & Eh & Hm & Ef)]);
      cbn in Et, Eh, Ef; subst h ts f.
    - exists (replicate m (T_line 0)). cbn. f_equal. rewrite <- replicate_add. f_equal. lia.
    - exists (replicate (S m) (T_line 0)). change (T_header :: replicate n (T_line 0) =
        T_header :: replicate (n - S m) (T_line 0) ++ replicate (S m) (T_line 0)).
      f_equal. rewrite <- replicate_add. f_equal. lia.
    - cbn [csv_run foldl replicate]. apply IH. destruct m as [|m].
      + exists 0%nat. left. cbn. by split_and!.
      + exists m. right. cbn. rewrite app_nil_r. split_and!; [done|done|lia|done].
    - cbn [csv_run foldl replicate]. apply IH. exists m. left. cbn. split_and!; [done|done|done|].
      f_equal. replace (n - m)%nat with (n - S m + 1)%nat by lia. by rewrite replicate_add. }
  destruct n as [|n].
  - assert (E : ∀ k, csv_run (csv_start [0%nat]) (replicate k 0%nat) = csv_start [0%nat])
      by (clear; intros k; induction k as [|k IH]; [done|exact IH]).
    rewrite E. apply prefix_nil.
  - destruct k as [|[|[|k]]]; [apply prefix_nil..| |];
      cbn; [by eexists|].
    apply (G k (Csv 0 [(P_line, S n)] [T_header])). exists n. right. cbn. rewrite Nat.sub_diag.
    split_and!; [done|done|lia|done].
Qed.
(** two of them may print it twice, even inside each other's lines *)
Example csv_two_threads : csv_file (csv_run (csv_start [1; 1]%nat) [0; 1; 0; 0; 0; 1; 1; 1]%nat) =
  [T_header; T_line 0; T_header; T_line 1].
Proof. reflexivity. Qed.

(** ** TLS *)

(** the calls for the files given, in the order of the code *)
Definition given (f : option string) (call : string → ssl_call) : list ssl_call :=
  match f with Some (String _ _ as f) => [call f] | _ => [] end.
Definition ssl_files_calls (s : Startup.ssl_files) : list ssl_call :=
  given (Startup.ssl_ca s) S_load_ca ++ given (Startup.ssl_ca_path s) S_load_ca_path ++
  given (Startup.ssl_cert s) S_cert ++ given (Startup.ssl_key s) S_key ++ given (Startup.ssl_ciphers s) S_ciphers.
Definition ssl_calls (s : Startup.ssl_files) : list ssl_call :=
  [S_init; S_ctx_new] ++ ssl_files_calls s ++ (if Startup.ssl_verify s =? 0 then [] else [S_verify]).

Lemma ssl_file_ok f call ok l : ssl_file f call ok l =
  (if forallb ok (given f call) then Ret (l ++ given f call) else Stop CheckFailed).
Proof.
  destruct f as [[|a f]|]; cbn [ssl_file given forallb]; [by rewrite app_nil_r| |by rewrite app_nil_r].
  by destruct (ok (call (String a f))).
Qed.
(** the context is set up exactly when it is created and every file given loads,
    and then with all of them, whatever their order among the options; an empty
    name counts as not given *)
Lemma ssl_setup_calls s ok : ssl_setup s ok =
  (if ok S_ctx_new && forallb ok (ssl_files_calls s) then Ret (ssl_calls s) else Stop CheckFailed).
Proof.
  unfold ssl_setup, ssl_calls, ssl_files_calls. rewrite !forallb_app.
  destruct (ok S_ctx_new); [|done]. cbn [andb]. unfold check. obind.
  repeat (rewrite ssl_file_ok;
    match goal with |- context [forallb ok (given ?f ?c)] =>
      destruct (forallb ok (given f c)); cbn [andb]; [|by rewrite ?andb_false_r] end; obind).
  f_equal. destruct (Startup.ssl_verify s =? 0); by rewrite <- ?app_assoc, ?app_nil_r.
Qed.
(** without an address for TLS nothing is loaded, so the files are not looked at *)
Lemma node_tls_unused c ok : Forall (fun b => b.2 ≠ TLS) (Startup.bind_addrs c) → node_tls c ok = Ret [].
Proof.
  intros H. unfold node_tls.
  assert (E : existsb (fun b : option string * Z => b.2 =? TLS)
    (take (Z.to_nat (Startup.n_bind_addrs c)) (Startup.bind_addrs c)) = false); [|by rewrite E].
  apply not_true_is_false. intros (b & Hb & Eb)%existsb_exists. apply list_elem_of_In, (subseteq_take (Z.to_nat (Startup.n_bind_addrs c))) in Hb. rewrite Forall_forall in H. specialize (H b Hb). by apply Z.eqb_eq in Eb.
Qed.

(** membership in lists of calls *)
Ltac calls := repeat rewrite ?elem_of_app, ?elem_of_cons, ?list_elem_of_fmap, ?elem_of_nil in *; naive_solver.

(** ** Connecting *)

(** the socket is bound to the client's address before the only connect(), to
    the node; a socket that was not made is refused *)
Lemma try_connect_order p nd nb a b k fd ok l : try_connect p nd nb a b k = Ret (fd, ok, l) →
  fd = ret_socket k ∧ ok = ret_connect k ∧
  (∃ pre, l = pre ++ [C_bind fd a; C_connect fd b] ∧ ∀ d x, C_connect d x ∉ pre) ∧
  ret_bind k = true ∧ ((p = TCP ∨ p = TLS) → fd ≠ -1).
Proof.
  unfold try_connect. intros H. apply bind_Ret_inv in H as (l0 & E0 & H).
  apply bind_Ret_inv in H as ([] & _ & H). apply bind_Ret_inv in H as ([] & Eb & H).
  injection H as <- <- <-. split_and!; [done|done| | |].
  - eexists. split; [done|]. intros d x.
    destruct ((p =? TCP) || (p =? TLS)).
    + apply bind_Ret_inv in E0 as ([] & _ & E0). apply bind_Ret_inv in E0 as ([] & _ & [= <-]).
      destruct (negb (Address.ntohs _ =? 0)); calls.
    + injection E0 as <-. destruct (negb (Address.ntohs _ =? 0)); calls.
  - by destruct (ret_bind k).
  - intros Hp. assert (E : (p =? TCP) || (p =? TLS) = true) by (destruct Hp as [-> | ->]; reflexivity).
    rewrite E in E0. apply bind_Ret_inv in E0 as ([] & Ef & _).
    destruct (Z.eqb_spec (ret_socket k) (-1)); [discriminate Ef|done].
Qed.

(** ** main() *)

(** every thread has its buffers from before it starts until after it was
    joined; one thread runs in the main one *)
Lemma client_main_threads c k c' l i : client_main c k = Ret (c', l) →
  0 ≤ i < CommandLine.client_threads (CommandLine.numbers c) →
  ∃ l1 l2 l3, l = l1 ++ l2 ++ l3 ∧ M_alloc i ∈ l1 ∧ M_free i ∈ l3 ∧ (M_free i ∉ l1 ++ l2) ∧
    (if CommandLine.client_threads (CommandLine.numbers c) =? 1 then l2 = [M_run]
     else M_create i ∈ l2 ∧ M_join i ∈ l2) ∧
    (CommandLine.to_proto c = TLS → CommandLine.conn_nonblock (CommandLine.flags c') = 1) ∧
    CommandLine.to_proto c ≠ DPDK.
Proof.
  unfold client_main. destruct (CommandLine.flags c) as [w n t b s p i0 d].
  destruct (CommandLine.numbers c) as [np ra th ns rn rp seed] eqn:En. cbn [CommandLine.client_threads].
  intros H Hi. apply bind_Ret_inv in H as ([] & Ep & H). apply bind_Ret_inv in H as (ssl & _ & H).
  apply bind_Ret_inv in H as (op & Eop & H). apply bind_Ret_inv in H as ([] & _ & H).
  apply bind_Ret_inv in H as (run & Er & H). injection H as <- <-.
  assert (Hin : i ∈ seqZ 0 th) by (apply elem_of_seqZ; lia).
  exists ((M_ssl <$> ssl) ++ op ++ (M_alloc <$> seqZ 0 th)), run.
  eexists. split; [rewrite <- !app_assoc; do 4 f_equal|].
  assert (Hop : M_free i ∉ op).
  { destruct (CommandLine.output_file _); [apply bind_Ret_inv in Eop as ([] & _ & [= <-])|injection Eop as <-]; calls. }
  assert (Hrun : M_free i ∉ run).
  { destruct (th =? 1); [injection Er as <-|apply bind_Ret_inv in Er as ([] & _ & [= <-])]; [calls|].
    calls. }
  split_and!.
  - rewrite !elem_of_app. right. right. by apply list_elem_of_fmap_2.
  - rewrite !elem_of_app. left. by apply list_elem_of_fmap_2.
  - calls.
  - destruct (th =? 1); [by injection Er|]. apply bind_Ret_inv in Er as ([] & _ & [= <-]).
    rewrite !elem_of_app. split; [left|right]; by apply list_elem_of_fmap_2.
  - intros Et. cbn. by rewrite (proj2 (Z.eqb_eq _ _) Et).
  - destruct (Z.eqb_spec (CommandLine.to_proto c) DPDK); [discriminate Ep|done].
Qed.

(** ** The threads of a node *)

(** the storage threads start first and end last: what they still have to write
    is written; each is joined once, and its memory freed after that *)
Lemma node_threads_order ok n paths l : node_threads ok n paths = Ret l → 1 ≤ n →
  ∃ l1 l2 l3, l = l1 ++ l2 ++ l3 ∧
    (∀ i, K_create_storer i ∈ l1 ↔ ∃ k : nat, i = Z.of_nat k ∧ paths !! k = Some true) ∧
    (∀ i, K_create_storer i ∈ l1 ↔ K_join_storer i ∈ l3) ∧ (∀ i, K_create_storer i ∈ l1 ↔ K_free_storer i ∈ l3) ∧
    (∀ i, (K_create_storer i ∉ l2) ∧ (K_join_storer i ∉ l2) ∧ (K_free_storer i ∉ l2)) ∧
    (∀ i, 0 ≤ i < n → K_free_timeouts i ∈ l2 ∧ if n =? 1 then K_run ∈ l2 else K_create i ∈ l2 ∧ K_join i ∈ l2).
Proof.
  unfold node_threads. remember (with_path paths) as storers eqn:Est. intros H Hn.
  apply bind_Ret_inv in H as ([] & _ & H). apply bind_Ret_inv in H as (run & Er & H).
  apply bind_Ret_inv in H as ([] & _ & H). injection H as <-.
  assert (Hs : ∀ i, i ∈ storers ↔ ∃ k : nat, i = Z.of_nat k ∧ paths !! k = Some true).
  { intros i. subst storers. unfold with_path. rewrite list_elem_of_bind. split.
    - intros ([j b] & Hb & (k & b1 & [= -> ->] & Hk)%elem_of_lookup_imap_1). cbn in Hb.
      destruct b1; [|by apply elem_of_nil in Hb]. apply list_elem_of_singleton in Hb as ->. by exists k.
    - intros (k & -> & Hk). exists (Z.of_nat k, true). split; [by apply list_elem_of_singleton|].
      apply elem_of_lookup_imap. by exists k, true. }
  assert (Hc : ∀ i, K_create_storer i ∈ K_create_storer <$> storers ↔ i ∈ storers).
  { intros i. rewrite list_elem_of_fmap. naive_solver. }
  exists (K_create_storer <$> storers), run. eexists. split; [reflexivity|]. split_and!.
  - intros i. by rewrite Hc.
  - intros i. rewrite Hc, list_elem_of_bind. split; [intros Hi; exists i; split; [by left|done]|].
    intros (j & Hj & Hin). calls.
  - intros i. rewrite Hc, list_elem_of_bind. split; [intros Hi; exists i; split; [by right; left|done]|].
    intros (j & Hj & Hin). calls.
  - intros i. destruct (n =? 1); [injection Er as <-; clear; calls|].
    apply bind_Ret_inv in Er as ([] & _ & Er). destruct (1 <? n); [|injection Er as <-; clear; split_and!; intros H; calls].
    apply bind_Ret_inv in Er as ([] & _ & [= <-]). clear.
    rewrite !elem_of_app, !list_elem_of_bind. split_and!; (intros [(j & Hj & _)%list_elem_of_fmap|(j & Hj & _)]; [done|calls]).
  - intros i Hi. destruct (Z.eqb_spec n 1) as [->|Hn1].
    { injection Er as <-. replace i with 0 by lia. calls. }
    apply bind_Ret_inv in Er as ([] & _ & Er). rewrite (proj2 (Z.ltb_lt 1 n)) in Er by lia.
    apply bind_Ret_inv in Er as ([] & _ & [= <-]).
    assert (Hin : i ∈ seqZ 0 n) by (apply elem_of_seqZ; lia).
    rewrite !elem_of_app, !list_elem_of_fmap, !list_elem_of_bind.
    split; [right; exists i; split; [by right; left|done]|].
    split; [left; by exists i|right; exists i; split; [by left|done]].
Qed.
