(* ===== verification/Wiring.v ===== *)
(** * The threads of a node and what connects them (src/src/dw_node.c: main,
      storage_worker, conn_worker)

    main() opens the storage devices, gives every pair of a storage worker and
    a worker of connections a pipe in each direction, prepares the state of the
    workers, and closes the descriptors at the end. Each worker then fills its
    poll object; the loop of a storage worker takes what the poll object
    delivers. The answers of the system calls are arguments; the calls of pipe()
    are numbered in the order they are made. *)

From Stdlib Require Import String.
From S2P Require Import Prelude Timespec Queue PQueue Memory Message Request Connection Poll Timeout Storage Invariant Forward Node Events Worker Distrib Address Startup.

Local Open Scope Z_scope.

Module Wiring.

(** ** The descriptors main() makes *)

(** the fields [storefd] (write end) and [store_replyfd] (read end) of a worker
    of connections; those of a storage worker, the other ends, with its file *)
Record conn_fds := ConnFds { storefd : list Z; store_replyfd : list Z }.
Record stor_fds := StorFds { sw_storage_fd : Z; sw_storefd : list Z; sw_store_replyfd : list Z }.
(** the tables conn_worker_infos and storage_worker_infos, blk_size, and the
    number of calls of pipe() so far *)
Record wires := Wires { conns : list conn_fds; stors : list stor_fds; blk_size : Z; pipe_calls : nat }.

Definition no_conn_fds : conn_fds :=
  ConnFds (replicate (Z.to_nat MAX_STORAGE_DEVICES) 0) (replicate (Z.to_nat MAX_STORAGE_DEVICES) 0).
Definition no_stor_fds : stor_fds :=
  StorFds (-1) (replicate (Z.to_nat Startup.MAX_THREADS) 0) (replicate (Z.to_nat Startup.MAX_THREADS) 0).
Definition no_wires : wires :=
  Wires (replicate (Z.to_nat Startup.MAX_THREADS) no_conn_fds)
    (replicate (Z.to_nat MAX_STORAGE_DEVICES) no_stor_fds) 0 0.

(** the answers: for the [i]-th device open(), fallocate() and fstat() (the
    block size; [None] when it fails); the [k]-th pipe(), its read and its write
    end; for the [j]-th worker timerfd_create(), signalfd(), socketpair() and
    epoll_create1() *)
Record os := Os {
  os_open : nat → Z;
  os_fallocate : nat → Z;
  os_fstat : nat → option Z;
  os_pipe : nat → option (Z * Z);
  os_timerfd : nat → Z;
  os_signalfd : Z;
  os_socketpair : nat → option (Z * Z);
  os_epoll : nat → Z
}.

Definition pipe (o : os) (s : wires) : outcome (Z * Z * wires) :=
  '(r, w) ← sys_check (os_pipe o (pipe_calls s));
  Ret (r, w, Wires (conns s) (stors s) (blk_size s) (S (pipe_calls s))).

Definition set_ends (s : wires) (i j : nat) (f : conn_fds → outcome conn_fds)
    (g : stor_fds → outcome stor_fds) : outcome wires :=
  sw ← arr_get (stors s) (Z.of_nat i);
  sw ← g sw;
  ss ← arr_set (stors s) (Z.of_nat i) sw;
  cw ← arr_get (conns s) (Z.of_nat j);
  cw ← f cw;
  cs ← arr_set (conns s) (Z.of_nat j) cw;
  Ret (Wires cs ss (blk_size s) (pipe_calls s)).
(** a pipe to the storage worker [i] from the worker [j], and one back *)
Definition pipe_to_storage (o : os) (i j : nat) (s : wires) : outcome wires :=
  '(r, w, s) ← pipe o s;
  set_ends s i j
    (fun c => l ← arr_set (storefd c) (Z.of_nat i) w; Ret (ConnFds l (store_replyfd c)))
    (fun d => l ← arr_set (sw_storefd d) (Z.of_nat j) r;
              Ret (StorFds (sw_storage_fd d) l (sw_store_replyfd d))).
Definition pipe_from_storage (o : os) (i j : nat) (s : wires) : outcome wires :=
  '(r, w, s) ← pipe o s;
  set_ends s i j
    (fun c => l ← arr_set (store_replyfd c) (Z.of_nat i) r; Ret (ConnFds (storefd c) l))
    (fun d => l ← arr_set (sw_store_replyfd d) (Z.of_nat j) w;
              Ret (StorFds (sw_storage_fd d) (sw_storefd d) l)).
Fixpoint pipes_loop (o : os) (n i j : nat) (s : wires) : outcome wires :=
  match n with
  | O => Ret s
  | S n =>
      s ← pipe_to_storage o i j s;
      s ← pipe_from_storage o i j s;
      pipes_loop o n i (S j) s
  end.

(** a device without a path *)
Fixpoint unused_loop (n i j : nat) (s : wires) : outcome wires :=
  match n with
  | O => Ret s
  | S n =>
      cw ← arr_get (conns s) (Z.of_nat j);
      l ← arr_set (storefd cw) (Z.of_nat i) (-1);
      l' ← arr_set (store_replyfd cw) (Z.of_nat i) (-1);
      cs ← arr_set (conns s) (Z.of_nat j) (ConnFds l l');
      unused_loop n i (S j) (Wires cs (stors s) (blk_size s) (pipe_calls s))
  end.

(** the file of a device; what posix_memalign() returns is never negative, so
    [sys_check] of it does not exit, and what calloc() returns is not looked at;
    the block size is one variable for all the devices *)
Definition open_file (o : os) (i : nat) (path : string) (s : wires) : outcome wires :=
  _ ← Startup.read_path path;
  _ ← check (0 <=? os_open o i);
  sw ← arr_get (stors s) (Z.of_nat i);
  ss ← arr_set (stors s) (Z.of_nat i) (StorFds (os_open o i) (sw_storefd sw) (sw_store_replyfd sw));
  _ ← check (0 <=? os_fallocate o i);
  blk ← sys_check (os_fstat o i);
  Ret (Wires (conns s) ss blk (pipe_calls s)).

(** [for (i = 0; i < storage_devices; i++)] over the devices *)
Fixpoint open_loop (o : os) (threads : nat) (l : list Startup.device) (i : nat) (s : wires)
    : outcome wires :=
  match l with
  | [] => Ret s
  | d :: l =>
      s ← (if Address.is_empty (Startup.storage_path d) then unused_loop threads i 0 s
           else s ← open_file o i (Startup.storage_path d) s; pipes_loop o threads i 0 s);
      open_loop o threads l (S i) s
  end.
Definition wire (o : os) (c : Startup.node_config) : outcome wires :=
  open_loop o (Z.to_nat (Startup.num_threads c))
    (take (Z.to_nat (Startup.storage_devices c)) (Startup.devices c)) 0 no_wires.

(** ** The workers of connections *)

(** what reading the descriptors of a worker gives *)
Record worker_reads := Reads { r_ack : nat → option Z; r_conn : nat → option Z; r_stat : nat → bool }.

(** the pipes of the storage workers the [j]-th worker waits for *)
Definition reply_ends (cw : conn_fds) (n : nat) : list Z :=
  omap (fun p => if p.1 =? -1 then None else Some p.2) (take n (zip (storefd cw) (store_replyfd cw))).

(** the state main() gives the [j]-th worker, [socks] being its listening
    sockets; the arrays of the queue are uninitialised memory *)
Definition worker_init (o : os) (jn : Z → node_t) (jh : Z → Z) (term : Z) (r : worker_reads)
    (c : Startup.node_config) (s : wires) (w : world) (socks : list (Z * Z)) (j : nat)
    : outcome (node * Worker.pipes) :=
  let parent := match Startup.accept_mode c with Startup.AM_PARENT => true | _ => false end in
  p ← DwPoll.dw_poll_init (Startup.poll_mode c) (Startup.use_wait_spinning c) (os_epoll o j);
  dispatch ← (if parent then sys_check (os_socketpair o j) else Ret (-1, -1));
  cw ← arr_get (conns s) (Z.of_nat j);
  Ret (Node w (MkTimeouts (PQueue.pqueue_alloc MAX_REQS jn jh) 0 (us_to_its 0)) p 0 0 0 [] 0,
       Worker.Pipes socks (negb parent || (j =? 0)%nat) term (os_timerfd o j)
         (if (j =? 0)%nat then os_signalfd o else -1)
         (reply_ends cw (Z.to_nat (Startup.storage_devices c)))
         parent (Startup.num_threads c) dispatch.2 (r_ack r) (r_conn r) (r_stat r)).

(** the start of a thread: prctl(), aff_pin_to() and sched_setattr() *)
Definition pin_thread (named pinned core : Z) : outcome unit :=
  _ ← check (0 <=? named);
  if 0 <=? core then check (0 <=? pinned) else Ret tt.
Definition conn_thread (k : kernel) (named pinned sched core : Z) (s : Worker.pipes) (nd : node)
    : outcome node :=
  _ ← pin_thread named pinned core;
  _ ← check (0 <=? sched);
  Worker.worker_setup k s nd.

(** ** The storage workers *)

(** the poll object with the requests to epoll, the timer and what it was set
    to, and the descriptors *)
Record stor_thread := StorThread {
  st_info : storage_worker_info_t;
  st_poll : dw_poll_t;
  st_ctls : list epoll_ctl;
  st_timer : option itimerspec
}.
Definition set_stor_poll (t : stor_thread) (p : dw_poll_t) (l : list epoll_ctl) : stor_thread :=
  StorThread (st_info t) p l (st_timer t).
(** a failure of dw_poll_add() is only printed *)
Definition watch (t : stor_thread) (fd : Z) (type : event_t) (rv : Z) : outcome stor_thread :=
  '(p, _, ctl) ← DwPoll.dw_poll_add (st_poll t) fd DW_POLLIN (i2l (event_to_Z type) fd) rv;
  Ret (set_stor_poll t p (st_ctls t ++ option_list ctl)).
Fixpoint watch_all (t : stor_thread) (l : list Z) (type : event_t) (rv : Z) : outcome stor_thread :=
  match l with
  | [] => Ret t
  | fd :: l => t ← watch t fd type rv; watch_all t l type rv
  end.

(** [msec] milliseconds; the value and the interval are the same *)
Definition sync_timer (msec : Z) : itimerspec :=
  let t := TS (msec ÷ 1000) (Z.rem msec 1000 * 1000000) in ITS t t.

(** what timerfd_create(), timerfd_settime(), epoll_create1() and epoll_ctl()
    answer the thread *)
Record stor_answers := StorAnswers { a_timerfd : Z; a_settime : Z; a_epfd : Z; a_ctl : Z }.

Definition storage_thread (a : stor_answers) (named pinned core : Z) (jn : Z → node_t) (jh : Z → Z)
    (mode : DwPoll.dw_poll_type_t) (term : Z) (threads : nat) (d : Startup.device) (sw : stor_fds)
    : outcome stor_thread :=
  let msec := Startup.periodic_sync_msec d in
  let info := MkWorker msec (PQueue.pqueue_alloc MAX_REQS jn jh)
                (MkStorage (Startup.use_odirect d) (Startup.max_storage_size d) 0) in
  _ ← pin_thread named pinned core;
  p ← DwPoll.dw_poll_init mode (Startup.use_wait_spin d) (a_epfd a);
  t ← watch_all (StorThread info p [] None) (take threads (sw_storefd sw)) STORAGE (a_ctl a);
  t ← watch t term TERMINATION (a_ctl a);
  if 0 <? msec then
    _ ← check (0 <=? a_timerfd a);
    _ ← check (0 <=? a_settime a);
    watch (StorThread (st_info t) (st_poll t) (st_ctls t) (Some (sync_timer msec)))
      (a_timerfd a) TIMER (a_ctl a)
  else Ret t.

(** what reading a descriptor gives at the [n]-th event, and what lseek(),
    write() and read() on the file answer then *)
Record stor_reads := StorReads {
  read_timer : nat → bool;
  read_req : Z → nat → option storage_req_t;
  seek_ok : nat → bool;
  file_io : nat → list Z
}.
Definition storage_event (r : stor_reads) (n : nat) (aux : Z) : Storage.event :=
  let '(tag, data) := l2i aux in
  match Worker.event_of_Z tag with
  | TERMINATION => Storage.E_termination
  | TIMER => Storage.E_timer (read_timer r n)
  | STORAGE => Storage.E_storage (read_req r (s32 data) n) (seek_ok r n) (file_io r n)
  | _ => Storage.E_unknown
  end.
(** the [while] over dw_poll_next: the calls, and whether the thread goes on *)
Fixpoint storage_loop (steps : nat) (r : stor_reads) (blk : Z) (n : nat) (t : stor_thread)
    : outcome (stor_thread * list io * bool) :=
  match steps with
  | O => Stop OutOfFuel
  | S steps =>
      '(p, next) ← DwPoll.dw_poll_next (st_poll t);
      let t := set_stor_poll t p (st_ctls t) in
      match next with
      | None => Ret (t, [], true)
      | Some (_, aux) =>
          '(w, tr, go) ← Storage.handle_event blk (st_info t) (storage_event r n aux);
          let t := StorThread w (st_poll t) (st_ctls t) (st_timer t) in
          if (go : bool) then
            '(t, tr', go) ← storage_loop steps r blk (S n) t;
            Ret (t, tr ++ tr', go)
          else Ret (t, tr, false)
      end
  end.
(** one iteration of [while (running)]; [interrupted]: errno is EINTR *)
Definition storage_round (steps : nat) (r : stor_reads) (blk : Z) (n : nat) (t : stor_thread)
    (answer : DwPoll.wait_ret) (interrupted : bool) : outcome (stor_thread * list io * bool) :=
  '(p, nfds) ← DwPoll.dw_poll_wait (st_poll t) answer;
  _ ← check (negb (nfds =? -1) || interrupted);
  storage_loop steps r blk n (set_stor_poll t p (st_ctls t)).

(** ** The end of main() *)

(** the descriptors of a pair, with the ends of the socket of the worker, which
    are closed once per device *)
Definition close_pair (s : wires) (dispatch : nat → Z * Z) (i j : nat) : outcome (list Z) :=
  sw ← arr_get (stors s) (Z.of_nat i);
  cw ← arr_get (conns s) (Z.of_nat j);
  a ← arr_get (storefd cw) (Z.of_nat i);
  b ← arr_get (sw_storefd sw) (Z.of_nat j);
  c ← arr_get (store_replyfd cw) (Z.of_nat i);
  d ← arr_get (sw_store_replyfd sw) (Z.of_nat j);
  Ret [a; b; c; d; (dispatch j).1; (dispatch j).2].
Definition close_device (s : wires) (dispatch : nat → Z * Z) (threads i : nat) : outcome (list Z) :=
  sw ← arr_get (stors s) (Z.of_nat i);
  if 0 <=? sw_storage_fd sw then
    l ← mapM (close_pair s dispatch i) (seq 0 threads);
    Ret (sw_storage_fd sw :: concat l)
  else Ret [].
(** the descriptors closed, in order *)
Definition cleanup (s : wires) (dispatch : nat → Z * Z) (term : Z) (c : Startup.node_config)
    : outcome (list Z) :=
  l ← mapM (close_device s dispatch (Z.to_nat (Startup.num_threads c)))
        (seq 0 (Z.to_nat (Startup.storage_devices c)));
  Ret (term :: concat l).

End Wiring.

Import Wiring.

(** ** The pipes *)

#[export] Instance conn_fds_inhabited : Inhabited conn_fds := populate no_conn_fds.
#[export] Instance stor_fds_inhabited : Inhabited stor_fds := populate no_stor_fds.

(** an array of arrays after an assignment to one element *)
Section Views.
Context {A : Type} `{!Inhabited A} (f : A → list Z) (l : list A).
Implicit Types (i j : nat).

Lemma view_same i i' a : (i < length l)%nat → f a = f (l !!! i) → f (<[i := a]> l !!! i') = f (l !!! i').
Proof.
  intros Hi E. destruct (decide (i = i')) as [<-|H].
  - by rewrite list_lookup_total_insert_eq.
  - by rewrite list_lookup_total_insert_ne.
Qed.
Lemma view_insert i j a x i' j' : (i < length l)%nat → (j < length (f (l !!! i)))%nat →
  f a = <[j := x]> (f (l !!! i)) →
  f (<[i := a]> l !!! i') !!! j' = if decide (i' = i ∧ j' = j) then x else f (l !!! i') !!! j'.
Proof.
  intros Hi Hj E. destruct (decide (i = i')) as [<-|H].
  - rewrite list_lookup_total_insert_eq, E by done. case_decide as D.
    + destruct D as [_ ->]. by rewrite list_lookup_total_insert_eq.
    + rewrite list_lookup_total_insert_ne; [done|]. intros ->. by apply D.
  - rewrite list_lookup_total_insert_ne by done. rewrite decide_False; [done|]. by intros [-> _].
Qed.
End Views.

(** the sizes of the arrays *)
Definition conn_shape (c : conn_fds) : Prop := length (storefd c) = 16%nat ∧ length (store_replyfd c) = 16%nat.
Definition stor_shape (d : stor_fds) : Prop :=
  length (sw_storefd d) = 256%nat ∧ length (sw_store_replyfd d) = 256%nat.
Definition shape (s : wires) : Prop :=
  length (conns s) = 256%nat ∧ length (stors s) = 16%nat ∧
  (∀ j, (j < 256)%nat → conn_shape (conns s !!! j)) ∧ (∀ i, (i < 16)%nat → stor_shape (stors s !!! i)).

Lemma no_wires_shape : shape no_wires.
Proof.
  split; [done|]. split; [done|]. unfold no_wires. cbn [conns stors].
  split; intros n Hn; rewrite lookup_total_replicate_2 by (unfold Startup.MAX_THREADS, MAX_STORAGE_DEVICES; lia); done.
Qed.

Lemma insert_all {A} `{!Inhabited A} (P : A → Prop) (l : list A) n i a :
  (i < length l)%nat → (∀ j, (j < n)%nat → P (l !!! j)) → P a → ∀ j, (j < n)%nat → P (<[i := a]> l !!! j).
Proof.
  intros Hi Hl Ha j Hj. destruct (decide (i = j)) as [<-|H].
  - by rewrite list_lookup_total_insert_eq.
  - rewrite list_lookup_total_insert_ne by done. by apply Hl.
Qed.

Section Pipes.
Context (o : os).
Implicit Types (s : wires) (i j : nat).

Lemma set_ends_ok s i j f g cw sw : shape s → (i < 16)%nat → (j < 256)%nat →
  f (conns s !!! j) = Ret cw → conn_shape cw → g (stors s !!! i) = Ret sw → stor_shape sw →
  set_ends s i j f g =
    Ret (Wires (<[j := cw]> (conns s)) (<[i := sw]> (stors s)) (blk_size s) (pipe_calls s)) ∧
  shape (Wires (<[j := cw]> (conns s)) (<[i := sw]> (stors s)) (blk_size s) (pipe_calls s)).
Proof.
  intros (Hc & Hd & Hcs & Hds) Hi Hj Ef Sf Eg Sg. split.
  - unfold set_ends. rewrite (arr_get_total (stors s)), Nat2Z.id by lia. obind. rewrite Eg. obind.
    rewrite arr_set_nat by lia. obind. rewrite (arr_get_total (conns s)), Nat2Z.id by lia. obind.
    rewrite Ef. obind. by rewrite arr_set_nat by lia.
  - split; cbn [conns stors]; [by rewrite length_insert|]. split; [by rewrite length_insert|].
    split; apply insert_all; first [lia|done].
Qed.

(** the pipes of the worker [j] and the device [i] are the calls [k] and [k + 1] *)
Definition wired s i j (k : nat) : Prop :=
  os_pipe o k = Some (sw_storefd (stors s !!! i) !!! j, storefd (conns s !!! j) !!! i) ∧
  os_pipe o (S k) = Some (store_replyfd (conns s !!! j) !!! i, sw_store_replyfd (stors s !!! i) !!! j).
(** one pipe: the two arrays that get its ends *)
Lemma pipe_to_ok s i j r w : shape s → (i < 16)%nat → (j < 256)%nat →
  os_pipe o (pipe_calls s) = Some (r, w) →
  ∃ s', pipe_to_storage o i j s = Ret s' ∧ shape s' ∧ pipe_calls s' = S (pipe_calls s) ∧
    (∀ i' j', sw_storefd (stors s' !!! i') !!! j' =
       if decide (i' = i ∧ j' = j) then r else sw_storefd (stors s !!! i') !!! j') ∧
    (∀ i' j', storefd (conns s' !!! j') !!! i' =
       if decide (j' = j ∧ i' = i) then w else storefd (conns s !!! j') !!! i') ∧
    (∀ i', sw_store_replyfd (stors s' !!! i') = sw_store_replyfd (stors s !!! i')) ∧
    (∀ j', store_replyfd (conns s' !!! j') = store_replyfd (conns s !!! j')) ∧
    (∀ i', sw_storage_fd (stors s' !!! i') = sw_storage_fd (stors s !!! i')).
Proof.
  intros Hs Hi Hj E. pose proof Hs as (Hc & Hd & Hcs & Hds).
  destruct (Hcs j Hj) as [Lc Lc'], (Hds i Hi) as [Ld Ld'].
  unfold pipe_to_storage, pipe. rewrite E. cbn [sys_check]. obind.
  edestruct (set_ends_ok (Wires (conns s) (stors s) (blk_size s) (S (pipe_calls s))) i j) as [-> S'];
    [done..| | | | |]; cbn [conns stors].
  - rewrite arr_set_nat by lia. obind. reflexivity.
  - split; cbn; by rewrite ?length_insert.
  - rewrite arr_set_nat by lia. obind. reflexivity.
  - split; cbn; by rewrite ?length_insert.
  - eexists. split; [reflexivity|]. split; [exact S'|]. cbn [conns stors pipe_calls]. split; [done|].
    split; [intros; by apply view_insert; rewrite ?Ld; try lia|].
    split; [intros; by apply view_insert; rewrite ?Lc; try lia|].
    split_and!; intros x; [by apply (view_same sw_store_replyfd); [lia|]|
      by apply (view_same store_replyfd); [lia|]|].
    destruct (decide (i = x)) as [<-|H];
      [by rewrite list_lookup_total_insert_eq by lia|by rewrite list_lookup_total_insert_ne].
Qed.
Lemma pipe_from_ok s i j r w : shape s → (i < 16)%nat → (j < 256)%nat →
  os_pipe o (pipe_calls s) = Some (r, w) →
  ∃ s', pipe_from_storage o i j s = Ret s' ∧ shape s' ∧ pipe_calls s' = S (pipe_calls s) ∧
    (∀ i' j', sw_store_replyfd (stors s' !!! i') !!! j' =
       if decide (i' = i ∧ j' = j) then w else sw_store_replyfd (stors s !!! i') !!! j') ∧
    (∀ i' j', store_replyfd (conns s' !!! j') !!! i' =
       if decide (j' = j ∧ i' = i) then r else store_replyfd (conns s !!! j') !!! i') ∧
    (∀ i', sw_storefd (stors s' !!! i') = sw_storefd (stors s !!! i')) ∧
    (∀ j', storefd (conns s' !!! j') = storefd (conns s !!! j')) ∧
    (∀ i', sw_storage_fd (stors s' !!! i') = sw_storage_fd (stors s !!! i')).
Proof.
  intros Hs Hi Hj E. pose proof Hs as (Hc & Hd & Hcs & Hds).
  destruct (Hcs j Hj) as [Lc Lc'], (Hds i Hi) as [Ld Ld'].
  unfold pipe_from_storage, pipe. rewrite E. cbn [sys_check]. obind.
  edestruct (set_ends_ok (Wires (conns s) (stors s) (blk_size s) (S (pipe_calls s))) i j) as [-> S'];
    [done..| | | | |]; cbn [conns stors].
  - rewrite arr_set_nat by lia. obind. reflexivity.
  - split; cbn; by rewrite ?length_insert.
  - rewrite arr_set_nat by lia. obind. reflexivity.
  - split; cbn; by rewrite ?length_insert.
  - eexists. split; [reflexivity|]. split; [exact S'|]. cbn [conns stors pipe_calls]. split; [done|].
    split; [intros; by apply view_insert; rewrite ?Ld'; try lia|].
    split; [intros; by apply view_insert; rewrite ?Lc'; try lia|].
    split_and!; intros x; [by apply (view_same sw_storefd); [lia|]|
      by apply (view_same storefd); [lia|]|].
    destruct (decide (i = x)) as [<-|H];
      [by rewrite list_lookup_total_insert_eq by lia|by rewrite list_lookup_total_insert_ne].
Qed.

Hypothesis pipes_given : ∀ k, is_Some (os_pipe o k).

(** the first [threads] workers from [j] on are connected to the device [i] *)
Lemma pipes_loop_ok n s i j : shape s → (i < 16)%nat → (j + n ≤ 256)%nat →
  ∃ s', pipes_loop o n i j s = Ret s' ∧ shape s' ∧ pipe_calls s' = (pipe_calls s + 2 * n)%nat ∧
    (∀ j', (j ≤ j' < j + n)%nat → wired s' i j' (pipe_calls s + 2 * (j' - j))) ∧
    (∀ i' j' k, (i' ≠ i ∨ (j' < j)%nat) → wired s i' j' k → wired s' i' j' k) ∧
    (∀ i', sw_storage_fd (stors s' !!! i') = sw_storage_fd (stors s !!! i')).
Proof.
  revert s j. induction n as [|n IH]; intros s j Hs Hi Hj; cbn [pipes_loop].
  { exists s. split_and!; [done|done|lia|lia|done|done]. }
  destruct (pipes_given (pipe_calls s)) as [[r w] E].
  destruct (pipe_to_ok s i j r w Hs Hi ltac:(lia) E) as (s1 & E1 & S1 & C1 & A1 & B1 & D1 & F1 & G1).
  destruct (pipes_given (pipe_calls s1)) as [[r' w'] E'].
  destruct (pipe_from_ok s1 i j r' w' S1 Hi ltac:(lia) E') as (s2 & E2 & S2 & C2 & A2 & B2 & D2 & F2 & G2).
  rewrite E1. obind. rewrite E2. obind. destruct (IH s2 (S j) S2 Hi ltac:(lia)) as (s' & Es & Hs' & Hc & Hw & Hk & Hf).
  exists s'. split; [done|]. split; [done|]. split; [lia|]. split_and!.
  - intros j' Hj'. destruct (decide (j' = j)) as [->|Hne].
    + rewrite Nat.sub_diag, Nat.mul_0_r, Nat.add_0_r. apply Hk; [right; lia|]. unfold wired.
      rewrite D2, A1, F2, B1, A2, B2, <- C1, !decide_True by done. by rewrite E, E'.
    + replace (pipe_calls s + 2 * (j' - j))%nat with (pipe_calls s2 + 2 * (j' - S j))%nat by lia.
      apply Hw. lia.
  - intros i' j' k Hne [W1 W2]. apply Hk; [destruct Hne; [by left|right; lia]|]. unfold wired.
    rewrite D2, A1, F2, B1, A2, B2, !decide_False by lia. by rewrite D1, F1.
  - intros i'. by rewrite Hf, G2, G1.
Qed.

Hypothesis files_given : ∀ i, 0 ≤ os_open o i ∧ 0 ≤ os_fallocate o i ∧ is_Some (os_fstat o i).

(** a path that is there and has its terminator *)
Definition path_ok (p : string) : Prop :=
  Address.is_empty p = false ∧ (String.length p < Startup.MAX_STORAGE_PATH_STR)%nat.

Lemma open_file_ok s i p : shape s → (i < 16)%nat → path_ok p →
  ∃ s', open_file o i p s = Ret s' ∧ shape s' ∧ pipe_calls s' = pipe_calls s ∧
    (∀ i' j' k, wired s i' j' k → wired s' i' j' k) ∧
    (∀ i', sw_storage_fd (stors s' !!! i') = if decide (i' = i) then os_open o i else sw_storage_fd (stors s !!! i')).
Proof.
  intros (Hc & Hd & Hcs & Hds) Hi [_ Hp]. destruct (files_given i) as (Ho & Hf & [blk Eb]).
  unfold open_file, Startup.read_path. rewrite (proj2 (Nat.ltb_lt _ _) Hp). obind.
  rewrite (proj2 (Z.leb_le _ _) Ho). cbn [check]. obind.
  rewrite arr_get_total, Nat2Z.id by lia. obind. rewrite arr_set_nat by lia. obind.
  rewrite (proj2 (Z.leb_le _ _) Hf). cbn [check]. obind. rewrite Eb. cbn [sys_check]. obind.
  eexists. split; [reflexivity|]. cbn [conns stors pipe_calls]. split; [|split; [done|split]].
  - split; [done|]. cbn [stors]. split; [by rewrite length_insert|]. split; [done|].
    apply insert_all; [lia|done|]. apply (Hds i Hi).
  - intros i' j' k W. unfold wired. cbn [conns stors].
    by rewrite (view_same sw_storefd), (view_same sw_store_replyfd) by (lia || done).
  - intros i'. case_decide as D.
    + subst i'. by rewrite list_lookup_total_insert_eq by lia.
    + by rewrite list_lookup_total_insert_ne.
Qed.

Lemma open_loop_ok threads l s i : shape s → (i + length l ≤ 16)%nat → (threads ≤ 256)%nat →
  Forall (fun d => path_ok (Startup.storage_path d)) l →
  ∃ s', open_loop o threads l i s = Ret s' ∧ shape s' ∧
    (∀ i' j, (i ≤ i' < i + length l)%nat → (j < threads)%nat →
       wired s' i' j (pipe_calls s + 2 * ((i' - i) * threads + j))) ∧
    (∀ i' j k, (i' < i)%nat → wired s i' j k → wired s' i' j k) ∧
    (∀ i', (i ≤ i' < i + length l)%nat → sw_storage_fd (stors s' !!! i') = os_open o i') ∧
    (∀ i', (i' < i)%nat → sw_storage_fd (stors s' !!! i') = sw_storage_fd (stors s !!! i')).
Proof.
  revert s i. induction l as [|d l IH]; intros s i Hs Hi Ht Hl; cbn [open_loop length] in *.
  { exists s. split_and!; [done|done|lia|done|lia|done]. }
  apply Forall_cons in Hl as [Hp Hl]. rewrite (proj1 Hp).
  destruct (open_file_ok s i _ Hs ltac:(lia) Hp) as (s1 & E1 & S1 & C1 & W1 & F1).
  destruct (pipes_loop_ok threads s1 i 0 S1 ltac:(lia) ltac:(lia)) as (s2 & E2 & S2 & C2 & W2 & K2 & F2).
  rewrite E1. obind. rewrite E2. obind.
  destruct (IH s2 (S i) S2 ltac:(lia) Ht Hl) as (s' & E & S' & W & K & F & G).
  exists s'. split; [done|]. split; [done|]. split_and!.
  - intros i' j Hi' Hj. destruct (decide (i' = i)) as [->|Hne].
    + apply K; [lia|]. rewrite Nat.sub_diag. cbn [Nat.mul Nat.add]. rewrite <- C1.
      specialize (W2 j ltac:(lia)). by rewrite Nat.sub_0_r in W2.
    + specialize (W i' j ltac:(lia) Hj). rewrite C2, C1 in W.
      replace (i' - i)%nat with (S (i' - S i)) by lia. rewrite (Nat.mul_succ_l (i' - S i)).
      replace (pipe_calls s + 2 * ((i' - S i) * threads + threads + j))%nat
        with (pipe_calls s + 2 * threads + 2 * ((i' - S i) * threads + j))%nat by lia. exact W.
  - intros i' j k Hlt HW. apply K; [lia|]. apply K2; [left; lia|]. by apply W1.
  - intros i' Hi'. destruct (decide (i' = i)) as [->|Hne]; [|apply F; lia].
    rewrite G, F2, F1 by lia. by rewrite decide_True.
  - intros i' Hi'. rewrite G, F2, F1 by lia. by rewrite decide_False by lia.
Qed.
End Pipes.

(** ** The end of main() *)

Lemma mapM_Ret {A B} (f : A → outcome B) (g : A → B) l :
  (∀ x, x ∈ l → f x = Ret (g x)) → mapM f l = Ret (g <$> l).
Proof.
  induction l as [|x l IH]; intros H; [done|]. cbn [mapM fmap list_fmap].
  rewrite (H x) by set_solver. obind. rewrite IH by set_solver. done.
Qed.

Section Cleanup.
Context (o : os) (s : wires) (dispatch : nat → Z * Z) (threads : nat).
Implicit Types (i j n : nat).

(** the ends of the calls [k] to [k + n - 1] of pipe(), and of the sockets of
    the workers [j] to [j + n - 1] *)
Definition pair_list (p : option (Z * Z)) : list Z := match p with Some (r, w) => [r; w] | None => [] end.
Definition pipe_ends (k n : nat) : list Z := concat ((fun k => pair_list (os_pipe o k)) <$> seq k n).
Definition dispatch_ends (j n : nat) : list Z :=
  concat ((fun j => [(dispatch j).1; (dispatch j).2]) <$> seq j n).

Hypothesis Hshape : shape s.
Hypothesis Hthreads : (threads ≤ 256)%nat.

Definition closed_pair i j : list Z :=
  let sw := stors s !!! i in
  let cw := conns s !!! j in
  [storefd cw !!! i; sw_storefd sw !!! j; store_replyfd cw !!! i; sw_store_replyfd sw !!! j;
   (dispatch j).1; (dispatch j).2].
Lemma close_pair_ok i j : (i < 16)%nat → (j < 256)%nat → close_pair s dispatch i j = Ret (closed_pair i j).
Proof.
  intros Hi Hj. destruct Hshape as (Hc & Hd & Hcs & Hds). destruct (Hcs j Hj), (Hds i Hi).
  unfold close_pair. rewrite (arr_get_total (stors s)), (arr_get_total (conns s)), !Nat2Z.id by lia. obind.
  rewrite !arr_get_total by lia. obind. by rewrite !Nat2Z.id.
Qed.

Lemma closed_pairs i j n : (∀ j', (j ≤ j' < j + n)%nat → wired o s i j' (2 * (i * threads + j'))) →
  concat (closed_pair i <$> seq j n) ≡ₚ pipe_ends (2 * (i * threads + j)) (2 * n) ++ dispatch_ends j n.
Proof.
  revert j. induction n as [|n IH]; intros j W; [done|].
  cbn [seq fmap list_fmap concat]. rewrite IH by (intros; apply W; lia).
  destruct (W j ltac:(lia)) as [E E']. replace (2 * S n)%nat with (S (S (2 * n))) by lia.
  unfold pipe_ends. cbn [seq fmap list_fmap concat]. rewrite E, E'. cbn [pair_list].
  replace (2 * (i * threads + S j))%nat with (S (S (2 * (i * threads + j)))) by lia.
  unfold closed_pair, dispatch_ends. cbn [seq fmap list_fmap concat app]. solve_Permutation.
Qed.

Definition closed_device i : list Z := sw_storage_fd (stors s !!! i) :: concat (closed_pair i <$> seq 0 threads).
Lemma close_device_ok i : (i < 16)%nat → 0 ≤ sw_storage_fd (stors s !!! i) →
  close_device s dispatch threads i = Ret (closed_device i).
Proof.
  intros Hi Hf. pose proof Hshape as (Hc & Hd & _ & _). unfold close_device.
  rewrite arr_get_total, Nat2Z.id by lia. obind. rewrite (proj2 (Z.leb_le _ _) Hf).
  rewrite (mapM_Ret _ (closed_pair i)); [done|]. intros j Hj%elem_of_seq. apply close_pair_ok; lia.
Qed.

Lemma pipe_ends_app k n m : pipe_ends k (n + m) = pipe_ends k n ++ pipe_ends (k + n) m.
Proof. unfold pipe_ends. by rewrite seq_app, fmap_app, concat_app. Qed.

Lemma closed_devices i n :
  (∀ i', (i ≤ i' < i + n)%nat → sw_storage_fd (stors s !!! i') = os_open o i') →
  (∀ i' j, (i ≤ i' < i + n)%nat → (j < threads)%nat → wired o s i' j (2 * (i' * threads + j))) →
  concat (closed_device <$> seq i n) ≡ₚ
    (os_open o <$> seq i n) ++ pipe_ends (2 * (i * threads)) (2 * (n * threads)) ++
    concat (replicate n (dispatch_ends 0 threads)).
Proof.
  revert i. induction n as [|n IH]; intros i F W; [done|].
  cbn [seq fmap list_fmap concat replicate]. rewrite IH by (intros; (apply F || apply W); lia).
  unfold closed_device. rewrite F by lia. rewrite closed_pairs by (intros; apply W; lia).
  replace (2 * (S n * threads))%nat with (2 * threads + 2 * (n * threads))%nat by lia.
  rewrite pipe_ends_app. replace (2 * (i * threads) + 2 * threads)%nat with (2 * (S i * threads))%nat by lia.
  rewrite Nat.add_0_r. cbn [app]. solve_Permutation.
Qed.
End Cleanup.

(** ** What the workers wait for *)

(** the descriptors a poll object waits to read from, with their data, in the
    order they were added; epoll has those it was asked to add *)
Definition watched (p : dw_poll_t) (ctls : list epoll_ctl) : list (Z * Z) :=
  match u p with
  | Select s => (fun e => (s_fd e, s_aux e)) <$> rd s
  | Poll q => (fun e => (p_fd e, p_aux e)) <$> filter (fun e => has (p_events e) 1 = true) (pollfds q)
  | Epoll _ => omap (fun c => match c with
      | CTL_ADD fd ev a => if has ev 1 then Some (fd, a) else None | _ => None end) ctls
  end.
(** room for [n] more *)
Definition room (p : dw_poll_t) (n : nat) : Prop :=
  match u p with
  | Select s => Z.of_nat (length (rd s)) + Z.of_nat n ≤ MAX_POLLFD
  | Poll q => Z.of_nat (length (pollfds q)) + Z.of_nat n ≤ MAX_POLLFD
  | Epoll _ => True
  end.
(** an entry with a tag *)
Definition tagged (t : event_t) (fd : Z) : Z * Z := (fd, i2l (event_to_Z t) fd).

Lemma room_le p n m : room p n → (m ≤ n)%nat → room p m.
Proof. unfold room. destruct (u p); lia. Qed.

Lemma add_watched p fd aux ctls n : room p (S n) →
  ∃ p' ctl, DwPoll.dw_poll_add p fd DW_POLLIN aux 0 = Ret (p', 0, ctl) ∧ room p' n ∧
    watched p' (ctls ++ option_list ctl) = watched p ctls ++ [(fd, aux)].
Proof.
  destruct p as [sp [s|q|e]]; unfold room, watched, DwPoll.dw_poll_add; cbn [u]; intros Hr.
  - change (has DW_POLLIN DW_POLLOUT) with false. change (has DW_POLLIN DW_POLLIN) with true.
    cbn [andb orb]. rewrite (proj2 (Z.eqb_neq _ _)) by lia. unfold DwPoll.select_add.
    rewrite (proj2 (Z.ltb_lt _ _)) by lia. obind. eexists _, _. split; [reflexivity|]. cbn [u rd].
    rewrite length_app, fmap_app. cbn [length]. split; [lia|done].
  - rewrite (proj2 (Z.eqb_neq _ _)) by lia. eexists _, _. split; [reflexivity|]. cbn [u pollfds].
    rewrite length_app, filter_app, fmap_app. cbn [length]. split; [lia|done].
  - eexists _, _. split; [reflexivity|]. split; [done|]. cbn [u option_list].
    by rewrite omap_app.
Qed.

Lemma watched_init mode spin epfd n : 0 ≤ epfd → Z.of_nat n ≤ MAX_POLLFD →
  ∃ p, DwPoll.dw_poll_init mode spin epfd = Ret p ∧ room p n ∧ watched p [] = [].
Proof.
  intros H Hn. destruct mode; cbn [DwPoll.dw_poll_init].
  - eexists. by split.
  - eexists. by split.
  - rewrite (proj2 (Z.leb_le _ _) H). cbn [check]. obind. eexists. split; [reflexivity|]. done.
Qed.

(** *** A storage worker *)

Lemma watch_ok t fd type n : room (st_poll t) (S n) →
  ∃ t', watch t fd type 0 = Ret t' ∧ room (st_poll t') n ∧ st_info t' = st_info t ∧ st_timer t' = st_timer t ∧
    watched (st_poll t') (st_ctls t') = watched (st_poll t) (st_ctls t) ++ [tagged type fd].
Proof.
  intros Hr. unfold watch.
  destruct (add_watched (st_poll t) fd (i2l (event_to_Z type) fd) (st_ctls t) n Hr) as (p' & ctl & -> & R & E).
  obind. eexists. split; [reflexivity|]. by split_and!.
Qed.

Lemma watch_all_ok l t type n : room (st_poll t) (length l + n) →
  ∃ t', watch_all t l type 0 = Ret t' ∧ room (st_poll t') n ∧ st_info t' = st_info t ∧ st_timer t' = st_timer t ∧
    watched (st_poll t') (st_ctls t') = watched (st_poll t) (st_ctls t) ++ (tagged type <$> l).
Proof.
  revert t. induction l as [|fd l IH]; intros t Hr; cbn [watch_all].
  { exists t. split_and!; [done..|]. by rewrite app_nil_r. }
  destruct (watch_ok t fd type (length l + n) Hr) as (t1 & -> & R1 & I1 & T1 & W1). obind.
  destruct (IH t1 R1) as (t' & E & R & I & T & W). exists t'. split; [done|]. split; [done|].
  split; [by rewrite I|]. split; [by rewrite T|]. by rewrite W, W1, <- app_assoc.
Qed.

Lemma storage_thread_watches a named pinned core jn jh mode term threads d sw :
  0 ≤ named → 0 ≤ pinned → 0 ≤ a_timerfd a → 0 ≤ a_settime a → 0 ≤ a_epfd a → a_ctl a = 0 →
  (threads ≤ 256)%nat →
  let msec := Startup.periodic_sync_msec d in
  ∃ t, storage_thread a named pinned core jn jh mode term threads d sw = Ret t ∧
    st_timer t = (if 0 <? msec then Some (sync_timer msec) else None) ∧
    watched (st_poll t) (st_ctls t) =
      (tagged STORAGE <$> take threads (sw_storefd sw)) ++ [tagged TERMINATION term] ++
      (if 0 <? msec then [tagged TIMER (a_timerfd a)] else []).
Proof.
  intros Hn Hp Ht Hs He Hc Hth msec. unfold storage_thread, pin_thread. fold msec.
  rewrite (proj2 (Z.leb_le _ _) Hn). cbn [check]. obind.
  replace (if 0 <=? core then check (0 <=? pinned) else Ret tt) with (Ret tt)
    by (rewrite (proj2 (Z.leb_le _ _) Hp); by destruct (0 <=? core)).
  obind. destruct (watched_init mode (Startup.use_wait_spin d) (a_epfd a)
    (length (take threads (sw_storefd sw)) + 2) He) as (p & -> & R & W).
  { rewrite length_take. unfold MAX_POLLFD. lia. }
  obind. rewrite Hc. set (t0 := StorThread _ p [] None).
  destruct (watch_all_ok (take threads (sw_storefd sw)) t0 STORAGE 2 R) as (t1 & -> & R1 & I1 & T1 & W1).
  obind. destruct (watch_ok t1 term TERMINATION 1 R1) as (t2 & -> & R2 & I2 & T2 & W2). obind.
  cbn [t0 st_poll st_ctls st_timer] in W1, T1. rewrite W in W1.
  destruct (0 <? msec).
  - rewrite (proj2 (Z.leb_le _ _) Ht), (proj2 (Z.leb_le _ _) Hs). cbn [check]. obind.
    destruct (watch_ok (StorThread (st_info t2) (st_poll t2) (st_ctls t2) (Some (sync_timer msec)))
                (a_timerfd a) TIMER 0 R2) as (t3 & -> & _ & _ & T3 & W3).
    exists t3. split; [done|]. split; [done|]. rewrite W3. cbn [st_poll st_ctls].
    by rewrite W2, W1, <- app_assoc.
  - exists t2. split; [done|]. split; [by rewrite T2, T1|]. by rewrite W2, W1.
Qed.

(** *** A worker of connections *)

Section Conn.
Context (k : kernel) (epoll_ok : ∀ t, k_epoll k t = 0).
Implicit Types (nd : node) (fds : list Z).

Definition ctls (es : list effect) : list epoll_ctl :=
  omap (fun e => match e with EpollCtl c => Some c | _ => None end) es.
Definition watches nd : list (Z * Z) := watched (dw_poll nd) (ctls (effects nd)).
(** [nd'] watches [l] besides, with room for [n] more *)
Definition watching nd nd' (n : nat) (l : list (Z * Z)) : Prop :=
  nd_world nd' = nd_world nd ∧ room (dw_poll nd') n ∧ watches nd' = watches nd ++ l.

Lemma watching_none nd n : room (dw_poll nd) n → watching nd nd n [].
Proof. intros H. split; [done|]. split; [done|]. by rewrite app_nil_r. Qed.
Lemma watching_trans nd nd1 nd2 n m l l' : watching nd nd1 n l → watching nd1 nd2 m l' →
  watching nd nd2 m (l ++ l').
Proof. intros (E & _ & W) (E' & R & W'). split; [by rewrite E'|]. split; [done|]. by rewrite W', W, app_assoc. Qed.

Lemma poll_in_ok nd fd aux n : room (dw_poll nd) (S n) →
  ∃ nd', Worker.poll_in k nd fd aux = Ret nd' ∧ watching nd nd' n [(fd, aux)].
Proof.
  intros Hr. unfold Worker.poll_in. rewrite epoll_ok.
  destruct (add_watched (dw_poll nd) fd aux (ctls (effects nd)) n Hr) as (p & ctl & -> & R & E). obind.
  cbn [Z.eqb check]. obind. eexists. split; [reflexivity|]. unfold watching, watches.
  destruct ctl as [c|]; cbn [told emit next_turn set_poll nd_world dw_poll effects option_list] in *.
  - split; [done|]. split; [done|]. unfold ctls in *. rewrite omap_app. exact E.
  - split; [done|]. split; [done|]. by rewrite app_nil_r in E.
Qed.

(** the entry of a listening socket *)
Definition listen_entry (w : world) (x : Z * Z) : Z * Z :=
  (x.1, if Forward.is_stream x.2 then i2l (event_to_Z LISTEN) x.1
        else i2l (event_to_Z SOCKET) (default (-1) (match Connection.conn_find_sock w x.1 with
                                                     | Ret c => Some c | Stop _ => None end))).
Definition listening_ok (w : world) (x : Z * Z) : Prop :=
  0 ≤ x.1 ∧ ∃ id, Connection.conn_find_sock w x.1 = Ret id ∧ 0 ≤ id < MAX_CONNS ∧
    c_proto (Connection.conn_at w id) = x.2.

Lemma add_listening_ok nd l n : Forall (listening_ok (nd_world nd)) l → room (dw_poll nd) (length l + n) →
  ∃ nd', Worker.add_listening k nd l = Ret nd' ∧ watching nd nd' n (listen_entry (nd_world nd) <$> l).
Proof.
  revert nd. induction l as [|[fd p] l IH]; intros nd Hl Hr; cbn [Worker.add_listening].
  { exists nd. split; [done|]. by apply watching_none. }
  apply Forall_cons in Hl as [(H0 & id & Ef & Hid & Ep) Hl]. cbn [fst snd] in *.
  rewrite (proj2 (Z.ltb_ge _ _) H0), Ef. obind. rewrite Connection.get_conn_ok by done. obind. rewrite Ep.
  destruct (poll_in_ok nd fd (listen_entry (nd_world nd) (fd, p)).2 (length l + n) Hr) as (nd1 & E1 & W1).
  replace (if Forward.is_stream p then _ else _) with (listen_entry (nd_world nd) (fd, p)).2
    by (unfold listen_entry; cbn [fst snd]; by rewrite Ef).
  rewrite E1. obind. destruct W1 as (Ew & R1 & W1). rewrite <- Ew in Hl.
  destruct (IH nd1 Hl R1) as (nd' & E & W). exists nd'. split; [done|]. rewrite Ew in W.
  apply (watching_trans nd nd1 nd' (length l + n) n [listen_entry (nd_world nd) (fd, p)]); [|done].
  split; [done|]. by split.
Qed.

Lemma add_replies_ok nd l n : room (dw_poll nd) (length l + n) →
  ∃ nd', Worker.add_replies k nd l = Ret nd' ∧ watching nd nd' n (tagged STORAGE <$> l).
Proof.
  revert nd. induction l as [|fd l IH]; intros nd Hr; cbn [Worker.add_replies].
  { exists nd. split; [done|]. by apply watching_none. }
  destruct (poll_in_ok nd fd (i2l (event_to_Z STORAGE) fd) (length l + n) Hr) as (nd1 & -> & W1). obind.
  destruct (IH nd1 ltac:(apply W1)) as (nd' & E & W). exists nd'. split; [done|].
  by apply (watching_trans nd nd1 nd' (length l + n) n [tagged STORAGE fd]).
Qed.

(** what a worker waits for after its set-up *)
Definition awaited (w : world) (s : Worker.pipes) : list (Z * Z) :=
  (if Worker.listens s then listen_entry w <$> Worker.listen_socks s else []) ++
  [tagged TERMINATION (Worker.terminationfd s); tagged TIMER (Worker.timer_fd s)] ++
  (if Worker.statfd s =? -1 then [] else [tagged STATS (Worker.statfd s)]) ++
  (tagged STORAGE <$> Worker.reply_fds s) ++
  (if Worker.dispatched s then [tagged DISPATCH (Worker.dispatchfd s)] else []).

Lemma worker_setup_ok s nd : Forall (listening_ok (nd_world nd)) (Worker.listen_socks s) →
  room (dw_poll nd) (length (Worker.listen_socks s) + (length (Worker.reply_fds s) + 4)) →
  ∃ nd', Worker.worker_setup k s nd = Ret nd' ∧ nd_world nd' = nd_world nd ∧
    watches nd' = watches nd ++ awaited (nd_world nd) s.
Proof.
  intros Hl Hr. unfold Worker.worker_setup, awaited.
  assert (∃ nd1, (if Worker.listens s then Worker.add_listening k nd (Worker.listen_socks s) else Ret nd) = Ret nd1 ∧
    watching nd nd1 (length (Worker.reply_fds s) + 4)
      (if Worker.listens s then listen_entry (nd_world nd) <$> Worker.listen_socks s else [])) as (nd1 & -> & W1).
  { destruct (Worker.listens s); [by apply add_listening_ok|]. exists nd. split; [done|].
    apply watching_none. eapply room_le; [exact Hr|lia]. }
  obind. destruct (poll_in_ok nd1 (Worker.terminationfd s) (i2l (event_to_Z TERMINATION) (Worker.terminationfd s))
    (length (Worker.reply_fds s) + 3)) as (nd2 & -> & W2); [eapply room_le; [apply W1|lia]|]. obind.
  destruct (poll_in_ok nd2 (Worker.timer_fd s) (i2l (event_to_Z TIMER) (Worker.timer_fd s))
    (length (Worker.reply_fds s) + 2)) as (nd3 & -> & W3); [eapply room_le; [apply W2|lia]|]. obind.
  assert (∃ nd4, (if Worker.statfd s =? -1 then Ret nd3 else
      Worker.poll_in k nd3 (Worker.statfd s) (i2l (event_to_Z STATS) (Worker.statfd s))) = Ret nd4 ∧
    watching nd3 nd4 (length (Worker.reply_fds s) + 1)
      (if Worker.statfd s =? -1 then [] else [tagged STATS (Worker.statfd s)])) as (nd4 & -> & W4).
  { destruct (_ =? _).
    - exists nd3. split; [done|]. apply watching_none. eapply room_le; [apply W3|lia].
    - apply poll_in_ok. eapply room_le; [apply W3|lia]. }
  obind. destruct (add_replies_ok nd4 (Worker.reply_fds s) 1) as (nd5 & -> & W5); [apply W4|]. obind.
  assert (∃ nd6, (if Worker.dispatched s then
      Worker.poll_in k nd5 (Worker.dispatchfd s) (i2l (event_to_Z DISPATCH) (Worker.dispatchfd s)) else Ret nd5) = Ret nd6 ∧
    watching nd5 nd6 0 (if Worker.dispatched s then [tagged DISPATCH (Worker.dispatchfd s)] else [])) as (nd6 & -> & W6).
  { destruct (Worker.dispatched s); [by apply poll_in_ok, W5|]. exists nd5. split; [done|].
    apply watching_none. eapply room_le; [apply W5|lia]. }
  exists nd6. split; [done|].
  pose proof (watching_trans _ _ _ _ _ _ _ (watching_trans _ _ _ _ _ _ _ (watching_trans _ _ _ _ _ _ _
    (watching_trans _ _ _ _ _ _ _ (watching_trans _ _ _ _ _ _ _ W1 W2) W3) W4) W5) W6) as (E & _ & W).
  split; [done|]. rewrite W, <- !app_assoc. done.
Qed.
End Conn.

(** ** The node after its start *)

Lemma take_total {A} `{!Inhabited A} (l : list A) n : (n ≤ length l)%nat →
  take n l = (fun i => l !!! i) <$> seq 0 n.
Proof.
  revert l. induction n as [|n IH]; intros l Hl; [done|]. destruct l as [|x l]; cbn in Hl; [lia|].
  cbn [take seq fmap list_fmap]. f_equal. rewrite IH by lia. rewrite <- fmap_S_seq.
  by rewrite <- list_fmap_compose.
Qed.

Lemma reply_ends_all cw n : (n ≤ length (storefd cw))%nat → (n ≤ length (store_replyfd cw))%nat →
  (∀ i, (i < n)%nat → storefd cw !!! i ≠ -1) → reply_ends cw n = take n (store_replyfd cw).
Proof.
  destruct cw as [a b]. unfold reply_ends. cbn [storefd store_replyfd]. revert a b.
  induction n as [|n IH]; intros [|x a] [|y b] Ha Hb H; cbn in Ha, Hb; try lia; [done..|].
  cbn [zip zip_with take omap list_omap fst snd]. pose proof (H 0%nat ltac:(lia)) as H0. cbn in H0.
  rewrite (proj2 (Z.eqb_neq _ _) H0). f_equal. apply IH; [lia..|]. intros i Hi. apply (H (S i)). lia.
Qed.

(** the answers: pipes, files and sockets are given; so are a timer and an epoll
    instance for each thread, and threads start *)
Record os_ok (o : os) : Prop := OsOk {
  given_pipe k : ∃ r w, os_pipe o k = Some (r, w) ∧ 0 ≤ r ∧ 0 ≤ w;
  given_file i : 0 ≤ os_open o i ∧ 0 ≤ os_fallocate o i ∧ is_Some (os_fstat o i);
  given_socket j : is_Some (os_socketpair o j);
  given_epoll j : 0 ≤ os_epoll o j
}.
Definition answers_ok (a : stor_answers) : Prop :=
  0 ≤ a_timerfd a ∧ 0 ≤ a_settime a ∧ 0 ≤ a_epfd a ∧ a_ctl a = 0.

(** what the options give: paths for the devices, and the threads *)
Record start_ok (c : Startup.node_config) : Prop := StartOk {
  start_threads : 0 < Startup.num_threads c ≤ Startup.MAX_THREADS;
  start_devices : 0 ≤ Startup.storage_devices c ≤ MAX_STORAGE_DEVICES;
  start_length : Z.of_nat (length (Startup.devices c)) = MAX_STORAGE_DEVICES;
  start_paths i d : Startup.devices c !! i = Some d → (i < Z.to_nat (Startup.storage_devices c))%nat →
    path_ok (Startup.storage_path d)
}.

(** the read and the write end of the [k]-th pipe *)
Definition ends (o : os) (k : nat) : Z * Z := default (-1, -1) (os_pipe o k).

Section Start.
Context (o : os) (c : Startup.node_config).
Hypothesis Hos : os_ok o.
Hypothesis Hc : start_ok c.
Local Abbreviation n := (Z.to_nat (Startup.storage_devices c)).
Local Abbreviation t := (Z.to_nat (Startup.num_threads c)).

Definition connected (s : wires) : Prop :=
  shape s ∧ (∀ i, (i < n)%nat → sw_storage_fd (stors s !!! i) = os_open o i) ∧
  ∀ i j, (i < n)%nat → (j < t)%nat → wired o s i j (2 * (i * t + j)).

Lemma wire_ok : ∃ s, wire o c = Ret s ∧ connected s.
Proof.
  destruct Hc as [H1 H2 H3 H4]. unfold Startup.MAX_THREADS, MAX_STORAGE_DEVICES in *.
  destruct (open_loop_ok o) with (threads := t) (l := take n (Startup.devices c)) (s := no_wires) (i := 0%nat)
    as (s & E & S & W & _ & F & _).
  - intros k. destruct (given_pipe o Hos k) as (r & w & -> & _). by eexists.
  - apply (given_file o Hos).
  - apply no_wires_shape.
  - rewrite length_take. lia.
  - lia.
  - apply Forall_lookup. intros i d [Hd Hi]%lookup_take_Some. by apply (H4 i d).
  - rewrite length_take in W, F. exists s. split; [exact E|]. split; [exact S|]. split.
    + intros i Hi. apply F. lia.
    + intros i j Hi Hj. specialize (W i j ltac:(lia) Hj). rewrite Nat.sub_0_r in W. exact W.
Qed.

(** the arrays of the workers, as ends of pipes *)
Lemma connected_ends s i j : connected s → (i < n)%nat → (j < t)%nat →
  let k := (2 * (i * t + j))%nat in
  sw_storefd (stors s !!! i) !!! j = (ends o k).1 ∧ storefd (conns s !!! j) !!! i = (ends o k).2 ∧
  store_replyfd (conns s !!! j) !!! i = (ends o (S k)).1 ∧
  sw_store_replyfd (stors s !!! i) !!! j = (ends o (S k)).2.
Proof. intros (_ & _ & W) Hi Hj. destruct (W i j Hi Hj) as [E E']. unfold ends. by rewrite E, E'. Qed.

Lemma storage_reads s i : connected s → (i < n)%nat →
  take t (sw_storefd (stors s !!! i)) = (fun j => (ends o (2 * (i * t + j))).1) <$> seq 0 t.
Proof.
  intros Cs Hi. destruct Hc as [H1 H2 _ _]. unfold Startup.MAX_THREADS, MAX_STORAGE_DEVICES in *.
  pose proof Cs as ((_ & _ & _ & Hds) & _). destruct (Hds i ltac:(lia)) as [L _].
  rewrite take_total by lia. apply list_fmap_ext. intros m j [-> Hm]%lookup_seq.
  apply (connected_ends s i m Cs Hi). lia.
Qed.

Lemma worker_waits s j : connected s → (j < t)%nat →
  reply_ends (conns s !!! j) n = (fun i => (ends o (S (2 * (i * t + j)))).1) <$> seq 0 n.
Proof.
  intros Cs Hj. destruct Hc as [H1 H2 _ _]. unfold Startup.MAX_THREADS, MAX_STORAGE_DEVICES in *.
  pose proof Cs as ((_ & _ & Hcs & _) & _). destruct (Hcs j ltac:(lia)) as [L L'].
  rewrite reply_ends_all; [rewrite take_total by lia|lia|lia|].
  - apply list_fmap_ext. intros m i [-> Hm]%lookup_seq. apply (connected_ends s m j Cs); lia.
  - intros i Hi. destruct (connected_ends s i j Cs Hi Hj) as (_ & -> & _).
    destruct (given_pipe o Hos (2 * (i * t + j))) as (r & w & E & Hr & Hw). unfold ends. rewrite E. cbn. lia.
Qed.

Lemma worker_init_ok s jn jh term r w socks j : connected s → (j < t)%nat →
  ∃ nd p, worker_init o jn jh term r c s w socks j = Ret (nd, p) ∧ nd_world nd = w ∧
    (room (dw_poll nd) 1000 ∧ watches nd = [] ∧ (world_wf w → node_wf nd)) ∧
    Worker.listen_socks p = socks ∧
    Worker.reply_fds p = (fun i => (ends o (S (2 * (i * t + j)))).1) <$> seq 0 n.
Proof.
  intros Cs Hj. pose proof Cs as ((Lc & _) & _). unfold worker_init.
  destruct Hc as [H1 _ _ _]. unfold Startup.MAX_THREADS in *.
  destruct (watched_init (Startup.poll_mode c) (Startup.use_wait_spinning c) (os_epoll o j) 1000) as (p & Ep & R & W);
    [apply (given_epoll o Hos)|unfold MAX_POLLFD; lia|].
  rewrite Ep. obind. destruct (given_socket o Hos j) as [d Ed]. rewrite Ed.
  destruct (Startup.accept_mode c); cbn [sys_check]; obind;
    rewrite arr_get_total, Nat2Z.id by lia; obind; eexists _, _; (split; [reflexivity|]);
    cbn [nd_world dw_poll Worker.listen_socks Worker.reply_fds]; rewrite (worker_waits s j Cs Hj);
    (split; [done|]; split; [|done]; split; [done|]; split; [exact W|]; intros Ww; split; [done| |by constructor]);
    cbn [dw_poll]; destruct (Startup.poll_mode c); cbn [DwPoll.dw_poll_init] in Ep;
    first [injection Ep as <-; by constructor |
           apply bind_Ret_inv in Ep as (? & _ & Ep); injection Ep as <-; by constructor].
Qed.

Lemma storage_thread_ok s i d a named pinned core jn jh term : connected s → (i < n)%nat →
  0 ≤ named → 0 ≤ pinned → answers_ok a →
  ∃ th, storage_thread a named pinned core jn jh (Startup.poll_mode c) term t d (stors s !!! i) = Ret th ∧
    st_timer th = (if 0 <? Startup.periodic_sync_msec d
                   then Some (sync_timer (Startup.periodic_sync_msec d)) else None) ∧
    watched (st_poll th) (st_ctls th) =
      ((fun j => tagged STORAGE (ends o (2 * (i * t + j))).1) <$> seq 0 t) ++ [tagged TERMINATION term] ++
      (if 0 <? Startup.periodic_sync_msec d then [tagged TIMER (a_timerfd a)] else []).
Proof.
  intros Cs Hi Hn Hp (A1 & A2 & A3 & A4). destruct Hc as [H1 _ _ _]. unfold Startup.MAX_THREADS in *.
  destruct (storage_thread_watches a named pinned core jn jh (Startup.poll_mode c) term t d (stors s !!! i))
    as (th & E & T & W); [done..|lia|].
  exists th. split; [exact E|]. split; [exact T|]. rewrite W, (storage_reads s i Cs Hi).
  by rewrite <- list_fmap_compose.
Qed.

Lemma conn_thread_ok s j k named pinned sched core jn jh term r w socks : connected s → (j < t)%nat →
  (∀ x, k_epoll k x = 0) → 0 ≤ named → 0 ≤ pinned → 0 ≤ sched →
  (length socks ≤ Z.to_nat Startup.MAX_LISTEN_SOCKETS)%nat → Forall (listening_ok w) socks → world_wf w →
  ∃ nd p start, worker_init o jn jh term r c s w socks j = Ret (nd, p) ∧
    conn_thread k named pinned sched core p nd = Ret start ∧ node_wf start ∧
    watches start = awaited w p ∧ Worker.listen_socks p = socks ∧
    Worker.reply_fds p = (fun i => (ends o (S (2 * (i * t + j)))).1) <$> seq 0 n.
Proof.
  intros Cs Hj Hk Hn Hp Hs Hl Hf Ww.
  destruct (worker_init_ok s jn jh term r w socks j Cs Hj) as (nd & p & E & Ew & (R & Wa & Wn) & Ls & Er).
  destruct (worker_setup_ok k Hk p nd) as (start & Es & _ & W).
  { by rewrite Ew, Ls. }
  { eapply room_le; [exact R|]. rewrite Ls, Er, length_fmap, length_seq. destruct Hc as [_ H2 _ _].
    unfold MAX_STORAGE_DEVICES, Startup.MAX_LISTEN_SOCKETS in *. lia. }
  exists nd, p, start. split; [exact E|]. split_and!; [| |by rewrite W, Wa, Ew|exact Ls|exact Er].
  - unfold conn_thread, pin_thread. rewrite (proj2 (Z.leb_le _ _) Hn), (proj2 (Z.leb_le _ _) Hp),
      (proj2 (Z.leb_le _ _) Hs). cbn [check]. by destruct (0 <=? core); obind.
  - apply (ensures_inv _ _ _ (worker_setup_wf k p nd (Wn Ww)) Es).
Qed.

Lemma cleanup_ok s dispatch term : connected s →
  ∃ l, cleanup s dispatch term c = Ret l ∧
    l ≡ₚ term :: (os_open o <$> seq 0 n) ++ pipe_ends o 0 (2 * (n * t)) ++
      concat (replicate n (dispatch_ends dispatch 0 t)).
Proof.
  intros (S & F & W). destruct Hc as [H1 H2 _ _]. unfold Startup.MAX_THREADS, MAX_STORAGE_DEVICES in *.
  unfold cleanup. rewrite (mapM_Ret _ (closed_device s dispatch t)).
  - obind. eexists. split; [reflexivity|]. constructor.
    rewrite (closed_devices o s dispatch t ltac:(lia) 0 n); [done|..].
    + intros i Hi. apply F. lia.
    + intros i j Hi Hj. apply W; lia.
  - intros i Hi%elem_of_seq. apply close_device_ok; [done|lia|lia|]. rewrite F by lia.
    apply (given_file o Hos).
Qed.
End Start.

(** the pipe of a pair is its own *)
Lemma pipe_number_inj t i j i' j' : (j < t)%nat → (j' < t)%nat →
  (i * t + j = i' * t + j')%nat → i = i' ∧ j = j'.
Proof.
  intros Hj Hj' E. destruct (Nat.div_mod_unique t i i' j j' Hj Hj') as [-> ->]; [lia|done].
Qed.

(** [C13] The threads of a node are wired up: from the options on, with the
    descriptors the kernel gives, main() connects every worker of connections
    and every storage worker with two pipes of their own; the poll object of a
    storage worker waits for exactly the requests of all the workers, the
    termination and, with a periodic sync, its timer; that of a worker for the
    sockets it listens on, the termination, its timer, the statistics, exactly
    the replies of all the devices and its dispatch socket, and the worker starts
    in a state where the invariant of [worker_rounds_typed] holds; and the end of
    main() closes every file and every end of a pipe exactly once, but the
    sockets of the workers once per device. *)
Theorem node_wired (o : os) (c : Startup.node_config) :
  os_ok o → start_ok c →
  let n := Z.to_nat (Startup.storage_devices c) in
  let t := Z.to_nat (Startup.num_threads c) in
  ∃ s, wire o c = Ret s ∧
    (∀ i j, (i < n)%nat → (j < t)%nat →
       let k := (2 * (i * t + j))%nat in
       (∀ i' j', (j' < t)%nat → k = (2 * (i' * t + j'))%nat → i = i' ∧ j = j') ∧
       storefd (conns s !!! j) !!! i = (ends o k).2 ∧
       sw_store_replyfd (stors s !!! i) !!! j = (ends o (S k)).2) ∧
    (∀ i d a named pinned core jn jh term, (i < n)%nat → 0 ≤ named → 0 ≤ pinned → answers_ok a →
       ∃ th, storage_thread a named pinned core jn jh (Startup.poll_mode c) term t d (stors s !!! i) = Ret th ∧
         st_timer th = (if 0 <? Startup.periodic_sync_msec d
                        then Some (sync_timer (Startup.periodic_sync_msec d)) else None) ∧
         watched (st_poll th) (st_ctls th) =
           ((fun j => tagged STORAGE (ends o (2 * (i * t + j))).1) <$> seq 0 t) ++ [tagged TERMINATION term] ++
           (if 0 <? Startup.periodic_sync_msec d then [tagged TIMER (a_timerfd a)] else [])) ∧
    (∀ j k named pinned sched core jn jh term r w socks, (j < t)%nat →
       (∀ x, k_epoll k x = 0) → 0 ≤ named → 0 ≤ pinned → 0 ≤ sched →
       (length socks ≤ Z.to_nat Startup.MAX_LISTEN_SOCKETS)%nat → Forall (listening_ok w) socks → world_wf w →
       ∃ nd p start, worker_init o jn jh term r c s w socks j = Ret (nd, p) ∧
         conn_thread k named pinned sched core p nd = Ret start ∧ node_wf start ∧
         watches start = awaited w p ∧ Worker.listen_socks p = socks ∧
         Worker.reply_fds p = (fun i => (ends o (S (2 * (i * t + j)))).1) <$> seq 0 n) ∧
    ∀ dispatch term, ∃ l, cleanup s dispatch term c = Ret l ∧
      l ≡ₚ term :: (os_open o <$> seq 0 n) ++ pipe_ends o 0 (2 * (n * t)) ++
        concat (replicate n (dispatch_ends dispatch 0 t)).
Proof.
  intros Hos Hc n t. destruct (wire_ok o c Hos Hc) as (s & E & Cs). exists s. split; [exact E|]. split_and!.
  - intros i j Hi Hj k. destruct (connected_ends o c s i j Cs Hi Hj) as (_ & E1 & _ & E2).
    split; [|by split]. intros i' j' Hj' Ek. apply (pipe_number_inj t); [done|done|lia].
  - intros. by apply storage_thread_ok.
  - intros. by apply conn_thread_ok.
  - intros. by apply cleanup_ok.
Qed.

(** two workers and two devices, the second synced every 1.5 seconds *)
Definition some_os : os :=
  Os (fun i => 20 + Z.of_nat i) (fun _ => 0) (fun _ => Some 4096)
    (fun k => Some (100 + 2 * Z.of_nat k, 101 + 2 * Z.of_nat k)) (fun j => 30 + Z.of_nat j) 40
    (fun j => Some (50 + 2 * Z.of_nat j, 51 + 2 * Z.of_nat j)) (fun j => 60 + Z.of_nat j).
Definition two_devices : list Startup.device :=
  [Startup.MkDevice "/tmp/a" 4096 0 (-1) 0 1; Startup.MkDevice "/tmp/b" 4096 0 1500 0 1].
Definition some_node : Startup.node_config :=
  Startup.with_cpu (Startup.with_devices Startup.init_config (two_devices ++ replicate 14 Startup.no_device) 2)
    (Startup.loops_per_usec Startup.init_config) None 2 (Startup.sched_attrs Startup.init_config).
Definition some_reads : worker_reads := Reads (fun _ => None) (fun _ => None) (fun _ => false).

Lemma some_os_ok : os_ok some_os.
Proof.
  split; cbn.
  - intros k. eexists _, _. split; [done|lia].
  - intros i. split_and!; [lia|lia|done].
  - done.
  - lia.
Qed.
Lemma some_node_ok : start_ok some_node.
Proof.
  split; [by vm_compute|by vm_compute|by vm_compute|]. intros i d Hd Hi.
  destruct i as [|[|i]]; [injection Hd as <-; split; [done|vm_compute; lia]..|].
  change (S (S i) < 2)%nat in Hi. lia.
Qed.

Lemma node_wired_witness : ∃ s, wire some_os some_node = Ret s ∧
  storefd (conns s !!! 1%nat) !!! 1%nat = 113 ∧ sw_store_replyfd (stors s !!! 1%nat) !!! 1%nat = 115 ∧
  (∃ th, storage_thread (StorAnswers 70 0 71 0) 0 0 (-1) (fun _ => Queue.Node 0 0 (d_value 0)) (fun _ => 0)
           DwPoll.DW_EPOLL 9 2 (Startup.MkDevice "/tmp/b" 4096 0 1500 0 1) (stors s !!! 1%nat) = Ret th ∧
     st_timer th = Some (ITS (TS 1 500000000) (TS 1 500000000)) ∧
     (watched (st_poll th) (st_ctls th)).*1 = [108; 112; 9; 70]) ∧
  (∃ nd p start, worker_init some_os (fun _ => Queue.Node 0 0 (d_value 0)) (fun _ => 0) 9 some_reads some_node s
       (nd_world initial_node) [(5, TCP)] 1 = Ret (nd, p) ∧
     conn_thread (Events.client_kernel EAGAIN) 0 0 0 (-1) p nd = Ret start ∧
     node_wf start ∧ Worker.reply_fds p = [106; 114]) ∧
  ∃ l, cleanup s (fun j => (50 + 2 * Z.of_nat j, 51 + 2 * Z.of_nat j)) 9 some_node = Ret l ∧ length l = 27%nat.
Proof.
  destruct (node_wired some_os some_node some_os_ok some_node_ok) as (s & E & H1 & H2 & H3 & H4).
  change (Z.to_nat (Startup.storage_devices some_node)) with 2%nat in *.
  change (Z.to_nat (Startup.num_threads some_node)) with 2%nat in *.
  exists s. split; [exact E|]. destruct (H1 1%nat 1%nat ltac:(lia) ltac:(lia)) as (_ & E1 & E2).
  split; [exact E1|]. split; [exact E2|]. split; [|split].
  - destruct (H2 1%nat (Startup.MkDevice "/tmp/b" 4096 0 1500 0 1) (StorAnswers 70 0 71 0) 0 0 (-1)
      (fun _ => Queue.Node 0 0 (d_value 0)) (fun _ => 0) 9) as (th & Et & Tt & Wt); [lia..|by repeat split|].
    exists th. split; [exact Et|]. split; [rewrite Tt; reflexivity|]. rewrite Wt. reflexivity.
  - destruct (H3 1%nat (Events.client_kernel EAGAIN) 0 0 0 (-1) (fun _ => Queue.Node 0 0 (d_value 0)) (fun _ => 0)
      9 some_reads (nd_world initial_node) [(5, TCP)]) as (nd & p & start & Ei & Es & Wf & _ & _ & Er).
    + lia.
    + reflexivity.
    + lia.
    + lia.
    + lia.
    + vm_compute. lia.
    + constructor; [|constructor]. split; [cbn; lia|]. exists 0. split; [vm_compute; reflexivity|].
      split; [unfold MAX_CONNS; lia|vm_compute; reflexivity].
    + apply initial_node_wf.
    + exists nd, p, start. split; [exact Ei|]. split; [exact Es|]. split; [exact Wf|]. rewrite Er. reflexivity.
  - destruct (H4 (fun j => (50 + 2 * Z.of_nat j, 51 + 2 * Z.of_nat j)) 9) as (l & El & P).
    exists l. split; [exact El|]. apply Permutation_length in P. rewrite P. reflexivity.
Defined.
