(* ===== verification/Proxy.v ===== *)
(** * The delaying proxy (src/src/dw_proxy.c)

    A process that accepts TCP connections and relays each to one destination,
    with a thread per direction. The relay of one direction is a loop over the
    answers of read and write; the threads of the process and the descriptors
    they share are a state machine whose steps are the calls that allocate and
    close descriptors, in any interleaving. *)

From Stdlib Require Import String Ascii.
From S2P Require Import Prelude Text Message Request Address.

Local Open Scope Z_scope.

Module Proxy.

Definition MAX_FLOWS : Z := 16.

(** ** The options *)

Record options := MkOptions { bind_addr : sockaddr_in; dest_addr : sockaddr_in;
                              delay_us : Z; frag_size : Z }.

Section Options.
Context (gethostbyname : string → option Z).

(** the loop over argv; printing the usage ends the process as well *)
Fixpoint parse_args (o : options) (argv : list string) : outcome options :=
  match argv with
  | [] => Ret o
  | opt :: argv =>
      if String.eqb opt "-h" || String.eqb opt "--help" then Stop CheckFailed
      else if String.eqb opt "-b" || String.eqb opt "--bind" then
        match argv with
        | [] => Stop CheckFailed
        | v :: argv =>
            a ← Address.addr_parse gethostbyname v;
            parse_args (MkOptions a (dest_addr o) (delay_us o) (frag_size o)) argv
        end
      else if String.eqb opt "--to" then
        match argv with
        | [] => Stop CheckFailed
        | v :: argv =>
            a ← Address.addr_parse gethostbyname v;
            parse_args (MkOptions (bind_addr o) a (delay_us o) (frag_size o)) argv
        end
      else if String.eqb opt "-d" || String.eqb opt "--delay" then
        match argv with
        | [] => Stop CheckFailed
        | v :: argv =>
            d ← long_ (Address.atol v * 1000);
            parse_args (MkOptions (bind_addr o) (dest_addr o) (u64 d) (frag_size o)) argv
        end
      else if String.eqb opt "-f" || String.eqb opt "--frag" then
        match argv with
        | [] => Stop CheckFailed
        | v :: argv => parse_args (MkOptions (bind_addr o) (dest_addr o) (delay_us o) (u64 (Address.atol v))) argv
        end
      else Stop CheckFailed
  end.
Definition main_options (argv : list string) : outcome options :=
  a ← Address.addr_parse gethostbyname (Address.DEFAULT_ADDR ++ ":" ++ Address.DEFAULT_PORT);
  o ← parse_args (MkOptions a a 0 BUF_SIZE) argv;
  _ ← check (negb (s_addr (bind_addr o) =? s_addr (dest_addr o))
             || negb (sin_port (bind_addr o) =? sin_port (dest_addr o)));
  Ret o.
End Options.

(** ** The relay of one direction *)

(** an answer of read: some bytes, the end of the stream, an error *)
Inductive read_answer := Data (b : Z) (bs : list Z) | Eof | ReadError.

(** writing what was read: the answers of write, and what was written so far *)
Fixpoint write_loop (bs : list Z) (ws : list Z) (out : list Z) : outcome (list Z * list Z) :=
  match ws with
  | [] => Stop OutOfFuel
  | n :: ws =>
      _ ← check (0 <=? n);
      let out := out ++ take (Z.to_nat n) bs in
      let bs := drop (Z.to_nat n) bs in
      if (0 <? Z.of_nat (length bs)) then write_loop bs ws out else Ret (out, ws)
  end.
(** what was written when the loop of [receiver] or of [sender] ends *)
Fixpoint relay (reads : list read_answer) (ws : list Z) (out : list Z) : outcome (list Z) :=
  match reads with
  | [] => Stop OutOfFuel
  | (Eof | ReadError) :: _ => Ret out
  | Data b bs :: reads => '(out, ws) ← write_loop (b :: bs) ws out; relay reads ws out
  end.

(** ** The flows and their descriptors *)

Inductive sender_pc := SConnect | SRelay | SClosing | SDone.
Inductive receiver_pc := RNone | RRelay | RClosing | RDone.
Record flow_t := MkFlow { fd_client : Z; fd_server : Z; spc : sender_pc; rpc : receiver_pc }.

(** the flows in use, and the open descriptors with the flow that opened them *)
Record proxy := MkProxy { flows : list flow_t; opened : gmap Z nat }.

Definition set_flow (s : proxy) (i : nat) (f : flow_t) (o : gmap Z nat) : proxy :=
  MkProxy (<[i := f]> (flows s)) o.

(** accept gave [fd] *)
Definition accept_flow (s : proxy) (fd : Z) : outcome proxy :=
  _ ← check (Z.of_nat (length (flows s)) <? MAX_FLOWS);
  Ret (MkProxy (flows s ++ [MkFlow fd 0 SConnect RNone]) (<[fd := length (flows s)]> (opened s))).
(** socket gave [fd]; whether connect succeeded *)
Definition do_connect (s : proxy) (i : nat) (f : flow_t) (fd : Z) (ok : bool) : proxy :=
  set_flow s i (if ok then MkFlow (fd_client f) fd SRelay RRelay
                else MkFlow (fd_client f) fd SDone RNone) (<[fd := i]> (opened s)).
(** close gives the descriptor back, whoever has it *)
Definition sender_close_server (s : proxy) (i : nat) (f : flow_t) : proxy :=
  set_flow s i (MkFlow (fd_client f) (fd_server f) SClosing (rpc f)) (delete (fd_server f) (opened s)).
Definition sender_close_client (s : proxy) (i : nat) (f : flow_t) : proxy :=
  set_flow s i (MkFlow (fd_client f) (fd_server f) SDone (rpc f)) (delete (fd_client f) (opened s)).
Definition receiver_close_server (s : proxy) (i : nat) (f : flow_t) : proxy :=
  set_flow s i (MkFlow (fd_client f) (fd_server f) (spc f) RClosing) (delete (fd_server f) (opened s)).
Definition receiver_close_client (s : proxy) (i : nat) (f : flow_t) : proxy :=
  set_flow s i (MkFlow (fd_client f) (fd_server f) (spc f) RDone) (delete (fd_client f) (opened s)).

(** the kernel hands out descriptors that are not open *)
Inductive step (s : proxy) : proxy → Prop :=
  | step_accept fd s' : opened s !! fd = None → accept_flow s fd = Ret s' → step s s'
  | step_connect i f fd ok : flows s !! i = Some f → spc f = SConnect → opened s !! fd = None →
      step s (do_connect s i f fd ok)
  | step_sender_ends i f : flows s !! i = Some f → spc f = SRelay → step s (sender_close_server s i f)
  | step_sender_done i f : flows s !! i = Some f → spc f = SClosing → step s (sender_close_client s i f)
  | step_receiver_ends i f : flows s !! i = Some f → rpc f = RRelay → step s (receiver_close_server s i f)
  | step_receiver_done i f : flows s !! i = Some f → rpc f = RClosing → step s (receiver_close_client s i f).

Definition start : proxy := MkProxy [] ∅.
Inductive reachable : proxy → Prop :=
  | reachable_start : reachable start
  | reachable_step s s' : reachable s → step s s' → reachable s'.

(** ** The relay is transparent *)

(** the bytes read before the stream ends *)
Fixpoint stream (reads : list read_answer) : list Z :=
  match reads with Data b bs :: reads => (b :: bs) ++ stream reads | _ => [] end.
Definition ends (reads : list read_answer) : Prop := Eof ∈ reads ∨ ReadError ∈ reads.

Lemma write_loop_all bs ws out : bs ≠ [] → Forall (λ n, 0 < n) ws → (length bs ≤ length ws)%nat →
  ∃ ws', write_loop bs ws out = Ret (out ++ bs, ws') ∧ Forall (λ n, 0 < n) ws' ∧
    (length ws ≤ length ws' + length bs)%nat.
Proof.
  intros Hb Hw Hl. revert bs out Hb Hl. induction Hw as [|n ws Hn Hw IH]; intros bs out Hb Hl.
  { destruct bs; [done|cbn in Hl; lia]. }
  cbn [write_loop]. rewrite (proj2 (Z.leb_le 0 n)) by lia. cbn [check]. obind.
  pose proof (take_drop (Z.to_nat n) bs) as E.
  assert (0 < length bs)%nat by (destruct bs; [done|cbn; lia]).
  pose proof (length_drop bs (Z.to_nat n)) as Hd. cbn [length] in Hl.
  destruct (Z.ltb_spec 0 (Z.of_nat (length (drop (Z.to_nat n) bs)))) as [Hlt|Hge].
  - destruct (IH (drop (Z.to_nat n) bs) (out ++ take (Z.to_nat n) bs)) as (ws' & -> & Hp & Hle);
      [by intros E0; rewrite E0 in Hlt|lia|].
    exists ws'. rewrite <- app_assoc, E. split; [done|]. split; [done|]. cbn [length]. lia.
  - exists ws. assert (drop (Z.to_nat n) bs = []) as E0 by (apply nil_length_inv; lia).
    rewrite E0, app_nil_r in E. rewrite E. split; [done|]. split; [done|]. cbn [length]. lia.
Qed.

(** [C22] The proxy relays each direction unchanged: however the network cuts
    what is read and however little each write takes, as long as it takes a
    byte, the loop ends with the stream and has written exactly the bytes read
    before the end or the error, in order. A write that keeps taking nothing
    keeps the thread in its loop. *)
Theorem relay_transparent (reads : list read_answer) (ws : list Z) :
  ends reads → Forall (λ n, 0 < n) ws → (length (stream reads) ≤ length ws)%nat →
  relay reads ws [] = Ret (stream reads) ∧
  ∀ b bs reads' k, relay (Data b bs :: reads') (replicate k 0) [] = Stop OutOfFuel.
Proof.
  intros He Hw Hl. split.
  - assert (Hgo : ∀ out, relay reads ws out = Ret (out ++ stream reads)); [|by rewrite Hgo].
    revert ws He Hw Hl. induction reads as [|[b bs| |] reads IH]; intros ws He Hw Hl out.
    + by destruct He as [He|He]; apply elem_of_nil in He.
    + cbn [relay stream] in *. rewrite length_app in Hl.
      destruct (write_loop_all (b :: bs) ws out) as (ws' & -> & Hp & Hle); [done|done|lia|]. obind.
      rewrite IH; [by rewrite <- app_assoc| |done|lia].
      destruct He as [He|He]; apply elem_of_cons in He as [He|He]; [done|by left|done|by right].
    + cbn. by rewrite app_nil_r.
    + cbn. by rewrite app_nil_r.
  - intros b bs reads' k. cbn [relay]. generalize (@nil Z). intros out.
    assert (E : ∀ out, write_loop (b :: bs) (replicate k 0) out = Stop OutOfFuel); [|by rewrite E].
    clear out. induction k as [|k IH]; intros out; [done|]. cbn. apply IH.
Qed.

(** ** Who owns a descriptor *)

(** a thread has begun to close the descriptors of its flow *)
Definition sender_closes (f : flow_t) : bool := match spc f with SClosing | SDone => true | _ => false end.
Definition receiver_closes (f : flow_t) : bool := match rpc f with RClosing | RDone => true | _ => false end.
(** both have: the same two numbers are closed twice *)
Definition closed_twice (f : flow_t) : Prop := sender_closes f = true ∧ receiver_closes f = true.
(** both threads relay *)
Definition relaying (f : flow_t) : Prop := spc f = SRelay ∧ rpc f = RRelay.

(** what a flow owns, by how far its threads are *)
Definition owns (o : gmap Z nat) (i : nat) (f : flow_t) : Prop :=
  match spc f, rpc f with
  | SConnect, RNone => o !! fd_client f = Some i
  | SRelay, RRelay =>
      o !! fd_client f = Some i ∧ o !! fd_server f = Some i ∧ fd_client f ≠ fd_server f
  | SClosing, RRelay | SRelay, RClosing => o !! fd_client f = Some i
  | SDone, RNone | SDone, RRelay | SRelay, RDone => True
  | _, _ => closed_twice f
  end.
Definition owned (s : proxy) : Prop :=
  (∃ i f, flows s !! i = Some f ∧ closed_twice f) ∨ (∀ i f, flows s !! i = Some f → owns (opened s) i f).

(** changing the descriptors of another flow keeps what a flow owns *)
Lemma owns_delete o i j f fd : owns o i f → o !! fd = Some j → i ≠ j → owns (delete fd o) i f.
Proof.
  intros Ho Hf Hij. assert (H : ∀ x, o !! x = Some i → delete fd o !! x = Some i).
  { intros x Hx. rewrite lookup_delete_ne; [done|]. intros ->. congruence. }
  unfold owns in *. destruct (spc f), (rpc f); naive_solver.
Qed.
Lemma owns_insert o i j f fd : owns o i f → o !! fd = None → owns (<[fd := j]> o) i f.
Proof.
  intros Ho Hf. assert (H : ∀ x, o !! x = Some i → <[fd := j]> o !! x = Some i).
  { intros x Hx. rewrite lookup_insert_ne; [done|]. intros ->. congruence. }
  unfold owns in *. destruct (spc f), (rpc f); naive_solver.
Qed.

(** a flow moves on: its own part, and the others keep theirs *)
Lemma owned_set s i f f' o : flows s !! i = Some f → owned s →
  (closed_twice f → closed_twice f') →
  ((∀ i f, flows s !! i = Some f → owns (opened s) i f) →
     closed_twice f' ∨ (owns o i f' ∧ ∀ j g, j ≠ i → flows s !! j = Some g → owns o j g)) →
  owned (set_flow s i f' o).
Proof.
  intros Hi Ho Hc Hs. assert (Hlt : (i < length (flows s))%nat) by (by eapply lookup_lt_Some).
  unfold owned, set_flow. cbn [flows opened]. destruct Ho as [(j & g & Hj & Hg)|Ho].
  - left. destruct (decide (j = i)) as [->|Hne].
    + exists i, f'. rewrite list_lookup_insert_eq by done. split; [done|]. apply Hc.
      rewrite Hi in Hj. by injection Hj as ->.
    + exists j, g. by rewrite list_lookup_insert_ne.
  - destruct (Hs Ho) as [Hf'|[Hf' Hr]].
    + left. exists i, f'. by rewrite list_lookup_insert_eq.
    + right. intros j g. destruct (decide (j = i)) as [->|Hne].
      * rewrite list_lookup_insert_eq by done. by intros [= <-].
      * rewrite list_lookup_insert_ne by done. by apply Hr.
Qed.

(** a flow closes a descriptor: its own, or it is the second thread to do so *)
Lemma owned_close s i f f' fd : flows s !! i = Some f → owned s →
  (closed_twice f → closed_twice f') →
  (owns (opened s) i f → closed_twice f' ∨ (opened s !! fd = Some i ∧ owns (delete fd (opened s)) i f')) →
  owned (set_flow s i f' (delete fd (opened s))).
Proof.
  intros Hi Ho Hc Hs. apply (owned_set s i f); [done..|]. intros Hall.
  destruct (Hs (Hall i f Hi)) as [?|[Hfd Hf']]; [by left|right]. split; [done|].
  intros j g Hj Hg. eapply owns_delete; [by apply Hall|done|done].
Qed.

Ltac pcs := unfold owns, closed_twice, sender_closes, receiver_closes in *.

Lemma owned_step s s' : owned s → step s s' → owned s'.
Proof.
  intros Ho Hs. destruct Hs as [fd s' Hn Ha|i f fd ok Hi Hp Hn|i f Hi Hp|i f Hi Hp|i f Hi Hp|i f Hi Hp].
  - unfold accept_flow in Ha. destruct (check _); [|done]. injection Ha as <-.
    unfold owned. cbn [flows opened]. destruct Ho as [(j & g & Hj & Hg)|Ho].
    + left. exists j, g. split; [|done]. by apply lookup_app_l_Some.
    + right. intros j g [Hj|[Hj Hg]]%lookup_app_Some; [by apply owns_insert; auto|].
      destruct (j - length (flows s))%nat eqn:E; [|done]. injection Hg as <-. cbn.
      replace j with (length (flows s)) by lia. by rewrite lookup_insert_eq.
  - apply (owned_set s i f); [done|done|pcs; rewrite Hp; naive_solver|].
    intros Hall. right. split; [|intros j g _ Hj; by apply owns_insert; auto].
    specialize (Hall i f Hi). destruct ok; pcs; cbn; [|done]. rewrite Hp in Hall.
    destruct (rpc f); try naive_solver.
    assert (fd ≠ fd_client f) by (intros ->; congruence).
    rewrite lookup_insert_ne, lookup_insert_eq by done. by split_and!.
  - apply (owned_close s i f); [done..| |]; pcs; cbn; rewrite Hp.
    + naive_solver.
    + destruct (rpc f); try naive_solver. intros (Hc & Hs & Hne). right. by rewrite lookup_delete_ne.
  - apply (owned_close s i f); [done..| |]; pcs; cbn; rewrite Hp; [by auto|].
    destruct (rpc f); naive_solver.
  - apply (owned_close s i f); [done..| |]; pcs; cbn; rewrite Hp.
    + naive_solver.
    + destruct (spc f); try naive_solver. intros (Hc & Hs & Hne). right. by rewrite lookup_delete_ne.
  - apply (owned_close s i f); [done..| |]; pcs; cbn; rewrite Hp; [by auto|].
    destruct (spc f); naive_solver.
Qed.

Lemma reachable_owned s : reachable s → owned s.
Proof.
  induction 1 as [|s s' _ IH Hs]; [right; by intros i f Hf|]. by eapply owned_step.
Qed.

(** a run of the second connection over the descriptors of the first *)
Definition stolen : proxy :=
  MkProxy [MkFlow 4 5 SDone RDone; MkFlow 4 5 SRelay RRelay] ∅.
(** the state reached in [H0] makes a step *)
Tactic Notation "take" open_constr(st) :=
  match goal with H0 : reachable _ |- _ =>
    eapply reachable_step in H0; [|eapply st; reflexivity] end.
Lemma stolen_reachable : reachable stolen.
Proof.
  assert (H0 : reachable (MkProxy [MkFlow 4 0 SConnect RNone] {[4 := 0%nat]})).
  { eapply reachable_step; [apply reachable_start|]. by eapply (step_accept start 4). }
  take (step_connect _ 0 _ 5 true). take (step_sender_ends _ 0). take (step_sender_done _ 0).
  assert (H1 : reachable (MkProxy [MkFlow 4 5 SDone RRelay; MkFlow 4 0 SConnect RNone] {[4 := 1%nat]})).
  { eapply reachable_step; [exact H0|]. by eapply (step_accept _ 4). }
  clear H0. rename H1 into H0.
  take (step_connect _ 1 _ 5 true). take (step_receiver_ends _ 0). take (step_receiver_done _ 0).
  exact H0.
Qed.

(** [C23] Each connection has its own descriptors, but only until a connection
    ends: in every reachable state either some connection was closed by both of
    its threads, or every connection that relays owns two distinct open
    descriptors. The sender and the receiver of a connection do both close the
    same two numbers, and a state is reachable where a second connection, whose
    threads both relay, has none of its descriptors open: the receiver of the
    first one closed them after accept and socket had given the numbers out
    again. *)
Theorem flow_descriptors (s : proxy) : reachable s →
  ((∃ i f, flows s !! i = Some f ∧ closed_twice f) ∨
   (∀ i f, flows s !! i = Some f → relaying f →
      opened s !! fd_client f = Some i ∧ opened s !! fd_server f = Some i ∧ fd_client f ≠ fd_server f)) ∧
  ∃ s' f, reachable s' ∧ flows s' !! 1%nat = Some f ∧ relaying f ∧
    opened s' !! fd_client f = None ∧ opened s' !! fd_server f = None.
Proof.
  intros Hs. split.
  - destruct (reachable_owned s Hs) as [Ht|Ho]; [by left|right]. intros i f Hi [Hp Hr].
    specialize (Ho i f Hi). unfold owns in Ho. by rewrite Hp, Hr in Ho.
  - exists stolen, (MkFlow 4 5 SRelay RRelay). split; [apply stolen_reachable|done].
Qed.

(** ** Examples *)

Lemma relay_transparent_witness :
  relay [Data 1 [2; 3]; Data 4 []; Eof] [2; 1; 1; 7] [] = Ret [1; 2; 3; 4].
Proof.
  apply (relay_transparent [Data 1 [2; 3]; Data 4 []; Eof] [2; 1; 1; 7]).
  - left. right. right. left.
  - repeat constructor.
  - cbn. lia.
Defined.

Lemma flow_descriptors_witness :
  reachable start ∧
  ∃ s' f, reachable s' ∧ flows s' !! 1%nat = Some f ∧ relaying f ∧
    opened s' !! fd_client f = None ∧ opened s' !! fd_server f = None.
Proof. split; [apply reachable_start|]. exact (proj2 (flow_descriptors start reachable_start)). Defined.

Example proxy_options :
  main_options (fun h => if String.eqb h "127.0.0.1" then Some 16777343 else None)
    ["--to"; ":7892"; "-d"; "5"; "--frag"; "100"]%string =
  Ret (MkOptions (SockAddr (Address.htons 7891) 16777343) (SockAddr (Address.htons 7892) 16777343) 5000 100).
Proof. reflexivity. Qed.
End Proxy.
